(** * Twitch developer hub: token lifecycle, secret codec and webhook sync

    A shallow embedding of the server side of the repository:
    - [server/src/utils/encryption.ts]        (module [Encryption]),
    - [server/src/services/twitchApiService.ts] (module [TwitchApiService]),
    - [server/src/controllers/tokenController.ts] (module [TokenController]),
    - [server/src/controllers/twitchConfigController.ts]
      (module [TwitchConfigController]),
    - [server/src/controllers/webhookController.ts] (module [WebhookController]),
    - [server/src/utils/jwt.ts], [server/src/middleware/validators.ts],
      [server/src/middleware/authMiddleware.ts] and
      [server/src/controllers/authController.ts] (modules [Jwt],
      [Validators], [AuthMiddleware] and [AuthController]),
    followed by the properties proved about them.  A handler is a function
    of the outside world as seen during the request, the request and the
    store, and returns the response and the store it leaves. *)

From Stdlib Require Import ZArith Ascii String.
From Stdlib.Strings Require Import Byte.
From stdpp Require Import base strings list gmap stringmap.

Local Open Scope string_scope.
Local Open Scope list_scope.
Set Warnings "-register-all,-clear-no-such-hyp".

(** ** JavaScript values and exceptions

    A JavaScript string is written as a [string], each character standing
    for one UTF-16 code unit below 256: the handlers are read on the
    requests, answers of the provider and stored rows whose strings are of
    this kind.  The codec is read on every string as well, in
    [EncryptionUtf8]. *)

(** A computation that either returns or throws [new Error(message)]. *)
Inductive Result (A : Type) : Type :=
| Ok (value : A)
| Throw (message : string).
Arguments Ok {A} value.
Arguments Throw {A} message.

Global Instance Result_ret : MRet Result := λ A, Ok.
Global Instance Result_bind : MBind Result := λ A B k r,
  match r with
  | Ok a => k a
  | Throw m => Throw m
  end.

(** Truthiness of a possibly missing JavaScript string: [undefined], [null]
    and the empty string are falsy. *)
Definition truthy (o : option string) : bool :=
  match o with
  | Some s => negb (String.eqb s "")
  | None => false
  end.

(** [a || b] on possibly missing strings. *)
Definition js_or (a b : option string) : option string :=
  if truthy a then a else b.

(** [a || d] with a string default. *)
Definition js_or_default (a : option string) (d : string) : string :=
  match a with
  | Some s => if String.eqb s "" then d else s
  | None => d
  end.

(** [String.prototype.split] with a one-character separator. *)
Fixpoint split (sep : ascii) (s : string) : list string :=
  match s with
  | EmptyString => [EmptyString]
  | String c rest =>
      if Ascii.eqb c sep then EmptyString :: split sep rest
      else match split sep rest with
           | h :: t => String c h :: t
           | [] => [String c EmptyString]
           end
  end.

(** [Array.prototype.join] with a one-character separator. *)
Fixpoint join (sep : ascii) (l : list string) : string :=
  match l with
  | [] => EmptyString
  | [x] => x
  | x :: rest => x +:+ String sep (join sep rest)
  end.

(** [Array.prototype.join] with any separator. *)
Fixpoint join_with (sep : string) (l : list string) : string :=
  match l with
  | [] => EmptyString
  | [x] => x
  | x :: rest => x +:+ sep +:+ join_with sep rest
  end.

(** ** Hexadecimal encoding of buffers *)

Definition hex_digit (n : N) : ascii :=
  match n with
  | 0%N => "0" | 1%N => "1" | 2%N => "2" | 3%N => "3"
  | 4%N => "4" | 5%N => "5" | 6%N => "6" | 7%N => "7"
  | 8%N => "8" | 9%N => "9" | 10%N => "a" | 11%N => "b"
  | 12%N => "c" | 13%N => "d" | 14%N => "e" | _ => "f"
  end%char.

(** Value of a hexadecimal digit; both letter cases are accepted, as by
    [Buffer.from(s, 'hex')]. *)
Definition unhex (c : ascii) : option N :=
  let n := N_of_ascii c in
  if ((48 <=? n) && (n <=? 57))%N then Some (n - 48)%N
  else if ((97 <=? n) && (n <=? 102))%N then Some (n - 87)%N
  else if ((65 <=? n) && (n <=? 70))%N then Some (n - 55)%N
  else None.

Definition byte_of_N (n : N) : byte :=
  match Byte.of_N n with
  | Some b => b
  | None => Byte.x00
  end.

(** [buf.toString('hex')]. *)
Fixpoint to_hex (buf : list byte) : string :=
  match buf with
  | [] => EmptyString
  | b :: rest =>
      let n := Byte.to_N b in
      String (hex_digit (n / 16)) (String (hex_digit (n mod 16)) (to_hex rest))
  end.

(** [Buffer.from(s, 'hex')]: decoding stops at the first pair that is not
    two hexadecimal digits, and a trailing single character is dropped. *)
Fixpoint from_hex (s : string) : list byte :=
  match s with
  | String c1 (String c2 rest) =>
      match unhex c1, unhex c2 with
      | Some hi, Some lo => byte_of_N (hi * 16 + lo) :: from_hex rest
      | _, _ => []
      end
  | _ => []
  end.

(** ** The Node.js [crypto] primitives used by the codec

    [pbkdf2Sync] and the AES-256-GCM cipher objects belong to the platform,
    not to the repository; they are taken as an interface.  Text and hex
    encodings are kept outside of it: [cipherUpdate] is
    [cipher.update(text, 'utf8')] before its output is rendered in hex, and
    [decipherUpdate] is [decipher.update(buf, undefined, 'utf8')] on the
    already decoded bytes. *)
Record NodeCrypto : Type := {
  pbkdf2Sync : string → list byte → N → nat → string → list byte;
  Cipher : Type;
  createCipheriv : string → list byte → list byte → Result Cipher;
  cipherUpdate : Cipher → string → list byte * Cipher;
  cipherFinal : Cipher → Result (list byte * Cipher);
  getAuthTag : Cipher → list byte;
  Decipher : Type;
  createDecipheriv : string → list byte → list byte → Result Decipher;
  setAuthTag : Decipher → list byte → Result Decipher;
  decipherUpdate : Decipher → list byte → Result (string * Decipher);
  decipherFinal : Decipher → Result string;
}.

(** [process.env]. *)
Record Env : Type := {
  ENCRYPTION_KEY : option string;
  TWITCH_REDIRECT_URI : option string;
}.

(** The entropy behind [crypto.randomBytes]: an unbounded pool of bytes and
    the position of the next unread one. *)
Record Rng : Type := {
  pool : nat → byte;
  cursor : nat;
}.

Definition randomBytes (n : nat) (g : Rng) : list byte * Rng :=
  (map (pool g) (seq (cursor g) n), {| pool := pool g; cursor := cursor g + n |}).

Module Encryption.

Definition ALGORITHM : string := "aes-256-gcm".
Definition IV_LENGTH : nat := 16.
Definition SALT_LENGTH : nat := 64.
Definition KEY_LENGTH : nat := 32.

Definition getKey (nc : NodeCrypto) (env : Env) (salt : list byte)
  : Result (list byte) :=
  match ENCRYPTION_KEY env with
  | Some encryptionKey =>
      if String.eqb encryptionKey "" then
        Throw "ENCRYPTION_KEY is not defined in environment variables"
      else Ok (pbkdf2Sync nc encryptionKey salt 100000 KEY_LENGTH "sha512")
  | None => Throw "ENCRYPTION_KEY is not defined in environment variables"
  end.

(** The body of [encrypt] once the salt and the nonce have been drawn. *)
Definition encrypt_with (nc : NodeCrypto) (env : Env)
    (salt iv : list byte) (text : string) : Result string :=
  key ← getKey nc env salt;
  cipher ← createCipheriv nc ALGORITHM key iv;
  let '(out1, cipher) := cipherUpdate nc cipher text in
  '(out2, cipher) ← cipherFinal nc cipher;
  let encrypted := to_hex out1 +:+ to_hex out2 in
  let tag := getAuthTag nc cipher in
  Ok (to_hex salt +:+ ":" +:+ to_hex iv +:+ ":" +:+ to_hex tag +:+ ":"
      +:+ encrypted).

(** [encrypt]: the salt is drawn, the key derived, then the nonce drawn;
    when the key is missing the salt has been drawn already. *)
Definition encrypt (nc : NodeCrypto) (env : Env) (g : Rng) (text : string)
  : Result string * Rng :=
  let '(salt, g1) := randomBytes SALT_LENGTH g in
  match getKey nc env salt with
  | Throw m => (Throw m, g1)
  | Ok _ =>
      let '(iv, g2) := randomBytes IV_LENGTH g1 in
      (encrypt_with nc env salt iv text, g2)
  end.

(** What [update(data, 'hex', ...)] does with its text before the cipher
    sees any byte: a text of odd length is refused with a [TypeError]. *)
Definition hex_input (data : string) : Result (list byte) :=
  if Nat.even (String.length data) then Ok (from_hex data)
  else Throw ("The argument 'encoding' is invalid for data of length "
              +:+ pretty (String.length data) +:+ ". Received 'hex'").

Definition decrypt (nc : NodeCrypto) (env : Env) (encryptedData : string)
  : Result string :=
  match split ":" encryptedData with
  | [p0; p1; p2; p3] =>
      let salt := from_hex p0 in
      let iv := from_hex p1 in
      let tag := from_hex p2 in
      let encrypted := p3 in
      key ← getKey nc env salt;
      decipher ← createDecipheriv nc ALGORITHM key iv;
      decipher ← setAuthTag nc decipher tag;
      data ← hex_input encrypted;
      '(decrypted, decipher) ← decipherUpdate nc decipher data;
      final ← decipherFinal nc decipher;
      Ok (decrypted +:+ final)
  | _ => Throw "Invalid encrypted data format"
  end.

(** What the two halves of the codec ask of the cipher objects: the
    sequence of calls made by [encrypt] and the one made by [decrypt]. *)
Definition seal (nc : NodeCrypto) (key iv : list byte) (text : string)
  : Result (list byte * list byte) :=
  cipher ← createCipheriv nc ALGORITHM key iv;
  let '(out1, cipher) := cipherUpdate nc cipher text in
  '(out2, cipher) ← cipherFinal nc cipher;
  Ok (out1 ++ out2, getAuthTag nc cipher).

Definition open (nc : NodeCrypto) (key iv tag data : list byte)
  : Result string :=
  decipher ← createDecipheriv nc ALGORITHM key iv;
  decipher ← setAuthTag nc decipher tag;
  '(decrypted, decipher) ← decipherUpdate nc decipher data;
  final ← decipherFinal nc decipher;
  Ok (decrypted +:+ final).

(** The platform's contract for AES-256-GCM with a 32-byte key and a
    16-byte nonce: sealing succeeds and opening the sealed bytes with the
    produced tag gives the text back; and PBKDF2 returns a key of the
    requested length.  The texts are those of type [string], code units
    below 256, among which there is no surrogate; what becomes of the
    other texts is the subject of [EncryptionUtf8] below. *)
Definition gcm_correct (nc : NodeCrypto) : Prop :=
  ∀ key iv text, length key = KEY_LENGTH → length iv = IV_LENGTH →
    ∃ data tag, seal nc key iv text = Ok (data, tag)
                ∧ open nc key iv tag data = Ok text.

Definition pbkdf2_length (nc : NodeCrypto) : Prop :=
  ∀ password salt iterations keylen digest,
    length (pbkdf2Sync nc password salt iterations keylen digest) = keylen.

(** The salt and the nonce that a call of [encrypt] reads from the pool. *)
Definition drawn (g : Rng) : list byte * list byte :=
  let '(salt, g1) := randomBytes SALT_LENGTH g in
  (salt, (randomBytes IV_LENGTH g1).1).

End Encryption.

(** ** The codec on every JavaScript string

    A JavaScript string is a sequence of UTF-16 code units.  In
    [Encryption] a text is a [string], whose characters stand for code
    units below 256, and what the platform does to turn the text into
    bytes is part of [cipherUpdate].  Here the same two functions are read
    on a text of any code units: [cipher.update(text, 'utf8', 'hex')]
    writes the text in UTF-8 before the cipher sees it, and that is where a
    surrogate without its partner is replaced by U+FFFD. *)
Definition Text : Type := list N.

Module Utf8.

(** Every element is a code unit: below 2^16. *)
Definition units (text : Text) : Prop := Forall (λ u, (u < 65536)%N) text.

Definition isLead (u : N) : bool := ((55296 <=? u) && (u <=? 56319))%N.
Definition isTrail (u : N) : bool := ((56320 <=? u) && (u <=? 57343))%N.

Definition REPLACEMENT : N := 65533.

(** The code point written by a surrogate pair. *)
Definition pair (lead trail : N) : N :=
  (65536 + (lead - 55296) * 1024 + (trail - 56320))%N.

(** The UTF-8 bytes of one code point. *)
Definition encode (cp : N) : list byte :=
  if (cp <? 128)%N then [byte_of_N cp]
  else if (cp <? 2048)%N then
    [byte_of_N (192 + cp / 64); byte_of_N (128 + cp mod 64)]
  else if (cp <? 65536)%N then
    [byte_of_N (224 + cp / 4096); byte_of_N (128 + (cp / 64) mod 64);
     byte_of_N (128 + cp mod 64)]
  else
    [byte_of_N (240 + cp / 262144); byte_of_N (128 + (cp / 4096) mod 64);
     byte_of_N (128 + (cp / 64) mod 64); byte_of_N (128 + cp mod 64)].

(** The bytes that [Buffer.from(text, 'utf8')] and
    [cipher.update(text, 'utf8')] take from a text: a lead surrogate
    followed by a trail surrogate is one code point, any other surrogate
    is written as U+FFFD. *)
Fixpoint write (text : Text) : list byte :=
  match text with
  | [] => []
  | u :: rest =>
      if isLead u then
        match rest with
        | v :: rest' =>
            if isTrail v then encode (pair u v) ++ write rest'
            else encode REPLACEMENT ++ write rest
        | [] => encode REPLACEMENT
        end
      else if isTrail u then encode REPLACEMENT ++ write rest
      else encode u ++ write rest
  end.

(** The text with each unpaired surrogate replaced by U+FFFD: what
    [text.toWellFormed()] returns. *)
Fixpoint toWellFormed (text : Text) : Text :=
  match text with
  | [] => []
  | u :: rest =>
      if isLead u then
        match rest with
        | v :: rest' =>
            if isTrail v then u :: v :: toWellFormed rest'
            else REPLACEMENT :: toWellFormed rest
        | [] => [REPLACEMENT]
        end
      else if isTrail u then REPLACEMENT :: toWellFormed rest
      else u :: toWellFormed rest
  end.

(** [text.isWellFormed()]. *)
Fixpoint isWellFormed (text : Text) : bool :=
  match text with
  | [] => true
  | u :: rest =>
      if isLead u then
        match rest with
        | v :: rest' => isTrail v && isWellFormed rest'
        | [] => false
        end
      else negb (isTrail u) && isWellFormed rest
  end.

End Utf8.

(** The primitives of [NodeCrypto] with the cipher reading bytes; the
    decipher still gives its output as text, [update(..., 'utf8')] and
    [final('utf8')] decoding it. *)
Record NodeCryptoUtf8 : Type := {
  u_pbkdf2Sync : string → list byte → N → nat → string → list byte;
  u_Cipher : Type;
  u_createCipheriv : string → list byte → list byte → Result u_Cipher;
  u_cipherUpdate : u_Cipher → list byte → list byte * u_Cipher;
  u_cipherFinal : u_Cipher → Result (list byte * u_Cipher);
  u_getAuthTag : u_Cipher → list byte;
  u_Decipher : Type;
  u_createDecipheriv : string → list byte → list byte → Result u_Decipher;
  u_setAuthTag : u_Decipher → list byte → Result u_Decipher;
  u_decipherUpdate : u_Decipher → list byte → Result (Text * u_Decipher);
  u_decipherFinal : u_Decipher → Result Text;
}.

Module EncryptionUtf8.

Import Encryption.

Definition getKeyUtf8 (nc : NodeCryptoUtf8) (env : Env) (salt : list byte)
  : Result (list byte) :=
  match ENCRYPTION_KEY env with
  | Some encryptionKey =>
      if String.eqb encryptionKey "" then
        Throw "ENCRYPTION_KEY is not defined in environment variables"
      else Ok (u_pbkdf2Sync nc encryptionKey salt 100000 KEY_LENGTH "sha512")
  | None => Throw "ENCRYPTION_KEY is not defined in environment variables"
  end.

(** [encrypt] on a text of any code units. *)
Definition encryptText (nc : NodeCryptoUtf8) (env : Env) (g : Rng)
    (text : Text) : Result string * Rng :=
  let '(salt, g1) := randomBytes SALT_LENGTH g in
  match getKeyUtf8 nc env salt with
  | Throw m => (Throw m, g1)
  | Ok key =>
      let '(iv, g2) := randomBytes IV_LENGTH g1 in
      (cipher ← u_createCipheriv nc ALGORITHM key iv;
       let '(out1, cipher) := u_cipherUpdate nc cipher (Utf8.write text) in
       '(out2, cipher) ← u_cipherFinal nc cipher;
       let encrypted := to_hex out1 +:+ to_hex out2 in
       let tag := u_getAuthTag nc cipher in
       Ok (to_hex salt +:+ ":" +:+ to_hex iv +:+ ":" +:+ to_hex tag +:+ ":"
           +:+ encrypted),
       g2)
  end.

(** [decrypt], returning a text of any code units. *)
Definition decryptText (nc : NodeCryptoUtf8) (env : Env)
    (encryptedData : string) : Result Text :=
  match split ":" encryptedData with
  | [p0; p1; p2; p3] =>
      let salt := from_hex p0 in
      let iv := from_hex p1 in
      let tag := from_hex p2 in
      let encrypted := p3 in
      key ← getKeyUtf8 nc env salt;
      decipher ← u_createDecipheriv nc ALGORITHM key iv;
      decipher ← u_setAuthTag nc decipher tag;
      data ← hex_input encrypted;
      '(decrypted, decipher) ← u_decipherUpdate nc decipher data;
      final ← u_decipherFinal nc decipher;
      Ok (decrypted ++ final)
  | _ => Throw "Invalid encrypted data format"
  end.

(** The calls that [encryptText] and [decryptText] make on the cipher
    objects, on bytes. *)
Definition sealBytes (nc : NodeCryptoUtf8) (key iv input : list byte)
  : Result (list byte * list byte) :=
  cipher ← u_createCipheriv nc ALGORITHM key iv;
  let '(out1, cipher) := u_cipherUpdate nc cipher input in
  '(out2, cipher) ← u_cipherFinal nc cipher;
  Ok (out1 ++ out2, u_getAuthTag nc cipher).

Definition openBytes (nc : NodeCryptoUtf8) (key iv tag data : list byte)
  : Result Text :=
  decipher ← u_createDecipheriv nc ALGORITHM key iv;
  decipher ← u_setAuthTag nc decipher tag;
  '(decrypted, decipher) ← u_decipherUpdate nc decipher data;
  final ← u_decipherFinal nc decipher;
  Ok (decrypted ++ final).

(** The platform's contract, with a 32-byte key and a 16-byte nonce:
    the bytes of a well-formed text are sealed, and opening what was
    sealed with the tag produced gives that text. *)
Definition seals_and_opens (nc : NodeCryptoUtf8) : Prop :=
  ∀ key iv text, length key = KEY_LENGTH → length iv = IV_LENGTH →
    Utf8.units text → Utf8.isWellFormed text = true →
    ∃ data tag, sealBytes nc key iv (Utf8.write text) = Ok (data, tag)
                ∧ openBytes nc key iv tag data = Ok text.


Definition derives (nc : NodeCryptoUtf8) : Prop :=
  ∀ password salt iterations keylen digest,
    length (u_pbkdf2Sync nc password salt iterations keylen digest) = keylen.

End EncryptionUtf8.

(** ** JSON values sent to and received from clients

    [JDate ms] stands for the ISO-8601 string that [toISOString] gives for
    the instant [ms] (milliseconds since the epoch).  A property whose value
    is [undefined] is left out of the object, as [JSON.stringify] does. *)
Inductive Json : Type :=
| JNull
| JBool (b : bool)
| JNum (n : Z)
| JStr (s : string)
| JDate (ms : Z)
| JArr (items : list Json)
| JObj (fields : list (string * Json)).

Definition jopt (o : option string) : Json :=
  match o with
  | Some s => JStr s
  | None => JNull
  end.

(** [d?.toISOString() || null]. *)
Definition jdate (o : option Z) : Json :=
  match o with
  | Some ms => JDate ms
  | None => JNull
  end.

Definition jstrings (l : list string) : Json := JArr (JStr <$> l).

(** [name || null] for an optional request field. *)
Definition or_null (o : option string) : option string :=
  if truthy o then o else None.

(** ** Outcome of an HTTP call made with axios *)

(** The body of an error response of the provider; either field may be
    missing. *)
Record ErrorData : Type := {
  message : option string;
  error : option string;
}.

(** [Responded]: a 2xx response.  [Rejected]: the promise is rejected with
    [error.response] set to a response outside 2xx, whose [data] may be
    missing.  [Failed]: rejected without a response (network error). *)
Inductive Axios (A : Type) : Type :=
| Responded (data : A)
| Rejected (status : Z) (data : option ErrorData)
| Failed (reason : string).
Arguments Responded {A} data.
Arguments Rejected {A} status data.
Arguments Failed {A} reason.

(** The [scope] property of a token response: an array, a string, or
    missing. *)
Inductive ScopeField : Type :=
| ScopeArray (scopes : list string)
| ScopeString (scopes : string)
| ScopeMissing.

Record TokenData : Type := {
  access_token : string;
  refresh_token : string;
  expires_in : Z;
  scope : ScopeField;
}.

Record ValidateData : Type := {
  client_id : string;
  login : option string;
  validate_scopes : option (list string);
  user_id : option string;
  validate_expires_in : Z;
}.

Record DeviceData : Type := {
  device_code : string;
  user_code : string;
  verification_uri : string;
  device_expires_in : Z;
  interval : option Z;
}.

(** A subscription as listed by the EventSub endpoint; [sub_callback] is
    [transport.callback], present for the webhook transport only. *)
Record Subscription : Type := {
  sub_id : string;
  sub_type : string;
  sub_condition : Json;
  sub_callback : option string;
  sub_status : string;
  sub_cost : option Z;
}.

(** One page of the EventSub list: [pagination.cursor] is present when
    further pages exist. *)
Record SubscriptionPage : Type := {
  page_data : list Subscription;
  page_total : Z;
  page_cursor : option string;
}.

(** The requests sent to the token endpoint, by grant type. *)
Inductive TokenRequest : Type :=
| client_credentials (client_id client_secret : string)
| device_code_grant (client_id device_code : string)
| authorization_code (client_id client_secret code redirect_uri : string)
| refresh_token_grant (client_id client_secret refresh_token : string).

(** The identity provider as seen from the server at the time of one
    request.  [get_eventsub token clientId after] answers the list request
    carrying the bearer token, the client id and, when given, the [after]
    cursor. *)
Record Twitch : Type := {
  post_token : TokenRequest → Axios TokenData;
  get_validate : string → Axios ValidateData;
  post_device : string → string → Axios DeviceData;
  get_eventsub : string → string → option string → Axios SubscriptionPage;
  post_eventsub : string → string → Json → Axios Subscription;
  delete_eventsub : string → string → string → Axios unit;
}.

Module TwitchApiService.

Definition TWITCH_AUTH_URL : string := "https://id.twitch.tv/oauth2/token".

(** [error.response?.data?.message]. *)
Definition response_message {A} (r : Axios A) : option string :=
  match r with
  | Rejected _ (Some d) => message d
  | _ => None
  end.

(** [Array.isArray(scope) ? scope : (scope ? scope.split(' ') : [])]. *)
Definition parse_scope (f : ScopeField) : list string :=
  match f with
  | ScopeArray l => l
  | ScopeString s => if String.eqb s "" then [] else split " " s
  | ScopeMissing => []
  end.

Record TokenResult : Type := {
  accessToken : string;
  refreshToken : string;
  expiresIn : Z;
  scopes : list string;
}.

Definition token_result (d : TokenData) : TokenResult :=
  {| accessToken := access_token d;
     refreshToken := refresh_token d;
     expiresIn := expires_in d;
     scopes := parse_scope (scope d) |}.

Definition generateAppAccessToken (tw : Twitch) (clientId clientSecret : string)
  : Result (string * Z) :=
  match post_token tw (client_credentials clientId clientSecret) with
  | Responded d => Ok (access_token d, expires_in d)
  | r => Throw (js_or_default (response_message r)
                  "Failed to generate app access token")
  end.

Record Validation : Type := {
  v_clientId : string;
  v_login : option string;
  v_scopes : list string;
  v_userId : option string;
  v_expiresIn : Z;
}.

Definition validateToken (tw : Twitch) (accessToken : string)
  : Result Validation :=
  match get_validate tw accessToken with
  | Responded d =>
      Ok {| v_clientId := client_id d;
            v_login := or_null (login d);
            v_scopes := default [] (validate_scopes d);
            v_userId := or_null (user_id d);
            v_expiresIn := validate_expires_in d |}
  | _ => Throw "Invalid or expired token"
  end.

Record DeviceFlow : Type := {
  deviceCode : string;
  userCode : string;
  verificationUri : string;
  df_expiresIn : Z;
  df_interval : Z;
}.

Definition startDeviceFlow (tw : Twitch) (clientId : string)
    (scopes : list string) : Result DeviceFlow :=
  match post_device tw clientId (join " " scopes) with
  | Responded d =>
      Ok {| deviceCode := device_code d;
            userCode := user_code d;
            verificationUri := verification_uri d;
            df_expiresIn := device_expires_in d;
            df_interval := match interval d with
                           | Some i => if (i =? 0)%Z then 5%Z else i
                           | None => 5%Z
                           end |}
  | r => Throw (js_or_default (response_message r)
                  "Failed to start device flow")
  end.

(** [error.response.data?.message || error.response.data?.error]. *)
Definition errorType (data : option ErrorData) : option string :=
  match data with
  | Some d => js_or (message d) (error d)
  | None => None
  end.

Definition is_error (o : option string) (s : string) : bool :=
  match o with
  | Some x => String.eqb x s
  | None => false
  end.

(** Returns [Ok None] for JavaScript's [null]: still pending. *)
Definition pollDeviceToken (tw : Twitch) (clientId deviceCode : string)
  : Result (option TokenResult) :=
  match post_token tw (device_code_grant clientId deviceCode) with
  | Responded d => Ok (Some (token_result d))
  | Rejected status data =>
      if (status =? 400)%Z then
        let errorType := errorType data in
        if is_error errorType "authorization_pending" then Ok None
        else if is_error errorType "access_denied" || is_error errorType "expired_token"
        then Throw (default "" errorType)
        else if is_error errorType "slow_down" then Ok None
        else Throw "Failed to poll for device token"
      else Throw "Failed to poll for device token"
  | Failed _ => Throw "Failed to poll for device token"
  end.

(** [urlSearchParams] stands for [new URLSearchParams(...).toString()]. *)
Definition generateAuthorizationUrl
    (urlSearchParams : list (string * string) → string)
    (clientId redirectUri : string) (scopes : list string) (state : string)
  : string :=
  "https://id.twitch.tv/oauth2/authorize?"
  +:+ urlSearchParams
        [("client_id", clientId); ("redirect_uri", redirectUri);
         ("response_type", "code"); ("scope", join " " scopes);
         ("state", state)].

Definition exchangeCodeForToken (tw : Twitch)
    (clientId clientSecret code redirectUri : string) : Result TokenResult :=
  match post_token tw
          (authorization_code clientId clientSecret code redirectUri) with
  | Responded d => Ok (token_result d)
  | r => Throw (js_or_default (response_message r)
                  "Failed to exchange authorization code")
  end.

Definition refreshAccessToken (tw : Twitch)
    (clientId clientSecret refreshToken : string) : Result TokenResult :=
  match post_token tw
          (refresh_token_grant clientId clientSecret refreshToken) with
  | Responded d => Ok (token_result d)
  | r => Throw (js_or_default (response_message r)
                  "Failed to refresh access token")
  end.

End TwitchApiService.

(** ** The relational store behind Prisma

    Each table is a finite map from the primary key [id] to the row. *)
Module TwitchConfig.
Record t : Type := {
  userId : string;
  clientId : string;
  clientSecret : string;
  name : option string;
  createdAt : Z;
  updatedAt : Z;
}.
End TwitchConfig.

Module SavedToken.
Record t : Type := {
  userId : string;
  twitchConfigId : string;
  tokenType : string;
  accessToken : string;
  refreshToken : option string;
  scopes : list string;
  channelLogin : option string;
  channelId : option string;
  name : option string;
  expiresAt : option Z;
  createdAt : Z;
  updatedAt : Z;
}.
End SavedToken.

Module Webhook.
Record t : Type := {
  userId : string;
  subscriptionId : string;
  type : string;
  condition : Json;
  callbackUrl : string;
  status : string;
  cost : Z;
  createdAt : Z;
  updatedAt : Z;
}.
End Webhook.

Record Db : Type := {
  twitchConfig : gmap string TwitchConfig.t;
  savedToken : gmap string SavedToken.t;
  webhook : gmap string Webhook.t;
}.

(** Everything outside the store that one request can observe: the crypto
    platform, the environment, the entropy pool, the clock reading
    ([Date.now()], milliseconds), the provider, and the rendering of
    [URLSearchParams]; [w_mathRandom i] is what [Math.floor(Math.random() *
    62)] gives at its [i]-th evaluation.  [w_localTZA t isUTC] is the offset
    of the server's time zone in milliseconds, ECMAScript's [LocalTZA]: at
    the instant [t] when [isUTC], and for the wall-clock reading [t]
    otherwise. *)
Record World : Type := {
  w_crypto : NodeCrypto;
  w_env : Env;
  w_rng : Rng;
  w_now : Z;
  w_twitch : Twitch;
  w_urlSearchParams : list (string * string) → string;
  w_mathRandom : nat → nat;
  w_localTZA : Z → bool → Z;
}.

(** An authenticated request after the validators have run: [errors] is
    [validationResult(req).array()]. *)
Record Request : Type := {
  errors : list Json;
  user_userId : string;
  params_id : string;
  body_twitchConfigId : string;
  body_name : option string;
  body_deviceCode : string;
  body_scopes : list string;
  body_state : string;
  body_code : string;
  body_configId : option string;
  body_tokenId : string;
  body_type : string;
  body_condition : Json;
  body_callbackUrl : string;
  body_clientId : option string;
  body_clientSecret : option string;
}.

Record Response : Type := {
  status : Z;
  body : Json;
}.

Definition json (status : Z) (fields : list (string * Json)) : Response :=
  {| status := status; body := JObj fields |}.

Definition is_empty {A} (l : list A) : bool :=
  match l with
  | [] => true
  | _ => false
  end.

(** [try { body } catch (error) { handler(error.message) }]. *)
Definition try_catch {A} (body : Result A) (handler : string → A) : A :=
  match body with
  | Ok a => a
  | Throw m => handler m
  end.

(** [error.message || fallback]. *)
Definition message_or (m fallback : string) : string :=
  if String.eqb m "" then fallback else m.

(** Stable insertion sort, largest key first. *)
Fixpoint insert_desc {A} (key : A → Z) (x : A) (l : list A) : list A :=
  match l with
  | [] => [x]
  | y :: rest =>
      if (key y <? key x)%Z then x :: y :: rest
      else y :: insert_desc key x rest
  end.

Definition sort_desc {A} (key : A → Z) (l : list A) : list A :=
  foldr (insert_desc key) [] l.

(** ** Dates

    The time value of a [Date] is a number of milliseconds since the epoch
    of magnitude at most 8.64e15, or [NaN] for an Invalid Date, here
    [None].  The functions are those of the ECMAScript specification of
    [Date.prototype]; the arithmetic is exact, which is what the
    floating-point arithmetic gives on every time value in range. *)
Module JsDate.

Definition msPerDay : Z := 86400000.
Definition msPerHour : Z := 3600000.
Definition msPerMinute : Z := 60000.
Definition msPerSecond : Z := 1000.
Definition maxTime : Z := 8640000000000000.

Definition TimeClip (time : Z) : option Z :=
  if (Z.abs time <=? maxTime)%Z then Some time else None.

(** [new Date(value)] for a number. *)
Definition ofNumber (value : Z) : option Z := TimeClip value.

Definition Day (t : Z) : Z := (t / msPerDay)%Z.
Definition HourFromTime (t : Z) : Z := ((t / msPerHour) mod 24)%Z.
Definition MinFromTime (t : Z) : Z := ((t / msPerMinute) mod 60)%Z.
Definition SecFromTime (t : Z) : Z := ((t / msPerSecond) mod 60)%Z.
Definition msFromTime (t : Z) : Z := (t mod msPerSecond)%Z.

Definition MakeTime (hour min sec ms : Z) : Z :=
  (hour * msPerHour + min * msPerMinute + sec * msPerSecond + ms)%Z.

Definition MakeDate (day time : Z) : Z := (day * msPerDay + time)%Z.

Definition LocalTime (localTZA : Z → bool → Z) (t : Z) : Z :=
  (t + localTZA t true)%Z.

Definition UTC (localTZA : Z → bool → Z) (t : Z) : Z :=
  (t - localTZA t false)%Z.

(** [d.getSeconds()] on a valid date. *)
Definition getSeconds (localTZA : Z → bool → Z) (t : Z) : Z :=
  SecFromTime (LocalTime localTZA t).

(** [d.setSeconds(sec)] on a valid date: the seconds of the wall-clock
    reading are replaced and the reading is taken back to an instant. *)
Definition setSeconds (localTZA : Z → bool → Z) (t sec : Z) : option Z :=
  let t := LocalTime localTZA t in
  let date :=
    MakeDate (Day t)
      (MakeTime (HourFromTime t) (MinFromTime t) sec (msFromTime t)) in
  TimeClip (UTC localTZA date).

End JsDate.

Module Prisma.

(** Primary keys are generated by the store ([@default(uuid())]); the
    only property used of them is that a new key is not in the table. *)
Definition new_id {A} (table : gmap string A) : string :=
  fresh_string "id-" table.

(** [include: { twitchConfig: { select: { id, clientId, name } } }]; the
    relation is required, a dangling reference makes the query fail. *)
Definition select_twitchConfig (db : Db) (twitchConfigId : string)
  : Result Json :=
  match twitchConfig db !! twitchConfigId with
  | Some c =>
      Ok (JObj [("id", JStr twitchConfigId);
                ("clientId", JStr (TwitchConfig.clientId c));
                ("name", jopt (TwitchConfig.name c))])
  | None => Throw "Inconsistent query result: Field twitchConfig is required"
  end.

(** [include: { twitchConfig: true }]. *)
Definition include_twitchConfig (db : Db) (twitchConfigId : string)
  : Result TwitchConfig.t :=
  match twitchConfig db !! twitchConfigId with
  | Some c => Ok c
  | None => Throw "Inconsistent query result: Field twitchConfig is required"
  end.

(** [savedToken.findMany({ where: { userId }, include, orderBy:
    { createdAt: 'desc' } })]. *)
Definition savedToken_findMany (db : Db) (userId : string)
  : Result (list (string * SavedToken.t * Json)) :=
  mapM (λ row : string * SavedToken.t,
          c ← select_twitchConfig db (SavedToken.twitchConfigId row.2);
          Ok (row, c))
       (sort_desc (λ row : string * SavedToken.t, SavedToken.createdAt row.2)
          (filter (λ row : string * SavedToken.t,
                     SavedToken.userId row.2 = userId)
                  (map_to_list (savedToken db)))).

(** A [Date] given as [expiresAt]: the client refuses an Invalid Date
    before anything is sent to the database.  Only the fact that it
    throws is used; the text of its error is not kept. *)
Definition expiresAt_arg (d : option Z) : Result Z :=
  match d with
  | Some t => Ok t
  | None => Throw "Invalid value for argument `expiresAt`: Provided Date object is invalid. Expected Date."
  end.

Definition savedToken_create (db : Db) (row : SavedToken.t) : string * Db :=
  let id := new_id (savedToken db) in
  (id, {| twitchConfig := twitchConfig db;
          savedToken := <[id := row]> (savedToken db);
          webhook := webhook db |}).

(** [savedToken.update({ where: { id }, data })]: fails when no row has
    the id. *)
Definition savedToken_update (db : Db) (id : string)
    (data : SavedToken.t → SavedToken.t) : Result (SavedToken.t * Db) :=
  match savedToken db !! id with
  | Some row =>
      Ok (data row,
          {| twitchConfig := twitchConfig db;
             savedToken := <[id := data row]> (savedToken db);
             webhook := webhook db |})
  | None => Throw "Record to update not found."
  end.

Definition savedToken_delete (db : Db) (id : string) : Result Db :=
  match savedToken db !! id with
  | Some _ =>
      Ok {| twitchConfig := twitchConfig db;
            savedToken := delete id (savedToken db);
            webhook := webhook db |}
  | None => Throw "Record to delete does not exist."
  end.

(** [twitchConfig.update({ where: { id }, data })]: fails when no row has
    the id, and when another row already carries the new pair
    [(userId, clientId)], which has a unique index. *)
Definition twitchConfig_update (db : Db) (id : string)
    (data : TwitchConfig.t → TwitchConfig.t) : Result (TwitchConfig.t * Db) :=
  match twitchConfig db !! id with
  | Some row =>
      if bool_decide
           (Exists (λ r : string * TwitchConfig.t,
                      r.1 ≠ id
                      ∧ TwitchConfig.userId r.2 = TwitchConfig.userId (data row)
                      ∧ TwitchConfig.clientId r.2
                        = TwitchConfig.clientId (data row))
                   (map_to_list (twitchConfig db)))
      then Throw "Unique constraint failed on the fields: (`userId`,`clientId`)"
      else
        Ok (data row,
            {| twitchConfig := <[id := data row]> (twitchConfig db);
               savedToken := savedToken db;
               webhook := webhook db |})
  | None => Throw "Record to update not found."
  end.

(** Deleting a configuration cascades to its tokens. *)
Definition twitchConfig_delete (db : Db) (id : string) : Result Db :=
  match twitchConfig db !! id with
  | Some _ =>
      Ok {| twitchConfig := delete id (twitchConfig db);
            savedToken :=
              filter (λ row : string * SavedToken.t,
                        SavedToken.twitchConfigId row.2 ≠ id) (savedToken db);
            webhook := webhook db |}
  | None => Throw "Record to delete does not exist."
  end.

(** [twitchConfig.findUnique({ where: { userId_clientId } })]. *)
Definition twitchConfig_findByClientId (db : Db) (userId clientId : string)
  : option (string * TwitchConfig.t) :=
  find (λ row : string * TwitchConfig.t,
          String.eqb (TwitchConfig.userId row.2) userId
          && String.eqb (TwitchConfig.clientId row.2) clientId)
       (map_to_list (twitchConfig db)).

(** [_count: { select: { savedTokens: true } }]. *)
Definition count_savedTokens (db : Db) (twitchConfigId : string) : nat :=
  length (filter (λ row : string * SavedToken.t,
                    SavedToken.twitchConfigId row.2 = twitchConfigId)
                 (map_to_list (savedToken db))).

(** [webhook.findMany({ where: { userId } })]. *)
Definition webhook_findMany (db : Db) (userId : string)
  : list (string * Webhook.t) :=
  filter (λ row : string * Webhook.t, Webhook.userId row.2 = userId)
         (map_to_list (webhook db)).

(** [webhook.create]: [subscriptionId] carries a unique index over the
    whole table, whoever owns the rows. *)
Definition webhook_create (db : Db) (row : Webhook.t) : Result (string * Db) :=
  if bool_decide (Exists (λ r : string * Webhook.t,
                            Webhook.subscriptionId r.2
                            = Webhook.subscriptionId row)
                         (map_to_list (webhook db)))
  then Throw "Unique constraint failed on the fields: (`subscriptionId`)"
  else
    let id := new_id (webhook db) in
    Ok (id, {| twitchConfig := twitchConfig db;
               savedToken := savedToken db;
               webhook := <[id := row]> (webhook db) |}).

(** [webhook.updateMany({ where: { userId, subscriptionId }, data })]. *)
Definition webhook_updateMany (db : Db) (userId subscriptionId : string)
    (data : Webhook.t → Webhook.t) : Db :=
  {| twitchConfig := twitchConfig db;
     savedToken := savedToken db;
     webhook :=
       (λ row,
          if bool_decide (Webhook.userId row = userId
                          ∧ Webhook.subscriptionId row = subscriptionId)
          then data row else row) <$> webhook db |}.

Definition webhook_delete (db : Db) (id : string) : Result Db :=
  match webhook db !! id with
  | Some _ =>
      Ok {| twitchConfig := twitchConfig db;
            savedToken := savedToken db;
            webhook := delete id (webhook db) |}
  | None => Throw "Record to delete does not exist."
  end.

(** [twitchConfig.findMany({ where: { userId }, include: { _count:
    { select: { savedTokens: true } } }, orderBy: { createdAt: 'desc' } })]. *)
Definition twitchConfig_findMany (db : Db) (userId : string)
  : list (string * TwitchConfig.t * nat) :=
  (λ row : string * TwitchConfig.t, (row, count_savedTokens db row.1))
    <$> sort_desc (λ row : string * TwitchConfig.t,
                     TwitchConfig.createdAt row.2)
          (filter (λ row : string * TwitchConfig.t,
                     TwitchConfig.userId row.2 = userId)
                  (map_to_list (twitchConfig db))).

(** [twitchConfig.create]: the pair [(userId, clientId)] carries a unique
    index. *)
Definition twitchConfig_create (db : Db) (row : TwitchConfig.t)
  : Result (string * Db) :=
  if bool_decide (is_Some (twitchConfig_findByClientId db
                             (TwitchConfig.userId row)
                             (TwitchConfig.clientId row)))
  then Throw "Unique constraint failed on the fields: (`userId`,`clientId`)"
  else
    let id := new_id (twitchConfig db) in
    Ok (id, {| twitchConfig := <[id := row]> (twitchConfig db);
               savedToken := savedToken db;
               webhook := webhook db |}).

(** [savedToken.findFirst({ where: { userId, tokenType }, include:
    { twitchConfig: true } })]: the first matching row in the order of
    the table. *)
Definition savedToken_findFirst (db : Db) (userId tokenType : string)
  : Result (option (SavedToken.t * TwitchConfig.t)) :=
  match filter (λ row : string * SavedToken.t,
                  SavedToken.userId row.2 = userId
                  ∧ SavedToken.tokenType row.2 = tokenType)
               (map_to_list (savedToken db)) with
  | [] => Ok None
  | row :: _ =>
      c ← include_twitchConfig db (SavedToken.twitchConfigId row.2);
      Ok (Some (row.2, c))
  end.

End Prisma.

Module TokenController.

Import TwitchApiService.

Definition validation_failed (req : Request) : Response :=
  json 400 [("errors", JArr (errors req))].

Definition not_found (what : string) : Response :=
  json 404 [("error", JStr "Not found"); ("message", JStr what)].

Definition forbidden (what : string) : Response :=
  json 403 [("error", JStr "Forbidden"); ("message", JStr what)].

Definition server_error (what : string) : Response :=
  json 500 [("error", JStr "Server error"); ("message", JStr what)].

(** The object built by [tokens.map(...)] in [getAllTokens]. *)
Definition sanitized (id : string) (token : SavedToken.t) (config : Json)
  : Json :=
  JObj [("id", JStr id);
        ("tokenType", JStr (SavedToken.tokenType token));
        ("scopes", jstrings (SavedToken.scopes token));
        ("channelLogin", jopt (SavedToken.channelLogin token));
        ("channelId", jopt (SavedToken.channelId token));
        ("name", jopt (SavedToken.name token));
        ("expiresAt", jdate (SavedToken.expiresAt token));
        ("createdAt", JDate (SavedToken.createdAt token));
        ("updatedAt", JDate (SavedToken.updatedAt token));
        ("twitchConfig", config)].

(** The [responseToken] object of the single-token handlers;
    [refreshToken] is left out when [undefined]. *)
Definition responseToken (id : string) (token : SavedToken.t)
    (accessToken : string) (refreshToken : option string) (config : Json)
  : Json :=
  JObj ([("id", JStr id);
         ("tokenType", JStr (SavedToken.tokenType token));
         ("accessToken", JStr accessToken)]
        ++ match refreshToken with
           | Some r => [("refreshToken", JStr r)]
           | None => []
           end
        ++ [("scopes", jstrings (SavedToken.scopes token));
            ("channelLogin", jopt (SavedToken.channelLogin token));
            ("channelId", jopt (SavedToken.channelId token));
            ("name", jopt (SavedToken.name token));
            ("expiresAt", jdate (SavedToken.expiresAt token));
            ("createdAt", JDate (SavedToken.createdAt token));
            ("updatedAt", JDate (SavedToken.updatedAt token));
            ("twitchConfig", config)]).

Definition getAllTokens (w : World) (req : Request) (db : Db)
  : Response * Db :=
  try_catch
    (let userId := user_userId req in
     tokens ← Prisma.savedToken_findMany db userId;
     let sanitizedTokens :=
       (λ t : string * SavedToken.t * Json, sanitized t.1.1 t.1.2 t.2)
         <$> tokens in
     Ok (json 200 [("tokens", JArr sanitizedTokens)], db))
    (λ _, (server_error "Failed to retrieve saved tokens", db)).

Definition getToken (w : World) (req : Request) (db : Db)
  : Response * Db :=
  try_catch
    (if negb (is_empty (errors req)) then Ok (validation_failed req, db)
     else
       let userId := user_userId req in
       let id := params_id req in
       match savedToken db !! id with
       | None => Ok (not_found "Token not found", db)
       | Some token =>
           twitchConfig ← Prisma.select_twitchConfig db
                            (SavedToken.twitchConfigId token);
           if negb (String.eqb (SavedToken.userId token) userId) then
             Ok (forbidden "You do not have permission to access this token",
                 db)
           else
             accessToken ←
               Encryption.decrypt (w_crypto w) (w_env w)
                 (SavedToken.accessToken token);
             refreshToken ←
               (if truthy (SavedToken.refreshToken token) then
                  r ← Encryption.decrypt (w_crypto w) (w_env w)
                        (default "" (SavedToken.refreshToken token));
                  Ok (Some r)
                else Ok None);
             Ok (json 200
                   [("token",
                     responseToken id token accessToken refreshToken
                       twitchConfig)],
                 db)
       end)
    (λ _, (server_error "Failed to retrieve token", db)).

Definition generateAppToken (w : World) (req : Request) (db : Db)
  : Response * Db :=
  try_catch
    (if negb (is_empty (errors req)) then Ok (validation_failed req, db)
     else
       let userId := user_userId req in
       let twitchConfigId := body_twitchConfigId req in
       let name := body_name req in
       match twitchConfig db !! twitchConfigId with
       | None => Ok (not_found "Twitch configuration not found", db)
       | Some twitchConfig =>
           if negb (String.eqb (TwitchConfig.userId twitchConfig) userId) then
             Ok (forbidden
                   "You do not have permission to use this configuration",
                 db)
           else
             clientSecret ←
               Encryption.decrypt (w_crypto w) (w_env w)
                 (TwitchConfig.clientSecret twitchConfig);
             '(accessToken, expiresIn) ←
               generateAppAccessToken (w_twitch w)
                 (TwitchConfig.clientId twitchConfig) clientSecret;
             let expiresAt := JsDate.ofNumber (w_now w + expiresIn * 1000) in
             encryptedToken ←
               (Encryption.encrypt (w_crypto w) (w_env w) (w_rng w)
                  accessToken).1;
             expiresAt ← Prisma.expiresAt_arg expiresAt;
             let savedToken :=
               {| SavedToken.userId := userId;
                  SavedToken.twitchConfigId := twitchConfigId;
                  SavedToken.tokenType := "app";
                  SavedToken.accessToken := encryptedToken;
                  SavedToken.refreshToken := None;
                  SavedToken.scopes := [];
                  SavedToken.channelLogin := None;
                  SavedToken.channelId := None;
                  SavedToken.name := or_null name;
                  SavedToken.expiresAt := Some expiresAt;
                  SavedToken.createdAt := w_now w;
                  SavedToken.updatedAt := w_now w |} in
             let '(id, db') := Prisma.savedToken_create db savedToken in
             config ← Prisma.select_twitchConfig db' twitchConfigId;
             Ok (json 201
                   [("message",
                     JStr "App access token generated successfully");
                    ("token",
                     responseToken id savedToken accessToken None config)],
                 db')
       end)
    (λ m, (server_error
             (message_or m "Failed to generate app access token"), db)).

Definition deleteToken (w : World) (req : Request) (db : Db)
  : Response * Db :=
  try_catch
    (if negb (is_empty (errors req)) then Ok (validation_failed req, db)
     else
       let userId := user_userId req in
       let id := params_id req in
       match savedToken db !! id with
       | None => Ok (not_found "Token not found", db)
       | Some existingToken =>
           if negb (String.eqb (SavedToken.userId existingToken) userId) then
             Ok (forbidden "You do not have permission to delete this token",
                 db)
           else
             db' ← Prisma.savedToken_delete db id;
             Ok (json 200 [("message", JStr "Token deleted successfully")],
                 db')
       end)
    (λ _, (server_error "Failed to delete token", db)).

Definition startUserToken (w : World) (req : Request) (db : Db)
  : Response * Db :=
  try_catch
    (if negb (is_empty (errors req)) then Ok (validation_failed req, db)
     else
       let userId := user_userId req in
       let twitchConfigId := body_twitchConfigId req in
       let scopes := body_scopes req in
       match twitchConfig db !! twitchConfigId with
       | None => Ok (not_found "Twitch configuration not found", db)
       | Some twitchConfig =>
           if negb (String.eqb (TwitchConfig.userId twitchConfig) userId) then
             Ok (forbidden
                   "You do not have permission to use this configuration",
                 db)
           else
             deviceFlowData ←
               startDeviceFlow (w_twitch w)
                 (TwitchConfig.clientId twitchConfig) scopes;
             Ok (json 200
                   [("deviceCode", JStr (deviceCode deviceFlowData));
                    ("userCode", JStr (userCode deviceFlowData));
                    ("verificationUri",
                     JStr (verificationUri deviceFlowData));
                    ("expiresIn", JNum (df_expiresIn deviceFlowData));
                    ("interval", JNum (df_interval deviceFlowData))],
                 db)
       end)
    (λ m, (server_error (message_or m "Failed to start user token flow"),
           db)).

Definition pollUserToken (w : World) (req : Request) (db : Db)
  : Response * Db :=
  try_catch
    (if negb (is_empty (errors req)) then Ok (validation_failed req, db)
     else
       let userId := user_userId req in
       let twitchConfigId := body_twitchConfigId req in
       let deviceCode := body_deviceCode req in
       let name := body_name req in
       match twitchConfig db !! twitchConfigId with
       | None => Ok (not_found "Twitch configuration not found", db)
       | Some twitchConfig =>
           if negb (String.eqb (TwitchConfig.userId twitchConfig) userId) then
             Ok (forbidden
                   "You do not have permission to use this configuration",
                 db)
           else
             tokenData ←
               pollDeviceToken (w_twitch w)
                 (TwitchConfig.clientId twitchConfig) deviceCode;
             match tokenData with
             | None => Ok (json 200 [("status", JStr "pending")], db)
             | Some tokenData =>
                 validation ← validateToken (w_twitch w)
                                (accessToken tokenData);
                 let expiresAt :=
                   JsDate.ofNumber (w_now w + expiresIn tokenData * 1000) in
                 let '(encrypted1, rng1) :=
                   Encryption.encrypt (w_crypto w) (w_env w) (w_rng w)
                     (accessToken tokenData) in
                 encryptedAccessToken ← encrypted1;
                 let '(encrypted2, _) :=
                   Encryption.encrypt (w_crypto w) (w_env w) rng1
                     (refreshToken tokenData) in
                 encryptedRefreshToken ← encrypted2;
                 expiresAt ← Prisma.expiresAt_arg expiresAt;
                 let savedToken :=
                   {| SavedToken.userId := userId;
                      SavedToken.twitchConfigId := twitchConfigId;
                      SavedToken.tokenType := "user";
                      SavedToken.accessToken := encryptedAccessToken;
                      SavedToken.refreshToken := Some encryptedRefreshToken;
                      SavedToken.scopes := scopes tokenData;
                      SavedToken.channelLogin := v_login validation;
                      SavedToken.channelId := v_userId validation;
                      SavedToken.name := or_null name;
                      SavedToken.expiresAt := Some expiresAt;
                      SavedToken.createdAt := w_now w;
                      SavedToken.updatedAt := w_now w |} in
                 let '(id, db') := Prisma.savedToken_create db savedToken in
                 config ← Prisma.select_twitchConfig db' twitchConfigId;
                 Ok (json 201
                       [("status", JStr "success");
                        ("message",
                         JStr "User access token generated successfully");
                        ("token",
                         responseToken id savedToken (accessToken tokenData)
                           (Some (refreshToken tokenData)) config)],
                     db')
             end
       end)
    (λ m,
       if String.eqb m "access_denied" then
         (json 403 [("status", JStr "denied");
                    ("error", JStr "Access denied");
                    ("message",
                     JStr "User denied the authorization request")],
          db)
       else if String.eqb m "expired_token" then
         (json 400 [("status", JStr "expired");
                    ("error", JStr "Token expired");
                    ("message",
                     JStr "The device code has expired. Please start over.")],
          db)
       else
         (server_error (message_or m "Failed to poll for user token"), db)).

Definition redirect_uri_setting (w : World) : string :=
  js_or_default (TWITCH_REDIRECT_URI (w_env w))
    "http://localhost:5173/oauth/callback".

Definition startAuthorizationFlow (w : World) (req : Request) (db : Db)
  : Response * Db :=
  try_catch
    (if negb (is_empty (errors req)) then Ok (validation_failed req, db)
     else
       let userId := user_userId req in
       let twitchConfigId := body_twitchConfigId req in
       let scopes := body_scopes req in
       let state := body_state req in
       match twitchConfig db !! twitchConfigId with
       | None => Ok (not_found "Twitch configuration not found", db)
       | Some twitchConfig =>
           if negb (String.eqb (TwitchConfig.userId twitchConfig) userId) then
             Ok (not_found "Twitch configuration not found", db)
           else
             let redirectUri := redirect_uri_setting w in
             let authUrl :=
               generateAuthorizationUrl (w_urlSearchParams w)
                 (TwitchConfig.clientId twitchConfig) redirectUri scopes
                 state in
             Ok (json 200 [("authorizationUrl", JStr authUrl);
                           ("redirectUri", JStr redirectUri)],
                 db)
       end)
    (λ m, (server_error (message_or m "Failed to start authorization flow"),
           db)).

(** [d = new Date(); d.setSeconds(d.getSeconds() + seconds)]: the seconds
    are added to the wall-clock reading of the server's time zone. *)
Definition addSeconds (w : World) (seconds : Z) : option Z :=
  JsDate.setSeconds (w_localTZA w) (w_now w)
    (JsDate.getSeconds (w_localTZA w) (w_now w) + seconds).

Definition handleAuthorizationCallback (w : World) (req : Request) (db : Db)
  : Response * Db :=
  try_catch
    (if negb (is_empty (errors req)) then Ok (validation_failed req, db)
     else
       let userId := user_userId req in
       let twitchConfigId := body_twitchConfigId req in
       let code := body_code req in
       let name := body_name req in
       match twitchConfig db !! twitchConfigId with
       | None => Ok (not_found "Twitch configuration not found", db)
       | Some twitchConfig =>
           if negb (String.eqb (TwitchConfig.userId twitchConfig) userId) then
             Ok (not_found "Twitch configuration not found", db)
           else
             clientSecret ←
               Encryption.decrypt (w_crypto w) (w_env w)
                 (TwitchConfig.clientSecret twitchConfig);
             let redirectUri := redirect_uri_setting w in
             tokenData ←
               exchangeCodeForToken (w_twitch w)
                 (TwitchConfig.clientId twitchConfig) clientSecret code
                 redirectUri;
             validation ← validateToken (w_twitch w) (accessToken tokenData);
             let expiresAt := addSeconds w (expiresIn tokenData) in
             let '(encrypted1, rng1) :=
               Encryption.encrypt (w_crypto w) (w_env w) (w_rng w)
                 (accessToken tokenData) in
             encryptedAccessToken ← encrypted1;
             let '(encrypted2, _) :=
               Encryption.encrypt (w_crypto w) (w_env w) rng1
                 (refreshToken tokenData) in
             encryptedRefreshToken ← encrypted2;
             expiresAt ← Prisma.expiresAt_arg expiresAt;
             let savedToken :=
               {| SavedToken.userId := userId;
                  SavedToken.twitchConfigId := twitchConfigId;
                  SavedToken.tokenType := "user";
                  SavedToken.accessToken := encryptedAccessToken;
                  SavedToken.refreshToken := Some encryptedRefreshToken;
                  SavedToken.scopes := scopes tokenData;
                  SavedToken.channelLogin := v_login validation;
                  SavedToken.channelId := v_userId validation;
                  SavedToken.name := or_null name;
                  SavedToken.expiresAt := Some expiresAt;
                  SavedToken.createdAt := w_now w;
                  SavedToken.updatedAt := w_now w |} in
             let '(id, db') := Prisma.savedToken_create db savedToken in
             config ← Prisma.select_twitchConfig db' twitchConfigId;
             Ok (json 201
                   [("message",
                     JStr "User access token generated successfully");
                    ("token",
                     responseToken id savedToken (accessToken tokenData)
                       (Some (refreshToken tokenData)) config)],
                 db')
       end)
    (λ m, (server_error (message_or m "Failed to complete authorization"),
           db)).

Definition validateSavedToken (w : World) (req : Request) (db : Db)
  : Response * Db :=
  try_catch
    (if negb (is_empty (errors req)) then Ok (validation_failed req, db)
     else
       let userId := user_userId req in
       let id := params_id req in
       match savedToken db !! id with
       | None => Ok (not_found "Token not found", db)
       | Some token =>
           if negb (String.eqb (SavedToken.userId token) userId) then
             Ok (forbidden "You do not have permission to access this token",
                 db)
           else
             accessToken ←
               Encryption.decrypt (w_crypto w) (w_env w)
                 (SavedToken.accessToken token);
             validation ← validateToken (w_twitch w) accessToken;
             Ok (json 200
                   [("valid", JBool true);
                    ("clientId", JStr (v_clientId validation));
                    ("login", jopt (v_login validation));
                    ("userId", jopt (v_userId validation));
                    ("scopes", jstrings (v_scopes validation));
                    ("expiresIn", JNum (v_expiresIn validation))],
                 db)
       end)
    (λ m,
       if String.eqb m "Invalid or expired token" then
         (json 200 [("valid", JBool false);
                    ("message", JStr "Token is invalid or expired")],
          db)
       else (server_error (message_or m "Failed to validate token"), db)).

Definition refreshToken (w : World) (req : Request) (db : Db)
  : Response * Db :=
  try_catch
    (if negb (is_empty (errors req)) then Ok (validation_failed req, db)
     else
       let userId := user_userId req in
       let id := params_id req in
       match savedToken db !! id with
       | None => Ok (not_found "Token not found", db)
       | Some token =>
           twitchConfig ← Prisma.include_twitchConfig db
                            (SavedToken.twitchConfigId token);
           if negb (String.eqb (SavedToken.userId token) userId) then
             Ok (forbidden "You do not have permission to access this token",
                 db)
           else if negb (String.eqb (SavedToken.tokenType token) "user")
                   || negb (truthy (SavedToken.refreshToken token)) then
             Ok (json 400 [("error", JStr "Bad request");
                           ("message",
                            JStr "This token cannot be refreshed")],
                 db)
           else
             refreshTokenValue ←
               Encryption.decrypt (w_crypto w) (w_env w)
                 (default "" (SavedToken.refreshToken token));
             clientSecret ←
               Encryption.decrypt (w_crypto w) (w_env w)
                 (TwitchConfig.clientSecret twitchConfig);
             newTokenData ←
               refreshAccessToken (w_twitch w)
                 (TwitchConfig.clientId twitchConfig) clientSecret
                 refreshTokenValue;
             let expiresAt := addSeconds w (expiresIn newTokenData) in
             let '(encrypted1, rng1) :=
               Encryption.encrypt (w_crypto w) (w_env w) (w_rng w)
                 (accessToken newTokenData) in
             encryptedAccessToken ← encrypted1;
             let '(encrypted2, _) :=
               Encryption.encrypt (w_crypto w) (w_env w) rng1
                 (TwitchApiService.refreshToken newTokenData) in
             encryptedRefreshToken ← encrypted2;
             expiresAt ← Prisma.expiresAt_arg expiresAt;
             '(updatedToken, db') ←
               Prisma.savedToken_update db id
                 (λ row,
                    {| SavedToken.userId := SavedToken.userId row;
                       SavedToken.twitchConfigId :=
                         SavedToken.twitchConfigId row;
                       SavedToken.tokenType := SavedToken.tokenType row;
                       SavedToken.accessToken := encryptedAccessToken;
                       SavedToken.refreshToken := Some encryptedRefreshToken;
                       SavedToken.scopes := scopes newTokenData;
                       SavedToken.channelLogin := SavedToken.channelLogin row;
                       SavedToken.channelId := SavedToken.channelId row;
                       SavedToken.name := SavedToken.name row;
                       SavedToken.expiresAt := Some expiresAt;
                       SavedToken.createdAt := SavedToken.createdAt row;
                       SavedToken.updatedAt := w_now w |});
             config ← Prisma.select_twitchConfig db'
                        (SavedToken.twitchConfigId updatedToken);
             Ok (json 200
                   [("message", JStr "Token refreshed successfully");
                    ("token",
                     responseToken id updatedToken (accessToken newTokenData)
                       (Some (TwitchApiService.refreshToken newTokenData))
                       config)],
                 db')
       end)
    (λ m, (server_error (message_or m "Failed to refresh token"), db)).

End TokenController.

Module TwitchConfigController.

Import TokenController.

Definition configJson (id : string) (config : TwitchConfig.t)
    (clientSecret : string) : Json :=
  JObj [("id", JStr id);
        ("clientId", JStr (TwitchConfig.clientId config));
        ("clientSecret", JStr clientSecret);
        ("name", jopt (TwitchConfig.name config));
        ("createdAt", JDate (TwitchConfig.createdAt config));
        ("updatedAt", JDate (TwitchConfig.updatedAt config))].

Definition getConfig (w : World) (req : Request) (db : Db)
  : Response * Db :=
  try_catch
    (if negb (is_empty (errors req)) then Ok (validation_failed req, db)
     else
       let userId := user_userId req in
       let id := params_id req in
       match twitchConfig db !! id with
       | None => Ok (not_found "Twitch configuration not found", db)
       | Some config =>
           if negb (String.eqb (TwitchConfig.userId config) userId) then
             Ok (forbidden
                   "You do not have permission to access this configuration",
                 db)
           else
             clientSecret ←
               Encryption.decrypt (w_crypto w) (w_env w)
                 (TwitchConfig.clientSecret config);
             Ok (json 200 [("config", configJson id config clientSecret)], db)
       end)
    (λ _, (server_error "Failed to retrieve Twitch configuration", db)).

(** The object built by [configs.map(...)] in [getAllConfigs]. *)
Definition listedConfigJson (id : string) (config : TwitchConfig.t)
    (clientSecret : string) (tokensCount : nat) : Json :=
  JObj [("id", JStr id);
        ("clientId", JStr (TwitchConfig.clientId config));
        ("clientSecret", JStr clientSecret);
        ("name", jopt (TwitchConfig.name config));
        ("tokensCount", JNum (Z.of_nat tokensCount));
        ("createdAt", JDate (TwitchConfig.createdAt config));
        ("updatedAt", JDate (TwitchConfig.updatedAt config))].

Definition getAllConfigs (w : World) (req : Request) (db : Db)
  : Response * Db :=
  try_catch
    (let userId := user_userId req in
     let configs := Prisma.twitchConfig_findMany db userId in
     decryptedConfigs ←
       mapM (λ config : string * TwitchConfig.t * nat,
               clientSecret ←
                 Encryption.decrypt (w_crypto w) (w_env w)
                   (TwitchConfig.clientSecret config.1.2);
               Ok (listedConfigJson config.1.1 config.1.2 clientSecret
                     config.2))
            configs;
     Ok (json 200 [("configs", JArr decryptedConfigs)], db))
    (λ _, (server_error "Failed to retrieve Twitch configurations", db)).

(** A request without [clientId] makes the lookup throw, one without
    [clientSecret] the cipher. The row is written before its secret is
    decrypted for the answer, so a failure there leaves the row. *)
Definition createConfig (w : World) (req : Request) (db : Db)
  : Response * Db :=
  try_catch
    (if negb (is_empty (errors req)) then Ok (validation_failed req, db)
     else
       let userId := user_userId req in
       let name := body_name req in
       match body_clientId req with
       | None => Throw "Argument `clientId` is missing."
       | Some clientId =>
           if bool_decide
                (is_Some (Prisma.twitchConfig_findByClientId db userId
                            clientId))
           then
             Ok (json 409
                   [("error", JStr "Conflict");
                    ("message",
                     JStr "A configuration with this Client ID already exists")],
                 db)
           else
             match body_clientSecret req with
             | None => Throw "The data argument must be of type string"
             | Some clientSecret =>
                 encryptedSecret ←
                   (Encryption.encrypt (w_crypto w) (w_env w) (w_rng w)
                      clientSecret).1;
                 let config :=
                   {| TwitchConfig.userId := userId;
                      TwitchConfig.clientId := clientId;
                      TwitchConfig.clientSecret := encryptedSecret;
                      TwitchConfig.name := or_null name;
                      TwitchConfig.createdAt := w_now w;
                      TwitchConfig.updatedAt := w_now w |} in
                 '(id, db') ← Prisma.twitchConfig_create db config;
                 Ok (try_catch
                       (decrypted ←
                          Encryption.decrypt (w_crypto w) (w_env w)
                            (TwitchConfig.clientSecret config);
                        Ok (json 201
                              [("message",
                                JStr "Twitch configuration created successfully");
                               ("config", configJson id config decrypted)],
                            db'))
                       (λ _, (server_error
                                "Failed to create Twitch configuration",
                              db')))
             end
       end)
    (λ _, (server_error "Failed to create Twitch configuration", db)).

(** The row is written before its secret is decrypted for the answer, so
    a failure there leaves the row as updated. *)
Definition updateConfig (w : World) (req : Request) (db : Db)
  : Response * Db :=
  try_catch
    (if negb (is_empty (errors req)) then Ok (validation_failed req, db)
     else
       let userId := user_userId req in
       let id := params_id req in
       let clientId := body_clientId req in
       let clientSecret := body_clientSecret req in
       let name := body_name req in
       match twitchConfig db !! id with
       | None => Ok (not_found "Twitch configuration not found", db)
       | Some existingConfig =>
           if negb (String.eqb (TwitchConfig.userId existingConfig) userId)
           then
             Ok (forbidden
                   "You do not have permission to update this configuration",
                 db)
           else if truthy clientId
                   && negb (String.eqb (default "" clientId)
                              (TwitchConfig.clientId existingConfig))
                   && bool_decide
                        (is_Some (Prisma.twitchConfig_findByClientId db userId
                                    (default "" clientId)))
           then
             Ok (json 409
                   [("error", JStr "Conflict");
                    ("message",
                     JStr "A configuration with this Client ID already exists")],
                 db)
           else
             encryptedSecret ←
               match clientSecret with
               | Some s =>
                   c ← (Encryption.encrypt (w_crypto w) (w_env w) (w_rng w)
                          s).1;
                   Ok (Some c)
               | None => Ok None
               end;
             '(updatedConfig, db') ←
               Prisma.twitchConfig_update db id
                 (λ row,
                    {| TwitchConfig.userId := TwitchConfig.userId row;
                       TwitchConfig.clientId :=
                         default (TwitchConfig.clientId row) clientId;
                       TwitchConfig.clientSecret :=
                         default (TwitchConfig.clientSecret row)
                           encryptedSecret;
                       TwitchConfig.name :=
                         match name with
                         | Some _ => or_null name
                         | None => TwitchConfig.name row
                         end;
                       TwitchConfig.createdAt := TwitchConfig.createdAt row;
                       TwitchConfig.updatedAt := w_now w |});
             Ok (try_catch
                   (decrypted ←
                      Encryption.decrypt (w_crypto w) (w_env w)
                        (TwitchConfig.clientSecret updatedConfig);
                    Ok (json 200
                          [("message",
                            JStr "Twitch configuration updated successfully");
                           ("config",
                            configJson id updatedConfig decrypted)],
                        db'))
                   (λ _, (server_error
                            "Failed to update Twitch configuration", db')))
       end)
    (λ _, (server_error "Failed to update Twitch configuration", db)).

Definition deleteConfig (w : World) (req : Request) (db : Db)
  : Response * Db :=
  try_catch
    (if negb (is_empty (errors req)) then Ok (validation_failed req, db)
     else
       let userId := user_userId req in
       let id := params_id req in
       match twitchConfig db !! id with
       | None => Ok (not_found "Twitch configuration not found", db)
       | Some existingConfig =>
           let savedTokens := Prisma.count_savedTokens db id in
           if negb (String.eqb (TwitchConfig.userId existingConfig) userId)
           then
             Ok (forbidden
                   "You do not have permission to delete this configuration",
                 db)
           else if bool_decide (0 < savedTokens) then
             Ok (json 400
                   [("error", JStr "Bad request");
                    ("message",
                     JStr ("Cannot delete configuration. There are "
                           +:+ pretty savedTokens
                           +:+ " token(s) using this configuration. Please delete the tokens first."));
                    ("tokensCount", JNum (Z.of_nat savedTokens))],
                 db)
           else
             db' ← Prisma.twitchConfig_delete db id;
             Ok (json 200
                   [("message",
                     JStr "Twitch configuration deleted successfully")],
                 db')
       end)
    (λ _, (server_error "Failed to delete Twitch configuration", db)).

End TwitchConfigController.

Module WebhookController.

Import TokenController.

Definition TWITCH_EVENTSUB_URL : string :=
  "https://api.twitch.tv/helix/eventsub/subscriptions".

Definition chars : string :=
  "ABCDEFGHIJKLMNOPQRSTUVWXYZabcdefghijklmnopqrstuvwxyz0123456789".

(** [chars.charAt(i)]: the empty string when out of range. *)
Definition charAt (s : string) (i : nat) : string :=
  match String.get i s with
  | Some c => String c EmptyString
  | None => EmptyString
  end.

Definition generateSecret (w : World) : string :=
  foldl (λ secret i, secret +:+ charAt chars (w_mathRandom w i))
        EmptyString (seq 0 32).

Definition webhookJson (id : string) (row : Webhook.t) : Json :=
  JObj [("id", JStr id);
        ("userId", JStr (Webhook.userId row));
        ("subscriptionId", JStr (Webhook.subscriptionId row));
        ("type", JStr (Webhook.type row));
        ("condition", Webhook.condition row);
        ("callbackUrl", JStr (Webhook.callbackUrl row));
        ("status", JStr (Webhook.status row));
        ("cost", JNum (Webhook.cost row));
        ("createdAt", JDate (Webhook.createdAt row));
        ("updatedAt", JDate (Webhook.updatedAt row))].

Definition errorJson (d : ErrorData) : Json :=
  JObj (match message d with
        | Some m => [("message", JStr m)]
        | None => []
        end
        ++ match error d with
           | Some e => [("error", JStr e)]
           | None => []
           end).

(** [sub.cost || 0]. *)
Definition cost_or_zero (c : option Z) : Z := default 0%Z c.

(** The row written for a subscription reported by the provider;
    a subscription without [transport.callback] cannot be stored. *)
Definition webhook_of (now : Z) (userId : string) (callbackUrl : option string)
    (sub : Subscription) : Result Webhook.t :=
  match callbackUrl with
  | Some callbackUrl =>
      Ok {| Webhook.userId := userId;
            Webhook.subscriptionId := sub_id sub;
            Webhook.type := sub_type sub;
            Webhook.condition := sub_condition sub;
            Webhook.callbackUrl := callbackUrl;
            Webhook.status := sub_status sub;
            Webhook.cost := cost_or_zero (sub_cost sub);
            Webhook.createdAt := now;
            Webhook.updatedAt := now |}
  | None => Throw "Argument `callbackUrl` is missing."
  end.

Definition getAllWebhooks (w : World) (req : Request) (db : Db)
  : Response * Db :=
  let userId := user_userId req in
  let webhooks :=
    sort_desc (λ row : string * Webhook.t, Webhook.createdAt row.2)
      (Prisma.webhook_findMany db userId) in
  (json 200
     [("webhooks",
       JArr ((λ row : string * Webhook.t, webhookJson row.1 row.2)
               <$> webhooks))], db).

Definition createWebhook (w : World) (req : Request) (db : Db)
  : Response * Db :=
  try_catch
    (if negb (is_empty (errors req)) then Ok (validation_failed req, db)
     else
       let userId := user_userId req in
       let tokenId := body_tokenId req in
       let type := body_type req in
       let condition := body_condition req in
       let callbackUrl := body_callbackUrl req in
       match savedToken db !! tokenId with
       | None => Ok (not_found "Token not found", db)
       | Some token =>
           twitchConfig ← Prisma.include_twitchConfig db
                            (SavedToken.twitchConfigId token);
           if negb (String.eqb (SavedToken.userId token) userId) then
             Ok (forbidden "You do not have permission to use this token", db)
           else
             accessToken ←
               Encryption.decrypt (w_crypto w) (w_env w)
                 (SavedToken.accessToken token);
             let subscriptionData :=
               JObj [("type", JStr type);
                     ("version", JStr "1");
                     ("condition", condition);
                     ("transport",
                      JObj [("method", JStr "webhook");
                            ("callback", JStr callbackUrl);
                            ("secret", JStr (generateSecret w))])] in
             match post_eventsub (w_twitch w) accessToken
                     (TwitchConfig.clientId twitchConfig) subscriptionData with
             | Responded subscription =>
                 row ← webhook_of (w_now w) userId (Some callbackUrl)
                         subscription;
                 '(id, db') ← Prisma.webhook_create db row;
                 Ok (json 201
                       [("message",
                         JStr "EventSub subscription created successfully");
                        ("webhook", webhookJson id row)],
                     db')
             | Rejected status (Some data) =>
                 Ok (json (if (status =? 0)%Z then 500%Z else status)
                       [("error", JStr "Twitch API error");
                        ("message",
                         JStr (js_or_default (message data)
                                 "Failed to create EventSub subscription"));
                        ("details", errorJson data)],
                     db)
             | _ => Throw "Request failed"
             end
       end)
    (λ _, (server_error "Failed to create webhook", db)).

(** The request sent to the provider by [deleteWebhook]; its outcome is
    logged and otherwise ignored. *)
Definition deleteRemote (w : World) (token : SavedToken.t * TwitchConfig.t)
    (subscriptionId : string) : Result unit :=
  accessToken ← Encryption.decrypt (w_crypto w) (w_env w)
                  (SavedToken.accessToken token.1);
  match delete_eventsub (w_twitch w) accessToken
          (TwitchConfig.clientId token.2) subscriptionId with
  | Responded _ => Ok ()
  | _ => Throw "Request failed"
  end.

Definition deleteWebhook (w : World) (req : Request) (db : Db)
  : Response * Db :=
  try_catch
    (let userId := user_userId req in
     let id := params_id req in
     match webhook db !! id with
     | None => Ok (not_found "Webhook not found", db)
     | Some webhook =>
         if negb (String.eqb (Webhook.userId webhook) userId) then
           Ok (forbidden "You do not have permission to delete this webhook",
               db)
         else
           token ← Prisma.savedToken_findFirst db userId "user";
           let _ :=
             match token with
             | Some token =>
                 try_catch
                   (deleteRemote w token (Webhook.subscriptionId webhook))
                   (λ _, ())
             | None => ()
             end in
           db' ← Prisma.webhook_delete db id;
           Ok (json 200 [("message", JStr "Webhook deleted successfully")],
               db')
     end)
    (λ _, (server_error "Failed to delete webhook", db)).

(** The counters and the list of names that [syncWebhooks] accumulates. *)
Record Totals : Type := {
  totalImported : nat;
  totalUpdated : nat;
  totalRemoved : nat;
  totalSubscriptions : nat;
  configsSynced : list string;
}.

Definition zero : Totals :=
  {| totalImported := 0; totalUpdated := 0; totalRemoved := 0;
     totalSubscriptions := 0; configsSynced := [] |}.

Definition imported (t : Totals) : Totals :=
  {| totalImported := S (totalImported t); totalUpdated := totalUpdated t;
     totalRemoved := totalRemoved t;
     totalSubscriptions := totalSubscriptions t;
     configsSynced := configsSynced t |}.

Definition updated (t : Totals) : Totals :=
  {| totalImported := totalImported t; totalUpdated := S (totalUpdated t);
     totalRemoved := totalRemoved t;
     totalSubscriptions := totalSubscriptions t;
     configsSynced := configsSynced t |}.

Definition removed (t : Totals) : Totals :=
  {| totalImported := totalImported t; totalUpdated := totalUpdated t;
     totalRemoved := S (totalRemoved t);
     totalSubscriptions := totalSubscriptions t;
     configsSynced := configsSynced t |}.

Definition fetched (n : nat) (name : string) (t : Totals) : Totals :=
  {| totalImported := totalImported t; totalUpdated := totalUpdated t;
     totalRemoved := totalRemoved t;
     totalSubscriptions := totalSubscriptions t + n;
     configsSynced := configsSynced t ++ [name] |}.

(** State of a pass: the store, the totals, and whether the statement
    just run has thrown. Writes made before a throw stay. *)
Definition Pass : Type := Db * Totals * bool.

(** [data] of the [updateMany] in the import loop. *)
Definition overwrite (now : Z) (sub : Subscription) (row : Webhook.t)
  : Webhook.t :=
  {| Webhook.userId := Webhook.userId row;
     Webhook.subscriptionId := Webhook.subscriptionId row;
     Webhook.type := Webhook.type row;
     Webhook.condition := sub_condition sub;
     Webhook.callbackUrl := Webhook.callbackUrl row;
     Webhook.status := sub_status sub;
     Webhook.cost := cost_or_zero (sub_cost sub);
     Webhook.createdAt := Webhook.createdAt row;
     Webhook.updatedAt := now |}.

(** [for (const sub of remoteSubscriptions) { ... }]; the result's flag is
    [false] when a statement of the loop has thrown. *)
Fixpoint importLoop (now : Z) (userId : string)
    (localSubscriptionIds : gset string) (remote : list Subscription)
    (db : Db) (t : Totals) : Pass :=
  match remote with
  | [] => (db, t, true)
  | sub :: rest =>
      if bool_decide (sub_id sub ∉ localSubscriptionIds) then
        match row ← webhook_of now userId (sub_callback sub) sub;
              Prisma.webhook_create db row with
        | Ok (_, db') =>
            importLoop now userId localSubscriptionIds rest db' (imported t)
        | Throw _ => (db, t, false)
        end
      else
        importLoop now userId localSubscriptionIds rest
          (Prisma.webhook_updateMany db userId (sub_id sub)
             (overwrite now sub))
          (updated t)
  end.

(** [for (const localWebhook of localWebhooks) { ... }]. *)
Fixpoint removeLoop (remoteSubscriptionIds : gset string)
    (localWebhooks : list (string * Webhook.t)) (db : Db) (t : Totals)
  : Pass :=
  match localWebhooks with
  | [] => (db, t, true)
  | localWebhook :: rest =>
      if bool_decide (Webhook.subscriptionId localWebhook.2
                      ∉ remoteSubscriptionIds) then
        match Prisma.webhook_delete db localWebhook.1 with
        | Ok db' => removeLoop remoteSubscriptionIds rest db' (removed t)
        | Throw _ => (db, t, false)
        end
      else removeLoop remoteSubscriptionIds rest db t
  end.

(** The reconciliation against one remote list: the body of the outer
    loop after the list has been fetched. *)
Definition reconcile (now : Z) (userId : string) (configName : string)
    (remoteSubscriptions : list Subscription) (db : Db) (t : Totals)
  : Db * Totals :=
  let t := fetched (length remoteSubscriptions) configName t in
  let localWebhooks := Prisma.webhook_findMany db userId in
  let localSubscriptionIds : gset string :=
    list_to_set ((λ w : string * Webhook.t, Webhook.subscriptionId w.2)
                   <$> localWebhooks) in
  match importLoop now userId localSubscriptionIds remoteSubscriptions db t
  with
  | (db, t, false) => (db, t)
  | (db, t, true) =>
      let remoteSubscriptionIds : gset string :=
        list_to_set (sub_id <$> remoteSubscriptions) in
      (removeLoop remoteSubscriptionIds localWebhooks db t).1
  end.

(** The remote list as the controller reads it: [response.data.data] of
    one list request sent without a cursor. *)
Definition fetchRemote (w : World) (accessToken clientId : string)
  : Result (list Subscription) :=
  match get_eventsub (w_twitch w) accessToken clientId None with
  | Responded page => Ok (page_data page)
  | _ => Throw "Request failed"
  end.

(** One iteration of [for (const token of tokens)]: any throw is caught
    and the pass goes on with the next token. *)
Definition syncToken (w : World) (userId : string)
    (token : SavedToken.t * TwitchConfig.t) (st : Db * Totals)
  : Db * Totals :=
  match
    accessToken ← Encryption.decrypt (w_crypto w) (w_env w)
                    (SavedToken.accessToken token.1);
    fetchRemote w accessToken (TwitchConfig.clientId token.2)
  with
  | Ok remoteSubscriptions =>
      reconcile (w_now w) userId
        (js_or_default (TwitchConfig.name token.2)
           (TwitchConfig.clientId token.2))
        remoteSubscriptions st.1 st.2
  | Throw _ => st
  end.

(** [savedToken.findMany({ where: { userId, tokenType: 'app',
    ...(configId && { twitchConfigId: configId }) }, include:
    { twitchConfig: true } })]. *)
Definition appTokens (db : Db) (userId : string) (configId : option string)
  : Result (list (SavedToken.t * TwitchConfig.t)) :=
  mapM (λ row : string * SavedToken.t,
          c ← Prisma.include_twitchConfig db
                (SavedToken.twitchConfigId row.2);
          Ok (row.2, c))
       (filter (λ row : string * SavedToken.t,
                  SavedToken.userId row.2 = userId
                  ∧ SavedToken.tokenType row.2 = "app"
                  ∧ (truthy configId = true →
                     Some (SavedToken.twitchConfigId row.2) = configId))
               (map_to_list (savedToken db))).

Definition syncWebhooks (w : World) (req : Request) (db : Db)
  : Response * Db :=
  try_catch
    (let userId := user_userId req in
     let configId := body_configId req in
     tokens ← appTokens db userId configId;
     if is_empty tokens then
       Ok (not_found
             (if truthy configId
              then "No app token found for this configuration."
              else "No app tokens found. Create an app token first to sync subscriptions."),
           db)
     else
       let '(db', t) := foldl (λ st token, syncToken w userId token st)
                          (db, zero) tokens in
       Ok (json 200
             [("message", JStr "Webhooks synchronized successfully");
              ("imported", JNum (Z.of_nat (totalImported t)));
              ("updated", JNum (Z.of_nat (totalUpdated t)));
              ("removed", JNum (Z.of_nat (totalRemoved t)));
              ("total", JNum (Z.of_nat (totalSubscriptions t)));
              ("configsSynced", JStr (join_with ", " (configsSynced t)))],
           db'))
    (λ _, (server_error "Failed to sync webhooks", db)).

End WebhookController.

(** ** Notions used to state the properties *)

(** A device-flow poll on a credential set owned by the requester for
    which the provider client reports "still pending". *)
Definition pending_poll (db : Db) (wr : World * Request) : Prop :=
  errors wr.2 = []
  ∧ ∃ cfg, twitchConfig db !! body_twitchConfigId wr.2 = Some cfg
           ∧ TwitchConfig.userId cfg = user_userId wr.2
           ∧ TwitchApiService.pollDeviceToken (w_twitch wr.1)
               (TwitchConfig.clientId cfg) (body_deviceCode wr.2) = Ok None.

(** The store after a sequence of poll requests. *)
Definition after_polls (db : Db) (polls : list (World * Request)) : Db :=
  foldl (λ d wr, (TokenController.pollUserToken wr.1 wr.2 d).2) db polls.

(** The error that the body of a rejection reports: its [message] when
    that is a non-empty string, and otherwise its [error]. *)
Definition reports (data : option ErrorData) (e : string) : Prop :=
  ∃ d, data = Some d
       ∧ (message d = Some e ∧ e ≠ ""
          ∨ (message d = None ∨ message d = Some "") ∧ error d = Some e).

(** An instant that a [Date] can hold. *)
Definition representable (t : Z) : Prop :=
  (-8640000000000000 ≤ t ≤ 8640000000000000)%Z.

(** The instant at which a wall-clock reading [seconds] seconds after the
    present one is taken to occur, in the time zone of the server. *)
Definition wall_clock_later (w : World) (seconds : Z) : Z :=
  let reading := (w_now w + w_localTZA w (w_now w) true + seconds * 1000)%Z in
  (reading - w_localTZA w reading false)%Z.

(** The crypto platform of a world behaves, and the master key is set. *)
Definition codec_ready (w : World) : Prop :=
  truthy (ENCRYPTION_KEY (w_env w)) = true
  ∧ Encryption.gcm_correct (w_crypto w)
  ∧ Encryption.pbkdf2_length (w_crypto w).

(** The text of an envelope: the four fields in hexadecimal, joined by
    colons. *)
Definition envelope (salt iv tag data : list byte) : string :=
  to_hex salt +:+ ":" +:+ to_hex iv +:+ ":" +:+ to_hex tag +:+ ":"
  +:+ to_hex data.

(** The rows of one owner, as selected by [where: { userId }]. *)
Definition tokens_of (db : Db) (userId : string)
  : list (string * SavedToken.t) :=
  filter (λ row : string * SavedToken.t, SavedToken.userId row.2 = userId)
         (map_to_list (savedToken db)).

(** A row with its secrets blanked, and two stores that agree on
    everything but the stored secret values. *)
Definition redact_token (t : SavedToken.t) : SavedToken.t :=
  {| SavedToken.userId := SavedToken.userId t;
     SavedToken.twitchConfigId := SavedToken.twitchConfigId t;
     SavedToken.tokenType := SavedToken.tokenType t;
     SavedToken.accessToken := "";
     SavedToken.refreshToken := None;
     SavedToken.scopes := SavedToken.scopes t;
     SavedToken.channelLogin := SavedToken.channelLogin t;
     SavedToken.channelId := SavedToken.channelId t;
     SavedToken.name := SavedToken.name t;
     SavedToken.expiresAt := SavedToken.expiresAt t;
     SavedToken.createdAt := SavedToken.createdAt t;
     SavedToken.updatedAt := SavedToken.updatedAt t |}.

Definition redact_config (c : TwitchConfig.t) : TwitchConfig.t :=
  {| TwitchConfig.userId := TwitchConfig.userId c;
     TwitchConfig.clientId := TwitchConfig.clientId c;
     TwitchConfig.clientSecret := "";
     TwitchConfig.name := TwitchConfig.name c;
     TwitchConfig.createdAt := TwitchConfig.createdAt c;
     TwitchConfig.updatedAt := TwitchConfig.updatedAt c |}.

Definition same_public (db1 db2 : Db) : Prop :=
  redact_token <$> savedToken db1 = redact_token <$> savedToken db2
  ∧ redact_config <$> twitchConfig db1 = redact_config <$> twitchConfig db2.

(** Property names of a JSON object, and the value of one of them. *)
Definition keys (j : Json) : list string :=
  match j with
  | JObj fields => fields.*1
  | _ => []
  end.

Definition field (k : string) (j : Json) : option Json :=
  match j with
  | JObj fields => snd <$> find (λ kv : string * Json, String.eqb kv.1 k) fields
  | _ => None
  end.

(** The shape of one element of the token list. *)
Definition listed_view (j : Json) : Prop :=
  keys j = ["id"; "tokenType"; "scopes"; "channelLogin"; "channelId"; "name";
            "expiresAt"; "createdAt"; "updatedAt"; "twitchConfig"]
  ∧ ∃ c, field "twitchConfig" j = Some c ∧ keys c = ["id"; "clientId"; "name"].

(** The array sent by [getAllTokens]. *)
Definition listing (db : Db) (userId : string) : Result (list Json) :=
  mapM (λ row : string * SavedToken.t,
          c ← Prisma.select_twitchConfig db (SavedToken.twitchConfigId row.2);
          Ok (TokenController.sanitized row.1 row.2 c))
       (sort_desc (λ row : string * SavedToken.t, SavedToken.createdAt row.2)
          (tokens_of db userId)).

(** ** Notions used to state the reconciliation properties *)

(** Provider ids of the rows one user holds locally, and of a remote
    list. *)
Definition localIds (db : Db) (userId : string) : gset string :=
  list_to_set ((λ w : string * Webhook.t, Webhook.subscriptionId w.2)
                 <$> Prisma.webhook_findMany db userId).

Definition remoteIds (remote : list Subscription) : gset string :=
  list_to_set (sub_id <$> remote).

(** Some row of the table, of whatever owner, carries the provider id. *)
Definition held (table : gmap string Webhook.t) (subscriptionId : string)
  : Prop :=
  ∃ id row, table !! id = Some row
            ∧ Webhook.subscriptionId row = subscriptionId.

(** What the successive [updateMany] calls of the import loop make of a
    row. *)
Fixpoint applyUpdates (now : Z) (userId : string) (L : gset string)
    (remote : list Subscription) (row : Webhook.t) : Webhook.t :=
  match remote with
  | [] => row
  | sub :: rest =>
      applyUpdates now userId L rest
        (if bool_decide (sub_id sub ∈ L
                         ∧ Webhook.userId row = userId
                         ∧ Webhook.subscriptionId row = sub_id sub)
         then WebhookController.overwrite now sub row else row)
  end.

(** The row created for a remote subscription. *)
Definition imported_row (now : Z) (userId : string) (sub : Subscription)
    (callbackUrl : string) : Webhook.t :=
  {| Webhook.userId := userId;
     Webhook.subscriptionId := sub_id sub;
     Webhook.type := sub_type sub;
     Webhook.condition := sub_condition sub;
     Webhook.callbackUrl := callbackUrl;
     Webhook.status := sub_status sub;
     Webhook.cost := default 0%Z (sub_cost sub);
     Webhook.createdAt := now;
     Webhook.updatedAt := now |}.

(** A remote list that the store can take in without any statement
    failing: provider ids are pairwise distinct, and each subscription
    missing locally has a webhook callback and a provider id that no row
    of the table carries yet. *)
Definition importable (db : Db) (L : gset string)
    (remote : list Subscription) : Prop :=
  NoDup (sub_id <$> remote)
  ∧ ∀ sub, sub ∈ remote → sub_id sub ∉ L →
      is_Some (sub_callback sub) ∧ ¬ held (webhook db) (sub_id sub).

(** A remote list that one user's pass can reconcile: provider ids are
    pairwise distinct, every subscription has a webhook callback, and no
    row of another user carries one of the ids. *)
Definition syncable (db : Db) (userId : string) (remote : list Subscription)
  : Prop :=
  NoDup (sub_id <$> remote)
  ∧ (∀ sub, sub ∈ remote → is_Some (sub_callback sub))
  ∧ (∀ id row, webhook db !! id = Some row →
       Webhook.subscriptionId row ∈ remoteIds remote →
       Webhook.userId row = userId).

(** The access secret of the token decrypts and the provider answers the
    list request with [remote]. *)
Definition fetches (w : World) (token : SavedToken.t * TwitchConfig.t)
    (remote : list Subscription) : Prop :=
  ∃ accessToken,
    Encryption.decrypt (w_crypto w) (w_env w) (SavedToken.accessToken token.1)
    = Ok accessToken
    ∧ WebhookController.fetchRemote w accessToken (TwitchConfig.clientId token.2)
      = Ok remote.

Definition configName (token : SavedToken.t * TwitchConfig.t) : string :=
  js_or_default (TwitchConfig.name token.2) (TwitchConfig.clientId token.2).

(** The answer of a completed pass. *)
Definition report (t : WebhookController.Totals) : Response :=
  json 200
    [("message", JStr "Webhooks synchronized successfully");
     ("imported", JNum (Z.of_nat (WebhookController.totalImported t)));
     ("updated", JNum (Z.of_nat (WebhookController.totalUpdated t)));
     ("removed", JNum (Z.of_nat (WebhookController.totalRemoved t)));
     ("total", JNum (Z.of_nat (WebhookController.totalSubscriptions t)));
     ("configsSynced",
      JStr (join_with ", " (WebhookController.configsSynced t)))].

(** Follows the spec's words: "accumulate until the provider signals no
    further pages".  The list requests are repeated with the cursor of the
    previous page, at most [fuel] times. *)
Fixpoint allPages (fuel : nat) (w : World) (accessToken clientId : string)
    (after : option string) : Result (list Subscription) :=
  match fuel with
  | 0 => Throw "too many pages"
  | S fuel =>
      match get_eventsub (w_twitch w) accessToken clientId after with
      | Responded page =>
          match page_cursor page with
          | Some cursor =>
              rest ← allPages fuel w accessToken clientId (Some cursor);
              Ok (page_data page ++ rest)
          | None => Ok (page_data page)
          end
      | _ => Throw "Request failed"
      end
  end.

(** ** The operations that look a resource up by id *)

Inductive Operation : Type :=
| GetToken | GenerateAppToken | DeleteToken | StartUserToken | PollUserToken
| StartAuthorizationFlow | HandleAuthorizationCallback | ValidateSavedToken
| RefreshToken | GetConfig | UpdateConfig | DeleteConfig | CreateWebhook.

Definition handler (op : Operation) : World → Request → Db → Response * Db :=
  match op with
  | GetToken => TokenController.getToken
  | GenerateAppToken => TokenController.generateAppToken
  | DeleteToken => TokenController.deleteToken
  | StartUserToken => TokenController.startUserToken
  | PollUserToken => TokenController.pollUserToken
  | StartAuthorizationFlow => TokenController.startAuthorizationFlow
  | HandleAuthorizationCallback => TokenController.handleAuthorizationCallback
  | ValidateSavedToken => TokenController.validateSavedToken
  | RefreshToken => TokenController.refreshToken
  | GetConfig => TwitchConfigController.getConfig
  | UpdateConfig => TwitchConfigController.updateConfig
  | DeleteConfig => TwitchConfigController.deleteConfig
  | CreateWebhook => WebhookController.createWebhook
  end.

(** The owner of the TokenRecord or CredentialSet that the request
    designates; [None] when no such row exists. *)
Definition resource_owner (op : Operation) (req : Request) (db : Db)
  : option string :=
  match op with
  | GetToken | DeleteToken | ValidateSavedToken | RefreshToken =>
      SavedToken.userId <$> savedToken db !! params_id req
  | CreateWebhook => SavedToken.userId <$> savedToken db !! body_tokenId req
  | GenerateAppToken | StartUserToken | PollUserToken
  | StartAuthorizationFlow | HandleAuthorizationCallback =>
      TwitchConfig.userId <$> twitchConfig db !! body_twitchConfigId req
  | GetConfig | UpdateConfig | DeleteConfig =>
      TwitchConfig.userId <$> twitchConfig db !! params_id req
  end.

(** The two handlers of the authorization-code flow test existence and
    ownership in one condition. *)
Definition merged_guard (op : Operation) : bool :=
  match op with
  | StartAuthorizationFlow | HandleAuthorizationCallback => true
  | _ => false
  end.

(** The foreign key of [saved_tokens] on [twitch_configs]. *)
Definition references_intact (db : Db) : Prop :=
  map_Forall (λ _ token,
                is_Some (twitchConfig db !! SavedToken.twitchConfigId token))
             (savedToken db).


(** ** The endpoints as one family *)

Module Api.

(** The handlers of the token, credential-set and webhook controllers
    that the statements below range over.  [updateConfig],
    [validateConfig], [getEventSubTypes] and [getRemoteWebhooks] are not
    among them. *)
Inductive Endpoint : Type :=
| GetAllTokens | GetToken | GenerateAppToken | DeleteToken | StartUserToken
| PollUserToken | StartAuthorizationFlow | HandleAuthorizationCallback
| ValidateSavedToken | RefreshToken
| GetAllConfigs | GetConfig | CreateConfig | DeleteConfig
| GetAllWebhooks | CreateWebhook | DeleteWebhook | SyncWebhooks.

Definition serve (e : Endpoint) : World → Request → Db → Response * Db :=
  match e with
  | GetAllTokens => TokenController.getAllTokens
  | GetToken => TokenController.getToken
  | GenerateAppToken => TokenController.generateAppToken
  | DeleteToken => TokenController.deleteToken
  | StartUserToken => TokenController.startUserToken
  | PollUserToken => TokenController.pollUserToken
  | StartAuthorizationFlow => TokenController.startAuthorizationFlow
  | HandleAuthorizationCallback =>
      TokenController.handleAuthorizationCallback
  | ValidateSavedToken => TokenController.validateSavedToken
  | RefreshToken => TokenController.refreshToken
  | GetAllConfigs => TwitchConfigController.getAllConfigs
  | GetConfig => TwitchConfigController.getConfig
  | CreateConfig => TwitchConfigController.createConfig
  | DeleteConfig => TwitchConfigController.deleteConfig
  | GetAllWebhooks => WebhookController.getAllWebhooks
  | CreateWebhook => WebhookController.createWebhook
  | DeleteWebhook => WebhookController.deleteWebhook
  | SyncWebhooks => WebhookController.syncWebhooks
  end.

(** The endpoints whose handler contains a write to the store. *)
Definition writes (e : Endpoint) : bool :=
  match e with
  | GenerateAppToken | DeleteToken | PollUserToken
  | HandleAuthorizationCallback | RefreshToken
  | CreateConfig | DeleteConfig
  | CreateWebhook | DeleteWebhook | SyncWebhooks => true
  | _ => false
  end.

End Api.

(** What a store holds of the users other than [userId]. *)
Definition others (userId : string) (db : Db) : Db :=
  {| twitchConfig :=
       filter (λ row : string * TwitchConfig.t,
                 TwitchConfig.userId row.2 ≠ userId) (twitchConfig db);
     savedToken :=
       filter (λ row : string * SavedToken.t,
                 SavedToken.userId row.2 ≠ userId) (savedToken db);
     webhook :=
       filter (λ row : string * Webhook.t,
                 Webhook.userId row.2 ≠ userId) (webhook db) |}.

(** The change that one request of [userId] makes to the store, a pass
    of [syncWebhooks] apart: at most one row, which is owned by
    [userId]. *)
Inductive Change (userId : string) (db : Db) : Db → Prop :=
| Unchanged : Change userId db db
| TokenCreated (row : SavedToken.t) (config : TwitchConfig.t) :
    twitchConfig db !! SavedToken.twitchConfigId row = Some config →
    TwitchConfig.userId config = userId →
    SavedToken.userId row = userId →
    Change userId db (Prisma.savedToken_create db row).2
| TokenRenewed (id : string) (old new : SavedToken.t) :
    savedToken db !! id = Some old →
    SavedToken.userId old = userId →
    SavedToken.userId new = userId →
    SavedToken.twitchConfigId new = SavedToken.twitchConfigId old →
    Change userId db
      {| twitchConfig := twitchConfig db;
         savedToken := <[id := new]> (savedToken db);
         webhook := webhook db |}
| TokenDeleted (id : string) (old : SavedToken.t) :
    savedToken db !! id = Some old →
    SavedToken.userId old = userId →
    Change userId db
      {| twitchConfig := twitchConfig db;
         savedToken := delete id (savedToken db);
         webhook := webhook db |}
| ConfigCreated (row : TwitchConfig.t) :
    TwitchConfig.userId row = userId →
    Prisma.twitchConfig_findByClientId db userId (TwitchConfig.clientId row)
    = None →
    Change userId db
      {| twitchConfig :=
           <[Prisma.new_id (twitchConfig db) := row]> (twitchConfig db);
         savedToken := savedToken db;
         webhook := webhook db |}
| ConfigDeleted (id : string) (old : TwitchConfig.t) :
    twitchConfig db !! id = Some old →
    TwitchConfig.userId old = userId →
    Prisma.count_savedTokens db id = 0 →
    Change userId db
      {| twitchConfig := delete id (twitchConfig db);
         savedToken := savedToken db;
         webhook := webhook db |}
| WebhookCreated (row : Webhook.t) :
    Webhook.userId row = userId →
    ¬ held (webhook db) (Webhook.subscriptionId row) →
    Change userId db
      {| twitchConfig := twitchConfig db;
         savedToken := savedToken db;
         webhook := <[Prisma.new_id (webhook db) := row]> (webhook db) |}
| WebhookDeleted (id : string) (old : Webhook.t) :
    webhook db !! id = Some old →
    Webhook.userId old = userId →
    Change userId db
      {| twitchConfig := twitchConfig db;
         savedToken := savedToken db;
         webhook := delete id (webhook db) |}.

(** ** The constraints on the store

    Those of the schema (the foreign key of [saved_tokens], the unique
    indexes on [webhooks.subscriptionId] and on [twitch_configs (userId,
    clientId)]), and one that only the handlers maintain: a token and the
    credential set it was issued under have the same owner. *)
Definition unique_subscriptions (db : Db) : Prop :=
  ∀ id1 id2 row1 row2,
    webhook db !! id1 = Some row1 → webhook db !! id2 = Some row2 →
    Webhook.subscriptionId row1 = Webhook.subscriptionId row2 → id1 = id2.

Definition unique_clientIds (db : Db) : Prop :=
  ∀ id1 id2 row1 row2,
    twitchConfig db !! id1 = Some row1 → twitchConfig db !! id2 = Some row2 →
    TwitchConfig.userId row1 = TwitchConfig.userId row2 →
    TwitchConfig.clientId row1 = TwitchConfig.clientId row2 → id1 = id2.

Definition same_owner (db : Db) : Prop :=
  ∀ id token config,
    savedToken db !! id = Some token →
    twitchConfig db !! SavedToken.twitchConfigId token = Some config →
    TwitchConfig.userId config = SavedToken.userId token.

Definition consistent (db : Db) : Prop :=
  references_intact db ∧ same_owner db
  ∧ unique_subscriptions db ∧ unique_clientIds db.

(** The store a handler leaves: changed as [Change] says, and left as it
    was unless the answer is 200 or 201. *)
Definition effect (userId : string) (db : Db) (r : Response * Db) : Prop :=
  Change userId db r.2 ∧ (r.2 = db ∨ status r.1 = 200%Z ∨ status r.1 = 201%Z).

(** What a pass of [syncWebhooks] for [userId] keeps of the store: the
    tables of credential sets and tokens, the webhook rows of the other
    users, and the uniqueness of the provider ids. *)
Definition kept (userId : string) (db db' : Db) : Prop :=
  twitchConfig db' = twitchConfig db
  ∧ savedToken db' = savedToken db
  ∧ webhook (others userId db') = webhook (others userId db)
  ∧ (unique_subscriptions db → unique_subscriptions db').

(** [s.includes(c)] for a character [c]. *)
Fixpoint includes (c : ascii) (s : string) : bool :=
  match s with
  | EmptyString => false
  | String x rest => Ascii.eqb x c || includes c rest
  end.

(** A list in descending order of [key]. *)
Definition newest_first {A} (key : A → Z) (l : list A) : Prop :=
  ∀ i j a b, i < j → l !! i = Some a → l !! j = Some b → (key b ≤ key a)%Z.

(** ** Accounts and sessions

    The embedding of [server/src/utils/jwt.ts],
    [server/src/middleware/validators.ts],
    [server/src/middleware/authMiddleware.ts] and
    [server/src/controllers/authController.ts].  These handlers use the
    table of users only, so they are functions of that table.  In a text
    submitted by a client each character stands for one UTF-16 code unit
    below 256. *)

(** *** Regular expressions

    The fragment of JavaScript's regular expressions that the validators
    use, matched against a whole string (the expressions are anchored at
    both ends) by derivatives. *)
Inductive Regex : Type :=
| Void
| Eps
| Class (p : ascii → bool)
| Cat (r s : Regex)
| Alt (r s : Regex)
| Star (r : Regex).

(** [r+]. *)
Definition Plus (r : Regex) : Regex := Cat r (Star r).

Fixpoint nullable (r : Regex) : bool :=
  match r with
  | Void => false
  | Eps => true
  | Class _ => false
  | Cat r s => nullable r && nullable s
  | Alt r s => nullable r || nullable s
  | Star _ => true
  end.

Fixpoint deriv (c : ascii) (r : Regex) : Regex :=
  match r with
  | Void => Void
  | Eps => Void
  | Class p => if p c then Eps else Void
  | Cat r s =>
      if nullable r then Alt (Cat (deriv c r) s) (deriv c s)
      else Cat (deriv c r) s
  | Alt r s => Alt (deriv c r) (deriv c s)
  | Star r => Cat (deriv c r) (Star r)
  end.

(** [/^r$/.test(s)]. *)
Fixpoint test (r : Regex) (s : string) : bool :=
  match s with
  | EmptyString => nullable r
  | String c rest => test (deriv c r) rest
  end.

(** The class [\s] on code units below 256: tab, line feed, vertical tab,
    form feed, carriage return, space and no-break space. *)
Definition is_space (c : ascii) : bool :=
  let n := N_of_ascii c in
  ((9 <=? n) && (n <=? 13))%N || (n =? 32)%N || (n =? 160)%N.

(** The strings over a class of characters, as the expressions denote
    them. *)
Fixpoint all_in (p : ascii → bool) (s : string) : bool :=
  match s with
  | EmptyString => true
  | String c rest => p c && all_in p rest
  end.

Module Validators.

(** [[^\s@]]. *)
Definition plain (c : ascii) : bool :=
  negb (is_space c || Ascii.eqb c "@").

(** [/^[^\s@]+@[^\s@]+\.[^\s@]+$/]. *)
Definition emailRegex : Regex :=
  Cat (Plus (Class plain))
    (Cat (Class (λ c, Ascii.eqb c "@"))
       (Cat (Plus (Class plain))
          (Cat (Class (λ c, Ascii.eqb c "."))
             (Plus (Class plain))))).

Definition isValidEmail (email : string) : bool := test emailRegex email.

Definition isValidPassword (password : string) : bool :=
  Nat.leb 6 (String.length password).

Definition rejected (messages : list string) : Response :=
  json 400 [("error", JStr "Validation Error");
            ("messages", jstrings messages)].

(** A middleware returns [None] when it calls [next()]. *)
Definition validateRegister (email password : option string)
  : option Response :=
  let errors :=
    (if negb (truthy email) then ["Email is required"]
     else if negb (isValidEmail (default "" email))
          then ["Invalid email format"] else [])
    ++ (if negb (truthy password) then ["Password is required"]
        else if negb (isValidPassword (default "" password))
             then ["Password must be at least 6 characters long"] else [])
  in
  if negb (is_empty errors) then Some (rejected errors) else None.

Definition validateLogin (email password : option string)
  : option Response :=
  let errors :=
    (if negb (truthy email) then ["Email is required"] else [])
    ++ (if negb (truthy password) then ["Password is required"] else [])
  in
  if negb (is_empty errors) then Some (rejected errors) else None.

End Validators.

(** The strings that an expression matches. *)
Inductive Matches : Regex → string → Prop :=
| MEps : Matches Eps ""
| MClass p c : p c = true → Matches (Class p) (String c "")
| MCat r s a b : Matches r a → Matches s b → Matches (Cat r s) (a +:+ b)
| MAltL r s a : Matches r a → Matches (Alt r s) a
| MAltR r s a : Matches s a → Matches (Alt r s) a
| MStarNil r : Matches (Star r) ""
| MStarApp r a b :
    Matches r a → Matches (Star r) b → Matches (Star r) (a +:+ b).

(** *** The table of users, [bcryptjs] and [jsonwebtoken] *)

Module User.
Record t : Type := {
  email : string;
  password : string;
  name : option string;
  createdAt : Z;
  updatedAt : Z;
}.
End User.

Abbreviation Users := (gmap string User.t).

Record JwtPayload : Type := {
  jwt_userId : string;
  jwt_email : string;
}.

(** [bcrypt.hash(password, rounds)] draws its salt from the entropy given
    as third argument; [jwt.sign(payload, secret, { expiresIn })] and
    [jwt.verify(token, secret)] read the clock, and both may throw.  A
    verified token is taken to carry a payload of the expected shape. *)
Record Platform : Type := {
  bcrypt_hash : string → nat → list byte → string;
  bcrypt_compare : string → string → bool;
  jwt_sign : JwtPayload → string → string → Z → Result string;
  jwt_verify : string → string → Z → Result JwtPayload;
}.

Record AuthEnv : Type := {
  env_JWT_SECRET : option string;
  env_JWT_EXPIRE : option string;
  env_REFRESH_TOKEN_EXPIRE : option string;
}.

Record AuthWorld : Type := {
  a_platform : Platform;
  a_env : AuthEnv;
  a_rng : Rng;
  a_now : Z;
}.

Module Jwt.

Definition JWT_SECRET (w : AuthWorld) : string :=
  js_or_default (env_JWT_SECRET (a_env w)) "your-secret-key".

Definition JWT_EXPIRE (w : AuthWorld) : string :=
  js_or_default (env_JWT_EXPIRE (a_env w)) "7d".

Definition REFRESH_TOKEN_EXPIRE (w : AuthWorld) : string :=
  js_or_default (env_REFRESH_TOKEN_EXPIRE (a_env w)) "30d".

Definition generateAccessToken (w : AuthWorld) (payload : JwtPayload)
  : Result string :=
  jwt_sign (a_platform w) payload (JWT_SECRET w) (JWT_EXPIRE w) (a_now w).

Definition generateRefreshToken (w : AuthWorld) (payload : JwtPayload)
  : Result string :=
  jwt_sign (a_platform w) payload (JWT_SECRET w) (REFRESH_TOKEN_EXPIRE w)
    (a_now w).

Definition verifyToken (w : AuthWorld) (token : string) : Result JwtPayload :=
  match jwt_verify (a_platform w) token (JWT_SECRET w) (a_now w) with
  | Ok payload => Ok payload
  | Throw _ => Throw "Invalid or expired token"
  end.

Definition generateTokens (w : AuthWorld) (payload : JwtPayload)
  : Result (string * string) :=
  accessToken ← generateAccessToken w payload;
  refreshToken ← generateRefreshToken w payload;
  Ok (accessToken, refreshToken).

End Jwt.

Module AuthMiddleware.

Definition unauthorized (message : string) : Response :=
  json 401 [("error", JStr "Unauthorized"); ("message", JStr message)].

(** The answer sent, or the payload attached to the request handed to
    [next()]. *)
Definition authMiddleware (w : AuthWorld) (authorization : option string)
  : Response + JwtPayload :=
  try_catch
    (match authorization with
     | Some authHeader =>
         if negb (truthy authorization)
            || negb (String.prefix "Bearer " authHeader)
         then Ok (inl (unauthorized "No token provided"))
         else
           let token :=
             String.substring 7 (String.length authHeader - 7) authHeader in
           decoded ← Jwt.verifyToken w token;
           Ok (inr decoded)
     | None => Ok (inl (unauthorized "No token provided"))
     end)
    (λ _, inl (unauthorized "Invalid or expired token")).

End AuthMiddleware.

Record AuthRequest : Type := {
  auth_email : option string;
  auth_password : option string;
  auth_name : option string;
  auth_refreshToken : option string;
  auth_user : option JwtPayload;
}.

Module AuthController.

Definition user_findByEmail (users : Users) (email : string)
  : option (string * User.t) :=
  find (λ row : string * User.t, String.eqb (User.email row.2) email)
       (map_to_list users).

(** [user.create]: [email] carries a unique index. *)
Definition user_create (users : Users) (row : User.t)
  : Result (string * Users) :=
  if bool_decide (is_Some (user_findByEmail users (User.email row)))
  then Throw "Unique constraint failed on the fields: (`email`)"
  else
    let id := Prisma.new_id users in
    Ok (id, <[id := row]> users).

Definition sessionJson (id : string) (user : User.t)
    (tokens : string * string) : list (string * Json) :=
  [("user", JObj [("id", JStr id);
                  ("email", JStr (User.email user));
                  ("name", jopt (User.name user));
                  ("createdAt", JDate (User.createdAt user))]);
   ("accessToken", JStr tokens.1);
   ("refreshToken", JStr tokens.2)].

Definition failure (message : string) : Response :=
  json 500 [("error", JStr "Internal Server Error");
            ("message", JStr message)].

(** The row is written before the tokens are signed, so a failure of
    the signature leaves the row. *)
Definition register (w : AuthWorld) (req : AuthRequest) (users : Users)
  : Response * Users :=
  try_catch
    (let email := auth_email req in
     let password := auth_password req in
     let name := auth_name req in
     if negb (truthy email) || negb (truthy password) then
       Ok (json 400 [("error", JStr "Validation Error");
                     ("message", JStr "Email and password are required")],
           users)
     else
       let email := default "" email in
       let password := default "" password in
       if bool_decide (is_Some (user_findByEmail users email)) then
         Ok (json 409 [("error", JStr "Conflict");
                       ("message",
                        JStr "User with this email already exists")],
             users)
       else
         let hashedPassword :=
           bcrypt_hash (a_platform w) password 12
             (randomBytes 16 (a_rng w)).1 in
         let user :=
           {| User.email := email;
              User.password := hashedPassword;
              User.name := or_null name;
              User.createdAt := a_now w;
              User.updatedAt := a_now w |} in
         '(id, users') ← user_create users user;
         Ok (try_catch
               (tokens ← Jwt.generateTokens w
                           {| jwt_userId := id; jwt_email := email |};
                Ok (json 201 (sessionJson id user tokens), users'))
               (λ _, (failure "Failed to register user", users'))))
    (λ _, (failure "Failed to register user", users)).

Definition login (w : AuthWorld) (req : AuthRequest) (users : Users)
  : Response * Users :=
  try_catch
    (let email := auth_email req in
     let password := auth_password req in
     if negb (truthy email) || negb (truthy password) then
       Ok (json 400 [("error", JStr "Validation Error");
                     ("message", JStr "Email and password are required")],
           users)
     else
       let email := default "" email in
       let password := default "" password in
       match user_findByEmail users email with
       | None =>
           Ok (AuthMiddleware.unauthorized "Invalid email or password",
               users)
       | Some (id, user) =>
           if negb (bcrypt_compare (a_platform w) password
                      (User.password user)) then
             Ok (AuthMiddleware.unauthorized "Invalid email or password",
                 users)
           else
             tokens ← Jwt.generateTokens w
                         {| jwt_userId := id;
                            jwt_email := User.email user |};
             Ok (json 200 (sessionJson id user tokens), users)
       end)
    (λ _, (failure "Failed to login", users)).

Definition refresh (w : AuthWorld) (req : AuthRequest) (users : Users)
  : Response * Users :=
  try_catch
    (let refreshToken := auth_refreshToken req in
     if negb (truthy refreshToken) then
       Ok (json 400 [("error", JStr "Validation Error");
                     ("message", JStr "Refresh token is required")],
           users)
     else
       decoded ← Jwt.verifyToken w (default "" refreshToken);
       tokens ← Jwt.generateTokens w
                   {| jwt_userId := jwt_userId decoded;
                      jwt_email := jwt_email decoded |};
       Ok (json 200 [("accessToken", JStr tokens.1);
                     ("refreshToken", JStr tokens.2)],
           users))
    (λ _, (AuthMiddleware.unauthorized "Invalid or expired refresh token",
           users)).

Definition getCurrentUser (w : AuthWorld) (req : AuthRequest) (users : Users)
  : Response * Users :=
  match auth_user req with
  | None => (AuthMiddleware.unauthorized "User not authenticated", users)
  | Some payload =>
      match users !! jwt_userId payload with
      | None =>
          (json 404 [("error", JStr "Not Found");
                     ("message", JStr "User not found")],
           users)
      | Some user =>
          (json 200 [("id", JStr (jwt_userId payload));
                     ("email", JStr (User.email user));
                     ("name", jopt (User.name user));
                     ("createdAt", JDate (User.createdAt user));
                     ("updatedAt", JDate (User.updatedAt user))],
           users)
      end
  end.

(** The routes [POST /register] and [POST /login]: the validator, then
    the handler. *)
Definition postRegister (w : AuthWorld) (req : AuthRequest) (users : Users)
  : Response * Users :=
  match Validators.validateRegister (auth_email req) (auth_password req) with
  | Some answer => (answer, users)
  | None => register w req users
  end.

Definition postLogin (w : AuthWorld) (req : AuthRequest) (users : Users)
  : Response * Users :=
  match Validators.validateLogin (auth_email req) (auth_password req) with
  | Some answer => (answer, users)
  | None => login w req users
  end.

End AuthController.
(** A small instance of the platform interface, used to exercise the
    statements on concrete data: the "cipher" copies the text and its tag is
    the key, the nonce and the data in a row. *)
Module ToyCrypto.

Definition eqb_bytes (a b : list byte) : bool :=
  bool_decide (map Byte.to_N a = map Byte.to_N b).

Definition nc : NodeCrypto := {|
  pbkdf2Sync := λ _ _ _ keylen _, repeat Byte.x2a keylen;
  Cipher := list byte * list byte * list byte;
  createCipheriv := λ _ key iv, Ok (key, iv, []);
  cipherUpdate := λ '(key, iv, acc) text,
    (list_byte_of_string text, (key, iv, acc ++ list_byte_of_string text));
  cipherFinal := λ c, Ok ([], c);
  getAuthTag := λ '(key, iv, acc), key ++ iv ++ acc;
  Decipher := list byte * list byte * list byte * list byte;
  createDecipheriv := λ _ key iv, Ok (key, iv, [], []);
  setAuthTag := λ '(key, iv, _, acc) tag, Ok (key, iv, tag, acc);
  decipherUpdate := λ '(key, iv, tag, acc) data,
    Ok (string_of_list_byte data, (key, iv, tag, acc ++ data));
  decipherFinal := λ '(key, iv, tag, acc),
    if eqb_bytes tag (key ++ iv ++ acc) then Ok ""
    else Throw "Unsupported state or unable to authenticate data";
|}.

Definition env : Env :=
  {| ENCRYPTION_KEY := Some "master"; TWITCH_REDIRECT_URI := None |}.

Definition rng : Rng := {| pool := λ i, byte_of_N (N.of_nat i mod 256); cursor := 0 |}.

End ToyCrypto.

(** Concrete data on which the statements are exercised: two users, three
    credential sets, three tokens and a scripted provider. *)
Module Fixture.

Import ToyCrypto.

Definition sealed (text : string) : string :=
  match (Encryption.encrypt nc env rng text).1 with
  | Ok c => c
  | Throw _ => ""
  end.

Definition configA : TwitchConfig.t :=
  {| TwitchConfig.userId := "alice";
     TwitchConfig.clientId := "client-a";
     TwitchConfig.clientSecret := sealed "shh";
     TwitchConfig.name := Some "App A";
     TwitchConfig.createdAt := 1000;
     TwitchConfig.updatedAt := 1000 |}.

Definition configB : TwitchConfig.t :=
  {| TwitchConfig.userId := "alice";
     TwitchConfig.clientId := "client-b";
     TwitchConfig.clientSecret := sealed "hush";
     TwitchConfig.name := None;
     TwitchConfig.createdAt := 1100;
     TwitchConfig.updatedAt := 1100 |}.

Definition configBob : TwitchConfig.t :=
  {| TwitchConfig.userId := "bob";
     TwitchConfig.clientId := "client-c";
     TwitchConfig.clientSecret := sealed "psst";
     TwitchConfig.name := Some "Bob's app";
     TwitchConfig.createdAt := 1200;
     TwitchConfig.updatedAt := 1200 |}.

Definition appToken (twitchConfigId secret : string) (createdAt : Z)
  : SavedToken.t :=
  {| SavedToken.userId := "alice";
     SavedToken.twitchConfigId := twitchConfigId;
     SavedToken.tokenType := "app";
     SavedToken.accessToken := sealed secret;
     SavedToken.refreshToken := None;
     SavedToken.scopes := [];
     SavedToken.channelLogin := None;
     SavedToken.channelId := None;
     SavedToken.name := None;
     SavedToken.expiresAt := Some 9000000%Z;
     SavedToken.createdAt := createdAt;
     SavedToken.updatedAt := createdAt |}.

Definition userToken : SavedToken.t :=
  {| SavedToken.userId := "alice";
     SavedToken.twitchConfigId := "cfg-a";
     SavedToken.tokenType := "user";
     SavedToken.accessToken := sealed "tok_u";
     SavedToken.refreshToken := Some (sealed "ref_u");
     SavedToken.scopes := ["chat:read"];
     SavedToken.channelLogin := Some "alice_tv";
     SavedToken.channelId := Some "42";
     SavedToken.name := Some "main";
     SavedToken.expiresAt := Some 9000000%Z;
     SavedToken.createdAt := 2300;
     SavedToken.updatedAt := 2300 |}.

Definition configs : gmap string TwitchConfig.t :=
  {[ "cfg-a" := configA; "cfg-b" := configB; "cfg-bob" := configBob ]}.

(** One credential set with an app token, and a user token. *)
Definition db : Db :=
  {| twitchConfig := configs;
     savedToken := {[ "tok-a" := appToken "cfg-a" "tok_a" 2000;
                      "tok-u" := userToken ]};
     webhook := ∅ |}.

(** Two credential sets of the same user, each with an app token. *)
Definition db2 : Db :=
  {| twitchConfig := configs;
     savedToken := {[ "tok-a" := appToken "cfg-a" "tok_a" 2000;
                      "tok-b" := appToken "cfg-b" "tok_b" 2100 ]};
     webhook := ∅ |}.

(** One app token, and a local row for the subscription ["sub-b"]. *)
Definition db3 : Db :=
  {| twitchConfig := configs;
     savedToken := {[ "tok-a" := appToken "cfg-a" "tok_a" 2000 ]};
     webhook :=
       {[ "wh-1" :=
            {| Webhook.userId := "alice";
               Webhook.subscriptionId := "sub-b";
               Webhook.type := "stream.online";
               Webhook.condition := JObj [("broadcaster_user_id", JStr "42")];
               Webhook.callbackUrl := "https://example.org/hook";
               Webhook.status := "enabled";
               Webhook.cost := 1;
               Webhook.createdAt := 3000;
               Webhook.updatedAt := 3000 |} ]} |}.

Definition subscription (id : string) : Subscription :=
  {| sub_id := id;
     sub_type := "stream.online";
     sub_condition := JObj [("broadcaster_user_id", JStr "42")];
     sub_callback := Some "https://example.org/hook";
     sub_status := "enabled";
     sub_cost := Some 1%Z |}.

Definition page (data : list Subscription) (cursor : option string)
  : SubscriptionPage :=
  {| page_data := data; page_total := 2; page_cursor := cursor |}.

Definition granted : TokenData :=
  {| access_token := "tok_1"; refresh_token := "ref_1"; expires_in := 3600;
     scope := ScopeArray ["chat:read"] |}.

Definition refreshed : TokenData :=
  {| access_token := "tok_2"; refresh_token := "ref_2"; expires_in := 7200;
     scope := ScopeString "chat:read chat:edit" |}.

Definition pending : ErrorData :=
  {| message := Some "authorization_pending"; error := None |}.

(** The provider: device code ["dc-ok"] has been authorized, every other
    one is still pending; client ["client-a"] has the subscription
    ["sub-a"], every other client ["sub-b"]. *)
Definition twitch : Twitch :=
  {| post_token := λ r,
       match r with
       | device_code_grant _ device_code =>
           if String.eqb device_code "dc-ok" then Responded granted
           else Rejected 400 (Some pending)
       | refresh_token_grant _ _ _ => Responded refreshed
       | _ => Failed "unreachable"
       end;
     get_validate := λ _,
       Responded {| client_id := "client-a"; login := Some "alice_tv";
                    validate_scopes := Some ["chat:read"];
                    user_id := Some "42"; validate_expires_in := 3600 |};
     post_device := λ _ _,
       Responded {| device_code := "dc1"; user_code := "ABCD-1234";
                    verification_uri := "https://www.twitch.tv/activate";
                    device_expires_in := 1800; interval := Some 5%Z |};
     get_eventsub := λ _ clientId _,
       if String.eqb clientId "client-a"
       then Responded (page [subscription "sub-a"] None)
       else Responded (page [subscription "sub-b"] None);
     post_eventsub := λ _ _ _, Failed "unreachable";
     delete_eventsub := λ _ _ _, Failed "unreachable" |}.

(** A provider whose list has two pages. *)
Definition pagedTwitch : Twitch :=
  {| post_token := post_token twitch;
     get_validate := get_validate twitch;
     post_device := post_device twitch;
     get_eventsub := λ _ _ after,
       match after with
       | None => Responded (page [subscription "sub-a"] (Some "next"))
       | Some _ => Responded (page [subscription "sub-b"] None)
       end;
     post_eventsub := post_eventsub twitch;
     delete_eventsub := delete_eventsub twitch |}.

Definition world_with (tw : Twitch) : World :=
  {| w_crypto := nc; w_env := env; w_rng := rng; w_now := 10000;
     w_twitch := tw; w_urlSearchParams := λ _, "";
     w_mathRandom := λ i, i;
     w_localTZA := λ _ _, 0%Z |}.

Definition world : World := world_with twitch.

Definition request (userId id twitchConfigId deviceCode : string) : Request :=
  {| errors := [];
     user_userId := userId;
     params_id := id;
     body_twitchConfigId := twitchConfigId;
     body_name := None;
     body_deviceCode := deviceCode;
     body_scopes := ["chat:read"];
     body_state := "0123456789abcdef0123456789abcdef";
     body_code := "";
     body_configId := None;
     body_tokenId := id;
     body_type := "stream.online";
     body_condition := JObj [("broadcaster_user_id", JStr "42")];
     body_callbackUrl := "https://example.org/hook";
     body_clientId := None;
     body_clientSecret := None |}.

End Fixture.

(** Further data: an environment without master key, a provider that
    grants app tokens and subscriptions but rejects every validation,
    list and delete request, and a request that submits a credential
    set. *)
Module Scenario.

Import ToyCrypto.

Definition keyless : Env :=
  {| ENCRYPTION_KEY := Some ""; TWITCH_REDIRECT_URI := None |}.

Definition appGrant : TokenData :=
  {| access_token := "tok_app"; refresh_token := ""; expires_in := 5000;
     scope := ScopeMissing |}.

Definition grantingTwitch : Twitch :=
  {| post_token := λ r,
       match r with
       | client_credentials _ _ => Responded appGrant
       | _ => Failed "unreachable"
       end;
     get_validate := λ _, Rejected 401 None;
     post_device := post_device Fixture.twitch;
     get_eventsub := λ _ _ _, Failed "timeout";
     post_eventsub := λ _ _ _, Responded (Fixture.subscription "sub-new");
     delete_eventsub := λ _ _ _, Rejected 401 None |}.

Definition grantingWorld : World := Fixture.world_with grantingTwitch.

Definition submit (userId id clientId clientSecret : string) : Request :=
  {| errors := [];
     user_userId := userId;
     params_id := id;
     body_twitchConfigId := "";
     body_name := Some "New app";
     body_deviceCode := "";
     body_scopes := [];
     body_state := "";
     body_code := "";
     body_configId := None;
     body_tokenId := "";
     body_type := "";
     body_condition := JNull;
     body_callbackUrl := "";
     body_clientId := Some clientId;
     body_clientSecret := Some clientSecret |}.

End Scenario.

(** A provider for the authorization-code flow, and a callback request. *)
Module Callback.

Definition codeTwitch : Twitch :=
  {| post_token := λ r,
       match r with
       | authorization_code _ _ code _ =>
           if String.eqb code "code-ok" then Responded Fixture.granted
           else Rejected 400 (Some {| message := Some "Invalid authorization code";
                                      error := None |})
       | _ => Failed "unreachable"
       end;
     get_validate := get_validate Fixture.twitch;
     post_device := post_device Fixture.twitch;
     get_eventsub := get_eventsub Fixture.twitch;
     post_eventsub := post_eventsub Fixture.twitch;
     delete_eventsub := delete_eventsub Fixture.twitch |}.

Definition codeWorld : World := Fixture.world_with codeTwitch.

Definition callbackRequest (state : string) : Request :=
  {| errors := [];
     user_userId := "alice";
     params_id := "";
     body_twitchConfigId := "cfg-a";
     body_name := Some "from callback";
     body_deviceCode := "";
     body_scopes := ["chat:read"];
     body_state := state;
     body_code := "code-ok";
     body_configId := None;
     body_tokenId := "";
     body_type := "";
     body_condition := JNull;
     body_callbackUrl := "";
     body_clientId := None;
     body_clientSecret := None |}.

End Callback.

(** A small instance of the account platform: the "hash" prefixes the
    password, a token lists the payload, the secret and the lifetime. *)
Module ToyAuth.

Definition platform : Platform :=
  {| bcrypt_hash := λ password _ _, "$2a$12$" +:+ password;
     bcrypt_compare := λ password hash,
       String.eqb hash ("$2a$12$" +:+ password);
     jwt_sign := λ payload secret expiresIn _,
       Ok (join "|" [jwt_userId payload; jwt_email payload; secret;
                     expiresIn]);
     jwt_verify := λ token secret _,
       match split "|" token with
       | [userId; email; s; _] =>
           if String.eqb s secret
           then Ok {| jwt_userId := userId; jwt_email := email |}
           else Throw "invalid signature"
       | _ => Throw "jwt malformed"
       end |}.

Definition authWorld : AuthWorld :=
  {| a_platform := platform;
     a_env := {| env_JWT_SECRET := None; env_JWT_EXPIRE := None;
                 env_REFRESH_TOKEN_EXPIRE := None |};
     a_rng := ToyCrypto.rng;
     a_now := 5000 |}.

Definition credentials (email password : string) : AuthRequest :=
  {| auth_email := Some email; auth_password := Some password;
     auth_name := Some "Alice"; auth_refreshToken := None;
     auth_user := None |}.

Definition carol : User.t :=
  {| User.email := "carol@example.org";
     User.password := "$2a$12$opensesame";
     User.name := None;
     User.createdAt := 100;
     User.updatedAt := 100 |}.

Definition users : Users := {[ "user-1" := carol ]}.

End ToyAuth.
(** The toy platform with a cipher on bytes, for the codec on every text:
    the same "cipher" as in [ToyCrypto], and a reader of UTF-8 for the
    text that the decipher gives back. *)
Module ToyUtf8.

(** The code units of a code point. *)
Definition unitsOf (cp : N) : Text :=
  if (cp <? 65536)%N then [cp]
  else [(55296 + (cp - 65536) / 1024)%N; (56320 + (cp - 65536) mod 1024)%N].

(** Reads the sequences that [Utf8.write] produces; nothing is checked,
    and a sequence cut short ends the text with U+FFFD. *)
Fixpoint read (bytes : list byte) : Text :=
  match bytes with
  | [] => []
  | b0 :: rest =>
      let n0 := Byte.to_N b0 in
      if (n0 <? 128)%N then n0 :: read rest
      else if (n0 <? 224)%N then
        match rest with
        | b1 :: rest1 =>
            ((n0 - 192) * 64 + (Byte.to_N b1 - 128))%N :: read rest1
        | _ => [Utf8.REPLACEMENT]
        end
      else if (n0 <? 240)%N then
        match rest with
        | b1 :: b2 :: rest2 =>
            ((n0 - 224) * 4096 + (Byte.to_N b1 - 128) * 64
             + (Byte.to_N b2 - 128))%N :: read rest2
        | _ => [Utf8.REPLACEMENT]
        end
      else
        match rest with
        | b1 :: b2 :: b3 :: rest3 =>
            unitsOf ((n0 - 240) * 262144 + (Byte.to_N b1 - 128) * 4096
                     + (Byte.to_N b2 - 128) * 64 + (Byte.to_N b3 - 128))
            ++ read rest3
        | _ => [Utf8.REPLACEMENT]
        end
  end.

Definition nc : NodeCryptoUtf8 := {|
  u_pbkdf2Sync := λ _ _ _ keylen _, repeat Byte.x2a keylen;
  u_Cipher := list byte * list byte * list byte;
  u_createCipheriv := λ _ key iv, Ok (key, iv, []);
  u_cipherUpdate := λ '(key, iv, acc) input,
    (input, (key, iv, acc ++ input));
  u_cipherFinal := λ c, Ok ([], c);
  u_getAuthTag := λ '(key, iv, acc), key ++ iv ++ acc;
  u_Decipher := list byte * list byte * list byte * list byte;
  u_createDecipheriv := λ _ key iv, Ok (key, iv, [], []);
  u_setAuthTag := λ '(key, iv, _, acc) tag, Ok (key, iv, tag, acc);
  u_decipherUpdate := λ '(key, iv, tag, acc) data,
    Ok (read data, (key, iv, tag, acc ++ data));
  u_decipherFinal := λ '(key, iv, tag, acc),
    if ToyCrypto.eqb_bytes tag (key ++ iv ++ acc) then Ok []
    else Throw "Unsupported state or unable to authenticate data";
|}.

(** The envelope that the toy platform writes for a text. *)
Definition sealedText (text : Text) : string :=
  match (EncryptionUtf8.encryptText nc ToyCrypto.env ToyCrypto.rng text).1
  with
  | Ok c => c
  | Throw _ => ""
  end.

End ToyUtf8.

(** A server in a zone that leaves daylight-saving time half an hour after
    the epoch: the offset is one hour before that instant and zero from
    then on, and a wall-clock reading that occurs twice is taken as the
    first of the two. *)
Module Autumn.

Definition localTZA (t : Z) (isUTC : bool) : Z :=
  if isUTC then (if (t <? 1800000)%Z then 3600000%Z else 0%Z)
  else (if (t <? 5400000)%Z then 3600000%Z else 0%Z).

Definition autumnWorld (tw : Twitch) : World :=
  {| w_crypto := ToyCrypto.nc; w_env := ToyCrypto.env;
     w_rng := ToyCrypto.rng; w_now := 10000;
     w_twitch := tw; w_urlSearchParams := λ _, "";
     w_mathRandom := λ i, i;
     w_localTZA := localTZA |}.

End Autumn.

(** A provider for the device flow that answers by device code: every kind
    of answer that [pollDeviceToken] tells apart, and a grant whose
    lifetime leads beyond the last instant of a [Date]. *)
Module DevicePolls.

Definition rejection (m e : option string) : Axios TokenData :=
  Rejected 400 (Some {| message := m; error := e |}).

Definition endless : TokenData :=
  {| access_token := "tok_3"; refresh_token := "ref_3";
     expires_in := 8640000000000; scope := ScopeMissing |}.

Definition deviceTwitch : Twitch :=
  {| post_token := λ r,
       match r with
       | device_code_grant _ device_code =>
           if String.eqb device_code "dc-ok" then
             Responded Fixture.granted
           else if String.eqb device_code "dc-endless" then
             Responded endless
           else if String.eqb device_code "dc-slow" then
             rejection (Some "") (Some "slow_down")
           else if String.eqb device_code "dc-denied" then
             rejection None (Some "access_denied")
           else if String.eqb device_code "dc-expired" then
             rejection (Some "expired_token") (Some "invalid_grant")
           else if String.eqb device_code "dc-bad" then
             rejection (Some "invalid device code") (Some "slow_down")
           else if String.eqb device_code "dc-down" then
             Rejected 503 None
           else if String.eqb device_code "dc-lost" then
             Failed "socket hang up"
           else rejection (Some "authorization_pending") None
       | refresh_token_grant _ _ _ => Responded endless
       | client_credentials _ _ => Responded endless
       | _ => Failed "unreachable"
       end;
     get_validate := get_validate Fixture.twitch;
     post_device := post_device Fixture.twitch;
     get_eventsub := get_eventsub Fixture.twitch;
     post_eventsub := post_eventsub Fixture.twitch;
     delete_eventsub := delete_eventsub Fixture.twitch |}.

Definition deviceWorld : World := Fixture.world_with deviceTwitch.

Definition poll (deviceCode : string) : Request :=
  Fixture.request "alice" "" "cfg-a" deviceCode.

End DevicePolls.

(** A store with two local rows, and a provider that lists one
    subscription not yet stored and one that is stored, with another
    status, condition, callback and no cost. *)
Module Resync.

Definition kept : Webhook.t :=
  {| Webhook.userId := "alice";
     Webhook.subscriptionId := "sub-b";
     Webhook.type := "stream.online";
     Webhook.condition := JObj [("broadcaster_user_id", JStr "42")];
     Webhook.callbackUrl := "https://example.org/hook";
     Webhook.status := "enabled";
     Webhook.cost := 1;
     Webhook.createdAt := 3000;
     Webhook.updatedAt := 3000 |}.

Definition stale : Webhook.t :=
  {| Webhook.userId := "alice";
     Webhook.subscriptionId := "sub-old";
     Webhook.type := "stream.offline";
     Webhook.condition := JObj [("broadcaster_user_id", JStr "42")];
     Webhook.callbackUrl := "https://example.org/hook";
     Webhook.status := "enabled";
     Webhook.cost := 1;
     Webhook.createdAt := 3100;
     Webhook.updatedAt := 3100 |}.

Definition changed : Subscription :=
  {| sub_id := "sub-b";
     sub_type := "channel.follow";
     sub_condition := JObj [("broadcaster_user_id", JStr "43")];
     sub_callback := Some "https://example.org/other";
     sub_status := "webhook_callback_verification_failed";
     sub_cost := None |}.

Definition listed : list Subscription :=
  [Fixture.subscription "sub-a"; changed].

Definition resyncTwitch : Twitch :=
  {| post_token := post_token Fixture.twitch;
     get_validate := get_validate Fixture.twitch;
     post_device := post_device Fixture.twitch;
     get_eventsub := λ _ _ _, Responded (Fixture.page listed None);
     post_eventsub := post_eventsub Fixture.twitch;
     delete_eventsub := delete_eventsub Fixture.twitch |}.

Definition resyncWorld : World := Fixture.world_with resyncTwitch.

Definition resyncDb : Db :=
  {| twitchConfig := Fixture.configs;
     savedToken := {[ "tok-a" := Fixture.appToken "cfg-a" "tok_a" 2000 ]};
     webhook := {[ "wh-1" := kept; "wh-2" := stale ]} |}.

End Resync.

(** A platform that encrypts as the toy platform does and refuses to
    create a decipher: what is written can no longer be read. *)
Module WriteOnly.

Definition sealingCrypto : NodeCrypto := {|
  pbkdf2Sync := λ _ _ _ keylen _, repeat Byte.x2a keylen;
  Cipher := list byte * list byte * list byte;
  createCipheriv := λ _ key iv, Ok (key, iv, []);
  cipherUpdate := λ '(key, iv, acc) text,
    (list_byte_of_string text, (key, iv, acc ++ list_byte_of_string text));
  cipherFinal := λ c, Ok ([], c);
  getAuthTag := λ '(key, iv, acc), key ++ iv ++ acc;
  Decipher := unit;
  createDecipheriv := λ _ _ _, Throw "Invalid key length";
  setAuthTag := λ d _, Ok d;
  decipherUpdate := λ d _, Ok ("", d);
  decipherFinal := λ _, Ok "";
|}.

Definition sealingWorld : World :=
  {| w_crypto := sealingCrypto; w_env := ToyCrypto.env;
     w_rng := ToyCrypto.rng; w_now := 10000;
     w_twitch := Fixture.twitch; w_urlSearchParams := λ _, "";
     w_mathRandom := λ i, i;
     w_localTZA := λ _ _, 0%Z |}.

End WriteOnly.

(** * Properties *)

(** ** Strings, hexadecimal buffers *)

Lemma hex_byte (b : byte) :
  unhex (hex_digit (Byte.to_N b / 16)) = Some (Byte.to_N b / 16)%N
  ∧ unhex (hex_digit (Byte.to_N b mod 16)) = Some (Byte.to_N b mod 16)%N
  ∧ byte_of_N (Byte.to_N b / 16 * 16 + Byte.to_N b mod 16) = b.
Proof. destruct b; vm_compute; auto. Qed.

Lemma from_hex_to_hex (buf : list byte) : from_hex (to_hex buf) = buf.
Proof.
  induction buf as [|b buf IH]; [reflexivity|].
  destruct (hex_byte b) as (Hhi & Hlo & Hb).
  cbn [to_hex from_hex]. rewrite Hhi, Hlo, Hb, IH. reflexivity.
Qed.

Lemma to_hex_inj (a b : list byte) : to_hex a = to_hex b → a = b.
Proof.
  intros H. rewrite <- (from_hex_to_hex a), <- (from_hex_to_hex b).
  by rewrite H.
Qed.

Lemma to_hex_app (a b : list byte) : to_hex (a ++ b) = to_hex a +:+ to_hex b.
Proof. induction a as [|x a IH]; [reflexivity|]. cbn. by rewrite IH. Qed.

Lemma hex_digit_not_colon (b : byte) :
  Ascii.eqb (hex_digit (Byte.to_N b / 16)) ":" = false
  ∧ Ascii.eqb (hex_digit (Byte.to_N b mod 16)) ":" = false.
Proof. destruct b; vm_compute; auto. Qed.

Lemma append_cons (c : ascii) (s t : string) :
  String c s +:+ t = String c (s +:+ t).
Proof. reflexivity. Qed.

Lemma append_nil (t : string) : "" +:+ t = t.
Proof. reflexivity. Qed.

Lemma split_nonempty sep s : split sep s ≠ [].
Proof.
  induction s as [|c s IH]; cbn; [done|].
  destruct (Ascii.eqb c sep); [done|]. by destruct (split sep s).
Qed.

Lemma split_hex_cons (buf : list byte) (rest : string) :
  split ":" (to_hex buf +:+ String ":" rest) = to_hex buf :: split ":" rest.
Proof.
  induction buf as [|b buf IH]; [reflexivity|].
  destruct (hex_digit_not_colon b) as [Hhi Hlo].
  cbn [to_hex]. rewrite !append_cons. cbn [split]. rewrite Hhi, Hlo, IH. reflexivity.
Qed.

Lemma split_hex (buf : list byte) : split ":" (to_hex buf) = [to_hex buf].
Proof.
  induction buf as [|b buf IH]; [reflexivity|].
  destruct (hex_digit_not_colon b) as [Hhi Hlo].
  cbn [to_hex split]. rewrite Hhi, Hlo, IH. reflexivity.
Qed.

Lemma split_envelope (salt iv tag data : list byte) :
  split ":" (to_hex salt +:+ ":" +:+ to_hex iv +:+ ":" +:+ to_hex tag +:+ ":"
             +:+ to_hex data)
  = [to_hex salt; to_hex iv; to_hex tag; to_hex data].
Proof.
  rewrite !(append_cons ":"), !append_nil.
  by rewrite !split_hex_cons, split_hex.
Qed.

(** ** The secret codec *)

Lemma to_hex_length (buf : list byte) :
  String.length (to_hex buf) = 2 * length buf.
Proof. induction buf as [|b buf IH]; cbn; [done|]. rewrite IH. lia. Qed.

Lemma hex_input_to_hex (buf : list byte) :
  Encryption.hex_input (to_hex buf) = Ok buf.
Proof.
  unfold Encryption.hex_input.
  rewrite to_hex_length, from_hex_to_hex.
  replace (2 * length buf) with (length buf + length buf) by lia.
  assert (∀ n, Nat.even (n + n) = true) as ->; [|done].
  intros n. induction n as [|n IH]; [done|].
  replace (S n + S n) with (S (S (n + n))) by lia. exact IH.
Qed.

Section Codec.
Import Encryption.
Context (nc : NodeCrypto) (env : Env).

Lemma randomBytes_length n g : length (randomBytes n g).1 = n.
Proof. unfold randomBytes. cbn. by rewrite length_map, length_seq. Qed.

Lemma randomBytes_cursor n g : cursor (randomBytes n g).2 = cursor g + n.
Proof. reflexivity. Qed.

Lemma getKey_configured salt :
  truthy (ENCRYPTION_KEY env) = true →
  ∃ key, getKey nc env salt = Ok key
         ∧ (pbkdf2_length nc → length key = KEY_LENGTH).
Proof.
  unfold getKey, truthy. destruct (ENCRYPTION_KEY env) as [k|]; [|done].
  destruct (String.eqb k ""); [done|]. intros _.
  eexists. split; [reflexivity|]. intros Hlen. apply Hlen.
Qed.

Lemma encrypt_with_seal salt iv text key data tag :
  getKey nc env salt = Ok key →
  seal nc key iv text = Ok (data, tag) →
  encrypt_with nc env salt iv text
  = Ok (to_hex salt +:+ ":" +:+ to_hex iv +:+ ":" +:+ to_hex tag +:+ ":"
        +:+ to_hex data).
Proof.
  unfold encrypt_with, seal. intros ->. cbn.
  destruct (createCipheriv nc ALGORITHM key iv) as [c|]; [cbn|done].
  destruct (cipherUpdate nc c text) as [out1 c1].
  destruct (cipherFinal nc c1) as [[out2 c2]|]; [cbn|done].
  intros [= <- <-]. by rewrite to_hex_app.
Qed.

Lemma decrypt_envelope salt iv tag data :
  decrypt nc env (to_hex salt +:+ ":" +:+ to_hex iv +:+ ":" +:+ to_hex tag
                  +:+ ":" +:+ to_hex data)
  = key ← getKey nc env salt; open nc key iv tag data.
Proof.
  unfold decrypt. rewrite split_envelope, !from_hex_to_hex, hex_input_to_hex.
  reflexivity.
Qed.

Lemma encrypt_unfold g text :
  encrypt nc env g text
  = match getKey nc env (drawn g).1 with
    | Throw m => (Throw m, (randomBytes SALT_LENGTH g).2)
    | Ok _ =>
        (encrypt_with nc env (drawn g).1 (drawn g).2 text,
         {| pool := pool g; cursor := cursor g + SALT_LENGTH + IV_LENGTH |})
    end.
Proof. reflexivity. Qed.

Lemma encrypt_sealed g text :
  truthy (ENCRYPTION_KEY env) = true →
  gcm_correct nc → pbkdf2_length nc →
  ∃ key data tag,
    getKey nc env (drawn g).1 = Ok key
    ∧ seal nc key (drawn g).2 text = Ok (data, tag)
    ∧ open nc key (drawn g).2 tag data = Ok text
    ∧ encrypt nc env g text
      = (Ok (to_hex (drawn g).1 +:+ ":" +:+ to_hex (drawn g).2 +:+ ":"
             +:+ to_hex tag +:+ ":" +:+ to_hex data),
         {| pool := pool g; cursor := cursor g + SALT_LENGTH + IV_LENGTH |}).
Proof.
  intros Hkey Hgcm Hlen.
  destruct (getKey_configured (drawn g).1 Hkey) as (key & Hk & Hklen).
  destruct (Hgcm key (drawn g).2 text (Hklen Hlen)) as (data & tag & Hs & Ho).
  { apply randomBytes_length. }
  exists key, data, tag. repeat split; try done.
  rewrite encrypt_unfold, Hk.
  f_equal. by apply (encrypt_with_seal _ _ _ key).
Qed.

End Codec.

(** The toy platform instance satisfies the cipher contract. *)
Lemma toy_eqb_bytes_refl (a : list byte) : ToyCrypto.eqb_bytes a a = true.
Proof. unfold ToyCrypto.eqb_bytes. by apply bool_decide_eq_true. Qed.

Lemma toy_gcm_correct : Encryption.gcm_correct ToyCrypto.nc.
Proof.
  intros key iv text _ _.
  exists (list_byte_of_string text ++ []), (key ++ iv ++ [] ++ list_byte_of_string text).
  split; [reflexivity|].
  unfold Encryption.open. cbn.
  rewrite app_nil_r, toy_eqb_bytes_refl. cbn.
  rewrite string_of_list_byte_of_string.
  f_equal. induction text as [|c t IH]; [reflexivity|].
  rewrite append_cons. by rewrite IH.
Qed.

Lemma toy_pbkdf2_length : Encryption.pbkdf2_length ToyCrypto.nc.
Proof. intros password salt iterations keylen digest. apply repeat_length. Qed.
(** ** Texts and their UTF-8 form *)

Lemma text_pairs_ind (P : Text → Prop) :
  P [] → (∀ u, P [u]) →
  (∀ u v rest, P rest → P (v :: rest) → P (u :: v :: rest)) →
  ∀ text, P text.
Proof.
  intros Hnil Hone Hstep text.
  cut (P text ∧ ∀ u, P (u :: text)); [by intros []|].
  induction text as [|v rest [IH1 IH2]]; [by split|].
  split; [apply IH2|]. intros u. by apply Hstep.
Qed.

Lemma write_cons (u : N) (rest : Text) :
  Utf8.write (u :: rest)
  = if Utf8.isLead u then
      match rest with
      | v :: rest' =>
          if Utf8.isTrail v then Utf8.encode (Utf8.pair u v) ++ Utf8.write rest'
          else Utf8.encode Utf8.REPLACEMENT ++ Utf8.write rest
      | [] => Utf8.encode Utf8.REPLACEMENT
      end
    else if Utf8.isTrail u then Utf8.encode Utf8.REPLACEMENT ++ Utf8.write rest
    else Utf8.encode u ++ Utf8.write rest.
Proof. destruct rest; reflexivity. Qed.

Lemma toWellFormed_cons (u : N) (rest : Text) :
  Utf8.toWellFormed (u :: rest)
  = if Utf8.isLead u then
      match rest with
      | v :: rest' =>
          if Utf8.isTrail v then u :: v :: Utf8.toWellFormed rest'
          else Utf8.REPLACEMENT :: Utf8.toWellFormed rest
      | [] => [Utf8.REPLACEMENT]
      end
    else if Utf8.isTrail u then Utf8.REPLACEMENT :: Utf8.toWellFormed rest
    else u :: Utf8.toWellFormed rest.
Proof. destruct rest; reflexivity. Qed.

Lemma isWellFormed_cons (u : N) (rest : Text) :
  Utf8.isWellFormed (u :: rest)
  = if Utf8.isLead u then
      match rest with
      | v :: rest' => Utf8.isTrail v && Utf8.isWellFormed rest'
      | [] => false
      end
    else negb (Utf8.isTrail u) && Utf8.isWellFormed rest.
Proof. destruct rest; reflexivity. Qed.

Lemma write_replacement (rest : Text) :
  Utf8.write (Utf8.REPLACEMENT :: rest)
  = Utf8.encode Utf8.REPLACEMENT ++ Utf8.write rest.
Proof. by rewrite write_cons. Qed.

Lemma isWellFormed_replacement (rest : Text) :
  Utf8.isWellFormed (Utf8.REPLACEMENT :: rest) = Utf8.isWellFormed rest.
Proof. by rewrite isWellFormed_cons. Qed.

Lemma write_plain (u : N) (rest : Text) :
  Utf8.isLead u = false → Utf8.isTrail u = false →
  Utf8.write (u :: rest) = Utf8.encode u ++ Utf8.write rest.
Proof. intros Hl Ht. by rewrite write_cons, Hl, Ht. Qed.

Lemma write_pair (u v : N) (rest : Text) :
  Utf8.isLead u = true → Utf8.isTrail v = true →
  Utf8.write (u :: v :: rest) = Utf8.encode (Utf8.pair u v) ++ Utf8.write rest.
Proof. intros Hl Ht. by rewrite write_cons, Hl, Ht. Qed.

(** Writing a text and writing it with its unpaired surrogates replaced
    give the same bytes. *)
Lemma write_toWellFormed (text : Text) :
  Utf8.write (Utf8.toWellFormed text) = Utf8.write text.
Proof.
  induction text as [|u|u v rest IH1 IH2] using text_pairs_ind; [done| |].
  - rewrite toWellFormed_cons, (write_cons u).
    destruct (Utf8.isLead u) eqn:Hu; [done|].
    destruct (Utf8.isTrail u) eqn:Hu'; [done|].
    by rewrite write_plain.
  - rewrite (toWellFormed_cons u), (write_cons u).
    destruct (Utf8.isLead u) eqn:Hu.
    + destruct (Utf8.isTrail v) eqn:Hv.
      * by rewrite write_pair, IH1.
      * by rewrite write_replacement, IH2.
    + destruct (Utf8.isTrail u) eqn:Hu'.
      * by rewrite write_replacement, IH2.
      * by rewrite write_plain, IH2.
Qed.

Lemma toWellFormed_isWellFormed (text : Text) :
  Utf8.isWellFormed (Utf8.toWellFormed text) = true.
Proof.
  induction text as [|u|u v rest IH1 IH2] using text_pairs_ind; [done| |].
  - rewrite toWellFormed_cons.
    destruct (Utf8.isLead u) eqn:Hu; [done|].
    destruct (Utf8.isTrail u) eqn:Hu'; [done|].
    by rewrite isWellFormed_cons, Hu, Hu'.
  - rewrite (toWellFormed_cons u).
    destruct (Utf8.isLead u) eqn:Hu.
    + destruct (Utf8.isTrail v) eqn:Hv.
      * by rewrite isWellFormed_cons, Hu, Hv, IH1.
      * by rewrite isWellFormed_replacement.
    + destruct (Utf8.isTrail u) eqn:Hu'.
      * by rewrite isWellFormed_replacement.
      * by rewrite isWellFormed_cons, Hu, Hu', IH2.
Qed.

Lemma toWellFormed_units (text : Text) :
  Utf8.units text → Utf8.units (Utf8.toWellFormed text).
Proof.
  unfold Utf8.units.
  induction text as [|u|u v rest IH1 IH2] using text_pairs_ind; [done| |].
  - intros Hu%Forall_inv. rewrite toWellFormed_cons.
    destruct (Utf8.isLead u); [by repeat constructor|].
    destruct (Utf8.isTrail u); by repeat constructor.
  - intros H. inversion H as [|? ? Hu Hrest]; subst.
    inversion Hrest as [|? ? Hv Hrest']; subst.
    rewrite (toWellFormed_cons u).
    destruct (Utf8.isLead u).
    + destruct (Utf8.isTrail v).
      * constructor; [done|]. constructor; [done|]. by apply IH1.
      * constructor; [done|]. by apply IH2.
    + destruct (Utf8.isTrail u); (constructor; [done|by apply IH2]).
Qed.

(** A text is well-formed exactly when replacing its unpaired surrogates
    changes nothing. *)
Lemma toWellFormed_fixed (text : Text) :
  Utf8.toWellFormed text = text ↔ Utf8.isWellFormed text = true.
Proof.
  induction text as [|u|u v rest IH1 IH2] using text_pairs_ind; [done| |].
  - rewrite toWellFormed_cons, isWellFormed_cons.
    destruct (Utf8.isLead u) eqn:Hu.
    + split; [|done]. intros [= <-]. by vm_compute in Hu.
    + destruct (Utf8.isTrail u) eqn:Hu'; [|done].
      split; [|done]. intros [= <-]. by vm_compute in Hu'.
  - rewrite (toWellFormed_cons u), (isWellFormed_cons u).
    destruct (Utf8.isLead u) eqn:Hu.
    + destruct (Utf8.isTrail v) eqn:Hv.
      * cbn [andb]. split; [intros [= H]; by apply IH1|].
        intros H. do 2 f_equal. by apply IH1.
      * cbn [andb]. split; [|done]. intros [= <- _]. by vm_compute in Hu.
    + destruct (Utf8.isTrail u) eqn:Hu'.
      * cbn [andb negb]. split; [|done]. intros [= <- _]. by vm_compute in Hu'.
      * cbn [andb negb]. split; [intros [= H]; by apply IH2|].
        intros H. f_equal. by apply IH2.
Qed.
(** ** The codec on every text *)

Section CodecUtf8.
Import Encryption EncryptionUtf8.
Context (nc : NodeCryptoUtf8) (env : Env).

Lemma getKeyUtf8_configured salt :
  truthy (ENCRYPTION_KEY env) = true →
  ∃ key, getKeyUtf8 nc env salt = Ok key
         ∧ (derives nc → length key = KEY_LENGTH).
Proof.
  unfold getKeyUtf8, truthy. destruct (ENCRYPTION_KEY env) as [k|]; [|done].
  destruct (String.eqb k ""); [done|]. intros _.
  eexists. split; [reflexivity|]. intros Hlen. apply Hlen.
Qed.

(** [encryptText] in terms of the bytes drawn and of what the cipher
    makes of the bytes of the text. *)
Lemma encryptText_unfold g text :
  encryptText nc env g text
  = match getKeyUtf8 nc env (drawn g).1 with
    | Throw m => (Throw m, (randomBytes SALT_LENGTH g).2)
    | Ok key =>
        ('(data, tag) ← sealBytes nc key (drawn g).2 (Utf8.write text);
         Ok (envelope (drawn g).1 (drawn g).2 tag data),
         {| pool := pool g; cursor := cursor g + SALT_LENGTH + IV_LENGTH |})
    end.
Proof.
  unfold encryptText, drawn, sealBytes, envelope.
  destruct (randomBytes SALT_LENGTH g) as [salt g1] eqn:Hsalt.
  cbn [fst snd].
  destruct (getKeyUtf8 nc env salt) as [key|m]; [|done].
  destruct (randomBytes IV_LENGTH g1) as [iv g2] eqn:Hiv. cbn [fst snd].
  f_equal.
  - destruct (u_createCipheriv nc ALGORITHM key iv) as [c|]; [cbn|done].
    destruct (u_cipherUpdate nc c (Utf8.write text)) as [out1 c1].
    destruct (u_cipherFinal nc c1) as [[out2 c2]|]; [cbn|done].
    by rewrite to_hex_app.
  - unfold randomBytes in Hsalt, Hiv.
    injection Hsalt as _ <-. injection Hiv as _ <-. reflexivity.
Qed.

(** [decryptText] on an input of four fields of which the last has an
    even length. *)
Lemma decryptText_fields p0 p1 p2 p3 encryptedData :
  split ":" encryptedData = [p0; p1; p2; p3] →
  Nat.even (String.length p3) = true →
  decryptText nc env encryptedData
  = key ← getKeyUtf8 nc env (from_hex p0);
    openBytes nc key (from_hex p1) (from_hex p2) (from_hex p3).
Proof.
  intros Hs Heven. unfold decryptText, openBytes, hex_input.
  rewrite Hs, Heven. reflexivity.
Qed.


Lemma decryptText_envelope salt iv tag data :
  decryptText nc env (envelope salt iv tag data)
  = key ← getKeyUtf8 nc env salt; openBytes nc key iv tag data.
Proof.
  rewrite (decryptText_fields (to_hex salt) (to_hex iv) (to_hex tag)
             (to_hex data)).
  - by rewrite !from_hex_to_hex.
  - apply split_envelope.
  - pose proof (hex_input_to_hex data) as H. unfold hex_input in H.
    by destruct (Nat.even (String.length (to_hex data))).
Qed.


(** What a call of [encryptText] returns when the key is configured and
    the platform keeps its contract: the cipher has sealed the bytes of
    the text, and opening gives the text with its unpaired surrogates
    replaced. *)
Lemma encryptText_sealed g text :
  truthy (ENCRYPTION_KEY env) = true →
  seals_and_opens nc → derives nc → Utf8.units text →
  ∃ key data tag,
    getKeyUtf8 nc env (drawn g).1 = Ok key
    ∧ length key = KEY_LENGTH
    ∧ sealBytes nc key (drawn g).2 (Utf8.write text) = Ok (data, tag)
    ∧ openBytes nc key (drawn g).2 tag data = Ok (Utf8.toWellFormed text)
    ∧ encryptText nc env g text
      = (Ok (envelope (drawn g).1 (drawn g).2 tag data),
         {| pool := pool g; cursor := cursor g + SALT_LENGTH + IV_LENGTH |}).
Proof.
  intros Hkey Hgcm Hlen Hunits.
  destruct (getKeyUtf8_configured (drawn g).1 Hkey) as (key & Hk & Hklen).
  destruct (Hgcm key (drawn g).2 (Utf8.toWellFormed text) (Hklen Hlen))
    as (data & tag & Hs & Ho).
  { apply randomBytes_length. }
  { by apply toWellFormed_units. }
  { apply toWellFormed_isWellFormed. }
  rewrite write_toWellFormed in Hs.
  exists key, data, tag. repeat split; try done; [by apply Hklen|].
  by rewrite encryptText_unfold, Hk, Hs.
Qed.

End CodecUtf8.

(** The bytes that two calls in a row read from the pool. *)
Lemma drawn_bytes (g : Rng) :
  (Encryption.drawn g).1 = map (pool g) (seq (cursor g) 64)
  ∧ (Encryption.drawn g).2 = map (pool g) (seq (cursor g + 64) 16).
Proof. done. Qed.

Lemma drawn_differ (g g1 : Rng) :
  pool g1 = pool g → cursor g1 = cursor g + 80 →
  (∃ i, i < 80 ∧ pool g (cursor g + i) ≠ pool g (cursor g + 80 + i)) →
  Encryption.drawn g ≠ Encryption.drawn g1.
Proof.
  intros Hpool Hcursor (i & Hi & Hne) Heq.
  destruct (drawn_bytes g) as [Hs Hv], (drawn_bytes g1) as [Hs1 Hv1].
  rewrite Hpool, Hcursor in Hs1, Hv1.
  assert ((Encryption.drawn g).1 = (Encryption.drawn g1).1) as Hsalt
    by by rewrite Heq.
  assert ((Encryption.drawn g).2 = (Encryption.drawn g1).2) as Hiv
    by by rewrite Heq.
  rewrite Hs, Hs1 in Hsalt. rewrite Hv, Hv1 in Hiv.
  destruct (decide (i < 64)) as [Hlt|Hge].
  - apply (f_equal (λ l, l !! i)) in Hsalt.
    rewrite !list_lookup_fmap, !lookup_seq_lt in Hsalt by lia.
    cbn in Hsalt. by injection Hsalt.
  - apply (f_equal (λ l, l !! (i - 64))) in Hiv.
    rewrite !list_lookup_fmap, !lookup_seq_lt in Hiv by lia.
    cbn in Hiv. injection Hiv as Hiv. apply Hne.
    by replace (cursor g + i) with (cursor g + 64 + (i - 64)) by lia;
       replace (cursor g + 80 + i) with (cursor g + 80 + 64 + (i - 64)) by lia.
Qed.

Lemma envelope_inj (salt iv tag data salt' iv' tag' data' : list byte) :
  envelope salt iv tag data = envelope salt' iv' tag' data' →
  salt = salt' ∧ iv = iv' ∧ tag = tag' ∧ data = data'.
Proof.
  unfold envelope. intros Heq. apply (f_equal (split ":")) in Heq.
  rewrite !split_envelope in Heq.
  injection Heq as H0 H1 H2 H3. by repeat split; apply to_hex_inj.
Qed.

(** C7 (amended): with the master key configured and a platform that keeps
    its contract, for every text [s], [decrypt (encrypt s)] is [s] with each
    unpaired surrogate replaced by U+FFFD, hence [s] itself when [s] is
    well-formed; the second of two calls reads the 80 bytes of entropy that
    follow those of the first, and the two outputs differ whenever these
    bytes are not the same 80 bytes again. *)
Theorem encrypt_decrypt_roundtrip (nc : NodeCryptoUtf8) (env : Env) (g : Rng)
    (s : Text) :
  truthy (ENCRYPTION_KEY env) = true →
  EncryptionUtf8.seals_and_opens nc →
  EncryptionUtf8.derives nc →
  Utf8.units s →
  ∃ c1 c2 g1 g2,
    EncryptionUtf8.encryptText nc env g s = (Ok c1, g1)
    ∧ EncryptionUtf8.encryptText nc env g1 s = (Ok c2, g2)
    ∧ EncryptionUtf8.decryptText nc env c1 = Ok (Utf8.toWellFormed s)
    ∧ EncryptionUtf8.decryptText nc env c2 = Ok (Utf8.toWellFormed s)
    ∧ (Utf8.isWellFormed s = true →
       EncryptionUtf8.decryptText nc env c1 = Ok s
       ∧ EncryptionUtf8.decryptText nc env c2 = Ok s)
    ∧ pool g1 = pool g ∧ cursor g1 = cursor g + 80
    ∧ ((∃ i, i < 80 ∧ pool g (cursor g + i) ≠ pool g (cursor g + 80 + i)) →
       c1 ≠ c2).
Proof.
  intros Hkey Hgcm Hlen Hunits.
  destruct (encryptText_sealed nc env g s Hkey Hgcm Hlen Hunits)
    as (k1 & d1 & t1 & Hk1 & _ & Hs1 & Ho1 & He1).
  set (g1 := {| pool := pool g;
                cursor := cursor g + Encryption.SALT_LENGTH
                          + Encryption.IV_LENGTH |}) in *.
  destruct (encryptText_sealed nc env g1 s Hkey Hgcm Hlen Hunits)
    as (k2 & d2 & t2 & Hk2 & _ & Hs2 & Ho2 & He2).
  assert (EncryptionUtf8.decryptText nc env
            (envelope (Encryption.drawn g).1 (Encryption.drawn g).2 t1 d1)
          = Ok (Utf8.toWellFormed s)) as Hd1
    by (by rewrite decryptText_envelope, Hk1).
  assert (EncryptionUtf8.decryptText nc env
            (envelope (Encryption.drawn g1).1 (Encryption.drawn g1).2 t2 d2)
          = Ok (Utf8.toWellFormed s)) as Hd2
    by (by rewrite decryptText_envelope, Hk2).
  eexists _, _, g1, _. split; [exact He1|]. split; [exact He2|].
  split; [exact Hd1|]. split; [exact Hd2|].
  split.
  { intros Hwf%toWellFormed_fixed. by rewrite Hd1, Hd2, Hwf. }
  split; [reflexivity|].
  split; [cbn; unfold Encryption.SALT_LENGTH, Encryption.IV_LENGTH; lia|].
  intros Hfresh Heq.
  apply envelope_inj in Heq as (Hsalt & Hiv & _).
  apply (drawn_differ g g1); [done| |done|].
  - cbn. unfold Encryption.SALT_LENGTH, Encryption.IV_LENGTH. lia.
  - destruct (Encryption.drawn g), (Encryption.drawn g1). cbn in *. congruence.
Qed.

(** ** The toy platform on bytes *)

Lemma to_N_byte_of_N (n : N) : (n < 256)%N → Byte.to_N (byte_of_N n) = n.
Proof.
  intros Hn. unfold byte_of_N.
  destruct (Byte.of_N n) as [b|] eqn:Hb; [by apply Byte.to_of_N|].
  apply Byte.of_N_None_iff in Hb. lia.
Qed.

Ltac byte_values :=
  repeat match goal with
         | |- context [Byte.to_N (byte_of_N ?n)] =>
             rewrite (to_N_byte_of_N n)
               by (zify; Z.to_euclidean_division_equations; lia)
         end.

Ltac decide_ltb :=
  repeat match goal with
         | |- context [(?a <? ?b)%N] =>
             first [ rewrite (proj2 (N.ltb_lt a b)) by (zify; Z.to_euclidean_division_equations; lia)
                   | rewrite (proj2 (N.ltb_ge a b)) by (zify; Z.to_euclidean_division_equations; lia) ]
         end.

Lemma read_encode_plain (u : N) (tail : list byte) :
  (u < 65536)%N → Utf8.isLead u = false → Utf8.isTrail u = false →
  ToyUtf8.read (Utf8.encode u ++ tail) = u :: ToyUtf8.read tail.
Proof.
  intros Hu _ _. unfold Utf8.encode.
  destruct (u <? 128)%N eqn:H1; [|destruct (u <? 2048)%N eqn:H2].
  - apply N.ltb_lt in H1. cbn [app ToyUtf8.read]. byte_values. by decide_ltb.
  - apply N.ltb_ge in H1. apply N.ltb_lt in H2.
    cbn [app ToyUtf8.read]. byte_values. decide_ltb.
    f_equal. zify; Z.to_euclidean_division_equations; lia.
  - apply N.ltb_ge in H1, H2. rewrite (proj2 (N.ltb_lt u 65536)) by done.
    cbn [app ToyUtf8.read]. byte_values. decide_ltb.
    f_equal. zify; Z.to_euclidean_division_equations; lia.
Qed.

Lemma read_encode_pair (u v : N) (tail : list byte) :
  Utf8.isLead u = true → Utf8.isTrail v = true →
  ToyUtf8.read (Utf8.encode (Utf8.pair u v) ++ tail) = u :: v :: ToyUtf8.read tail.
Proof.
  unfold Utf8.isLead, Utf8.isTrail.
  intros [Hu1%N.leb_le Hu2%N.leb_le]%andb_prop [Hv1%N.leb_le Hv2%N.leb_le]%andb_prop.
  assert (∃ cp, cp = Utf8.pair u v ∧ (65536 ≤ cp < 1114112)%N
                ∧ (55296 + (cp - 65536) / 1024 = u)%N
                ∧ (56320 + (cp - 65536) mod 1024 = v)%N) as (cp & <- & Hcp & Hl & Ht).
  { eexists. split; [reflexivity|]. unfold Utf8.pair.
    repeat split; zify; Z.to_euclidean_division_equations; lia. }
  unfold Utf8.encode. decide_ltb.
  cbn [app ToyUtf8.read]. byte_values. decide_ltb.
  replace ((240 + cp / 262144 - 240) * 262144
           + (128 + cp / 4096 mod 64 - 128) * 4096
           + (128 + cp / 64 mod 64 - 128) * 64 + (128 + cp mod 64 - 128))%N
    with cp by (zify; Z.to_euclidean_division_equations; lia).
  unfold ToyUtf8.unitsOf. decide_ltb. by rewrite Hl, Ht.
Qed.

Lemma toy_read_write (text : Text) :
  Utf8.units text → Utf8.isWellFormed text = true →
  ToyUtf8.read (Utf8.write text) = text.
Proof.
  unfold Utf8.units.
  induction text as [|u|u v rest IH1 IH2] using text_pairs_ind; [done| |].
  - intros Hu%Forall_inv. rewrite isWellFormed_cons, write_cons.
    destruct (Utf8.isLead u) eqn:Hl; [done|].
    destruct (Utf8.isTrail u) eqn:Ht; [done|]. intros _.
    by rewrite read_encode_plain.
  - intros H. inversion H as [|? ? Hu Hrest]; subst.
    inversion Hrest as [|? ? Hv Hrest']; subst.
    rewrite (isWellFormed_cons u), (write_cons u).
    destruct (Utf8.isLead u) eqn:Hl.
    + destruct (Utf8.isTrail v) eqn:Ht; [|done]. cbn [andb]. intros Hwf.
      by rewrite read_encode_pair, IH1.
    + destruct (Utf8.isTrail u) eqn:Ht; [done|]. cbn [andb negb]. intros Hwf.
      by rewrite read_encode_plain, IH2.
Qed.


Lemma toy_seals_and_opens : EncryptionUtf8.seals_and_opens ToyUtf8.nc.
Proof.
  intros key iv text _ _ Hunits Hwf.
  exists (Utf8.write text ++ []), (key ++ iv ++ [] ++ Utf8.write text).
  split; [reflexivity|].
  unfold EncryptionUtf8.openBytes. cbn.
  rewrite !app_nil_r, toy_eqb_bytes_refl. cbn.
  by rewrite app_nil_r, toy_read_write.
Qed.


Lemma toy_derives : EncryptionUtf8.derives ToyUtf8.nc.
Proof. intros password salt iterations keylen digest. apply repeat_length. Qed.

(** The text "hé€" followed by U+1F600, which takes two code units. *)
Lemma encrypt_decrypt_roundtrip_witness :
  let s : Text := [104; 233; 8364; 55357; 56832]%N in
  truthy (ENCRYPTION_KEY ToyCrypto.env) = true
  ∧ EncryptionUtf8.seals_and_opens ToyUtf8.nc
  ∧ EncryptionUtf8.derives ToyUtf8.nc
  ∧ Utf8.units s
  ∧ Utf8.isWellFormed s = true
  ∧ (∃ i, i < 80 ∧ pool ToyCrypto.rng (cursor ToyCrypto.rng + i)
                   ≠ pool ToyCrypto.rng (cursor ToyCrypto.rng + 80 + i))
  ∧ ∃ c1 c2 g1 g2,
      EncryptionUtf8.encryptText ToyUtf8.nc ToyCrypto.env ToyCrypto.rng s
      = (Ok c1, g1)
      ∧ EncryptionUtf8.encryptText ToyUtf8.nc ToyCrypto.env g1 s = (Ok c2, g2)
      ∧ EncryptionUtf8.decryptText ToyUtf8.nc ToyCrypto.env c1
        = Ok (Utf8.toWellFormed s)
      ∧ EncryptionUtf8.decryptText ToyUtf8.nc ToyCrypto.env c2
        = Ok (Utf8.toWellFormed s)
      ∧ (Utf8.isWellFormed s = true →
         EncryptionUtf8.decryptText ToyUtf8.nc ToyCrypto.env c1 = Ok s
         ∧ EncryptionUtf8.decryptText ToyUtf8.nc ToyCrypto.env c2 = Ok s)
      ∧ pool g1 = pool ToyCrypto.rng ∧ cursor g1 = cursor ToyCrypto.rng + 80
      ∧ ((∃ i, i < 80 ∧ pool ToyCrypto.rng (cursor ToyCrypto.rng + i)
                       ≠ pool ToyCrypto.rng (cursor ToyCrypto.rng + 80 + i)) →
         c1 ≠ c2).
Proof.
  cbv zeta.
  split; [reflexivity|].
  split; [exact toy_seals_and_opens|].
  split; [exact toy_derives|].
  split; [by repeat constructor|].
  split; [reflexivity|].
  split; [exists 0; split; [lia|by vm_compute]|].
  apply (encrypt_decrypt_roundtrip ToyUtf8.nc ToyCrypto.env ToyCrypto.rng);
    [reflexivity | exact toy_seals_and_opens | exact toy_derives
    | by repeat constructor].
Defined.

(** A text that is one lead surrogate: what comes back is U+FFFD. *)
Lemma lone_surrogate_not_restored :
  ∃ c,
    (EncryptionUtf8.encryptText ToyUtf8.nc ToyCrypto.env ToyCrypto.rng
       [55296%N]).1 = Ok c
    ∧ EncryptionUtf8.decryptText ToyUtf8.nc ToyCrypto.env c = Ok [65533%N]
    ∧ EncryptionUtf8.decryptText ToyUtf8.nc ToyCrypto.env c ≠ Ok [55296%N].
Proof.
  eexists. split; [by vm_compute|].
  assert (EncryptionUtf8.decryptText ToyUtf8.nc ToyCrypto.env
            (ToyUtf8.sealedText [55296%N]) = Ok [65533%N]) as H
    by by vm_compute.
  split; [exact H|]. unfold ToyUtf8.sealedText in H. vm_compute in H |- *.
  by intros [=].
Qed.
(** ** The identity provider client *)

Lemma is_error_true (o : option string) (s : string) :
  TwitchApiService.is_error o s = true ↔ o = Some s.
Proof.
  destruct o as [x|]; cbn; [|done].
  rewrite String.eqb_eq. split; congruence.
Qed.

Lemma is_error_false (o : option string) (s : string) :
  TwitchApiService.is_error o s = false ↔ o ≠ Some s.
Proof.
  rewrite <- is_error_true. destruct (TwitchApiService.is_error o s); naive_solver.
Qed.

(** What [pollDeviceToken] makes of each answer of the token endpoint. *)
Lemma pollDeviceToken_cases (tw : Twitch) (clientId deviceCode : string) :
  match post_token tw (device_code_grant clientId deviceCode) with
  | Responded d =>
      TwitchApiService.pollDeviceToken tw clientId deviceCode
      = Ok (Some (TwitchApiService.token_result d))
  | Rejected status data =>
      let e := TwitchApiService.errorType data in
      if bool_decide (status = 400%Z
                      ∧ (e = Some "authorization_pending" ∨ e = Some "slow_down"))
      then TwitchApiService.pollDeviceToken tw clientId deviceCode = Ok None
      else if bool_decide (status = 400%Z ∧ e = Some "access_denied")
      then TwitchApiService.pollDeviceToken tw clientId deviceCode
           = Throw "access_denied"
      else if bool_decide (status = 400%Z ∧ e = Some "expired_token")
      then TwitchApiService.pollDeviceToken tw clientId deviceCode
           = Throw "expired_token"
      else TwitchApiService.pollDeviceToken tw clientId deviceCode
           = Throw "Failed to poll for device token"
  | Failed _ =>
      TwitchApiService.pollDeviceToken tw clientId deviceCode
      = Throw "Failed to poll for device token"
  end.
Proof.
  unfold TwitchApiService.pollDeviceToken.
  destruct (post_token tw _) as [d|status data|reason]; [done| |done].
  cbv zeta. set (e := TwitchApiService.errorType data).
  destruct (Z.eqb_spec status 400) as [->|Hne].
  - destruct (TwitchApiService.is_error e "authorization_pending") eqn:E1.
    { apply is_error_true in E1. rewrite bool_decide_eq_true_2; naive_solver. }
    apply is_error_false in E1.
    destruct (TwitchApiService.is_error e "access_denied") eqn:E2.
    { apply is_error_true in E2. rewrite E2.
      rewrite bool_decide_eq_false_2 by naive_solver.
      rewrite bool_decide_eq_true_2 by naive_solver. done. }
    apply is_error_false in E2.
    destruct (TwitchApiService.is_error e "expired_token") eqn:E3.
    { apply is_error_true in E3. rewrite E3.
      rewrite bool_decide_eq_false_2 by naive_solver.
      rewrite bool_decide_eq_false_2 by naive_solver.
      rewrite bool_decide_eq_true_2 by naive_solver. done. }
    apply is_error_false in E3. cbn [orb].
    destruct (TwitchApiService.is_error e "slow_down") eqn:E4.
    { apply is_error_true in E4. rewrite bool_decide_eq_true_2; naive_solver. }
    apply is_error_false in E4.
    rewrite !bool_decide_eq_false_2 by naive_solver. done.
  - rewrite !bool_decide_eq_false_2 by naive_solver. done.
Qed.

Lemma pollDeviceToken_pending_iff (tw : Twitch) (clientId deviceCode : string) :
  TwitchApiService.pollDeviceToken tw clientId deviceCode = Ok None
  ↔ ∃ data,
      post_token tw (device_code_grant clientId deviceCode) = Rejected 400 data
      ∧ (TwitchApiService.errorType data = Some "authorization_pending"
         ∨ TwitchApiService.errorType data = Some "slow_down").
Proof.
  pose proof (pollDeviceToken_cases tw clientId deviceCode) as H.
  destruct (post_token tw _) as [d|status data|reason].
  - rewrite H. split; [done|]. by intros (? & ? & _).
  - cbv zeta in H. repeat case_bool_decide; rewrite H.
    + split; [|done]. intros _. exists data. naive_solver.
    + split; [done|]. intros (? & [= ? ?] & ?); subst; naive_solver.
    + split; [done|]. intros (? & [= ? ?] & ?); subst; naive_solver.
    + split; [done|]. intros (? & [= ? ?] & ?); subst; naive_solver.
  - rewrite H. split; [done|]. by intros (? & ? & _).
Qed.


(** The error type that the client reads is the error that the body
    reports. *)
Lemma errorType_reports (data : option ErrorData) (e : string) :
  e ≠ "" → TwitchApiService.errorType data = Some e ↔ reports data e.
Proof.
  intros He. unfold TwitchApiService.errorType, reports, js_or, truthy.
  destruct data as [d|]; [|split; [done|by intros (? & ? & _)]].
  destruct (message d) as [m|] eqn:Hm.
  - destruct (String.eqb_spec m "") as [->|Hne]; cbn.
    + split; [intros H; exists d; naive_solver|].
      intros (? & [= <-] & [[Hm' ?]|[_ H]]); [|done]. congruence.
    + split; [intros [= ->]; exists d; naive_solver|].
      intros (? & [= <-] & [[Hm' ?]|[[Hm'|Hm'] H]]); congruence.
  - split; [intros H; exists d; naive_solver|].
    intros (? & [= <-] & [[Hm' ?]|[_ H]]); [congruence|done].
Qed.
(** ** The token controller *)

Arguments Encryption.encrypt : simpl never.
Arguments Encryption.decrypt : simpl never.
Arguments Prisma.new_id : simpl never.
Arguments TwitchApiService.pollDeviceToken : simpl never.
Arguments TwitchApiService.validateToken : simpl never.
Arguments TwitchApiService.refreshAccessToken : simpl never.

(** [new Date(t)] is a valid date exactly for the instants that a [Date]
    can hold. *)
Lemma ofNumber_representable (t : Z) :
  representable t → JsDate.ofNumber t = Some t.
Proof.
  unfold representable, JsDate.ofNumber, JsDate.TimeClip, JsDate.maxTime.
  intros H. by rewrite (proj2 (Z.leb_le _ _)) by lia.
Qed.

Lemma ofNumber_unrepresentable (t : Z) :
  ¬ representable t → JsDate.ofNumber t = None.
Proof.
  unfold representable, JsDate.ofNumber, JsDate.TimeClip, JsDate.maxTime.
  intros H. by rewrite (proj2 (Z.leb_gt _ _)) by lia.
Qed.

Section PollUserToken.
Import TwitchApiService TokenController.
Context (w : World) (req : Request) (db : Db) (cfg : TwitchConfig.t).
Hypothesis Hvalid : errors req = [].
Hypothesis Hcfg : twitchConfig db !! body_twitchConfigId req = Some cfg.
Hypothesis Howner : TwitchConfig.userId cfg = user_userId req.

(** Past the guards, the handler is its [try] body applied to the outcome
    of the provider client. *)
Lemma pollUserToken_pending :
  pollDeviceToken (w_twitch w) (TwitchConfig.clientId cfg)
    (body_deviceCode req) = Ok None →
  pollUserToken w req db = (json 200 [("status", JStr "pending")], db).
Proof.
  intros Hp. unfold pollUserToken. rewrite Hvalid, Hcfg. cbn.
  rewrite Howner, String.eqb_refl. cbn. rewrite Hp. reflexivity.
Qed.

Lemma pollUserToken_throw m :
  pollDeviceToken (w_twitch w) (TwitchConfig.clientId cfg)
    (body_deviceCode req) = Throw m →
  pollUserToken w req db
  = if String.eqb m "access_denied" then
      (json 403 [("status", JStr "denied"); ("error", JStr "Access denied");
                 ("message", JStr "User denied the authorization request")],
       db)
    else if String.eqb m "expired_token" then
      (json 400 [("status", JStr "expired"); ("error", JStr "Token expired");
                 ("message",
                  JStr "The device code has expired. Please start over.")],
       db)
    else (server_error (message_or m "Failed to poll for user token"), db).
Proof.
  intros Hp. unfold pollUserToken. rewrite Hvalid, Hcfg. cbn.
  rewrite Howner, String.eqb_refl. cbn. rewrite Hp. reflexivity.
Qed.

Lemma pollUserToken_success tokenData validation c1 c2 g1 g2 :
  pollDeviceToken (w_twitch w) (TwitchConfig.clientId cfg)
    (body_deviceCode req) = Ok (Some tokenData) →
  validateToken (w_twitch w) (accessToken tokenData) = Ok validation →
  Encryption.encrypt (w_crypto w) (w_env w) (w_rng w) (accessToken tokenData)
  = (Ok c1, g1) →
  Encryption.encrypt (w_crypto w) (w_env w) g1
    (TwitchApiService.refreshToken tokenData) = (Ok c2, g2) →
  representable (w_now w + expiresIn tokenData * 1000) →
  let row :=
    {| SavedToken.userId := user_userId req;
       SavedToken.twitchConfigId := body_twitchConfigId req;
       SavedToken.tokenType := "user";
       SavedToken.accessToken := c1;
       SavedToken.refreshToken := Some c2;
       SavedToken.scopes := scopes tokenData;
       SavedToken.channelLogin := v_login validation;
       SavedToken.channelId := v_userId validation;
       SavedToken.name := or_null (body_name req);
       SavedToken.expiresAt := Some (w_now w + expiresIn tokenData * 1000)%Z;
       SavedToken.createdAt := w_now w;
       SavedToken.updatedAt := w_now w |} in
  let id := Prisma.new_id (savedToken db) in
  pollUserToken w req db
  = (json 201
       [("status", JStr "success");
        ("message", JStr "User access token generated successfully");
        ("token",
         responseToken id row (accessToken tokenData)
           (Some (TwitchApiService.refreshToken tokenData))
           (JObj [("id", JStr (body_twitchConfigId req));
                  ("clientId", JStr (TwitchConfig.clientId cfg));
                  ("name", jopt (TwitchConfig.name cfg))]))],
     {| twitchConfig := twitchConfig db;
        savedToken := <[id := row]> (savedToken db);
        webhook := webhook db |}).
Proof.
  intros Hpoll Hval He1 He2 Hdate. cbv zeta.
  unfold pollUserToken. rewrite Hvalid, Hcfg. cbn.
  rewrite Howner, String.eqb_refl. cbn. rewrite Hpoll. cbn.
  rewrite Hval. cbn. rewrite He1. cbn. rewrite He2. cbn.
  rewrite (ofNumber_representable _ Hdate). cbn.
  unfold Prisma.select_twitchConfig. cbn. rewrite Hcfg. reflexivity.
Qed.

(** When the expiry is no instant that a [Date] can hold, the store
    refuses the row and the handler answers 500. *)
Lemma pollUserToken_invalid_date tokenData validation c1 c2 g1 g2 :
  pollDeviceToken (w_twitch w) (TwitchConfig.clientId cfg)
    (body_deviceCode req) = Ok (Some tokenData) →
  validateToken (w_twitch w) (accessToken tokenData) = Ok validation →
  Encryption.encrypt (w_crypto w) (w_env w) (w_rng w) (accessToken tokenData)
  = (Ok c1, g1) →
  Encryption.encrypt (w_crypto w) (w_env w) g1
    (TwitchApiService.refreshToken tokenData) = (Ok c2, g2) →
  ¬ representable (w_now w + expiresIn tokenData * 1000) →
  ∃ body,
    pollUserToken w req db = ({| status := 500; body := body |}, db).
Proof.
  intros Hpoll Hval He1 He2 Hdate.
  unfold pollUserToken. rewrite Hvalid, Hcfg. cbn.
  rewrite Howner, String.eqb_refl. cbn. rewrite Hpoll. cbn.
  rewrite Hval. cbn. rewrite He1. cbn. rewrite He2. cbn.
  rewrite (ofNumber_unrepresentable _ Hdate). by eexists.
Qed.

End PollUserToken.

(** C2: [pollDeviceToken] returns null exactly on a 400 answer whose body
    reports [authorization_pending] or [slow_down], and [pollUserToken]
    then answers [pending]; for a 400 answer that reports [access_denied]
    it throws that name and [pollUserToken] answers [denied] (403); for one
    that reports [expired_token] it throws that name and [pollUserToken]
    answers [expired] (400); for every other rejection, and when no answer
    arrives, it throws one fixed message and [pollUserToken] answers 500.
    What a body reports is its [message], or its [error] when the message
    is missing or empty. *)
Theorem pollDeviceToken_classification (w : World) (req : Request) (db : Db)
    (cfg : TwitchConfig.t) :
  errors req = [] →
  twitchConfig db !! body_twitchConfigId req = Some cfg →
  TwitchConfig.userId cfg = user_userId req →
  let answer :=
    post_token (w_twitch w)
      (device_code_grant (TwitchConfig.clientId cfg) (body_deviceCode req)) in
  let poll :=
    TwitchApiService.pollDeviceToken (w_twitch w) (TwitchConfig.clientId cfg)
      (body_deviceCode req) in
  let run := TokenController.pollUserToken w req db in
  (poll = Ok None
   ↔ ∃ data, answer = Rejected 400 data
             ∧ (reports data "authorization_pending"
                ∨ reports data "slow_down"))
  ∧ (poll = Ok None → run = (json 200 [("status", JStr "pending")], db))
  ∧ (∀ data, answer = Rejected 400 data → reports data "access_denied" →
       poll = Throw "access_denied"
       ∧ run
         = (json 403 [("status", JStr "denied"); ("error", JStr "Access denied");
                      ("message",
                       JStr "User denied the authorization request")],
            db))
  ∧ (∀ data, answer = Rejected 400 data → reports data "expired_token" →
       poll = Throw "expired_token"
       ∧ run
         = (json 400 [("status", JStr "expired"); ("error", JStr "Token expired");
                      ("message",
                       JStr "The device code has expired. Please start over.")],
            db))
  ∧ (∀ status data, answer = Rejected status data →
       ¬ (status = 400%Z
          ∧ (reports data "authorization_pending" ∨ reports data "slow_down"
             ∨ reports data "access_denied" ∨ reports data "expired_token")) →
       poll = Throw "Failed to poll for device token"
       ∧ run = (json 500 [("error", JStr "Server error");
                          ("message", JStr "Failed to poll for device token")],
                db))
  ∧ (∀ reason, answer = Failed reason →
       poll = Throw "Failed to poll for device token"
       ∧ run = (json 500 [("error", JStr "Server error");
                          ("message", JStr "Failed to poll for device token")],
                db)).
Proof.
  intros Hvalid Hcfg Howner answer poll run.
  pose proof (pollDeviceToken_cases (w_twitch w) (TwitchConfig.clientId cfg)
                (body_deviceCode req)) as Hcases.
  fold answer poll in Hcases.
  assert (∀ m, poll = Throw m → m = "access_denied" →
            run = (json 403 [("status", JStr "denied");
                             ("error", JStr "Access denied");
                             ("message",
                              JStr "User denied the authorization request")],
                   db)) as Hdenied.
  { intros m Hp ->. unfold run.
    by rewrite (pollUserToken_throw w req db cfg Hvalid Hcfg Howner _ Hp). }
  assert (∀ m, poll = Throw m → m = "expired_token" →
            run = (json 400 [("status", JStr "expired");
                             ("error", JStr "Token expired");
                             ("message",
                              JStr "The device code has expired. Please start over.")],
                   db)) as Hexpired.
  { intros m Hp ->. unfold run.
    by rewrite (pollUserToken_throw w req db cfg Hvalid Hcfg Howner _ Hp). }
  assert (∀ m, poll = Throw m → m = "Failed to poll for device token" →
            run = (json 500 [("error", JStr "Server error");
                             ("message",
                              JStr "Failed to poll for device token")],
                   db)) as Hfailed.
  { intros m Hp ->. unfold run.
    by rewrite (pollUserToken_throw w req db cfg Hvalid Hcfg Howner _ Hp). }
  split.
  { unfold poll. rewrite pollDeviceToken_pending_iff. fold answer.
    split; intros (data & Ha & He); exists data; (split; [done|]).
    - by rewrite <- !errorType_reports.
    - by rewrite !errorType_reports. }
  split; [by apply pollUserToken_pending|].
  split.
  { intros data Ha He%errorType_reports; [|done].
    rewrite Ha in Hcases. cbv zeta in Hcases. rewrite He in Hcases.
    rewrite bool_decide_eq_false_2 in Hcases by naive_solver.
    rewrite bool_decide_eq_true_2 in Hcases by done. eauto. }
  split.
  { intros data Ha He%errorType_reports; [|done].
    rewrite Ha in Hcases. cbv zeta in Hcases. rewrite He in Hcases.
    rewrite bool_decide_eq_false_2 in Hcases by naive_solver.
    rewrite bool_decide_eq_false_2 in Hcases by naive_solver.
    rewrite bool_decide_eq_true_2 in Hcases by done. eauto. }
  split.
  { intros status data Ha Hnot. rewrite Ha in Hcases. cbv zeta in Hcases.
    rewrite !bool_decide_eq_false_2 in Hcases; [eauto|..];
      intros [-> He]; apply Hnot; (split; [done|]);
      rewrite <- !errorType_reports by done; naive_solver. }
  intros reason Ha. rewrite Ha in Hcases. eauto.
Qed.

Lemma codec_ready_encrypt (w : World) (g : Rng) (text : string) :
  codec_ready w →
  ∃ c, Encryption.encrypt (w_crypto w) (w_env w) g text
       = (Ok c, {| pool := pool g;
                   cursor := cursor g + Encryption.SALT_LENGTH
                             + Encryption.IV_LENGTH |})
       ∧ Encryption.decrypt (w_crypto w) (w_env w) c = Ok text.
Proof.
  intros (Hkey & Hgcm & Hlen).
  destruct (encrypt_sealed (w_crypto w) (w_env w) g text Hkey Hgcm Hlen)
    as (k & d & t & Hk & Hs & Ho & He).
  eexists. split; [exact He|]. by rewrite decrypt_envelope, Hk.
Qed.

Lemma new_id_fresh {A} (table : gmap string A) :
  table !! Prisma.new_id table = None.
Proof. apply fresh_string_fresh. Qed.

Lemma startUserToken_store (w : World) (req : Request) (db : Db) :
  (TokenController.startUserToken w req db).2 = db.
Proof.
  unfold TokenController.startUserToken.
  destruct (is_empty (errors req)); cbn; [|done].
  destruct (twitchConfig db !! body_twitchConfigId req) as [c|]; cbn; [|done].
  destruct (String.eqb _ _); cbn; [|done].
  by destruct (TwitchApiService.startDeviceFlow _ _ _).
Qed.

Lemma after_polls_pending (db : Db) (polls : list (World * Request)) :
  Forall (pending_poll db) polls → after_polls db polls = db.
Proof.
  unfold after_polls. induction 1 as [|[w r] polls (Hv & cfg & Hc & Ho & Hp) _ IH];
    [done|].
  cbn. by rewrite (pollUserToken_pending w r db cfg Hv Hc Ho Hp).
Qed.

(** C1: on a credential set owned by the requester, a poll for which the
    provider client returns null answers [pending] and leaves the store as
    it was; a poll for which it returns a token result whose expiry, the
    time of receipt plus [expiresIn] seconds, is an instant that a date can
    hold, validates the new access secret and adds exactly one [user] row
    holding the two encrypted secrets, the subject identity from the
    validation, the granted scopes and that expiry; hence a start, any
    number of pending polls and one successful poll add exactly one row.
    When the expiry is no such instant, the poll answers 500 and adds
    nothing. *)
Theorem pollUserToken_device_flow (w : World) (req : Request) (db : Db)
    (cfg : TwitchConfig.t) (tokenData : TwitchApiService.TokenResult)
    (validation : TwitchApiService.Validation)
    (w0 : World) (req0 : Request) (polls : list (World * Request)) :
  errors req = [] →
  twitchConfig db !! body_twitchConfigId req = Some cfg →
  TwitchConfig.userId cfg = user_userId req →
  codec_ready w →
  TwitchApiService.pollDeviceToken (w_twitch w) (TwitchConfig.clientId cfg)
    (body_deviceCode req) = Ok (Some tokenData) →
  TwitchApiService.validateToken (w_twitch w)
    (TwitchApiService.accessToken tokenData) = Ok validation →
  Forall (pending_poll db) polls →
  let expiry := (w_now w + TwitchApiService.expiresIn tokenData * 1000)%Z in
  (∀ wr, pending_poll db wr →
     TokenController.pollUserToken wr.1 wr.2 db
     = (json 200 [("status", JStr "pending")], db))
  ∧ ((-8640000000000000 ≤ expiry ≤ 8640000000000000)%Z →
     ∃ id encryptedAccessToken encryptedRefreshToken body,
       let row :=
         {| SavedToken.userId := user_userId req;
            SavedToken.twitchConfigId := body_twitchConfigId req;
            SavedToken.tokenType := "user";
            SavedToken.accessToken := encryptedAccessToken;
            SavedToken.refreshToken := Some encryptedRefreshToken;
            SavedToken.scopes := TwitchApiService.scopes tokenData;
            SavedToken.channelLogin := TwitchApiService.v_login validation;
            SavedToken.channelId := TwitchApiService.v_userId validation;
            SavedToken.name := or_null (body_name req);
            SavedToken.expiresAt := Some expiry;
            SavedToken.createdAt := w_now w;
            SavedToken.updatedAt := w_now w |} in
       let db' :=
         {| twitchConfig := twitchConfig db;
            savedToken := <[id := row]> (savedToken db);
            webhook := webhook db |} in
       savedToken db !! id = None
       ∧ Encryption.decrypt (w_crypto w) (w_env w) encryptedAccessToken
         = Ok (TwitchApiService.accessToken tokenData)
       ∧ Encryption.decrypt (w_crypto w) (w_env w) encryptedRefreshToken
         = Ok (TwitchApiService.refreshToken tokenData)
       ∧ TokenController.pollUserToken w req db
         = ({| status := 201; body := body |}, db')
       ∧ size (savedToken db') = S (size (savedToken db))
       ∧ TokenController.pollUserToken w req
           (after_polls (TokenController.startUserToken w0 req0 db).2 polls)
         = ({| status := 201; body := body |}, db'))
  ∧ (¬ (-8640000000000000 ≤ expiry ≤ 8640000000000000)%Z →
     ∃ body,
       TokenController.pollUserToken w req db
       = ({| status := 500; body := body |}, db)).
Proof.
  intros Hvalid Hcfg Howner Hready Hpoll Hval Hpending expiry.
  split.
  { intros [w' r'] (Hv & cfg' & Hc & Ho & Hp).
    by apply (pollUserToken_pending w' r' db cfg'). }
  destruct (codec_ready_encrypt w (w_rng w)
              (TwitchApiService.accessToken tokenData) Hready)
    as (c1 & He1 & Hd1).
  set (g1 := {| pool := pool (w_rng w);
                cursor := cursor (w_rng w) + Encryption.SALT_LENGTH
                          + Encryption.IV_LENGTH |}) in *.
  destruct (codec_ready_encrypt w g1
              (TwitchApiService.refreshToken tokenData) Hready)
    as (c2 & He2 & Hd2).
  split.
  - intros Hdate.
    exists (Prisma.new_id (savedToken db)), c1, c2. eexists. cbv zeta.
    split; [apply new_id_fresh|].
    split; [exact Hd1|]. split; [exact Hd2|].
    pose proof (pollUserToken_success w req db cfg Hvalid Hcfg Howner _ _ _ _ _ _
                  Hpoll Hval He1 He2 Hdate) as Hrun.
    cbv zeta in Hrun. unfold json in Hrun.
    split; [exact Hrun|].
    split; [cbn; apply map_size_insert_None, new_id_fresh|].
    by rewrite startUserToken_store, after_polls_pending.
  - intros Hdate.
    by apply (pollUserToken_invalid_date w req db cfg Hvalid Hcfg Howner
                tokenData validation c1 c2 g1 _ Hpoll Hval He1 He2).
Qed.

(** Rows of a table selected by primary key. *)
Lemma filter_key_absent {A} (l : list (string * A)) (k : string) :
  k ∉ l.*1 → filter (λ r : string * A, r.1 = k) l = [].
Proof.
  induction l as [|[k' v'] l IH]; [done|]. rewrite fmap_cons. intros Hk.
  rewrite filter_cons_False by (cbn; set_solver). apply IH. set_solver.
Qed.

Lemma filter_key_unique {A} (l : list (string * A)) (k : string) (v : A) :
  NoDup l.*1 → (k, v) ∈ l → filter (λ r : string * A, r.1 = k) l = [(k, v)].
Proof.
  induction l as [|[k' v'] l IH]; [by intros _ ?%elem_of_nil|].
  rewrite fmap_cons. intros [Hk' Hnd]%NoDup_cons Hin.
  destruct (decide (k' = k)) as [->|Hne].
  - rewrite filter_cons_True by done.
    rewrite filter_key_absent by done.
    apply elem_of_cons in Hin as [[= ->]|Hin]; [done|].
    exfalso. apply Hk'. apply list_elem_of_fmap. by exists (k, v).
  - rewrite filter_cons_False by done.
    apply elem_of_cons in Hin as [[= ? ?]|Hin]; [congruence|]. by apply IH.
Qed.

Lemma NoDup_fst_filter {A} (P : string * A → Prop) `{∀ x, Decision (P x)}
    (l : list (string * A)) :
  NoDup l.*1 → NoDup (filter P l).*1.
Proof.
  induction l as [|x l IH]; [done|]. rewrite fmap_cons.
  intros [Hx Hnd]%NoDup_cons.
  destruct (decide (P x)).
  - rewrite filter_cons_True by done. rewrite fmap_cons. apply NoDup_cons. split; [|by apply IH].
    intros ([k v] & Hk & Hin%list_elem_of_filter)%list_elem_of_fmap.
    apply Hx. apply list_elem_of_fmap. exists (k, v). naive_solver.
  - rewrite filter_cons_False by done. by apply IH.
Qed.

Lemma tokens_of_by_id (db : Db) (userId id : string) (row : SavedToken.t) :
  savedToken db !! id = Some row →
  SavedToken.userId row = userId →
  filter (λ r : string * SavedToken.t, r.1 = id) (tokens_of db userId)
  = [(id, row)].
Proof.
  intros Hrow Hu. apply filter_key_unique.
  - apply NoDup_fst_filter, NoDup_fst_map_to_list.
  - apply list_elem_of_filter. split; [done|]. by apply elem_of_map_to_list.
Qed.

(** [d.setSeconds(d.getSeconds() + s)] moves the wall-clock reading of [d]
    by [s] seconds. *)
Lemma setSeconds_reading (t s : Z) :
  JsDate.MakeDate (JsDate.Day t)
    (JsDate.MakeTime (JsDate.HourFromTime t) (JsDate.MinFromTime t)
       (JsDate.SecFromTime t + s) (JsDate.msFromTime t))
  = (t + s * 1000)%Z.
Proof.
  unfold JsDate.MakeDate, JsDate.MakeTime, JsDate.Day, JsDate.HourFromTime,
    JsDate.MinFromTime, JsDate.SecFromTime, JsDate.msFromTime,
    JsDate.msPerDay, JsDate.msPerHour, JsDate.msPerMinute, JsDate.msPerSecond.
  Z.to_euclidean_division_equations. lia.
Qed.

Lemma addSeconds_wall_clock (w : World) (seconds : Z) :
  TokenController.addSeconds w seconds
  = JsDate.TimeClip (wall_clock_later w seconds).
Proof.
  unfold TokenController.addSeconds, JsDate.setSeconds, JsDate.getSeconds,
    wall_clock_later.
  rewrite setSeconds_reading. reflexivity.
Qed.

Lemma addSeconds_representable (w : World) (seconds : Z) :
  representable (wall_clock_later w seconds) →
  TokenController.addSeconds w seconds = Some (wall_clock_later w seconds).
Proof.
  intros H. rewrite addSeconds_wall_clock. by apply ofNumber_representable.
Qed.

Lemma addSeconds_unrepresentable (w : World) (seconds : Z) :
  ¬ representable (wall_clock_later w seconds) →
  TokenController.addSeconds w seconds = None.
Proof.
  intros H. rewrite addSeconds_wall_clock. by apply ofNumber_unrepresentable.
Qed.

Section RefreshToken.
Import TwitchApiService.
Context (w : World) (req : Request) (db : Db) (token : SavedToken.t)
  (cfg : TwitchConfig.t).
Hypothesis Hvalid : errors req = [].
Hypothesis Htoken : savedToken db !! params_id req = Some token.
Hypothesis Hcfg : twitchConfig db !! SavedToken.twitchConfigId token = Some cfg.
Hypothesis Howner : SavedToken.userId token = user_userId req.

Lemma refreshToken_not_refreshable :
  SavedToken.tokenType token ≠ "user"
  ∨ truthy (SavedToken.refreshToken token) = false →
  TokenController.refreshToken w req db
  = (json 400 [("error", JStr "Bad request");
               ("message", JStr "This token cannot be refreshed")], db).
Proof.
  intros Hnot. unfold TokenController.refreshToken.
  rewrite Hvalid, Htoken. cbn.
  unfold Prisma.include_twitchConfig. rewrite Hcfg. cbn.
  rewrite Howner, String.eqb_refl. cbn.
  destruct Hnot as [Hk%String.eqb_neq| ->].
  - by rewrite Hk.
  - by rewrite orb_true_r.
Qed.

Lemma refreshToken_success refreshTokenValue clientSecret newTokenData
    c1 c2 g1 g2 :
  SavedToken.tokenType token = "user" →
  truthy (SavedToken.refreshToken token) = true →
  Encryption.decrypt (w_crypto w) (w_env w)
    (default "" (SavedToken.refreshToken token)) = Ok refreshTokenValue →
  Encryption.decrypt (w_crypto w) (w_env w) (TwitchConfig.clientSecret cfg)
  = Ok clientSecret →
  refreshAccessToken (w_twitch w) (TwitchConfig.clientId cfg) clientSecret
    refreshTokenValue = Ok newTokenData →
  Encryption.encrypt (w_crypto w) (w_env w) (w_rng w)
    (accessToken newTokenData) = (Ok c1, g1) →
  Encryption.encrypt (w_crypto w) (w_env w) g1 (refreshToken newTokenData)
  = (Ok c2, g2) →
  representable (wall_clock_later w (expiresIn newTokenData)) →
  let row :=
    {| SavedToken.userId := SavedToken.userId token;
       SavedToken.twitchConfigId := SavedToken.twitchConfigId token;
       SavedToken.tokenType := SavedToken.tokenType token;
       SavedToken.accessToken := c1;
       SavedToken.refreshToken := Some c2;
       SavedToken.scopes := scopes newTokenData;
       SavedToken.channelLogin := SavedToken.channelLogin token;
       SavedToken.channelId := SavedToken.channelId token;
       SavedToken.name := SavedToken.name token;
       SavedToken.expiresAt :=
         Some (wall_clock_later w (expiresIn newTokenData));
       SavedToken.createdAt := SavedToken.createdAt token;
       SavedToken.updatedAt := w_now w |} in
  TokenController.refreshToken w req db
  = (json 200
       [("message", JStr "Token refreshed successfully");
        ("token",
         TokenController.responseToken (params_id req) row
           (accessToken newTokenData) (Some (refreshToken newTokenData))
           (JObj [("id", JStr (SavedToken.twitchConfigId token));
                  ("clientId", JStr (TwitchConfig.clientId cfg));
                  ("name", jopt (TwitchConfig.name cfg))]))],
     {| twitchConfig := twitchConfig db;
        savedToken := <[params_id req := row]> (savedToken db);
        webhook := webhook db |}).
Proof.
  intros Hkind Hrt Hd1 Hd2 Hrefresh He1 He2 Hdate. cbv zeta.
  unfold TokenController.refreshToken.
  rewrite Hvalid, Htoken. cbn.
  unfold Prisma.include_twitchConfig. rewrite Hcfg. cbn.
  rewrite (proj2 (String.eqb_eq _ _) Howner). cbn.
  rewrite (proj2 (String.eqb_eq _ _) Hkind), Hrt. cbn.
  rewrite Hd1. cbn. rewrite Hd2. cbn. rewrite Hrefresh. cbn.
  rewrite He1. cbn. rewrite He2. cbn.
  rewrite (addSeconds_representable _ _ Hdate). cbn.
  unfold Prisma.savedToken_update. rewrite Htoken. cbn.
  unfold Prisma.select_twitchConfig. cbn. rewrite Hcfg. reflexivity.
Qed.

(** When the new expiry is no instant that a [Date] can hold, the store
    refuses the update and the handler answers 500. *)
Lemma refreshToken_invalid_date refreshTokenValue clientSecret newTokenData
    c1 c2 g1 g2 :
  SavedToken.tokenType token = "user" →
  truthy (SavedToken.refreshToken token) = true →
  Encryption.decrypt (w_crypto w) (w_env w)
    (default "" (SavedToken.refreshToken token)) = Ok refreshTokenValue →
  Encryption.decrypt (w_crypto w) (w_env w) (TwitchConfig.clientSecret cfg)
  = Ok clientSecret →
  refreshAccessToken (w_twitch w) (TwitchConfig.clientId cfg) clientSecret
    refreshTokenValue = Ok newTokenData →
  Encryption.encrypt (w_crypto w) (w_env w) (w_rng w)
    (accessToken newTokenData) = (Ok c1, g1) →
  Encryption.encrypt (w_crypto w) (w_env w) g1 (refreshToken newTokenData)
  = (Ok c2, g2) →
  ¬ representable (wall_clock_later w (expiresIn newTokenData)) →
  ∃ body,
    TokenController.refreshToken w req db
    = ({| status := 500; body := body |}, db).
Proof.
  intros Hkind Hrt Hd1 Hd2 Hrefresh He1 He2 Hdate.
  unfold TokenController.refreshToken.
  rewrite Hvalid, Htoken. cbn.
  unfold Prisma.include_twitchConfig. rewrite Hcfg. cbn.
  rewrite (proj2 (String.eqb_eq _ _) Howner). cbn.
  rewrite (proj2 (String.eqb_eq _ _) Hkind), Hrt. cbn.
  rewrite Hd1. cbn. rewrite Hd2. cbn. rewrite Hrefresh. cbn.
  rewrite He1. cbn. rewrite He2. cbn.
  rewrite (addSeconds_unrepresentable _ _ Hdate). by eexists.
Qed.

End RefreshToken.

(** C3: on a row owned by the requester, [refreshToken] answers 400 and
    leaves the store as it was unless the row is of kind [user] and has a
    refresh secret; otherwise one update overwrites the access secret, the
    refresh secret, the scopes and the expiry of that same row: the set of
    primary keys is unchanged and the owner's rows with this id are exactly
    the updated row.  The new expiry is the instant at which the server's
    wall clock reads [expiresIn] seconds more than now: [expiresIn] seconds
    from now when the offset of its time zone is then what it is now, and
    apart from that by the change of the offset.  When that is no instant
    that a date can hold, the answer is 500 and the row is left as it
    was. *)
Theorem refreshToken_in_place (w : World) (req : Request) (db : Db)
    (token : SavedToken.t) (cfg : TwitchConfig.t) :
  errors req = [] →
  savedToken db !! params_id req = Some token →
  twitchConfig db !! SavedToken.twitchConfigId token = Some cfg →
  SavedToken.userId token = user_userId req →
  (SavedToken.tokenType token ≠ "user"
   ∨ truthy (SavedToken.refreshToken token) = false →
   TokenController.refreshToken w req db
   = (json 400 [("error", JStr "Bad request");
                ("message", JStr "This token cannot be refreshed")], db))
  ∧ (SavedToken.tokenType token = "user" →
     truthy (SavedToken.refreshToken token) = true →
     codec_ready w →
     ∀ refreshTokenValue clientSecret newTokenData,
       Encryption.decrypt (w_crypto w) (w_env w)
         (default "" (SavedToken.refreshToken token)) = Ok refreshTokenValue →
       Encryption.decrypt (w_crypto w) (w_env w) (TwitchConfig.clientSecret cfg)
       = Ok clientSecret →
       TwitchApiService.refreshAccessToken (w_twitch w)
         (TwitchConfig.clientId cfg) clientSecret refreshTokenValue
       = Ok newTokenData →
       let offset := w_localTZA w (w_now w) true in
       let reading :=
         (w_now w + offset + TwitchApiService.expiresIn newTokenData * 1000)%Z in
       let offset' := w_localTZA w reading false in
       let expiry := (reading - offset')%Z in
       (offset' = offset →
        expiry = (w_now w + TwitchApiService.expiresIn newTokenData * 1000)%Z)
       ∧ ((-8640000000000000 ≤ expiry ≤ 8640000000000000)%Z →
          ∃ encryptedAccessToken encryptedRefreshToken body,
            let row :=
              {| SavedToken.userId := SavedToken.userId token;
                 SavedToken.twitchConfigId := SavedToken.twitchConfigId token;
                 SavedToken.tokenType := SavedToken.tokenType token;
                 SavedToken.accessToken := encryptedAccessToken;
                 SavedToken.refreshToken := Some encryptedRefreshToken;
                 SavedToken.scopes := TwitchApiService.scopes newTokenData;
                 SavedToken.channelLogin := SavedToken.channelLogin token;
                 SavedToken.channelId := SavedToken.channelId token;
                 SavedToken.name := SavedToken.name token;
                 SavedToken.expiresAt := Some expiry;
                 SavedToken.createdAt := SavedToken.createdAt token;
                 SavedToken.updatedAt := w_now w |} in
            let db' :=
              {| twitchConfig := twitchConfig db;
                 savedToken := <[params_id req := row]> (savedToken db);
                 webhook := webhook db |} in
            Encryption.decrypt (w_crypto w) (w_env w) encryptedAccessToken
            = Ok (TwitchApiService.accessToken newTokenData)
            ∧ Encryption.decrypt (w_crypto w) (w_env w) encryptedRefreshToken
              = Ok (TwitchApiService.refreshToken newTokenData)
            ∧ TokenController.refreshToken w req db
              = ({| status := 200; body := body |}, db')
            ∧ dom (savedToken db') = dom (savedToken db)
            ∧ size (savedToken db') = size (savedToken db)
            ∧ filter (λ r : string * SavedToken.t, r.1 = params_id req)
                (tokens_of db' (user_userId req))
              = [(params_id req, row)])
       ∧ (¬ (-8640000000000000 ≤ expiry ≤ 8640000000000000)%Z →
          ∃ body,
            TokenController.refreshToken w req db
            = ({| status := 500; body := body |}, db))).
Proof.
  intros Hvalid Htoken Hcfg Howner. split.
  { by apply (refreshToken_not_refreshable w req db token cfg). }
  intros Hkind Hrt Hready rt cs nd Hd1 Hd2 Hrefresh offset reading offset' expiry.
  destruct (codec_ready_encrypt w (w_rng w) (TwitchApiService.accessToken nd)
              Hready) as (c1 & He1 & Hc1).
  set (g1 := {| pool := pool (w_rng w);
                cursor := cursor (w_rng w) + Encryption.SALT_LENGTH
                          + Encryption.IV_LENGTH |}) in *.
  destruct (codec_ready_encrypt w g1 (TwitchApiService.refreshToken nd) Hready)
    as (c2 & He2 & Hc2).
  split; [unfold expiry, reading; lia|].
  split.
  - intros Hdate. exists c1, c2. eexists. cbv zeta.
    split; [exact Hc1|]. split; [exact Hc2|].
    pose proof (refreshToken_success w req db token cfg Hvalid Htoken Hcfg Howner
                  rt cs nd c1 c2 g1 _ Hkind Hrt Hd1 Hd2 Hrefresh He1 He2 Hdate)
      as Hrun.
    cbv zeta in Hrun. unfold json in Hrun.
    split; [exact Hrun|].
    assert (params_id req ∈ dom (savedToken db)) as Hin
      by (apply elem_of_dom; eauto).
    split; [cbn; rewrite dom_insert_L; set_solver|].
    split.
    { cbn. rewrite <- !size_dom, dom_insert_L.
      f_equal. set_solver. }
    apply tokens_of_by_id; [cbn; apply lookup_insert_eq|done].
  - intros Hdate.
    by apply (refreshToken_invalid_date w req db token cfg Hvalid Htoken Hcfg
                Howner rt cs nd c1 c2 g1 _ Hkind Hrt Hd1 Hd2 Hrefresh He1 He2).
Qed.
(** ** Listing tokens *)

Lemma insert_desc_fmap {A B} (f : A → B) (key : B → Z) (x : A) (l : list A) :
  insert_desc key (f x) (f <$> l) = f <$> insert_desc (key ∘ f) x l.
Proof.
  induction l as [|y l IH]; [done|]. cbn.
  destruct (key (f y) <? key (f x))%Z; [done|]. by rewrite IH.
Qed.

Lemma sort_desc_fmap {A B} (f : A → B) (key : B → Z) (l : list A) :
  sort_desc key (f <$> l) = f <$> sort_desc (key ∘ f) l.
Proof.
  induction l as [|x l IH]; [done|]. unfold sort_desc in *. cbn.
  by rewrite IH, insert_desc_fmap.
Qed.

Lemma filter_fmap {A B} (f : A → B) (P : B → Prop) `{∀ x, Decision (P x)}
    (l : list A) :
  filter P (f <$> l) = f <$> filter (P ∘ f) l.
Proof.
  induction l as [|x l IH]; [done|]. rewrite fmap_cons.
  destruct (decide (P (f x))).
  - rewrite !filter_cons_True by done. by rewrite fmap_cons, IH.
  - rewrite !filter_cons_False by done. done.
Qed.

Lemma mapM_Result_fmap {A B C} (f : A → B) (g : B → Result C) (l : list A) :
  mapM g (f <$> l) = mapM (g ∘ f) l.
Proof. induction l as [|x l IH]; [done|]. cbn. by rewrite IH. Qed.

Lemma mapM_Result_ext {A B} (g h : A → Result B) (l : list A) :
  (∀ x, g x = h x) → mapM g l = mapM h l.
Proof. intros E. induction l as [|x l IH]; [done|]. cbn. by rewrite E, IH. Qed.

Lemma mapM_Result_post {A B C} (g : A → Result B) (h : B → C) (l : list A) :
  (ys ← mapM g l; Ok (h <$> ys)) = mapM (λ x, y ← g x; Ok (h y)) l.
Proof.
  induction l as [|x l IH]; [done|]. cbn.
  destruct (g x) as [y|m]; [cbn|done].
  rewrite <- IH. by destruct (mapM g l).
Qed.

Lemma mapM_Result_Forall {A B} (g : A → Result B) (P : B → Prop) (l : list A)
    (ys : list B) :
  (∀ x y, g x = Ok y → P y) → mapM g l = Ok ys → Forall P ys.
Proof.
  intros HP. revert ys. induction l as [|x l IH]; intros ys; cbn.
  - intros [= <-]. constructor.
  - destruct (g x) as [y|] eqn:Hg; [cbn|done].
    destruct (mapM g l) as [k|]; [cbn|done].
    intros [= <-]. constructor; eauto.
Qed.

Lemma getAllTokens_listing (w : World) (req : Request) (db : Db) :
  TokenController.getAllTokens w req db
  = match listing db (user_userId req) with
    | Ok items => (json 200 [("tokens", JArr items)], db)
    | Throw _ =>
        (TokenController.server_error "Failed to retrieve saved tokens", db)
    end.
Proof.
  unfold TokenController.getAllTokens, listing, Prisma.savedToken_findMany,
    tokens_of.
  set (rows := sort_desc _ _).
  rewrite <- (mapM_Result_ext
                (λ row : string * SavedToken.t,
                   y ← (c ← Prisma.select_twitchConfig db
                              (SavedToken.twitchConfigId row.2); Ok (row, c));
                   Ok (TokenController.sanitized y.1.1 y.1.2 y.2))).
  2:{ intros row. by destruct (Prisma.select_twitchConfig _ _). }
  rewrite <- (mapM_Result_post _
                (λ t : string * SavedToken.t * Json,
                   TokenController.sanitized t.1.1 t.1.2 t.2)).
  by destruct (mapM _ rows).
Qed.

Lemma select_twitchConfig_public (db1 db2 : Db) (id : string) :
  redact_config <$> twitchConfig db1 = redact_config <$> twitchConfig db2 →
  Prisma.select_twitchConfig db1 id = Prisma.select_twitchConfig db2 id.
Proof.
  intros H. apply (f_equal (λ m : gmap string TwitchConfig.t, m !! id)) in H.
  rewrite !lookup_fmap in H. unfold Prisma.select_twitchConfig.
  destruct (twitchConfig db1 !! id) as [c1|], (twitchConfig db2 !! id) as [c2|];
    try done.
  cbn in H. injection H as H1 H2 H3 H4 H5. by rewrite H2, H3.
Qed.

Lemma listing_redacted (db : Db) (userId : string) :
  listing {| twitchConfig := twitchConfig db;
             savedToken := redact_token <$> savedToken db;
             webhook := webhook db |} userId
  = listing db userId.
Proof.
  unfold listing, tokens_of. cbn [savedToken].
  rewrite map_to_list_fmap.
  rewrite (filter_fmap (prod_map id redact_token)).
  rewrite (sort_desc_fmap (prod_map id redact_token)).
  rewrite mapM_Result_fmap.
  rewrite (list_filter_iff _ (λ row : string * SavedToken.t,
                                SavedToken.userId row.2 = userId))
    by (by intros [??]).
  by apply mapM_Result_ext; intros [id t].
Qed.

Lemma listing_config_public (db1 db2 : Db) (userId : string) :
  savedToken db1 = savedToken db2 →
  redact_config <$> twitchConfig db1 = redact_config <$> twitchConfig db2 →
  listing db1 userId = listing db2 userId.
Proof.
  intros Ht Hc. unfold listing, tokens_of. rewrite Ht.
  apply mapM_Result_ext. intros row.
  by rewrite (select_twitchConfig_public db1 db2).
Qed.

Lemma listing_same_public (db1 db2 : Db) (userId : string) :
  same_public db1 db2 → listing db1 userId = listing db2 userId.
Proof.
  intros [Ht Hc].
  rewrite <- (listing_redacted db1), <- (listing_redacted db2).
  by apply listing_config_public.
Qed.

Lemma sanitized_listed_view (id : string) (token : SavedToken.t) (db : Db)
    (c : Json) :
  Prisma.select_twitchConfig db (SavedToken.twitchConfigId token) = Ok c →
  listed_view (TokenController.sanitized id token c).
Proof.
  unfold Prisma.select_twitchConfig.
  destruct (twitchConfig db !! _) as [cfg|]; [|done].
  intros [= <-]. split; [reflexivity|]. eexists. split; reflexivity.
Qed.

(** C10: the token list is computed from the non-secret columns only: two
    stores that differ only in the stored secrets give the same answer,
    and every listed object has exactly the properties id, tokenType,
    scopes, channelLogin, channelId, name, expiresAt, createdAt, updatedAt
    and twitchConfig (itself id, clientId, name); the single-token fetch
    carries the decrypted access secret and, when one is stored, the
    decrypted refresh secret. *)
Theorem getAllTokens_hides_secrets (w : World) (req : Request) (db : Db) :
  (∀ w' db', same_public db db' →
     (TokenController.getAllTokens w req db).1
     = (TokenController.getAllTokens w' req db').1)
  ∧ ((TokenController.getAllTokens w req db).1
     = TokenController.server_error "Failed to retrieve saved tokens"
     ∨ ∃ items,
         (TokenController.getAllTokens w req db).1
         = json 200 [("tokens", JArr items)]
         ∧ Forall listed_view items)
  ∧ (∀ token config accessToken,
       errors req = [] →
       savedToken db !! params_id req = Some token →
       SavedToken.userId token = user_userId req →
       Prisma.select_twitchConfig db (SavedToken.twitchConfigId token)
       = Ok config →
       Encryption.decrypt (w_crypto w) (w_env w) (SavedToken.accessToken token)
       = Ok accessToken →
       (truthy (SavedToken.refreshToken token) = false →
        TokenController.getToken w req db
        = (json 200
             [("token",
               TokenController.responseToken (params_id req) token accessToken
                 None config)], db))
       ∧ (∀ refreshToken,
            truthy (SavedToken.refreshToken token) = true →
            Encryption.decrypt (w_crypto w) (w_env w)
              (default "" (SavedToken.refreshToken token)) = Ok refreshToken →
            TokenController.getToken w req db
            = (json 200
                 [("token",
                   TokenController.responseToken (params_id req) token
                     accessToken (Some refreshToken) config)], db)))
  ∧ (∀ id token accessToken refreshToken config,
       field "accessToken"
         (TokenController.responseToken id token accessToken refreshToken
            config) = Some (JStr accessToken)
       ∧ field "refreshToken"
           (TokenController.responseToken id token accessToken refreshToken
              config) = JStr <$> refreshToken).
Proof.
  split; [|split; [|split]].
  - intros w' db' Hsame. rewrite !getAllTokens_listing.
    rewrite (listing_same_public db db' _ Hsame).
    by destruct (listing db' _).
  - rewrite getAllTokens_listing.
    destruct (listing db (user_userId req)) as [items|m] eqn:Hl; [|by left].
    right. exists items. split; [done|].
    eapply mapM_Result_Forall; [|exact Hl].
    intros row y H. cbn in H.
    destruct (Prisma.select_twitchConfig db _) as [c|] eqn:Hc; [|done].
    injection H as <-. by eapply sanitized_listed_view.
  - intros token config a Hvalid Htoken Howner Hcfg Ha.
    unfold TokenController.getToken. rewrite Hvalid, Htoken. cbn.
    rewrite Hcfg. cbn. rewrite (proj2 (String.eqb_eq _ _) Howner). cbn.
    rewrite Ha. cbn. split.
    + by intros ->.
    + intros r -> Hr. rewrite Hr. reflexivity.
  - intros id token a r config. by destruct r.
Qed.

(** ** Webhook reconciliation *)

Section Reconcile.
Import WebhookController.
Context (now : Z) (userId : string).

Lemma localIds_spec (db : Db) (s : string) :
  s ∈ localIds db userId
  ↔ ∃ id row, webhook db !! id = Some row
              ∧ Webhook.userId row = userId
              ∧ Webhook.subscriptionId row = s.
Proof.
  unfold localIds, Prisma.webhook_findMany.
  rewrite elem_of_list_to_set, list_elem_of_fmap. split.
  - intros ([id row] & -> & [Hu Hin%elem_of_map_to_list]%list_elem_of_filter).
    by exists id, row.
  - intros (id & row & Hrow & Hu & <-). exists (id, row). split; [done|].
    apply list_elem_of_filter. split; [done|]. by apply elem_of_map_to_list.
Qed.

Lemma remoteIds_spec (remote : list Subscription) (s : string) :
  s ∈ remoteIds remote ↔ ∃ sub, sub ∈ remote ∧ sub_id sub = s.
Proof.
  unfold remoteIds. rewrite elem_of_list_to_set, list_elem_of_fmap.
  naive_solver.
Qed.

Lemma webhook_create_free (db : Db) (row : Webhook.t) :
  ¬ held (webhook db) (Webhook.subscriptionId row) →
  Prisma.webhook_create db row
  = Ok (Prisma.new_id (webhook db),
        {| twitchConfig := twitchConfig db;
           savedToken := savedToken db;
           webhook := <[Prisma.new_id (webhook db) := row]> (webhook db) |}).
Proof.
  intros Hfree. unfold Prisma.webhook_create.
  rewrite bool_decide_eq_false_2; [done|].
  intros ([id r] & Hin%elem_of_map_to_list & Hs)%Exists_exists.
  apply Hfree. by exists id, r.
Qed.

Lemma webhook_create_held (db : Db) (row : Webhook.t) :
  held (webhook db) (Webhook.subscriptionId row) →
  ∃ m, Prisma.webhook_create db row = Throw m.
Proof.
  intros (id & r & Hr & Hs). unfold Prisma.webhook_create.
  rewrite bool_decide_eq_true_2; [by eexists|].
  apply Exists_exists. exists (id, r). split; [|done].
  by apply elem_of_map_to_list.
Qed.

Lemma held_insert (table : gmap string Webhook.t) (id : string)
    (row : Webhook.t) (s : string) :
  table !! id = None →
  held (<[id := row]> table) s ↔ held table s ∨ Webhook.subscriptionId row = s.
Proof.
  intros Hfresh. unfold held. split.
  - intros (i & r & Hr & Hs). destruct (decide (i = id)) as [->|Hne].
    + rewrite lookup_insert_eq in Hr. injection Hr as <-. by right.
    + rewrite lookup_insert_ne in Hr by done. left. by exists i, r.
  - intros [(i & r & Hr & Hs)|Hs].
    + exists i, r. split; [|done]. rewrite lookup_insert_ne; [done|].
      intros ->. congruence.
    + exists id, row. by rewrite lookup_insert_eq.
Qed.

Lemma held_fmap (table : gmap string Webhook.t) (f : Webhook.t → Webhook.t)
    (s : string) :
  (∀ row, Webhook.subscriptionId (f row) = Webhook.subscriptionId row) →
  held (f <$> table) s ↔ held table s.
Proof.
  intros Hf. unfold held. split.
  - intros (i & r & Hr & Hs). rewrite lookup_fmap in Hr.
    destruct (table !! i) as [r0|] eqn:E; [|done]. injection Hr as <-.
    exists i, r0. by rewrite <- Hf.
  - intros (i & r & Hr & Hs). exists i, (f r).
    by rewrite lookup_fmap, Hr, Hf.
Qed.

Lemma applyUpdates_untouched (L : gset string) (remote : list Subscription)
    (row : Webhook.t) :
  Webhook.subscriptionId row ∉ L ∨ Webhook.userId row ≠ userId
  ∨ Webhook.subscriptionId row ∉ remoteIds remote →
  applyUpdates now userId L remote row = row.
Proof.
  induction remote as [|sub rest IH]; [done|]. intros H. cbn.
  rewrite bool_decide_eq_false_2.
  - apply IH. destruct H as [H|[H|H]]; [by left|by right; left|].
    right; right. intros Hin. apply H.
    apply remoteIds_spec in Hin as (s & Hs & <-).
    apply remoteIds_spec. exists s. split; [by right|done].
  - intros (HL & Hu & Hs). destruct H as [H|[H|H]]; [congruence|done|].
    apply H. apply remoteIds_spec. exists sub. split; [by left|done].
Qed.

Lemma applyUpdates_matched (L : gset string) (remote : list Subscription)
    (sub : Subscription) (row : Webhook.t) :
  NoDup (sub_id <$> remote) →
  sub ∈ remote → sub_id sub ∈ L →
  Webhook.userId row = userId →
  Webhook.subscriptionId row = sub_id sub →
  applyUpdates now userId L remote row = overwrite now sub row.
Proof.
  induction remote as [|s rest IH]; [by intros _ ?%elem_of_nil|].
  rewrite fmap_cons. intros [Hs Hnd]%NoDup_cons Hin HL Hu Hid. cbn.
  apply elem_of_cons in Hin as [<-|Hin].
  - rewrite bool_decide_eq_true_2 by done.
    apply applyUpdates_untouched. right; right. cbn.
    intros (s' & Hs' & E)%remoteIds_spec. apply Hs.
    apply list_elem_of_fmap. exists s'. split; [congruence|done].
  - rewrite bool_decide_eq_false_2; [by apply IH|].
    intros (_ & _ & E). apply Hs. apply list_elem_of_fmap.
    exists sub. split; [congruence|done].
Qed.

Lemma importable_tail_insert (db : Db) (L : gset string) (sub : Subscription)
    (rest : list Subscription) (row : Webhook.t) (id : string) :
  importable db L (sub :: rest) →
  webhook db !! id = None →
  Webhook.subscriptionId row = sub_id sub →
  importable {| twitchConfig := twitchConfig db;
                savedToken := savedToken db;
                webhook := <[id := row]> (webhook db) |} L rest.
Proof.
  intros [Hnd Hall] Hfresh Hrow. rewrite fmap_cons in Hnd.
  apply NoDup_cons in Hnd as [Hs Hnd]. split; [done|].
  intros sub' Hin HL. destruct (Hall sub' (list_elem_of_further _ _ _ Hin) HL)
    as [Hcb Hfree].
  split; [done|]. cbn. rewrite held_insert by done.
  intros [H|H]; [done|]. apply Hs. apply list_elem_of_fmap.
  exists sub'. split; [congruence|done].
Qed.

Lemma importable_tail_update (db : Db) (L : gset string) (sub : Subscription)
    (rest : list Subscription) :
  importable db L (sub :: rest) →
  importable (Prisma.webhook_updateMany db userId (sub_id sub)
                (overwrite now sub)) L rest.
Proof.
  intros [Hnd Hall]. rewrite fmap_cons in Hnd.
  apply NoDup_cons in Hnd as [Hs Hnd]. split; [done|].
  intros sub' Hin HL. destruct (Hall sub' (list_elem_of_further _ _ _ Hin) HL)
    as [Hcb Hfree].
  split; [done|]. cbn. rewrite held_fmap; [done|].
  intros row. by case_bool_decide.
Qed.

Lemma importLoop_ok (L : gset string) (remote : list Subscription) (db : Db)
    (t : Totals) :
  importable db L remote →
  ∃ db1 t1,
    importLoop now userId L remote db t = (db1, t1, true)
    ∧ twitchConfig db1 = twitchConfig db
    ∧ savedToken db1 = savedToken db
    ∧ totalImported t1
      = totalImported t
        + length (filter (λ sub, sub_id sub ∉ L) remote)
    ∧ totalUpdated t1
      = totalUpdated t + length (filter (λ sub, sub_id sub ∈ L) remote)
    ∧ totalRemoved t1 = totalRemoved t
    ∧ totalSubscriptions t1 = totalSubscriptions t
    ∧ configsSynced t1 = configsSynced t
    ∧ (∀ id row, webhook db !! id = Some row →
         webhook db1 !! id = Some (applyUpdates now userId L remote row))
    ∧ (∀ id row1, webhook db !! id = None → webhook db1 !! id = Some row1 →
         ∃ sub cb, sub ∈ remote ∧ (sub_id sub ∉ L)
                   ∧ sub_callback sub = Some cb
                   ∧ row1 = imported_row now userId sub cb)
    ∧ (∀ sub, sub ∈ remote → sub_id sub ∉ L →
         ∃ id cb, sub_callback sub = Some cb
                  ∧ webhook db !! id = None
                  ∧ webhook db1 !! id
                    = Some (imported_row now userId sub cb)).
Proof.
  revert db t. induction remote as [|sub rest IH]; intros db t Himp.
  { exists db, t. cbn. repeat split; try done; try lia.
    - intros id row1 H1 H2. congruence.
    - by intros sub ?%elem_of_nil. }
  cbn [importLoop]. destruct (decide (sub_id sub ∈ L)) as [HL|HL].
  - (* the id is known locally: updateMany *)
    rewrite bool_decide_eq_false_2 by (by intros ?).
    destruct (IH _ (updated t) (importable_tail_update db L sub rest Himp))
      as (db1 & t1 & Hrun & Hc & Hs & Hi & Hu & Hr & Hn & Hcs & HA & HB & HC).
    exists db1, t1. rewrite Hrun.
    rewrite filter_cons_False by (by intros ?).
    rewrite filter_cons_True by done. cbn in *.
    repeat split; try done; try lia.
    + intros id row Hrow. apply HA. rewrite lookup_fmap, Hrow. cbn.
      f_equal. repeat case_bool_decide; naive_solver.
    + intros id row1 Hnone Hrow1.
      destruct (HB id row1) as (s & cb & ? & ? & ? & ?); [|done|].
      { by rewrite lookup_fmap, Hnone. }
      exists s, cb. repeat split; try done. by right.
    + intros s [->|Hin]%elem_of_cons Hs'; [done|].
      destruct (HC s Hin Hs') as (id & cb & ? & Hnone & ?).
      exists id, cb. repeat split; try done.
      rewrite lookup_fmap in Hnone. by destruct (webhook db !! id).
  - (* the id is new: create *)
    rewrite bool_decide_eq_true_2 by done.
    destruct Himp as [Hnd Hall].
    destruct (Hall sub (list_elem_of_here _ _) HL) as [[cb Hcb] Hfree].
    rewrite Hcb. cbn [webhook_of mbind Result_bind].
    change (Ok ?x ≫= ?f) with (f x).
    rewrite webhook_create_free by done.
    set (id0 := Prisma.new_id (webhook db)).
    set (row0 := imported_row now userId sub cb).
    assert (webhook db !! id0 = None) as Hfresh by apply new_id_fresh.
    destruct (IH _ (imported t)
                (importable_tail_insert db L sub rest row0 id0
                   (conj Hnd Hall) Hfresh eq_refl))
      as (db1 & t1 & Hrun & Hc & Hs & Hi & Hu & Hr & Hn & Hcs & HA & HB & HC).
    exists db1, t1. split; [exact Hrun|].
    rewrite filter_cons_True by done.
    rewrite filter_cons_False by (by intros ?). cbn in *.
    assert (applyUpdates now userId L rest row0 = row0) as Hrow0
      by (apply applyUpdates_untouched; by left).
    repeat split; try done; try lia.
    + intros id row Hrow. rewrite bool_decide_eq_false_2 by naive_solver.
      apply HA. rewrite lookup_insert_ne; [done|].
      intros E. rewrite <- E, Hfresh in Hrow. done.
    + intros id row1 Hnone Hrow1. destruct (decide (id = id0)) as [->|Hne].
      * exists sub, cb. repeat split; try done; [by left|].
        specialize (HA id0 row0). rewrite lookup_insert_eq in HA.
        specialize (HA eq_refl). rewrite Hrow0, Hrow1 in HA.
        by injection HA as ->.
      * destruct (HB id row1) as (s & cb' & ? & ? & ? & ?); [|done|].
        { by rewrite lookup_insert_ne. }
        exists s, cb'. repeat split; try done. by right.
    + intros s [->|Hin]%elem_of_cons Hs'.
      * exists id0, cb. repeat split; try done.
        specialize (HA id0 row0). rewrite lookup_insert_eq, Hrow0 in HA.
        by apply HA.
      * destruct (HC s Hin Hs') as (id & cb' & ? & Hnone & ?).
        exists id, cb'. repeat split; try done.
        destruct (decide (id = id0)) as [->|Hne]; [done|].
        by rewrite lookup_insert_ne in Hnone.
Qed.

Lemma removeLoop_ok (R : gset string) (localWebhooks : list (string * Webhook.t))
    (db : Db) (t : Totals) :
  NoDup localWebhooks.*1 →
  (∀ id row, (id, row) ∈ localWebhooks → is_Some (webhook db !! id)) →
  ∃ db2 t2,
    removeLoop R localWebhooks db t = (db2, t2, true)
    ∧ twitchConfig db2 = twitchConfig db
    ∧ savedToken db2 = savedToken db
    ∧ totalImported t2 = totalImported t
    ∧ totalUpdated t2 = totalUpdated t
    ∧ totalRemoved t2
      = totalRemoved t
        + length (filter (λ w : string * Webhook.t,
                            Webhook.subscriptionId w.2 ∉ R) localWebhooks)
    ∧ totalSubscriptions t2 = totalSubscriptions t
    ∧ configsSynced t2 = configsSynced t
    ∧ (∀ id row, (id, row) ∈ localWebhooks →
         Webhook.subscriptionId row ∉ R → webhook db2 !! id = None)
    ∧ (∀ id, (∀ row, (id, row) ∈ localWebhooks →
                     Webhook.subscriptionId row ∈ R) →
         webhook db2 !! id = webhook db !! id).
Proof.
  revert db t. induction localWebhooks as [|[id0 row0] rest IH];
    intros db t Hnd Hpresent.
  { exists db, t. cbn. repeat split; try done; try lia.
    by intros id row ?%elem_of_nil. }
  rewrite fmap_cons in Hnd. apply NoDup_cons in Hnd as [Hid0 Hnd].
  assert (∀ row, (id0, row) ∉ rest) as Hnot.
  { intros row Hin. apply Hid0. apply list_elem_of_fmap. by exists (id0, row). }
  cbn [removeLoop]. destruct (decide (Webhook.subscriptionId row0 ∈ R)) as [HR|HR].
  - rewrite bool_decide_eq_false_2 by (by intros ?).
    destruct (IH db t Hnd) as (db2 & t2 & Hrun & Hc & Hs & Hi & Hu & Hr & Hn
                               & Hcs & Hdel & Hkeep).
    { intros id row Hin. apply (Hpresent id row). by right. }
    exists db2, t2. rewrite Hrun.
    rewrite filter_cons_False by (by intros ?).
    repeat split; try done.
    + intros id row [[= -> ->]|Hin]%elem_of_cons Hs'; [done|]. by eapply Hdel.
    + intros id Hall. apply Hkeep. intros row Hin. apply Hall. by right.
  - rewrite bool_decide_eq_true_2 by done.
    destruct (Hpresent id0 row0 (list_elem_of_here _ _)) as [r Hr0].
    unfold Prisma.webhook_delete. cbn [fst]. rewrite Hr0.
    destruct (IH {| twitchConfig := twitchConfig db;
                    savedToken := savedToken db;
                    webhook := delete id0 (webhook db) |} (removed t) Hnd)
      as (db2 & t2 & Hrun & Hc & Hs & Hi & Hu & Hr & Hn & Hcs & Hdel & Hkeep).
    { intros id row Hin. cbn. rewrite lookup_delete_ne.
      - apply (Hpresent id row). by right.
      - intros <-. by apply (Hnot row). }
    exists db2, t2. rewrite Hrun.
    rewrite filter_cons_True by done. cbn in *.
    repeat split; try done; try lia.
    + intros id row [[= -> ->]|Hin]%elem_of_cons Hs'; [|by eapply Hdel].
      rewrite Hkeep; [apply lookup_delete_eq|].
      intros row Hin. by destruct (Hnot row).
    + intros id Hall. rewrite Hkeep.
      * apply lookup_delete_ne. intros <-.
        apply HR, (Hall row0). by left.
      * intros row Hin. apply Hall. by right.
Qed.

Lemma applyUpdates_preserves (L : gset string) (remote : list Subscription)
    (row : Webhook.t) :
  Webhook.userId (applyUpdates now userId L remote row) = Webhook.userId row
  ∧ Webhook.subscriptionId (applyUpdates now userId L remote row)
    = Webhook.subscriptionId row.
Proof.
  revert row. induction remote as [|sub rest IH]; intros row; [done|].
  cbn. destruct (IH (if bool_decide
                          (sub_id sub ∈ L ∧ Webhook.userId row = userId
                           ∧ Webhook.subscriptionId row = sub_id sub)
                     then overwrite now sub row else row)) as [-> ->].
  by case_bool_decide.
Qed.

Lemma findMany_spec (db : Db) (id : string) (row : Webhook.t) :
  (id, row) ∈ Prisma.webhook_findMany db userId
  ↔ webhook db !! id = Some row ∧ Webhook.userId row = userId.
Proof.
  unfold Prisma.webhook_findMany.
  rewrite list_elem_of_filter, elem_of_map_to_list. naive_solver.
Qed.

Lemma findMany_NoDup (db : Db) :
  NoDup (Prisma.webhook_findMany db userId).*1.
Proof. apply NoDup_fst_filter, NoDup_fst_map_to_list. Qed.

(** One reconciliation against an importable remote list. *)
Lemma reconcile_spec (name : string) (remote : list Subscription) (db : Db)
    (t : Totals) :
  importable db (localIds db userId) remote →
  ∃ db' t',
    reconcile now userId name remote db t = (db', t')
    ∧ twitchConfig db' = twitchConfig db
    ∧ savedToken db' = savedToken db
    ∧ totalImported t'
      = totalImported t
        + length (filter (λ sub, sub_id sub ∉ localIds db userId) remote)
    ∧ totalUpdated t'
      = totalUpdated t
        + length (filter (λ sub, sub_id sub ∈ localIds db userId) remote)
    ∧ totalRemoved t'
      = totalRemoved t
        + length (filter (λ w : string * Webhook.t,
                            Webhook.subscriptionId w.2 ∉ remoteIds remote)
                         (Prisma.webhook_findMany db userId))
    ∧ totalSubscriptions t' = totalSubscriptions t + length remote
    ∧ configsSynced t' = configsSynced t ++ [name]
    ∧ (∀ sub, sub ∈ remote → sub_id sub ∉ localIds db userId →
         ∃ id cb, sub_callback sub = Some cb
                  ∧ webhook db !! id = None
                  ∧ webhook db' !! id
                    = Some (imported_row now userId sub cb))
    ∧ (∀ sub id row, sub ∈ remote → webhook db !! id = Some row →
         Webhook.userId row = userId →
         Webhook.subscriptionId row = sub_id sub →
         webhook db' !! id = Some (overwrite now sub row))
    ∧ (∀ id row, webhook db !! id = Some row →
         Webhook.userId row = userId →
         Webhook.subscriptionId row ∉ remoteIds remote →
         webhook db' !! id = None)
    ∧ (∀ id row, webhook db !! id = Some row →
         Webhook.userId row ≠ userId → webhook db' !! id = Some row)
    ∧ (∀ id row, webhook db' !! id = Some row →
         Webhook.userId row ≠ userId → webhook db !! id = Some row)
    ∧ localIds db' userId = remoteIds remote.
Proof.
  intros Himp. unfold reconcile.
  change (list_to_set _) with (localIds db userId) at 1.
  change (list_to_set (sub_id <$> remote)) with (remoteIds remote).
  set (L := localIds db userId) in *.
  set (R := remoteIds remote).
  set (t0 := fetched (length remote) name t).
  destruct (importLoop_ok L remote db t0 Himp)
    as (db1 & t1 & Hrun1 & Hc1 & Hs1 & Hi1 & Hu1 & Hr1 & Hn1 & Hcs1
        & HA & HB & HC).
  rewrite Hrun1.
  destruct (removeLoop_ok R (Prisma.webhook_findMany db userId) db1 t1
              (findMany_NoDup db))
    as (db2 & t2 & Hrun2 & Hc2 & Hs2 & Hi2 & Hu2 & Hr2 & Hn2 & Hcs2
        & Hdel & Hkeep).
  { intros id row [Hrow _]%findMany_spec. rewrite (HA id row Hrow). eauto. }
  rewrite Hrun2. exists db2, t2. cbn [fst].
  assert (∀ id row, webhook db !! id = Some row →
            Webhook.userId row ≠ userId ∨ Webhook.subscriptionId row ∈ R →
            webhook db2 !! id = Some (applyUpdates now userId L remote row))
    as Hkept.
  { intros id row Hrow Hcase. rewrite Hkeep; [by apply HA|].
    intros row' [Hrow' Hu']%findMany_spec.
    assert (row' = row) as -> by congruence.
    by destruct Hcase. }
  assert (∀ id, webhook db !! id = None → webhook db2 !! id = webhook db1 !! id)
    as Hnew.
  { intros id Hnone. apply Hkeep. intros row [Hrow _]%findMany_spec.
    congruence. }
  split; [done|]. split; [congruence|]. split; [congruence|].
  split; [rewrite Hi2, Hi1; done|]. split; [rewrite Hu2, Hu1; done|].
  split; [rewrite Hr2, Hr1; done|].
  split; [rewrite Hn2, Hn1; done|]. split; [rewrite Hcs2, Hcs1; done|].
  split.
  { intros sub Hin HL. destruct (HC sub Hin HL) as (id & cb & Hcb & Hnone & Hrow).
    exists id, cb. by rewrite Hnew. }
  split.
  { intros sub id row Hin Hrow Hu Hs.
    rewrite (Hkept id row Hrow).
    - f_equal. apply applyUpdates_matched; try done; [apply Himp|].
      apply localIds_spec. by exists id, row.
    - right. rewrite Hs. apply remoteIds_spec. by exists sub. }
  split.
  { intros id row Hrow Hu Hs. apply (Hdel id row); [|done].
    by apply findMany_spec. }
  split.
  { intros id row Hrow Hu. rewrite (Hkept id row Hrow) by (by left).
    f_equal. apply applyUpdates_untouched. by right; left. }
  split.
  { intros id row' Hrow' Hu'.
    destruct (webhook db !! id) as [row0|] eqn:Hrow0.
    - destruct (applyUpdates_preserves L remote row0) as [Hpu Hps].
      destruct (decide (Webhook.userId row0 = userId)) as [Hu0|Hu0].
      + destruct (decide (Webhook.subscriptionId row0 ∈ R)) as [HR|HR].
        * rewrite (Hkept id row0 Hrow0) in Hrow' by (by right).
          injection Hrow' as <-. congruence.
        * rewrite (Hdel id row0) in Hrow'; [done| |done].
          by apply findMany_spec.
      + rewrite (Hkept id row0 Hrow0) in Hrow' by (by left).
        rewrite applyUpdates_untouched in Hrow' by (by right; left). done.
    - rewrite (Hnew id Hrow0) in Hrow'.
      by destruct (HB id row' Hrow0 Hrow') as (sub & cb & Hin & _ & _ & ->). }
  apply set_eq. intros s. split.
  - intros (id & row' & Hrow' & Hu' & Hs')%localIds_spec.
    fold R.
    destruct (webhook db !! id) as [row0|] eqn:Hrow0.
    + destruct (applyUpdates_preserves L remote row0) as [Hpu Hps].
      destruct (decide (Webhook.userId row0 = userId)) as [Hu0|Hu0].
      * destruct (decide (Webhook.subscriptionId row0 ∈ R)) as [HR|HR].
        -- rewrite (Hkept id row0 Hrow0) in Hrow' by (by right).
           injection Hrow' as <-. by rewrite <- Hs', Hps.
        -- rewrite (Hdel id row0) in Hrow'; [done| |done].
           by apply findMany_spec.
      * rewrite (Hkept id row0 Hrow0) in Hrow' by (by left).
        injection Hrow' as <-. congruence.
    + rewrite (Hnew id Hrow0) in Hrow'.
      destruct (HB id row' Hrow0 Hrow') as (sub & cb & Hin & _ & _ & ->).
      apply remoteIds_spec. exists sub. by rewrite <- Hs'.
  - intros (sub & Hin & <-)%remoteIds_spec. apply localIds_spec.
    destruct (decide (sub_id sub ∈ L)) as [HL|HL].
    + apply localIds_spec in HL as (id & row & Hrow & Hu & Hs).
      exists id, (applyUpdates now userId L remote row).
      destruct (applyUpdates_preserves L remote row) as [-> ->].
      split; [|done]. apply Hkept; [done|]. right. rewrite Hs.
      apply remoteIds_spec. by exists sub.
    + destruct (HC sub Hin HL) as (id & cb & Hcb & Hnone & Hrow).
      exists id, (imported_row now userId sub cb).
      by rewrite (Hnew id Hnone).
Qed.

End Reconcile.

Section Pass.
Import WebhookController.
Context (w : World) (userId : string).

Lemma filter_none {A} (P : A → Prop) `{∀ x, Decision (P x)} (l : list A) :
  (∀ x, x ∈ l → ¬ P x) → filter P l = [].
Proof.
  induction l as [|x l IH]; [done|]. intros Hall.
  rewrite filter_cons_False by (apply Hall; by left).
  apply IH. intros y Hy. apply Hall. by right.
Qed.

Lemma filter_all {A} (P : A → Prop) `{∀ x, Decision (P x)} (l : list A) :
  (∀ x, x ∈ l → P x) → filter P l = l.
Proof.
  induction l as [|x l IH]; [done|]. intros Hall.
  rewrite filter_cons_True by (apply Hall; by left).
  f_equal. apply IH. intros y Hy. apply Hall. by right.
Qed.

Lemma syncable_importable (db : Db) (remote : list Subscription) :
  syncable db userId remote → importable db (localIds db userId) remote.
Proof.
  intros (Hnd & Hcb & Hforeign). split; [done|].
  intros sub Hin HL. split; [by apply Hcb|].
  intros (id & row & Hrow & Hs). apply HL. apply localIds_spec.
  exists id, row. repeat split; try done.
  apply (Hforeign id row Hrow). rewrite Hs.
  apply remoteIds_spec. by exists sub.
Qed.

Lemma syncable_preserved (db db' : Db) (remote : list Subscription) :
  (∀ id row, webhook db' !! id = Some row →
     Webhook.userId row ≠ userId → webhook db !! id = Some row) →
  syncable db userId remote → syncable db' userId remote.
Proof.
  intros Hconv (Hnd & Hcb & Hforeign). repeat split; try done.
  intros id row Hrow Hs.
  destruct (decide (Webhook.userId row = userId)) as [|Hne]; [done|].
  by apply (Hforeign id row (Hconv id row Hrow Hne)).
Qed.

Lemma syncToken_fetches (token : SavedToken.t * TwitchConfig.t)
    (remote : list Subscription) (db : Db) (t : Totals) :
  fetches w token remote →
  syncToken w userId token (db, t)
  = reconcile (w_now w) userId (configName token) remote db t.
Proof.
  intros (accessToken & Hd & Hf). unfold syncToken. rewrite Hd. cbn.
  by rewrite Hf.
Qed.

Lemma appTokens_tables (db db' : Db) (configId : option string) :
  twitchConfig db' = twitchConfig db → savedToken db' = savedToken db →
  appTokens db' userId configId = appTokens db userId configId.
Proof.
  intros Hc Hs. unfold appTokens, Prisma.include_twitchConfig.
  by rewrite Hc, Hs.
Qed.

Lemma syncWebhooks_pass (req : Request) (db : Db)
    (tokens : list (SavedToken.t * TwitchConfig.t)) :
  user_userId req = userId →
  appTokens db userId (body_configId req) = Ok tokens →
  tokens ≠ [] →
  syncWebhooks w req db
  = (report (foldl (λ st token, syncToken w userId token st) (db, zero)
               tokens).2,
     (foldl (λ st token, syncToken w userId token st) (db, zero) tokens).1).
Proof.
  intros Hu Htok Hne. unfold syncWebhooks. rewrite Hu, Htok. cbn.
  destruct tokens as [|tok rest]; [done|]. cbn [is_empty].
  by destruct (foldl _ _ _) as [db' t].
Qed.

(** A second reconciliation against the list that the store already
    mirrors only updates. *)
Lemma reconcile_again (now : Z) (name : string) (remote : list Subscription)
    (db : Db) (t : Totals) :
  NoDup (sub_id <$> remote) →
  localIds db userId = remoteIds remote →
  ∃ db' t',
    reconcile now userId name remote db t = (db', t')
    ∧ twitchConfig db' = twitchConfig db
    ∧ savedToken db' = savedToken db
    ∧ totalImported t' = totalImported t
    ∧ totalUpdated t' = totalUpdated t + length remote
    ∧ totalRemoved t' = totalRemoved t
    ∧ totalSubscriptions t' = totalSubscriptions t + length remote
    ∧ configsSynced t' = configsSynced t ++ [name]
    ∧ localIds db' userId = remoteIds remote.
Proof.
  intros Hnd HL.
  destruct (reconcile_spec now userId name remote db t)
    as (db' & t' & Hrun & Hc & Hs & Hi & Hu & Hr & Hn & Hcs & _ & _ & _ & _
        & _ & HL').
  { split; [done|]. intros sub Hin Hnot. destruct Hnot. rewrite HL.
    apply remoteIds_spec. by exists sub. }
  exists db', t'. repeat split; try done.
  - rewrite Hi, filter_none; [cbn; lia|].
    intros sub Hin Hnot. apply Hnot. rewrite HL.
    apply remoteIds_spec. by exists sub.
  - rewrite Hu, filter_all; [done|].
    intros sub Hin. rewrite HL. apply remoteIds_spec. by exists sub.
  - rewrite Hr, filter_none; [cbn; lia|].
    intros [id row] [Hrow Hu']%findMany_spec Hnot. apply Hnot. cbn.
    rewrite <- HL. apply localIds_spec. by exists id, row.
Qed.

End Pass.

Lemma totals_eq (t : WebhookController.Totals) (i u r n : nat)
    (names : list string) :
  WebhookController.totalImported t = i →
  WebhookController.totalUpdated t = u →
  WebhookController.totalRemoved t = r →
  WebhookController.totalSubscriptions t = n →
  WebhookController.configsSynced t = names →
  t = {| WebhookController.totalImported := i;
         WebhookController.totalUpdated := u;
         WebhookController.totalRemoved := r;
         WebhookController.totalSubscriptions := n;
         WebhookController.configsSynced := names |}.
Proof. destruct t. cbn. by intros -> -> -> -> ->. Qed.

(** C4 (amended): in a pass that processes one app token and in which no
    store operation fails ([importable]), every remote
    subscription whose provider id the user does not hold locally is
    inserted and counted as imported, every one whose id is held has
    status, condition and cost of the local row overwritten from the
    remote copy (the cost with 0 when the remote copy has none; type,
    callback and creation time of the row stay) and is counted as updated,
    and every local row whose id is missing from the remote list is deleted
    and counted as removed; a second pass against the same remote list
    reports imported 0, removed 0 and updated equal to the number of remote
    subscriptions. *)
Theorem syncWebhooks_single_token (w : World) (req : Request) (db : Db)
    (token : SavedToken.t * TwitchConfig.t) (remote : list Subscription) :
  WebhookController.appTokens db (user_userId req) (body_configId req)
  = Ok [token] →
  fetches w token remote →
  importable db (localIds db (user_userId req)) remote →
  ∃ db',
    WebhookController.syncWebhooks w req db
    = (report
         {| WebhookController.totalImported :=
              length (filter (λ sub, sub_id sub ∉ localIds db (user_userId req))
                        remote);
            WebhookController.totalUpdated :=
              length (filter (λ sub, sub_id sub ∈ localIds db (user_userId req))
                        remote);
            WebhookController.totalRemoved :=
              length (filter (λ r : string * Webhook.t,
                                Webhook.subscriptionId r.2 ∉ remoteIds remote)
                        (Prisma.webhook_findMany db (user_userId req)));
            WebhookController.totalSubscriptions := length remote;
            WebhookController.configsSynced := [configName token] |},
       db')
    ∧ (∀ sub, sub ∈ remote → sub_id sub ∉ localIds db (user_userId req) →
         ∃ id cb, sub_callback sub = Some cb
                  ∧ webhook db !! id = None
                  ∧ webhook db' !! id
                    = Some (imported_row (w_now w) (user_userId req) sub cb))
    ∧ (∀ sub id row, sub ∈ remote → webhook db !! id = Some row →
         Webhook.userId row = user_userId req →
         Webhook.subscriptionId row = sub_id sub →
         webhook db' !! id
         = Some {| Webhook.userId := Webhook.userId row;
                   Webhook.subscriptionId := Webhook.subscriptionId row;
                   Webhook.type := Webhook.type row;
                   Webhook.condition := sub_condition sub;
                   Webhook.callbackUrl := Webhook.callbackUrl row;
                   Webhook.status := sub_status sub;
                   Webhook.cost := default 0%Z (sub_cost sub);
                   Webhook.createdAt := Webhook.createdAt row;
                   Webhook.updatedAt := w_now w |})
    ∧ (∀ id row, webhook db !! id = Some row →
         Webhook.userId row = user_userId req →
         Webhook.subscriptionId row ∉ remoteIds remote →
         webhook db' !! id = None)
    ∧ (∀ w2, fetches w2 token remote →
         ∃ db'',
           WebhookController.syncWebhooks w2 req db'
           = (report
                {| WebhookController.totalImported := 0;
                   WebhookController.totalUpdated := length remote;
                   WebhookController.totalRemoved := 0;
                   WebhookController.totalSubscriptions := length remote;
                   WebhookController.configsSynced := [configName token] |},
              db'')).
Proof.
  intros Htok Hfetch Hsync. set (userId := user_userId req) in *.
  destruct (reconcile_spec (w_now w) userId (configName token) remote db
              WebhookController.zero Hsync)
    as (db' & t' & Hrun & Hc & Hs & Hi & Hu & Hr & Hn & Hcs & Himp & Hupd & Hdel
        & _ & _ & HL').
  exists db'.
  split.
  { rewrite (syncWebhooks_pass w userId req db [token]) by done.
    cbn [foldl]. rewrite (syncToken_fetches w userId token remote) by done.
    rewrite Hrun. cbn [fst snd]. f_equal. f_equal. by apply totals_eq. }
  split; [exact Himp|]. split; [exact Hupd|]. split; [exact Hdel|].
  intros w2 Hfetch2.
  destruct (reconcile_again userId (w_now w2) (configName token) remote db'
              WebhookController.zero (proj1 Hsync) HL')
    as (db'' & t'' & Hrun2 & Hc2 & Hs2 & Hi2 & Hu2 & Hr2 & Hn2 & Hcs2 & _).
  exists db''.
  rewrite (syncWebhooks_pass w2 userId req db' [token]); try done.
  - cbn [foldl]. rewrite (syncToken_fetches w2 userId token remote) by done.
    rewrite Hrun2. cbn [fst snd]. f_equal. f_equal. by apply totals_eq.
  - by rewrite (appTokens_tables userId db db').
Qed.

Section ManyTokens.
Import WebhookController.
Context (w : World) (userId : string).

(** Sub-passes for a list of tokens whose lists are fetched: the token
    and configuration tables and the rows of other users stay as they
    were, and the user's rows mirror the remote list fetched last. *)
Lemma pass_fold (tokens : list (SavedToken.t * TwitchConfig.t))
    (remotes : list (list Subscription)) (db : Db) (t : Totals) :
  Forall2 (fetches w) tokens remotes →
  Forall (syncable db userId) remotes →
  let st := foldl (λ st token, syncToken w userId token st) (db, t) tokens in
  twitchConfig st.1 = twitchConfig db
  ∧ savedToken st.1 = savedToken db
  ∧ (∀ id row, webhook st.1 !! id = Some row →
       Webhook.userId row ≠ userId → webhook db !! id = Some row)
  ∧ (∀ R0, last remotes = Some R0 → localIds st.1 userId = remoteIds R0).
Proof.
  intros Hf. revert db t.
  induction Hf as [|tok R tokens remotes Hfetch Hf IH]; intros db t Hall.
  { cbn. repeat split; try done. }
  apply Forall_cons in Hall as [HR Hall]. cbn [foldl].
  rewrite (syncToken_fetches w userId tok R) by done.
  destruct (reconcile_spec (w_now w) userId (configName tok) R db t
              (syncable_importable userId db R HR))
    as (db1 & t1 & Hrun & Hc & Hs & _ & _ & _ & _ & _ & _ & _ & _ & _
        & Hconv & HL).
  rewrite Hrun.
  destruct (IH db1 t1) as (Hc' & Hs' & Hconv' & Hlast').
  { eapply Forall_impl; [exact Hall|]. intros R'.
    by apply syncable_preserved. }
  cbv zeta. split; [congruence|]. split; [congruence|]. split.
  { intros id row Hrow Hu. apply Hconv; [|done]. by apply Hconv'. }
  intros R0. rewrite last_cons.
  destruct (last remotes) as [R1|] eqn:Hl.
  - intros [= <-]. by apply Hlast'.
  - intros [= <-]. apply last_None in Hl as ->.
    apply Forall2_nil_inv_r in Hf as ->. exact HL.
Qed.

End ManyTokens.

(** C9: in a pass over two or more app tokens, the sub-pass of the last
    one reads all rows of the user as the earlier sub-passes left them
    (they mirror the remote list fetched just before) and deletes each of
    them whose provider id its own remote list lacks, whatever list the
    row came from; its deletions and its imports, counted against that
    previous list, are added to the totals, and the user's rows end up
    mirroring the last remote list alone. *)
Theorem syncWebhooks_later_config_purges (w : World) (req : Request) (db : Db)
    (earlier : list (SavedToken.t * TwitchConfig.t))
    (remotes : list (list Subscription))
    (token : SavedToken.t * TwitchConfig.t) (remote : list Subscription) :
  earlier ≠ [] →
  WebhookController.appTokens db (user_userId req) (body_configId req)
  = Ok (earlier ++ [token]) →
  Forall2 (fetches w) earlier remotes →
  fetches w token remote →
  Forall (syncable db (user_userId req)) remotes →
  syncable db (user_userId req) remote →
  let before :=
    foldl (λ st tok, WebhookController.syncToken w (user_userId req) tok st)
      (db, WebhookController.zero) earlier in
  ∃ previous db' t',
    last remotes = Some previous
    ∧ localIds before.1 (user_userId req) = remoteIds previous
    ∧ WebhookController.syncToken w (user_userId req) token before = (db', t')
    ∧ WebhookController.syncWebhooks w req db = (report t', db')
    ∧ (∀ id row, webhook before.1 !! id = Some row →
         Webhook.userId row = user_userId req →
         Webhook.subscriptionId row ∉ remoteIds remote →
         webhook db' !! id = None)
    ∧ (∀ sub id row, sub ∈ remote → webhook before.1 !! id = Some row →
         Webhook.userId row = user_userId req →
         Webhook.subscriptionId row = sub_id sub →
         webhook db' !! id
         = Some (WebhookController.overwrite (w_now w) sub row))
    ∧ WebhookController.totalRemoved t'
      = WebhookController.totalRemoved before.2
        + length (filter (λ r : string * Webhook.t,
                            Webhook.subscriptionId r.2 ∉ remoteIds remote)
                    (Prisma.webhook_findMany before.1 (user_userId req)))
    ∧ WebhookController.totalImported t'
      = WebhookController.totalImported before.2
        + length (filter (λ sub, sub_id sub ∉ remoteIds previous) remote)
    ∧ localIds db' (user_userId req) = remoteIds remote.
Proof.
  intros Hne Htok Hf Hfetch Hall Hsync before.
  set (userId := user_userId req) in *.
  destruct (pass_fold w userId earlier remotes db WebhookController.zero Hf Hall)
    as (Hc & Hs & Hconv & Hlast). fold before in Hc, Hs, Hconv, Hlast.
  destruct (last remotes) as [previous|] eqn:Hl.
  2:{ apply last_None in Hl as ->. apply Forall2_nil_inv_r in Hf. done. }
  specialize (Hlast previous eq_refl).
  assert (syncable before.1 userId remote) as Hsync'
    by (by apply (syncable_preserved userId db)).
  destruct (reconcile_spec (w_now w) userId (configName token) remote before.1
              before.2 (syncable_importable userId _ remote Hsync'))
    as (db' & t' & Hrun & _ & _ & Hi & _ & Hr & _ & _ & _ & Hupd & Hdel & _ & _
        & HL').
  exists previous, db', t'.
  assert (WebhookController.syncToken w userId token before = (db', t')) as Hstep.
  { destruct before as [dbk tk] eqn:Hb.
    by rewrite (syncToken_fetches w userId token remote). }
  split; [done|]. split; [done|]. split; [done|]. split.
  { rewrite (syncWebhooks_pass w userId req db (earlier ++ [token]));
      [|done|done|by destruct earlier].
    rewrite foldl_app. cbn [foldl]. fold before. by rewrite Hstep. }
  split; [exact Hdel|]. split; [exact Hupd|]. split; [exact Hr|].
  split; [by rewrite Hi, Hlast|]. exact HL'.
Qed.

(** The list and the single fetch on the fixture: the list carries no
    secret, the fetch carries both. *)
Example getAllTokens_fixture :
  ∃ items,
    (TokenController.getAllTokens Fixture.world
       (Fixture.request "alice" "" "" "") Fixture.db).1
    = json 200 [("tokens", JArr items)]
    ∧ length items = 2
    ∧ Forall (λ j, field "accessToken" j = None ∧ field "refreshToken" j = None)
        items.
Proof. eexists. split; [by vm_compute|]. split; [done|]. by repeat constructor. Qed.

Example getToken_fixture :
  let token :=
    field "token"
      (body (TokenController.getToken Fixture.world
               (Fixture.request "alice" "tok-u" "" "") Fixture.db).1) in
  (token ≫= field "accessToken") = Some (JStr "tok_u")
  ∧ (token ≫= field "refreshToken") = Some (JStr "ref_u").
Proof. split; by vm_compute. Qed.

(** ** Access guards *)

Ltac guard_missing :=
  match goal with
  | H : _ <$> ?l = None |- _ =>
      destruct l eqn:?; [discriminate H|]; cbn; done
  end.

Ltac guard_foreign Hne :=
  match goal with
  | H : _ <$> ?l = Some _ |- _ =>
      destruct l eqn:?; [|discriminate H]; cbn in H;
      injection H as H; cbn;
      try rewrite H;
      rewrite (proj2 (String.eqb_neq _ _) Hne); cbn; done
  end.

(** C6 (amended): each handler that looks a TokenRecord or CredentialSet
    up by id answers 404 when no such row exists; when the row exists and
    belongs to another user it answers 403, except [startAuthorizationFlow]
    and [handleAuthorizationCallback], which answer 404 in that case too.
    The store is left as it was in both cases. *)
Theorem guards_existence_before_ownership (op : Operation) (w : World)
    (req : Request) (db : Db) :
  errors req = [] →
  references_intact db →
  (resource_owner op req db = None →
   status (handler op w req db).1 = 404%Z
   ∧ field "error" (body (handler op w req db).1) = Some (JStr "Not found")
   ∧ (handler op w req db).2 = db)
  ∧ (∀ owner, resource_owner op req db = Some owner →
       owner ≠ user_userId req →
       status (handler op w req db).1
       = (if merged_guard op then 404%Z else 403%Z)
       ∧ field "error" (body (handler op w req db).1)
         = Some (JStr (if merged_guard op then "Not found" else "Forbidden"))
       ∧ (handler op w req db).2 = db).
Proof.
  intros Hvalid Hfk. split.
  - intros Hnone.
    destruct op; cbn in Hnone; cbn [handler];
      unfold TokenController.getToken, TokenController.generateAppToken,
        TokenController.deleteToken, TokenController.startUserToken,
        TokenController.pollUserToken, TokenController.startAuthorizationFlow,
        TokenController.handleAuthorizationCallback,
        TokenController.validateSavedToken, TokenController.refreshToken,
        TwitchConfigController.getConfig, TwitchConfigController.updateConfig,
        TwitchConfigController.deleteConfig, WebhookController.createWebhook;
      rewrite Hvalid; cbn [is_empty negb]; guard_missing.
  - intros owner Hsome Hne.
    destruct op; cbn in Hsome; cbn [handler merged_guard];
      unfold TokenController.getToken, TokenController.generateAppToken,
        TokenController.deleteToken, TokenController.startUserToken,
        TokenController.pollUserToken, TokenController.startAuthorizationFlow,
        TokenController.handleAuthorizationCallback,
        TokenController.validateSavedToken, TokenController.refreshToken,
        TwitchConfigController.getConfig, TwitchConfigController.updateConfig,
        TwitchConfigController.deleteConfig, WebhookController.createWebhook;
      rewrite Hvalid; cbn [is_empty negb];
      try (match goal with
           | H : SavedToken.userId <$> savedToken db !! ?i = Some _ |- _ =>
               destruct (savedToken db !! i) as [token|] eqn:Htoken;
               [|discriminate H];
               destruct (Hfk i token Htoken) as [cfg Hcfg];
               unfold Prisma.select_twitchConfig, Prisma.include_twitchConfig;
               try rewrite Hcfg; cbn in H; injection H as H; cbn;
               try rewrite H;
               rewrite (proj2 (String.eqb_neq _ _) Hne); cbn; done
           end);
      guard_foreign Hne.
Qed.

(** ** The remote list *)

(** C5 (amended): the controller sends one list request, without a
    cursor, and reconciles against the [data] of that first page whatever
    its pagination cursor; this is the provider's full list exactly when the
    first page carries no cursor, and otherwise the full list has the
    later pages appended. *)
Theorem fetchRemote_first_page (w : World) (accessToken clientId : string)
    (page : SubscriptionPage) :
  get_eventsub (w_twitch w) accessToken clientId None = Responded page →
  WebhookController.fetchRemote w accessToken clientId = Ok (page_data page)
  ∧ (∀ userId token db t,
       Encryption.decrypt (w_crypto w) (w_env w)
         (SavedToken.accessToken token.1) = Ok accessToken →
       TwitchConfig.clientId token.2 = clientId →
       WebhookController.syncToken w userId token (db, t)
       = WebhookController.reconcile (w_now w) userId (configName token)
           (page_data page) db t)
  ∧ (page_cursor page = None →
     ∀ fuel, allPages (S fuel) w accessToken clientId None
             = Ok (page_data page))
  ∧ (∀ cursor rest fuel,
       page_cursor page = Some cursor →
       allPages fuel w accessToken clientId (Some cursor) = Ok rest →
       allPages (S fuel) w accessToken clientId None
       = Ok (page_data page ++ rest)).
Proof.
  intros Hpage.
  assert (WebhookController.fetchRemote w accessToken clientId
          = Ok (page_data page)) as Hfetch.
  { unfold WebhookController.fetchRemote. by rewrite Hpage. }
  split; [done|]. split.
  { intros userId token db t Hd Hc. apply syncToken_fetches.
    exists accessToken. by rewrite Hc. }
  split.
  - intros Hnone fuel. cbn. by rewrite Hpage, Hnone.
  - intros cursor rest fuel Hsome Hrest. cbn. by rewrite Hpage, Hsome, Hrest.
Qed.

(** ** The statements on concrete data *)

Lemma fixture_codec_ready (tw : Twitch) : codec_ready (Fixture.world_with tw).
Proof.
  split; [reflexivity|]. split; [exact toy_gcm_correct|exact toy_pbkdf2_length].
Qed.

Lemma fixture_syncable_empty (db : Db) (ids : list string) :
  webhook db = ∅ → NoDup ids →
  syncable db "alice" (Fixture.subscription <$> ids).
Proof.
  intros Hempty Hnd. repeat split.
  - assert (sub_id <$> (Fixture.subscription <$> ids) = ids) as ->; [|done].
    clear. induction ids as [|i ids IH]; [done|]. cbn. by rewrite IH.
  - intros sub (i & -> & _)%list_elem_of_fmap. by eexists.
  - intros id row Hrow. by rewrite Hempty, lookup_empty in Hrow.
Qed.

(** With the second page unread, the subscription listed there is taken
    for stale: its local row is removed although the provider still lists
    it. *)
Lemma fetchRemote_misses_second_page :
  WebhookController.fetchRemote (Fixture.world_with Fixture.pagedTwitch)
    "tok_a" "client-a" = Ok [Fixture.subscription "sub-a"]
  ∧ allPages 2 (Fixture.world_with Fixture.pagedTwitch) "tok_a" "client-a" None
    = Ok [Fixture.subscription "sub-a"; Fixture.subscription "sub-b"]
  ∧ field "removed"
      (body (WebhookController.syncWebhooks
               (Fixture.world_with Fixture.pagedTwitch)
               (Fixture.request "alice" "" "" "") Fixture.db3).1)
    = Some (JNum 1)
  ∧ localIds
      (WebhookController.syncWebhooks
         (Fixture.world_with Fixture.pagedTwitch)
         (Fixture.request "alice" "" "" "") Fixture.db3).2 "alice"
    = {["sub-a"]}.
Proof. repeat split; by vm_compute. Qed.

Lemma fetchRemote_first_page_witness :
  get_eventsub (w_twitch (Fixture.world_with Fixture.pagedTwitch)) "tok_a"
    "client-a" None
  = Responded (Fixture.page [Fixture.subscription "sub-a"] (Some "next"))
  ∧ WebhookController.fetchRemote (Fixture.world_with Fixture.pagedTwitch)
      "tok_a" "client-a" = Ok [Fixture.subscription "sub-a"].
Proof.
  split; [reflexivity|].
  apply (fetchRemote_first_page (Fixture.world_with Fixture.pagedTwitch)
           "tok_a" "client-a"
           (Fixture.page [Fixture.subscription "sub-a"] (Some "next"))
           eq_refl).
Defined.

(** Two credential sets with different remote lists: the second of two
    passes in a row imports and removes again. *)
Lemma sync_twice_two_credential_sets :
  let first :=
    WebhookController.syncWebhooks Fixture.world
      (Fixture.request "alice" "" "" "") Fixture.db2 in
  let second :=
    WebhookController.syncWebhooks Fixture.world
      (Fixture.request "alice" "" "" "") first.2 in
  field "imported" (body second.1) = Some (JNum 2)
  ∧ field "removed" (body second.1) = Some (JNum 2)
  ∧ field "updated" (body second.1) = Some (JNum 0)
  ∧ ¬ (field "imported" (body second.1) = Some (JNum 0)
       ∧ field "removed" (body second.1) = Some (JNum 0)).
Proof.
  cbv zeta. split; [by vm_compute|]. split; [by vm_compute|].
  split; [by vm_compute|]. intros [H _]. by vm_compute in H.
Qed.

(** [startAuthorizationFlow] on a credential set of another user. *)
Lemma startAuthorizationFlow_foreign_is_404 :
  resource_owner StartAuthorizationFlow
    (Fixture.request "alice" "" "cfg-bob" "") Fixture.db = Some "bob"
  ∧ status (TokenController.startAuthorizationFlow Fixture.world
              (Fixture.request "alice" "" "cfg-bob" "") Fixture.db).1 = 404%Z
  ∧ status (TokenController.startAuthorizationFlow Fixture.world
              (Fixture.request "alice" "" "cfg-bob" "") Fixture.db).1 ≠ 403%Z.
Proof. repeat split; by vm_compute. Qed.

(** One poll for each answer that the provider can give: pending by
    [message], too fast by [error] under an empty message, denied by
    [error] alone, expired by [message] with another [error], an unknown
    message that hides a known [error], a 503 without body, and no answer
    at all. *)
Lemma pollDeviceToken_classification_witness :
  let run := λ deviceCode,
    TokenController.pollUserToken DevicePolls.deviceWorld
      (DevicePolls.poll deviceCode) Fixture.db in
  let failed :=
    (json 500 [("error", JStr "Server error");
               ("message", JStr "Failed to poll for device token")],
     Fixture.db) in
  (∀ deviceCode, errors (DevicePolls.poll deviceCode) = [])
  ∧ twitchConfig Fixture.db !! "cfg-a" = Some Fixture.configA
  ∧ TwitchConfig.userId Fixture.configA = "alice"
  ∧ run "dc-wait" = (json 200 [("status", JStr "pending")], Fixture.db)
  ∧ run "dc-slow" = (json 200 [("status", JStr "pending")], Fixture.db)
  ∧ run "dc-denied"
    = (json 403 [("status", JStr "denied"); ("error", JStr "Access denied");
                 ("message", JStr "User denied the authorization request")],
       Fixture.db)
  ∧ run "dc-expired"
    = (json 400 [("status", JStr "expired"); ("error", JStr "Token expired");
                 ("message",
                  JStr "The device code has expired. Please start over.")],
       Fixture.db)
  ∧ run "dc-bad" = failed
  ∧ run "dc-down" = failed
  ∧ run "dc-lost" = failed.
Proof.
  cbv zeta.
  pose proof (λ deviceCode,
                pollDeviceToken_classification DevicePolls.deviceWorld
                  (DevicePolls.poll deviceCode) Fixture.db Fixture.configA
                  eq_refl eq_refl eq_refl) as H.
  cbv zeta in H.
  split; [reflexivity|]. split; [reflexivity|]. split; [reflexivity|].
  split.
  { destruct (H "dc-wait") as ([_ Hpending] & Hrun & _). apply Hrun, Hpending.
    eexists. split; [reflexivity|]. left. eexists. split; [reflexivity|].
    left. by split. }
  split.
  { destruct (H "dc-slow") as ([_ Hpending] & Hrun & _). apply Hrun, Hpending.
    eexists. split; [reflexivity|]. right. eexists. split; [reflexivity|].
    right. split; [by right|reflexivity]. }
  split.
  { destruct (H "dc-denied") as (_ & _ & Hdenied & _).
    apply (Hdenied _ eq_refl). eexists. split; [reflexivity|].
    right. split; [by left|reflexivity]. }
  split.
  { destruct (H "dc-expired") as (_ & _ & _ & Hexpired & _).
    apply (Hexpired _ eq_refl). eexists. split; [reflexivity|].
    left. by split. }
  split.
  { destruct (H "dc-bad") as (_ & _ & _ & _ & Hother & _).
    apply (Hother _ _ eq_refl). intros [_ Hrep].
    destruct Hrep as [Hr|[Hr|[Hr|Hr]]];
      destruct Hr as (d & [= <-] & [[[=] _]|[[[=]|[=]] _]]). }
  split.
  { destruct (H "dc-down") as (_ & _ & _ & _ & Hother & _).
    apply (Hother _ _ eq_refl). by intros [[=] _]. }
  destruct (H "dc-lost") as (_ & _ & _ & _ & _ & Hlost).
  apply (Hlost _ eq_refl).
Defined.

Lemma fixture_pending_poll :
  pending_poll Fixture.db
    (Fixture.world, Fixture.request "alice" "" "cfg-a" "dc-wait").
Proof.
  split; [reflexivity|]. exists Fixture.configA. repeat split.
Qed.

(** The scenario of the device flow: a start, three pending polls, and the
    poll that succeeds, at the instant 10000 with a lifetime of 3600
    seconds; and a grant whose lifetime leads beyond the last instant of a
    date. *)
Lemma pollUserToken_device_flow_witness :
  let validation :=
    {| TwitchApiService.v_clientId := "client-a";
       TwitchApiService.v_login := Some "alice_tv";
       TwitchApiService.v_scopes := ["chat:read"];
       TwitchApiService.v_userId := Some "42";
       TwitchApiService.v_expiresIn := 3600 |} in
  let polls :=
    replicate 3 (Fixture.world, Fixture.request "alice" "" "cfg-a" "dc-wait") in
  let outcome :=
    TokenController.pollUserToken Fixture.world
      (Fixture.request "alice" "" "cfg-a" "dc-ok")
      (after_polls
         (TokenController.startUserToken Fixture.world
            (Fixture.request "alice" "" "cfg-a" "") Fixture.db).2 polls) in
  errors (Fixture.request "alice" "" "cfg-a" "dc-ok") = []
  ∧ twitchConfig Fixture.db !! "cfg-a" = Some Fixture.configA
  ∧ TwitchConfig.userId Fixture.configA = "alice"
  ∧ codec_ready Fixture.world
  ∧ TwitchApiService.pollDeviceToken Fixture.twitch "client-a" "dc-ok"
    = Ok (Some (TwitchApiService.token_result Fixture.granted))
  ∧ TwitchApiService.validateToken Fixture.twitch "tok_1" = Ok validation
  ∧ Forall (pending_poll Fixture.db) polls
  ∧ status outcome.1 = 201%Z
  ∧ size (savedToken outcome.2) = S (size (savedToken Fixture.db))
  ∧ (∃ id row,
       savedToken Fixture.db !! id = None
       ∧ savedToken outcome.2 = <[id := row]> (savedToken Fixture.db)
       ∧ SavedToken.tokenType row = "user"
       ∧ SavedToken.channelLogin row = Some "alice_tv"
       ∧ SavedToken.channelId row = Some "42"
       ∧ SavedToken.scopes row = ["chat:read"]
       ∧ SavedToken.expiresAt row = Some 3610000%Z
       ∧ Encryption.decrypt ToyCrypto.nc ToyCrypto.env
           (SavedToken.accessToken row) = Ok "tok_1"
       ∧ (r ← SavedToken.refreshToken row;
          Some (Encryption.decrypt ToyCrypto.nc ToyCrypto.env r))
         = Some (Ok "ref_1"))
  ∧ TwitchApiService.pollDeviceToken DevicePolls.deviceTwitch "client-a"
      "dc-endless"
    = Ok (Some (TwitchApiService.token_result DevicePolls.endless))
  ∧ ∃ body,
      TokenController.pollUserToken DevicePolls.deviceWorld
        (DevicePolls.poll "dc-endless") Fixture.db
      = ({| status := 500; body := body |}, Fixture.db).
Proof.
  cbv zeta.
  assert (Forall (pending_poll Fixture.db)
            (replicate 3
               (Fixture.world, Fixture.request "alice" "" "cfg-a" "dc-wait")))
    as Hpolls by (repeat constructor; apply fixture_pending_poll).
  split; [reflexivity|]. split; [reflexivity|]. split; [reflexivity|].
  split; [apply fixture_codec_ready|]. split; [reflexivity|].
  split; [reflexivity|]. split; [exact Hpolls|].
  destruct (pollUserToken_device_flow Fixture.world
              (Fixture.request "alice" "" "cfg-a" "dc-ok") Fixture.db
              Fixture.configA (TwitchApiService.token_result Fixture.granted)
              {| TwitchApiService.v_clientId := "client-a";
                 TwitchApiService.v_login := Some "alice_tv";
                 TwitchApiService.v_scopes := ["chat:read"];
                 TwitchApiService.v_userId := Some "42";
                 TwitchApiService.v_expiresIn := 3600 |}
              Fixture.world (Fixture.request "alice" "" "cfg-a" "")
              (replicate 3
                 (Fixture.world, Fixture.request "alice" "" "cfg-a" "dc-wait"))
              eq_refl eq_refl eq_refl (fixture_codec_ready _) eq_refl eq_refl
              Hpolls)
    as (_ & Hok & _).
  destruct Hok as (id & c1 & c2 & body & Hfresh & Hd1 & Hd2 & _ & Hsize & Hrun).
  { by vm_compute. }
  cbv zeta in Hrun, Hsize. rewrite Hrun. cbn [fst snd status savedToken].
  split; [reflexivity|]. split; [exact Hsize|].
  split.
  { eexists id, _. split; [exact Hfresh|]. split; [reflexivity|].
    do 5 (split; [reflexivity|]). split; [exact Hd1|].
    exact (f_equal Some Hd2). }
  split; [reflexivity|].
  destruct (pollUserToken_device_flow DevicePolls.deviceWorld
              (DevicePolls.poll "dc-endless") Fixture.db
              Fixture.configA
              (TwitchApiService.token_result DevicePolls.endless)
              {| TwitchApiService.v_clientId := "client-a";
                 TwitchApiService.v_login := Some "alice_tv";
                 TwitchApiService.v_scopes := ["chat:read"];
                 TwitchApiService.v_userId := Some "42";
                 TwitchApiService.v_expiresIn := 3600 |}
              Fixture.world (Fixture.request "alice" "" "cfg-a" "") []
              eq_refl eq_refl eq_refl (fixture_codec_ready _) eq_refl eq_refl
              (List.Forall_nil _))
    as (_ & _ & Hinvalid).
  apply Hinvalid. intros [_ H]. vm_compute in H. by apply H.
Defined.

Lemma autumn_codec_ready (tw : Twitch) : codec_ready (Autumn.autumnWorld tw).
Proof.
  split; [reflexivity|]. split; [exact toy_gcm_correct|exact toy_pbkdf2_length].
Qed.

(** A refresh at the instant 10000 that grants 7200 seconds: on a server
    in UTC the expiry is 7200 seconds later; on a server whose zone leaves
    daylight-saving time in between, it is 10800 seconds later; with a
    lifetime that leads beyond the last instant of a date the answer is 500
    and nothing is written; and an app token is not refreshed. *)
Lemma refreshToken_in_place_witness :
  let req := Fixture.request "alice" "tok-u" "" "" in
  let outcome := λ w, TokenController.refreshToken w req Fixture.db in
  let row := λ w, savedToken (outcome w).2 !! "tok-u" in
  errors req = []
  ∧ savedToken Fixture.db !! "tok-u" = Some Fixture.userToken
  ∧ twitchConfig Fixture.db !! "cfg-a" = Some Fixture.configA
  ∧ SavedToken.userId Fixture.userToken = "alice"
  ∧ codec_ready Fixture.world
  ∧ codec_ready (Autumn.autumnWorld Fixture.twitch)
  ∧ status (outcome Fixture.world).1 = 200%Z
  ∧ dom (savedToken (outcome Fixture.world).2) = dom (savedToken Fixture.db)
  ∧ SavedToken.expiresAt <$> row Fixture.world = Some (Some 7210000%Z)
  ∧ SavedToken.scopes <$> row Fixture.world
    = Some ["chat:read"; "chat:edit"]
  ∧ SavedToken.createdAt <$> row Fixture.world = Some 2300%Z
  ∧ status (outcome (Autumn.autumnWorld Fixture.twitch)).1 = 200%Z
  ∧ SavedToken.expiresAt <$> row (Autumn.autumnWorld Fixture.twitch)
    = Some (Some 10810000%Z)
  ∧ (∃ body,
       outcome DevicePolls.deviceWorld
       = ({| status := 500; body := body |}, Fixture.db))
  ∧ TokenController.refreshToken Fixture.world
      (Fixture.request "alice" "tok-a" "" "") Fixture.db
    = (json 400 [("error", JStr "Bad request");
                 ("message", JStr "This token cannot be refreshed")],
       Fixture.db).
Proof.
  cbv zeta.
  split; [reflexivity|]. split; [reflexivity|]. split; [reflexivity|].
  split; [reflexivity|]. split; [apply fixture_codec_ready|].
  split; [apply autumn_codec_ready|].
  pose proof (λ w,
                proj2 (refreshToken_in_place w
                         (Fixture.request "alice" "tok-u" "" "") Fixture.db
                         Fixture.userToken Fixture.configA
                         eq_refl eq_refl eq_refl eq_refl) eq_refl eq_refl)
    as Hrefresh.
  destruct (Hrefresh Fixture.world (fixture_codec_ready _) "ref_u" "shh"
              (TwitchApiService.token_result Fixture.refreshed))
    as (_ & Hutc & _); [by vm_compute|by vm_compute|reflexivity|].
  destruct Hutc as (c1 & c2 & body & _ & _ & Hrun & Hdom & _); [by vm_compute|].
  cbv zeta in Hrun, Hdom. rewrite Hrun. cbn [fst snd status savedToken].
  split; [reflexivity|]. split; [exact Hdom|].
  rewrite lookup_insert_eq. cbn [fmap option_fmap option_map SavedToken.expiresAt
    SavedToken.scopes SavedToken.createdAt].
  split; [by vm_compute|]. split; [by vm_compute|]. split; [reflexivity|].
  destruct (Hrefresh (Autumn.autumnWorld Fixture.twitch) (autumn_codec_ready _)
              "ref_u" "shh" (TwitchApiService.token_result Fixture.refreshed))
    as (_ & Hautumn & _); [by vm_compute|by vm_compute|reflexivity|].
  destruct Hautumn as (c1' & c2' & body' & _ & _ & Hrun' & _); [by vm_compute|].
  cbv zeta in Hrun'. rewrite Hrun'. cbn [fst snd status savedToken].
  split; [reflexivity|].
  rewrite lookup_insert_eq. cbn [fmap option_fmap option_map SavedToken.expiresAt].
  split; [by vm_compute|].
  split.
  { destruct (Hrefresh DevicePolls.deviceWorld (fixture_codec_ready _)
                "ref_u" "shh"
                (TwitchApiService.token_result DevicePolls.endless))
      as (_ & _ & Hinvalid); [by vm_compute|by vm_compute|reflexivity|].
    apply Hinvalid. intros [_ H]. vm_compute in H. by apply H. }
  destruct (refreshToken_in_place Fixture.world
              (Fixture.request "alice" "tok-a" "" "") Fixture.db
              (Fixture.appToken "cfg-a" "tok_a" 2000) Fixture.configA
              eq_refl eq_refl eq_refl eq_refl) as [Hnot _].
  apply Hnot. by left.
Defined.

Lemma fixture_fetches_a :
  fetches Fixture.world (Fixture.appToken "cfg-a" "tok_a" 2000, Fixture.configA)
    [Fixture.subscription "sub-a"].
Proof. exists "tok_a". split; by vm_compute. Qed.

Lemma fixture_fetches_b :
  fetches Fixture.world (Fixture.appToken "cfg-b" "tok_b" 2100, Fixture.configB)
    [Fixture.subscription "sub-b"].
Proof. exists "tok_b". split; by vm_compute. Qed.

Lemma resync_fetches :
  fetches Resync.resyncWorld
    (Fixture.appToken "cfg-a" "tok_a" 2000, Fixture.configA) Resync.listed.
Proof. exists "tok_a". split; by vm_compute. Qed.

Lemma resync_importable :
  importable Resync.resyncDb (localIds Resync.resyncDb "alice") Resync.listed.
Proof.
  split.
  - apply (bool_decide_unpack _). by vm_compute.
  - intros sub Hin Hnew.
    apply elem_of_cons in Hin as [->|Hin].
    + split; [by eexists|]. apply (bool_decide_unpack _). by vm_compute.
    + apply list_elem_of_singleton in Hin as ->. exfalso. apply Hnew.
      apply (bool_decide_unpack _). by vm_compute.
Qed.

(** A pass over a store that holds one row the provider still lists, with
    other values, and one it no longer lists, while the provider lists one
    subscription more: one import, one update, one removal; the row kept
    has the provider's status and condition and cost 0, and its own type,
    callback and creation time. *)
Lemma syncWebhooks_single_token_witness :
  let token := (Fixture.appToken "cfg-a" "tok_a" 2000, Fixture.configA) in
  let req := Fixture.request "alice" "" "" "" in
  WebhookController.appTokens Resync.resyncDb "alice" None = Ok [token]
  ∧ fetches Resync.resyncWorld token Resync.listed
  ∧ importable Resync.resyncDb (localIds Resync.resyncDb "alice") Resync.listed
  ∧ webhook Resync.resyncDb !! "wh-1" = Some Resync.kept
  ∧ webhook Resync.resyncDb !! "wh-2" = Some Resync.stale
  ∧ ∃ db' db'' id,
      WebhookController.syncWebhooks Resync.resyncWorld req Resync.resyncDb
      = (report {| WebhookController.totalImported := 1;
                   WebhookController.totalUpdated := 1;
                   WebhookController.totalRemoved := 1;
                   WebhookController.totalSubscriptions := 2;
                   WebhookController.configsSynced := ["App A"] |}, db')
      ∧ webhook db' !! "wh-1"
        = Some {| Webhook.userId := "alice";
                  Webhook.subscriptionId := "sub-b";
                  Webhook.type := "stream.online";
                  Webhook.condition := JObj [("broadcaster_user_id", JStr "43")];
                  Webhook.callbackUrl := "https://example.org/hook";
                  Webhook.status := "webhook_callback_verification_failed";
                  Webhook.cost := 0;
                  Webhook.createdAt := 3000;
                  Webhook.updatedAt := 10000 |}
      ∧ webhook db' !! "wh-2" = None
      ∧ webhook Resync.resyncDb !! id = None
      ∧ webhook db' !! id
        = Some (imported_row 10000 "alice" (Fixture.subscription "sub-a")
                  "https://example.org/hook")
      ∧ WebhookController.syncWebhooks Resync.resyncWorld req db'
        = (report {| WebhookController.totalImported := 0;
                     WebhookController.totalUpdated := 2;
                     WebhookController.totalRemoved := 0;
                     WebhookController.totalSubscriptions := 2;
                     WebhookController.configsSynced := ["App A"] |}, db'').
Proof.
  cbv zeta.
  split; [by vm_compute|]. split; [exact resync_fetches|].
  split; [exact resync_importable|].
  split; [reflexivity|]. split; [reflexivity|].
  destruct (syncWebhooks_single_token Resync.resyncWorld
              (Fixture.request "alice" "" "" "") Resync.resyncDb
              (Fixture.appToken "cfg-a" "tok_a" 2000, Fixture.configA)
              Resync.listed)
    as (db' & Hrun & Himported & Hupdated & Hremoved & Hsecond);
    [by vm_compute|exact resync_fetches|exact resync_importable|].
  destruct (Hsecond Resync.resyncWorld resync_fetches) as (db'' & Hrun2).
  destruct (Himported (Fixture.subscription "sub-a")) as (id & cb & Hcb & Hnew & Hrow).
  { apply elem_of_cons. by left. }
  { apply (bool_decide_unpack _). by vm_compute. }
  injection Hcb as <-.
  exists db', db'', id.
  split; [rewrite Hrun; reflexivity|].
  split.
  { apply (Hupdated Resync.changed "wh-1" Resync.kept); try reflexivity.
    apply elem_of_cons. right. apply elem_of_cons. by left. }
  split.
  { apply (Hremoved "wh-2" Resync.stale); try reflexivity.
    apply (bool_decide_unpack _). by vm_compute. }
  split; [exact Hnew|]. split; [exact Hrow|exact Hrun2].
Defined.

Lemma fixture_references_intact : references_intact Fixture.db.
Proof. apply (bool_decide_unpack _). by vm_compute. Qed.

Lemma guards_existence_before_ownership_witness :
  errors (Fixture.request "alice" "" "cfg-bob" "") = []
  ∧ references_intact Fixture.db
  ∧ resource_owner StartUserToken (Fixture.request "alice" "" "cfg-bob" "")
      Fixture.db = Some "bob"
  ∧ status (TokenController.startUserToken Fixture.world
              (Fixture.request "alice" "" "cfg-bob" "") Fixture.db).1 = 403%Z
  ∧ resource_owner StartUserToken (Fixture.request "alice" "" "cfg-none" "")
      Fixture.db = None
  ∧ status (TokenController.startUserToken Fixture.world
              (Fixture.request "alice" "" "cfg-none" "") Fixture.db).1 = 404%Z.
Proof.
  split; [reflexivity|]. split; [exact fixture_references_intact|].
  split; [reflexivity|]. split.
  { destruct (guards_existence_before_ownership StartUserToken Fixture.world
                (Fixture.request "alice" "" "cfg-bob" "") Fixture.db eq_refl
                fixture_references_intact) as [_ Hforeign].
    destruct (Hforeign "bob" eq_refl) as (Hstatus & _ & _); [discriminate|].
    exact Hstatus. }
  split; [reflexivity|].
  destruct (guards_existence_before_ownership StartUserToken Fixture.world
              (Fixture.request "alice" "" "cfg-none" "") Fixture.db eq_refl
              fixture_references_intact) as [Hmissing _].
  destruct (Hmissing eq_refl) as (Hstatus & _ & _). exact Hstatus.
Defined.

Lemma syncWebhooks_later_config_purges_witness :
  [(Fixture.appToken "cfg-a" "tok_a" 2000, Fixture.configA)] ≠ []
  ∧ WebhookController.appTokens Fixture.db2 "alice" None
    = Ok ([(Fixture.appToken "cfg-a" "tok_a" 2000, Fixture.configA)]
          ++ [(Fixture.appToken "cfg-b" "tok_b" 2100, Fixture.configB)])
  ∧ syncable Fixture.db2 "alice" [Fixture.subscription "sub-a"]
  ∧ syncable Fixture.db2 "alice" [Fixture.subscription "sub-b"]
  ∧ ∃ db' t',
      WebhookController.syncWebhooks Fixture.world
        (Fixture.request "alice" "" "" "") Fixture.db2 = (report t', db')
      ∧ WebhookController.totalRemoved t' = 1
      ∧ localIds db' "alice" = remoteIds [Fixture.subscription "sub-b"].
Proof.
  assert (syncable Fixture.db2 "alice" [Fixture.subscription "sub-a"]) as Ha.
  { apply (fixture_syncable_empty Fixture.db2 ["sub-a"]); [done|].
    apply NoDup_singleton. }
  assert (syncable Fixture.db2 "alice" [Fixture.subscription "sub-b"]) as Hb.
  { apply (fixture_syncable_empty Fixture.db2 ["sub-b"]); [done|].
    apply NoDup_singleton. }
  split; [done|]. split; [by vm_compute|]. split; [exact Ha|].
  split; [exact Hb|].
  destruct (syncWebhooks_later_config_purges Fixture.world
              (Fixture.request "alice" "" "" "") Fixture.db2
              [(Fixture.appToken "cfg-a" "tok_a" 2000, Fixture.configA)]
              [[Fixture.subscription "sub-a"]]
              (Fixture.appToken "cfg-b" "tok_b" 2100, Fixture.configB)
              [Fixture.subscription "sub-b"])
    as (previous & db' & t' & _ & _ & _ & Hrun & _ & _ & Hremoved & _ & HL).
  - done.
  - by vm_compute.
  - constructor; [exact fixture_fetches_a|constructor].
  - exact fixture_fetches_b.
  - constructor; [exact Ha|constructor].
  - exact Hb.
  - exists db', t'. split; [exact Hrun|]. split; [|exact HL].
    rewrite Hremoved. by vm_compute.
Defined.


(** * Further properties *)

(** ** The secret codec: shape of the envelope, missing master key *)

Lemma drawn_lengths (g : Rng) :
  length (Encryption.drawn g).1 = 64 ∧ length (Encryption.drawn g).2 = 16.
Proof.
  unfold Encryption.drawn, randomBytes. cbn [fst snd].
  by rewrite !length_map, !length_seq.
Qed.

Lemma getKey_missing (nc : NodeCrypto) (env : Env) (salt : list byte) :
  truthy (ENCRYPTION_KEY env) = false →
  Encryption.getKey nc env salt
  = Throw "ENCRYPTION_KEY is not defined in environment variables".
Proof.
  unfold Encryption.getKey, truthy.
  destruct (ENCRYPTION_KEY env) as [k|]; [|done].
  destruct (String.eqb k ""); [done|]. cbn. discriminate.
Qed.

(** X1. Whenever [encrypt] returns, its result is four fields separated
    by colons: the hexadecimal text of the 64 bytes of salt and of the 16
    bytes of nonce it has drawn (128 and 32 characters), then the tag and
    the cipher text, both in hexadecimal; and exactly 80 bytes of entropy
    have been consumed. *)
Theorem encrypt_envelope (nc : NodeCrypto) (env : Env) (g : Rng)
    (text c : string) :
  (Encryption.encrypt nc env g text).1 = Ok c →
  ∃ tag data : list byte,
    split ":" c = [to_hex (Encryption.drawn g).1; to_hex (Encryption.drawn g).2;
                   to_hex tag; to_hex data]
    ∧ String.length (to_hex (Encryption.drawn g).1) = 128
    ∧ String.length (to_hex (Encryption.drawn g).2) = 32
    ∧ cursor (Encryption.encrypt nc env g text).2 = cursor g + 80.
Proof.
  rewrite encrypt_unfold.
  destruct (drawn_lengths g) as [Hsalt Hiv].
  destruct (Encryption.drawn g) as [salt iv]. cbn [fst snd] in *.
  destruct (Encryption.getKey nc env salt) as [key|m] eqn:Hkey; [|discriminate].
  cbn [fst snd]. unfold Encryption.encrypt_with. rewrite Hkey. cbn.
  destruct (createCipheriv nc _ key _) as [cipher|]; cbn; [|discriminate].
  destruct (cipherUpdate nc cipher text) as [out1 cipher0].
  destruct (cipherFinal nc cipher0) as [[out2 cipher1]|]; cbn; [|discriminate].
  intros [= <-]. exists (getAuthTag nc cipher1), (out1 ++ out2).
  rewrite <- to_hex_app, split_envelope, !to_hex_length, Hsalt, Hiv.
  repeat split; try done. unfold Encryption.SALT_LENGTH, Encryption.IV_LENGTH. lia.
Qed.

Lemma encrypt_envelope_witness :
  ∃ tag data : list byte,
    split ":" (Fixture.sealed "shh")
    = [to_hex (Encryption.drawn ToyCrypto.rng).1;
       to_hex (Encryption.drawn ToyCrypto.rng).2; to_hex tag; to_hex data]
    ∧ String.length (to_hex (Encryption.drawn ToyCrypto.rng).1) = 128
    ∧ String.length (to_hex (Encryption.drawn ToyCrypto.rng).2) = 32
    ∧ cursor (Encryption.encrypt ToyCrypto.nc ToyCrypto.env ToyCrypto.rng
                "shh").2 = cursor ToyCrypto.rng + 80.
Proof.
  apply (encrypt_envelope ToyCrypto.nc ToyCrypto.env ToyCrypto.rng
           "shh" (Fixture.sealed "shh")).
  by vm_compute.
Defined.

(** X2. Without a master key (unset or empty) nothing is encrypted or
    decrypted: [encrypt] throws the configuration error for every text,
    after drawing the salt; [decrypt] throws it for every input of four
    fields, and the format error for every other input. *)
Theorem codec_without_key (nc : NodeCrypto) (env : Env) (g : Rng)
    (text encryptedData : string) :
  truthy (ENCRYPTION_KEY env) = false →
  Encryption.encrypt nc env g text
  = (Throw "ENCRYPTION_KEY is not defined in environment variables",
     {| pool := pool g; cursor := cursor g + 64 |})
  ∧ Encryption.decrypt nc env encryptedData
    = Throw (if bool_decide (length (split ":" encryptedData) = 4)
             then "ENCRYPTION_KEY is not defined in environment variables"
             else "Invalid encrypted data format").
Proof.
  intros Hkey. split.
  - rewrite encrypt_unfold, getKey_missing by done. reflexivity.
  - unfold Encryption.decrypt.
    destruct (split ":" encryptedData) as [|p0 [|p1 [|p2 [|p3 [|p4 rest]]]]]; try done.
    rewrite getKey_missing by done. reflexivity.
Qed.

Lemma codec_without_key_witness :
  Encryption.encrypt ToyCrypto.nc Scenario.keyless ToyCrypto.rng "shh"
  = (Throw "ENCRYPTION_KEY is not defined in environment variables",
     {| pool := pool ToyCrypto.rng; cursor := cursor ToyCrypto.rng + 64 |})
  ∧ Encryption.decrypt ToyCrypto.nc Scenario.keyless "00:11:22:33"
    = Throw (if bool_decide (length (split ":" "00:11:22:33") = 4)
             then "ENCRYPTION_KEY is not defined in environment variables"
             else "Invalid encrypted data format").
Proof.
  apply (codec_without_key ToyCrypto.nc Scenario.keyless ToyCrypto.rng "shh"
           "00:11:22:33").
  reflexivity.
Defined.

(** ** What a request can change *)

Lemma try_catch_elim {A} (P : A → Prop) (body : Result A) (handler : string → A) :
  (∀ m, P (handler m)) → (∀ v, body = Ok v → P v) → P (try_catch body handler).
Proof. intros Hh Hb. destruct body; cbn; auto. Qed.

(** Inversion of [H : body = Ok v] along the statements of [body]. *)
Ltac unwind H :=
  repeat (cbn [mbind mret Result_bind Result_ret fst snd negb] in H;
  lazymatch type of H with
  | Ok _ = Ok _ => injection H as H; try subst
  | Throw _ = Ok _ => discriminate H
  | (mbind _ ?x) = Ok _ => destruct x eqn:?
  | (if ?c then _ else _) = Ok _ => destruct c eqn:?
  | (let '(_, _) := ?x in _) = Ok _ => destruct x eqn:?
  | match ?x with _ => _ end = Ok _ => destruct x eqn:?
  end).

Lemma owner_eqb (a b : string) : negb (String.eqb a b) = false → a = b.
Proof. intros H. apply String.eqb_eq. by destruct (String.eqb a b). Qed.

Ltac same := split; [by constructor | by left].

Ltac by_cases H :=
  apply (try_catch_elim (effect _ _));
  [intros ?; repeat case_match; same | intros ? H; unwind H; try same].

Lemma getAllTokens_effect w req db :
  effect (user_userId req) db (TokenController.getAllTokens w req db).
Proof. unfold TokenController.getAllTokens. by_cases H. Qed.

Lemma getToken_effect w req db :
  effect (user_userId req) db (TokenController.getToken w req db).
Proof. unfold TokenController.getToken. by_cases H. Qed.

Lemma created_effect u db row config id db' (r : Response) :
  twitchConfig db !! SavedToken.twitchConfigId row = Some config →
  negb (String.eqb (TwitchConfig.userId config) u) = false →
  SavedToken.userId row = u →
  Prisma.savedToken_create db row = (id, db') →
  status r = 201%Z →
  effect u db (r, db').
Proof.
  intros Hc Ho%owner_eqb Hu Hcreate Hs. split; [|by right; right].
  replace db' with (Prisma.savedToken_create db row).2 by (by rewrite Hcreate).
  by eapply TokenCreated.
Qed.

Ltac created :=
  eapply created_effect; [| | |eassumption|reflexivity];
  [eassumption|eassumption|reflexivity].

Lemma generateAppToken_effect w req db :
  effect (user_userId req) db (TokenController.generateAppToken w req db).
Proof.
  unfold TokenController.generateAppToken. by_cases H.
  created.
Qed.

Lemma pollUserToken_effect w req db :
  effect (user_userId req) db (TokenController.pollUserToken w req db).
Proof.
  unfold TokenController.pollUserToken. by_cases H.
  created.
Qed.

Lemma handleAuthorizationCallback_effect w req db :
  effect (user_userId req) db
    (TokenController.handleAuthorizationCallback w req db).
Proof.
  unfold TokenController.handleAuthorizationCallback. by_cases H.
  created.
Qed.

Lemma startUserToken_effect w req db :
  effect (user_userId req) db (TokenController.startUserToken w req db).
Proof. unfold TokenController.startUserToken. by_cases H. Qed.

Lemma startAuthorizationFlow_effect w req db :
  effect (user_userId req) db (TokenController.startAuthorizationFlow w req db).
Proof. unfold TokenController.startAuthorizationFlow. by_cases H. Qed.

Lemma validateSavedToken_effect w req db :
  effect (user_userId req) db (TokenController.validateSavedToken w req db).
Proof. unfold TokenController.validateSavedToken. by_cases H. Qed.

Lemma deleteToken_effect w req db :
  effect (user_userId req) db (TokenController.deleteToken w req db).
Proof.
  unfold TokenController.deleteToken. by_cases H.
  unfold Prisma.savedToken_delete in *. rewrite Heqo in *. simplify_eq.
  split; [|by right; left]. eapply TokenDeleted; eauto using owner_eqb.
Qed.

Lemma refreshToken_effect w req db :
  effect (user_userId req) db (TokenController.refreshToken w req db).
Proof.
  unfold TokenController.refreshToken. by_cases H.
  unfold Prisma.savedToken_update in *. rewrite Heqo in *. simplify_eq.
  split; [|by right; left].
  eapply TokenRenewed; eauto using owner_eqb.
Qed.

Lemma getAllConfigs_effect w req db :
  effect (user_userId req) db (TwitchConfigController.getAllConfigs w req db).
Proof. unfold TwitchConfigController.getAllConfigs. by_cases H. Qed.

Lemma getConfig_effect w req db :
  effect (user_userId req) db (TwitchConfigController.getConfig w req db).
Proof. unfold TwitchConfigController.getConfig. by_cases H. Qed.

Lemma count_zero_filter (db : Db) (id : string) :
  Prisma.count_savedTokens db id = 0 →
  filter (λ row : string * SavedToken.t, SavedToken.twitchConfigId row.2 ≠ id)
         (savedToken db) = savedToken db.
Proof.
  unfold Prisma.count_savedTokens. intros Hz%nil_length_inv.
  apply map_filter_id. intros i x Hx%elem_of_map_to_list Heq.
  assert (Hin : (i, x) ∈ filter (λ row : string * SavedToken.t,
                                   SavedToken.twitchConfigId row.2 = id)
                                (map_to_list (savedToken db)))
    by (by apply list_elem_of_filter).
  rewrite Hz in Hin. by apply elem_of_nil in Hin.
Qed.

Lemma deleteConfig_effect w req db :
  effect (user_userId req) db (TwitchConfigController.deleteConfig w req db).
Proof.
  unfold TwitchConfigController.deleteConfig. by_cases H.
  unfold Prisma.twitchConfig_delete in *. rewrite Heqo in *. simplify_eq.
  apply bool_decide_eq_false in Heqb1.
  assert (Hz : Prisma.count_savedTokens db (params_id req) = 0) by lia.
  split; [|by right; left]. rewrite count_zero_filter by done.
  eapply ConfigDeleted; eauto using owner_eqb.
Qed.

Lemma createConfig_change w req db :
  Change (user_userId req) db (TwitchConfigController.createConfig w req db).2.
Proof.
  unfold TwitchConfigController.createConfig.
  apply (try_catch_elim (λ v, Change _ _ v.2)); [constructor|].
  intros v H. unwind H; try (by constructor).
  unfold Prisma.twitchConfig_create in *. cbn in Heqr0.
  rewrite Heqb0 in Heqr0. simplify_eq.
  apply bool_decide_eq_false in Heqb0.
  assert (Prisma.twitchConfig_findByClientId db (user_userId req) s = None)
    by (destruct (Prisma.twitchConfig_findByClientId db (user_userId req) s);
        [by destruct Heqb0|done]).
  apply (try_catch_elim (λ v, Change _ _ v.2)).
  - intros _. eapply ConfigCreated; [reflexivity|done].
  - intros v Hv. unwind Hv. eapply ConfigCreated; [reflexivity|done].
Qed.

Lemma getAllWebhooks_effect w req db :
  effect (user_userId req) db (WebhookController.getAllWebhooks w req db).
Proof. unfold WebhookController.getAllWebhooks. same. Qed.

Lemma webhook_create_inv (db : Db) (row : Webhook.t) (id : string) (db' : Db) :
  Prisma.webhook_create db row = Ok (id, db') →
  ¬ held (webhook db) (Webhook.subscriptionId row)
  ∧ id = Prisma.new_id (webhook db)
  ∧ db' = {| twitchConfig := twitchConfig db;
             savedToken := savedToken db;
             webhook := <[Prisma.new_id (webhook db) := row]> (webhook db) |}.
Proof.
  intros H. destruct (decide (held (webhook db) (Webhook.subscriptionId row)))
    as [Hheld|Hfree].
  - apply webhook_create_held in Hheld as [m Hm]. congruence.
  - rewrite webhook_create_free in H by done. by simplify_eq.
Qed.

Lemma webhook_of_owner now userId callbackUrl sub row :
  WebhookController.webhook_of now userId callbackUrl sub = Ok row →
  Webhook.userId row = userId ∧ Webhook.subscriptionId row = sub_id sub.
Proof.
  unfold WebhookController.webhook_of. destruct callbackUrl; [|done].
  by intros [= <-].
Qed.

Lemma createWebhook_effect w req db :
  effect (user_userId req) db (WebhookController.createWebhook w req db).
Proof.
  unfold WebhookController.createWebhook. by_cases H.
  apply webhook_create_inv in Heqr2 as (Hfree & -> & ->).
  apply webhook_of_owner in Heqr1 as [Hu _].
  split; [|by right; right]. by eapply WebhookCreated.
Qed.

Lemma deleteWebhook_effect w req db :
  effect (user_userId req) db (WebhookController.deleteWebhook w req db).
Proof.
  unfold WebhookController.deleteWebhook. by_cases H.
  unfold Prisma.webhook_delete in *. rewrite Heqo in *. simplify_eq.
  split; [|by right; left]. eapply WebhookDeleted; eauto using owner_eqb.
Qed.

(** ** What a pass of [syncWebhooks] keeps *)

Section Kept.
Import WebhookController.
Context (now : Z) (userId : string).

Lemma kept_refl (db : Db) : kept userId db db.
Proof. by repeat split. Qed.

Lemma kept_trans (db1 db2 db3 : Db) :
  kept userId db1 db2 → kept userId db2 db3 → kept userId db1 db3.
Proof.
  intros (Hc & Ht & Ho & Hu) (Hc' & Ht' & Ho' & Hu').
  repeat split; [congruence..|auto].
Qed.

Lemma kept_create (db : Db) (row : Webhook.t) :
  Webhook.userId row = userId →
  ¬ held (webhook db) (Webhook.subscriptionId row) →
  kept userId db
    {| twitchConfig := twitchConfig db;
       savedToken := savedToken db;
       webhook := <[Prisma.new_id (webhook db) := row]> (webhook db) |}.
Proof.
  intros Hu Hfree. repeat split; cbn.
  - rewrite map_filter_insert_False by (cbn; tauto).
    by rewrite delete_id by apply new_id_fresh.
  - intros Huniq id1 id2 row1 row2. cbn.
    pose proof (new_id_fresh (webhook db)) as Hfresh.
    destruct (decide (id1 = Prisma.new_id (webhook db))) as [->|H1],
             (decide (id2 = Prisma.new_id (webhook db))) as [->|H2];
      [done|..].
    + rewrite lookup_insert_eq, lookup_insert_ne by done.
      intros [= <-] H Hs. destruct Hfree. by exists id2, row2.
    + rewrite lookup_insert_eq, lookup_insert_ne by done.
      intros H [= <-] Hs. destruct Hfree. by exists id1, row1.
    + rewrite !lookup_insert_ne by done. apply Huniq.
Qed.

Lemma kept_update (db : Db) (s : string) (data : Webhook.t → Webhook.t) :
  (∀ row, Webhook.userId (data row) = Webhook.userId row) →
  (∀ row, Webhook.subscriptionId (data row) = Webhook.subscriptionId row) →
  kept userId db (Prisma.webhook_updateMany db userId s data).
Proof.
  intros Hu Hs. repeat split; cbn.
  - apply map_eq. intros i. apply option_eq. intros r.
    rewrite !map_lookup_filter_Some, lookup_fmap_Some. cbn. split.
    + intros [(r0 & <- & Hr0) Hne]. case_bool_decide as Hc.
      * rewrite Hu in Hne. tauto.
      * done.
    + intros [Hr Hne]. split; [|done]. exists r. split; [|done].
      rewrite bool_decide_eq_false_2; [done|tauto].
  - intros Huniq id1 id2 row1 row2. cbn. rewrite !lookup_fmap_Some.
    intros (r1 & <- & Hr1) (r2 & <- & Hr2) Heq. apply (Huniq _ _ r1 r2); [done..|].
    repeat case_bool_decide; rewrite ?Hs in Heq; done.
Qed.

Lemma kept_delete (db : Db) (id : string) :
  webhook (others userId db) !! id = None →
  kept userId db
    {| twitchConfig := twitchConfig db;
       savedToken := savedToken db;
       webhook := delete id (webhook db) |}.
Proof.
  intros Hid. repeat split; cbn.
  - by rewrite map_filter_delete, delete_id.
  - intros Huniq id1 id2 row1 row2. cbn.
    intros [_ H1]%lookup_delete_Some [_ H2]%lookup_delete_Some.
    by apply Huniq.
Qed.

Lemma importLoop_kept (L : gset string) (remote : list Subscription)
    (db : Db) (t : Totals) :
  kept userId db (importLoop now userId L remote db t).1.1.
Proof.
  revert db t. induction remote as [|sub rest IH]; intros db t; cbn.
  { apply kept_refl. }
  case_bool_decide.
  - destruct (webhook_of now userId (sub_callback sub) sub) as [row|] eqn:Hrow;
      cbn; [|apply kept_refl].
    destruct (Prisma.webhook_create db row) as [[id db']|] eqn:Hc;
      [|apply kept_refl].
    apply webhook_create_inv in Hc as (Hfree & -> & ->).
    apply webhook_of_owner in Hrow as [Hu _].
    eapply kept_trans; [by apply kept_create|apply IH].
  - eapply kept_trans; [|apply IH]. by apply kept_update.
Qed.

Lemma removeLoop_kept (R : gset string) (l : list (string * Webhook.t))
    (db : Db) (t : Totals) :
  (∀ x, x ∈ l → webhook (others userId db) !! x.1 = None) →
  kept userId db (removeLoop R l db t).1.1.
Proof.
  revert db t. induction l as [|x l IH]; intros db t Hl; cbn.
  { apply kept_refl. }
  assert (Hrest : ∀ y, y ∈ l → webhook (others userId db) !! y.1 = None)
    by (intros y Hy; apply Hl; by right).
  case_bool_decide; [|by apply IH].
  unfold Prisma.webhook_delete.
  destruct (webhook db !! x.1) eqn:Hx; [|apply kept_refl].
  assert (Hk : kept userId db
                 {| twitchConfig := twitchConfig db;
                    savedToken := savedToken db;
                    webhook := delete x.1 (webhook db) |})
    by (apply kept_delete, Hl; by left).
  eapply kept_trans; [exact Hk|]. apply IH.
  intros y Hy. destruct Hk as (_ & _ & -> & _). by apply Hrest.
Qed.

Lemma findMany_others (db : Db) (x : string * Webhook.t) :
  x ∈ Prisma.webhook_findMany db userId →
  webhook (others userId db) !! x.1 = None.
Proof.
  destruct x as [id r].
  intros [Hu Hin%elem_of_map_to_list]%list_elem_of_filter. cbn.
  apply map_lookup_filter_None. right. intros row Hrow. cbn in *.
  rewrite Hin in Hrow. injection Hrow as <-. tauto.
Qed.

Lemma reconcile_kept (name : string) (remote : list Subscription) (db : Db)
    (t : Totals) :
  kept userId db (reconcile now userId name remote db t).1.
Proof.
  unfold reconcile.
  pose proof (importLoop_kept
                (list_to_set ((λ w : string * Webhook.t,
                                 Webhook.subscriptionId w.2)
                                <$> Prisma.webhook_findMany db userId))
                remote db (fetched (length remote) name t)) as Hi.
  destruct (importLoop _ _ _ _ _ _) as [[db1 t1] [|]]; cbn in *; [|done].
  eapply kept_trans; [exact Hi|]. apply removeLoop_kept.
  intros x Hx%findMany_others. destruct Hi as (_ & _ & -> & _). done.
Qed.

End Kept.

Lemma syncToken_kept (w : World) (userId : string)
    (token : SavedToken.t * TwitchConfig.t) (st : Db * WebhookController.Totals) :
  kept userId st.1 (WebhookController.syncToken w userId token st).1.
Proof.
  unfold WebhookController.syncToken. case_match; [|apply kept_refl].
  apply reconcile_kept.
Qed.

Lemma sync_fold_kept (w : World) (userId : string)
    (tokens : list (SavedToken.t * TwitchConfig.t))
    (st : Db * WebhookController.Totals) :
  kept userId st.1
    (foldl (λ st token, WebhookController.syncToken w userId token st)
           st tokens).1.
Proof.
  revert st. induction tokens as [|token tokens IH]; intros st; cbn.
  { apply kept_refl. }
  eapply kept_trans; [apply (syncToken_kept w userId token)|apply IH].
Qed.

Lemma syncWebhooks_kept (w : World) (req : Request) (db : Db) :
  kept (user_userId req) db (WebhookController.syncWebhooks w req db).2
  ∧ ((WebhookController.syncWebhooks w req db).2 = db
     ∨ status (WebhookController.syncWebhooks w req db).1 = 200%Z).
Proof.
  unfold WebhookController.syncWebhooks.
  apply (try_catch_elim (λ v, kept _ _ v.2 ∧ (v.2 = _ ∨ status v.1 = _))).
  { intros _. split; [apply kept_refl|by left]. }
  intros v H. unwind H. { split; [apply kept_refl|by left]. }
  pose proof (sync_fold_kept w (user_userId req) value (db, WebhookController.zero)) as Hk.
  rewrite Heqp in Hk. split; [exact Hk|by right].
Qed.

(** ** Isolation between users, and the constraints on the store *)

Lemma change_others (userId : string) (db db' : Db) :
  Change userId db db' → others userId db' = others userId db.
Proof.
  intros H. destruct H as [|row config Hc Ho Hu|id old new Hold Ho Hn Hc
                           |id old Hold Ho|row Hu Hnone|id old Hold Ho Hz
                           |row Hu Hfree|id old Hold Ho];
    unfold others; cbn; f_equal.
  - rewrite map_filter_insert_False by (cbn; tauto).
    by rewrite delete_id by apply new_id_fresh.
  - rewrite map_filter_insert_False by (cbn; tauto).
    apply map_filter_delete_not. intros y Hy. cbn. rewrite Hold in Hy.
    injection Hy as <-. tauto.
  - apply map_filter_delete_not. intros y Hy. cbn. rewrite Hold in Hy.
    injection Hy as <-. tauto.
  - rewrite map_filter_insert_False by (cbn; tauto).
    by rewrite delete_id by apply new_id_fresh.
  - apply map_filter_delete_not. intros y Hy. cbn. rewrite Hold in Hy.
    injection Hy as <-. tauto.
  - rewrite map_filter_insert_False by (cbn; tauto).
    by rewrite delete_id by apply new_id_fresh.
  - apply map_filter_delete_not. intros y Hy. cbn. rewrite Hold in Hy.
    injection Hy as <-. tauto.
Qed.

Lemma findByClientId_none (db : Db) (userId clientId id : string)
    (row : TwitchConfig.t) :
  Prisma.twitchConfig_findByClientId db userId clientId = None →
  twitchConfig db !! id = Some row →
  TwitchConfig.userId row = userId → TwitchConfig.clientId row ≠ clientId.
Proof.
  unfold Prisma.twitchConfig_findByClientId. intros Hnone Hrow Hu Hc.
  assert (Hin : In (id, row) (map_to_list (twitchConfig db)))
    by (by apply list_elem_of_In, elem_of_map_to_list).
  pose proof (List.find_none _ _ Hnone (id, row) Hin) as Hf. cbn in Hf.
  by rewrite Hu, Hc, !String.eqb_refl in Hf.
Qed.

Lemma count_zero_unreferenced (db : Db) (id i : string) (token : SavedToken.t) :
  Prisma.count_savedTokens db id = 0 →
  savedToken db !! i = Some token → SavedToken.twitchConfigId token ≠ id.
Proof.
  intros Hz Htoken. pose proof (count_zero_filter db id Hz) as Hf.
  rewrite <- Hf in Htoken. by apply map_lookup_filter_Some in Htoken as [_ ?].
Qed.

Lemma change_consistent (userId : string) (db db' : Db) :
  Change userId db db' → consistent db → consistent db'.
Proof.
  intros H (Hfk & Hown & Hsub & Hcid).
  destruct H as [|row config Hc Ho Hu|id old new Hold Ho Hn Hc
                 |id old Hold Ho|row Hu Hnone|id old Hold Ho Hz
                 |row Hu Hfree|id old Hold Ho]; [done|..];
    (split; [|split; [|split]]); try done; cbn.
  - apply map_Forall_insert_2; cbn; [by rewrite Hc|done].
  - intros i token cfg. cbn.
    destruct (decide (i = Prisma.new_id (savedToken db))) as [->|Hne].
    + rewrite lookup_insert_eq. intros [= <-]. rewrite Hc. intros [= <-].
      congruence.
    + rewrite lookup_insert_ne by done. apply Hown.
  - apply map_Forall_insert_2; cbn; [|done]. rewrite Hc. by apply (Hfk id).
  - intros i token cfg. cbn. destruct (decide (i = id)) as [->|Hne].
    + rewrite lookup_insert_eq. intros [= <-]. rewrite Hc, Hn, <- Ho.
      by apply (Hown id).
    + rewrite lookup_insert_ne by done. apply Hown.
  - by apply map_Forall_delete.
  - intros i token cfg. cbn. intros [_ Hi]%lookup_delete_Some. by apply (Hown i).
  - intros i token Htoken. cbn. specialize (Hfk i token Htoken). cbn in Hfk.
    rewrite lookup_insert_ne; [done|]. intros Heq.
    rewrite <- Heq, new_id_fresh in Hfk. by destruct Hfk.
  - intros i token cfg Htoken. cbn.
    specialize (Hfk i token Htoken). cbn in Hfk.
    rewrite lookup_insert_ne; [by apply (Hown i)|]. intros Heq.
    rewrite <- Heq, new_id_fresh in Hfk. by destruct Hfk.
  - intros id1 id2 row1 row2. cbn.
    pose proof (new_id_fresh (twitchConfig db)) as Hfresh.
    destruct (decide (id1 = Prisma.new_id (twitchConfig db))) as [->|H1],
             (decide (id2 = Prisma.new_id (twitchConfig db))) as [->|H2];
      [done|..].
    + rewrite lookup_insert_eq, lookup_insert_ne by done.
      intros [= <-] H2' Hu' Hc'.
      destruct (findByClientId_none _ _ _ _ _ Hnone H2'); congruence.
    + rewrite lookup_insert_eq, lookup_insert_ne by done.
      intros H1' [= <-] Hu' Hc'.
      destruct (findByClientId_none _ _ _ _ _ Hnone H1'); congruence.
    + rewrite !lookup_insert_ne by done. apply Hcid.
  - intros i token Htoken. cbn. rewrite lookup_delete_ne; [by apply (Hfk i)|].
    intros Heq. by eapply count_zero_unreferenced.
  - intros i token cfg Htoken. cbn. intros [_ Hi]%lookup_delete_Some.
    by apply (Hown i token).
  - intros id1 id2 row1 row2. cbn.
    intros [_ H1]%lookup_delete_Some [_ H2]%lookup_delete_Some. by apply Hcid.
  - by apply (kept_create userId db row).
  - intros id1 id2 row1 row2. cbn.
    intros [_ H1]%lookup_delete_Some [_ H2]%lookup_delete_Some. by apply Hsub.
Qed.

Lemma kept_consistent (userId : string) (db db' : Db) :
  kept userId db db' → consistent db → consistent db'.
Proof.
  intros (Hc & Ht & _ & Hu) (Hfk & Hown & Hsub & Hcid).
  unfold consistent, references_intact, same_owner, unique_clientIds in *.
  rewrite Hc, Ht. auto.
Qed.

Lemma kept_others (userId : string) (db db' : Db) :
  kept userId db db' → others userId db' = others userId db.
Proof.
  intros (Hc & Ht & Hw & _). unfold others in *. cbn in Hw.
  by rewrite Hc, Ht, Hw.
Qed.

Lemma serve_effect (e : Api.Endpoint) (w : World) (req : Request) (db : Db) :
  e ≠ Api.CreateConfig → e ≠ Api.SyncWebhooks →
  effect (user_userId req) db (Api.serve e w req db).
Proof.
  destruct e; intros ? ?; try done; cbn;
    auto using getAllTokens_effect, getToken_effect, generateAppToken_effect,
      deleteToken_effect, startUserToken_effect, pollUserToken_effect,
      startAuthorizationFlow_effect, handleAuthorizationCallback_effect,
      validateSavedToken_effect, refreshToken_effect, getAllConfigs_effect,
      getConfig_effect, deleteConfig_effect, getAllWebhooks_effect,
      createWebhook_effect, deleteWebhook_effect.
Qed.

Lemma serve_change (e : Api.Endpoint) (w : World) (req : Request) (db : Db) :
  e ≠ Api.SyncWebhooks →
  Change (user_userId req) db (Api.serve e w req db).2.
Proof.
  intros Hs. destruct e; try done;
    try (by apply (serve_effect _ w req db)).
  apply createConfig_change.
Qed.

(** X3. A request never touches what other users hold: for every
    endpoint of [Api.Endpoint], whatever the request and the answers of
    the provider and of the cipher, the rows of the credential sets,
    tokens and webhooks owned by anyone but the requester are the same
    before and after, none added, changed or removed. *)
Theorem other_users_untouched (e : Api.Endpoint) (w : World) (req : Request)
    (db : Db) :
  others (user_userId req) (Api.serve e w req db).2
  = others (user_userId req) db.
Proof.
  destruct e; try (by apply change_others, (serve_change _ w req db)).
  apply kept_others, syncWebhooks_kept.
Qed.

(** X4. The constraints on the store are maintained by every endpoint
    of [Api.Endpoint]: if every token references an existing credential
    set of the same owner, no two webhooks carry the same provider id and
    no user has two credential sets with the same client id, then the
    same holds of the store left by the request. *)
Theorem consistent_preserved (e : Api.Endpoint) (w : World) (req : Request)
    (db : Db) :
  consistent db → consistent (Api.serve e w req db).2.
Proof.
  intros Hdb. destruct e;
    try (apply (change_consistent (user_userId req) db); [|done];
         by apply serve_change).
  apply (kept_consistent (user_userId req) db); [|done].
  apply syncWebhooks_kept.
Qed.

Lemma createConfig_status (w : World) (req : Request) (db : Db) :
  (TwitchConfigController.createConfig w req db).2 = db
  ∨ status (TwitchConfigController.createConfig w req db).1 = 201%Z
  ∨ status (TwitchConfigController.createConfig w req db).1 = 500%Z.
Proof.
  unfold TwitchConfigController.createConfig.
  apply (try_catch_elim (λ v, v.2 = _ ∨ status v.1 = _ ∨ status v.1 = _));
    [by left|].
  intros v H. unwind H; try (by left).
  apply (try_catch_elim (λ v, v.2 = _ ∨ status v.1 = _ ∨ status v.1 = _));
    [by right; right|].
  intros v Hv. unwind Hv. by right; left.
Qed.

Lemma updateConfig_status (w : World) (req : Request) (db : Db) :
  (TwitchConfigController.updateConfig w req db).2 = db
  ∨ status (TwitchConfigController.updateConfig w req db).1 = 200%Z
  ∨ status (TwitchConfigController.updateConfig w req db).1 = 500%Z.
Proof.
  unfold TwitchConfigController.updateConfig.
  apply (try_catch_elim (λ v, v.2 = _ ∨ status v.1 = _ ∨ status v.1 = _));
    [by left|].
  intros v H. unwind H; try (by left).
  all: apply (try_catch_elim (λ v, v.2 = _ ∨ status v.1 = _ ∨ status v.1 = _));
    [by right; right|];
    intros v Hv; unwind Hv; by right; left.
Qed.

Lemma reads_leave_store (e : Api.Endpoint) (w : World) (req : Request)
    (db : Db) :
  Api.writes e = false → (Api.serve e w req db).2 = db.
Proof.
  destruct e; intros ?; try done; cbn;
    [unfold TokenController.getAllTokens
    |unfold TokenController.getToken
    |unfold TokenController.startUserToken
    |unfold TokenController.startAuthorizationFlow
    |unfold TokenController.validateSavedToken
    |unfold TwitchConfigController.getAllConfigs
    |unfold TwitchConfigController.getConfig];
    (apply (try_catch_elim (λ v, v.2 = db));
     [intros ?; by repeat case_match|intros ? H'; by unwind H']).
Qed.

(** X5. The store changes only when the request succeeds: of the
    endpoints of [Api.Endpoint], those that only read leave it as it is,
    and a writing one changes it only when it answers 200 or 201; and
    [updateConfig], which is not among them, changes it only when it
    answers 200.  There are two exceptions: [createConfig] and
    [updateConfig] write the row before they decrypt its secret for their
    answer, and so may answer 500 with the row written. *)
Theorem store_changes_only_on_success (e : Api.Endpoint) (w : World)
    (req : Request) (db : Db) :
  ((Api.serve e w req db).2 = db
   ∨ Api.writes e = true
     ∧ (status (Api.serve e w req db).1 = 200%Z
        ∨ status (Api.serve e w req db).1 = 201%Z
        ∨ e = Api.CreateConfig ∧ status (Api.serve e w req db).1 = 500%Z))
  ∧ ((TwitchConfigController.updateConfig w req db).2 = db
     ∨ status (TwitchConfigController.updateConfig w req db).1 = 200%Z
     ∨ status (TwitchConfigController.updateConfig w req db).1 = 500%Z).
Proof.
  split; [|apply updateConfig_status].
  destruct (Api.writes e) eqn:Hw; [|left; by apply reads_leave_store].
  destruct e; try done.
  all: try (match goal with
            | |- context [Api.serve ?e _ _ _] =>
                destruct (serve_effect e w req db ltac:(done) ltac:(done))
                  as [_ [H|[H|H]]]
            end;
            [by left|right; split; [done|by left]
            |right; split; [done|by right; left]]).
  - cbn [Api.serve]. destruct (createConfig_status w req db) as [H|[H|H]].
    + by left.
    + right. split; [done|]. by right; left.
    + right. split; [done|]. by right; right.
  - cbn [Api.serve]. destruct (syncWebhooks_kept w req db) as [_ [H|H]];
      [by left|right; split; [done|by left]].
Qed.

(** The two exceptions on a platform that cannot decrypt: the answer is
    500, and the row has been created, or updated, all the same. *)
Example written_before_failing :
  let created :=
    TwitchConfigController.createConfig WriteOnly.sealingWorld
      (Scenario.submit "alice" "" "client-new" "hush") Fixture.db in
  let updated :=
    TwitchConfigController.updateConfig WriteOnly.sealingWorld
      (Scenario.submit "alice" "cfg-a" "client-a2" "hush") Fixture.db in
  status created.1 = 500%Z
  ∧ size (twitchConfig created.2) = 4
  ∧ status updated.1 = 500%Z
  ∧ TwitchConfig.clientId <$> twitchConfig updated.2 !! "cfg-a"
    = Some "client-a2"
  ∧ TwitchConfig.clientId <$> twitchConfig Fixture.db !! "cfg-a"
    = Some "client-a".
Proof. cbv zeta. repeat split; by vm_compute. Qed.

Ltac rows H :=
  apply elem_of_map_to_list in H; vm_compute in H;
  repeat (apply elem_of_cons in H as [H|H]);
  [..|by apply elem_of_nil in H]; simplify_eq.

Lemma fixture_consistent : consistent Fixture.db.
Proof.
  split; [exact fixture_references_intact|]. split; [|split].
  - intros id token config Ht Hc. rows Ht; vm_compute in Hc; by simplify_eq.
  - intros id1 id2 row1 row2 H1. cbn in H1. by rewrite lookup_empty in H1.
  - intros id1 id2 row1 row2 H1 H2. rows H1; rows H2; try done.
Qed.

Lemma consistent_preserved_witness :
  consistent Fixture.db
  ∧ consistent (Api.serve Api.PollUserToken Fixture.world
                  (Fixture.request "alice" "" "cfg-a" "dc-ok") Fixture.db).2.
Proof.
  split; [exact fixture_consistent|].
  apply (consistent_preserved Api.PollUserToken). exact fixture_consistent.
Defined.

(** ** Tokens: issue, read back, delete, validate *)

(** X6. An app token can be read back.  With a working cipher, when the
    credential set is the requester's and the provider grants a token
    whose expiry, [expires_in] seconds after the request, is an instant
    that a date can hold, [generateAppToken] answers 201 and adds exactly
    one row under a new id: of type "app", with no scopes, no refresh
    secret and no channel, and with that expiry; and [getToken] on that id
    then returns the provider's token in clear.  When the expiry is no such
    instant, [generateAppToken] answers 500 and adds nothing. *)
Theorem generateAppToken_then_getToken (w w' : World) (req req' : Request)
    (db : Db) (cfg : TwitchConfig.t) (clientSecret : string) (d : TokenData) :
  codec_ready w → w_crypto w' = w_crypto w → w_env w' = w_env w →
  errors req = [] →
  twitchConfig db !! body_twitchConfigId req = Some cfg →
  TwitchConfig.userId cfg = user_userId req →
  Encryption.decrypt (w_crypto w) (w_env w) (TwitchConfig.clientSecret cfg)
  = Ok clientSecret →
  post_token (w_twitch w)
    (client_credentials (TwitchConfig.clientId cfg) clientSecret)
  = Responded d →
  errors req' = [] → user_userId req' = user_userId req →
  params_id req' = Prisma.new_id (savedToken db) →
  let expiry := (w_now w + expires_in d * 1000)%Z in
  ((-8640000000000000 ≤ expiry ≤ 8640000000000000)%Z →
   ∃ (row : SavedToken.t) (config : Json),
     let id := Prisma.new_id (savedToken db) in
     let db' := {| twitchConfig := twitchConfig db;
                   savedToken := <[id := row]> (savedToken db);
                   webhook := webhook db |} in
     TokenController.generateAppToken w req db
     = (json 201
          [("message", JStr "App access token generated successfully");
           ("token",
            TokenController.responseToken id row (access_token d) None config)],
        db')
     ∧ savedToken db !! id = None
     ∧ SavedToken.userId row = user_userId req
     ∧ SavedToken.twitchConfigId row = body_twitchConfigId req
     ∧ SavedToken.tokenType row = "app"
     ∧ SavedToken.scopes row = []
     ∧ SavedToken.refreshToken row = None
     ∧ SavedToken.channelLogin row = None
     ∧ SavedToken.channelId row = None
     ∧ SavedToken.expiresAt row = Some expiry
     ∧ TokenController.getToken w' req' db'
       = (json 200
            [("token",
              TokenController.responseToken id row (access_token d) None
                config)],
          db'))
  ∧ (¬ (-8640000000000000 ≤ expiry ≤ 8640000000000000)%Z →
     ∃ body,
       TokenController.generateAppToken w req db
       = ({| status := 500; body := body |}, db)).
Proof.
  intros Hready Hnc Henv Hvalid Hcfg Howner Hsecret Hpost Hvalid' Huser' Hid'
    expiry. subst expiry.
  destruct (codec_ready_encrypt w (w_rng w) (access_token d) Hready)
    as (c & Henc & Hdec).
  split.
  - intros Hdate.
    eexists _, _. cbv zeta. split; [|split; [apply new_id_fresh|]].
    + unfold TokenController.generateAppToken. rewrite Hvalid, Hcfg. cbn.
      rewrite Howner, String.eqb_refl. cbn. rewrite Hsecret. cbn.
      unfold TwitchApiService.generateAppAccessToken. rewrite Hpost. cbn.
      rewrite Henc. cbn. rewrite (ofNumber_representable _ Hdate). cbn.
      unfold Prisma.select_twitchConfig. cbn. rewrite Hcfg.
      reflexivity.
    + repeat (split; [reflexivity|]).
      unfold TokenController.getToken. rewrite Hvalid', Hid'. cbn.
      rewrite lookup_insert_eq. cbn. unfold Prisma.select_twitchConfig. cbn.
      rewrite Hcfg. cbn. rewrite Huser', String.eqb_refl. cbn.
      rewrite Hnc, Henv, Hdec. reflexivity.
  - intros Hdate.
    unfold TokenController.generateAppToken. rewrite Hvalid, Hcfg. cbn.
    rewrite Howner, String.eqb_refl. cbn. rewrite Hsecret. cbn.
    unfold TwitchApiService.generateAppAccessToken. rewrite Hpost. cbn.
    rewrite Henc. cbn. rewrite (ofNumber_unrepresentable _ Hdate).
    by eexists.
Qed.

(** X7. Deleting a token removes that row and no other row of the three
    tables, without any call to the provider or the cipher; afterwards
    the id is unknown: reading it, or deleting it again, answers 404. *)
Theorem deleteToken_then_gone (w w' : World) (req : Request) (db : Db)
    (token : SavedToken.t) :
  errors req = [] →
  savedToken db !! params_id req = Some token →
  SavedToken.userId token = user_userId req →
  let db' := {| twitchConfig := twitchConfig db;
                savedToken := delete (params_id req) (savedToken db);
                webhook := webhook db |} in
  TokenController.deleteToken w req db
  = (json 200 [("message", JStr "Token deleted successfully")], db')
  ∧ TokenController.getToken w' req db'
    = (TokenController.not_found "Token not found", db')
  ∧ TokenController.deleteToken w' req db'
    = (TokenController.not_found "Token not found", db').
Proof.
  intros Hvalid Htoken Howner. cbv zeta. repeat split.
  - unfold TokenController.deleteToken, Prisma.savedToken_delete.
    rewrite Hvalid, Htoken. cbn. by rewrite Howner, String.eqb_refl.
  - unfold TokenController.getToken. rewrite Hvalid. cbn.
    by rewrite lookup_delete_eq.
  - unfold TokenController.deleteToken. rewrite Hvalid. cbn.
    by rewrite lookup_delete_eq.
Qed.

(** X8. Validating a stored token never fails because of the provider:
    when the token is the requester's and its secret decrypts, the answer
    is 200 whatever the provider does, with [valid: true] and the
    provider's data when it answers, and [valid: false] when it rejects
    the request with any status or cannot be reached.  The token is left
    in the store in both cases. *)
Theorem validateSavedToken_reports (w : World) (req : Request) (db : Db)
    (token : SavedToken.t) (accessToken : string) :
  errors req = [] →
  savedToken db !! params_id req = Some token →
  SavedToken.userId token = user_userId req →
  Encryption.decrypt (w_crypto w) (w_env w) (SavedToken.accessToken token)
  = Ok accessToken →
  TokenController.validateSavedToken w req db
  = (match get_validate (w_twitch w) accessToken with
     | Responded d =>
         json 200 [("valid", JBool true);
                   ("clientId", JStr (client_id d));
                   ("login", jopt (or_null (login d)));
                   ("userId", jopt (or_null (user_id d)));
                   ("scopes", jstrings (default [] (validate_scopes d)));
                   ("expiresIn", JNum (validate_expires_in d))]
     | _ =>
         json 200 [("valid", JBool false);
                   ("message", JStr "Token is invalid or expired")]
     end, db).
Proof.
  intros Hvalid Htoken Howner Hdec.
  unfold TokenController.validateSavedToken. rewrite Hvalid, Htoken. cbn.
  rewrite Howner, String.eqb_refl. cbn. rewrite Hdec. cbn.
  unfold TwitchApiService.validateToken.
  by destruct (get_validate (w_twitch w) accessToken).
Qed.

(** ** Scopes on the wire *)

Lemma split_free (sep : ascii) (s : string) :
  includes sep s = false → split sep s = [s].
Proof.
  induction s as [|c s IH]; cbn [includes split]; [done|].
  intros [Hc Hs]%orb_false_iff. by rewrite Hc, IH.
Qed.

Lemma split_free_cons (sep : ascii) (s rest : string) :
  includes sep s = false →
  split sep (s +:+ String sep rest) = s :: split sep rest.
Proof.
  induction s as [|c s IH]; cbn [includes].
  - intros _. rewrite append_nil. cbn [split]. by rewrite Ascii.eqb_refl.
  - intros [Hc Hs]%orb_false_iff. rewrite append_cons. cbn [split].
    by rewrite Hc, IH.
Qed.

Lemma split_join (sep : ascii) (l : list string) :
  l ≠ [] → Forall (λ s, includes sep s = false) l →
  split sep (join sep l) = l.
Proof.
  intros Hne Hl. induction Hl as [|x l Hx Hl IH]; [done|].
  destruct l as [|y l]; [by apply split_free|].
  change (join sep (x :: y :: l)) with (x +:+ String sep (join sep (y :: l))).
  rewrite split_free_cons by done. by rewrite IH.
Qed.

(** X9. Scopes survive the wire format.  The device and authorization
    requests send the scopes joined by single spaces, and the token
    answers are read by splitting at spaces: for scopes that are not empty
    and contain no space, reading back what was sent gives the same list,
    the empty list included. *)
Theorem scopes_round_trip (scopes : list string) :
  Forall (λ s, s ≠ "" ∧ includes " " s = false) scopes →
  TwitchApiService.parse_scope (ScopeString (join " " scopes)) = scopes.
Proof.
  intros Hl. unfold TwitchApiService.parse_scope.
  destruct scopes as [|x l]; [done|].
  assert (Hne : join " " (x :: l) ≠ "").
  { apply Forall_cons in Hl as [[Hx _] _].
    destruct x; [done|]. by destruct l. }
  apply String.eqb_neq in Hne. rewrite Hne.
  apply split_join; [done|]. eapply Forall_impl; [exact Hl|]. by intros s [_ ?].
Qed.

Lemma scopes_round_trip_witness :
  TwitchApiService.parse_scope
    (ScopeString (join " " ["chat:read"; "chat:edit"; "bits:read"]))
  = ["chat:read"; "chat:edit"; "bits:read"].
Proof.
  apply (scopes_round_trip ["chat:read"; "chat:edit"; "bits:read"]).
  repeat constructor; done.
Defined.

(** ** Credential sets *)

Lemma findByClientId_some (db : Db) (userId clientId id : string)
    (row : TwitchConfig.t) :
  twitchConfig db !! id = Some row →
  TwitchConfig.userId row = userId → TwitchConfig.clientId row = clientId →
  is_Some (Prisma.twitchConfig_findByClientId db userId clientId).
Proof.
  intros Hrow Hu Hc.
  destruct (Prisma.twitchConfig_findByClientId db userId clientId) eqn:E;
    [done|].
  by destruct (findByClientId_none _ _ _ _ _ E Hrow Hu).
Qed.

Lemma findByClientId_free (db : Db) (userId clientId : string) :
  (∀ id row, twitchConfig db !! id = Some row →
     TwitchConfig.userId row = userId → TwitchConfig.clientId row ≠ clientId) →
  Prisma.twitchConfig_findByClientId db userId clientId = None.
Proof.
  intros Hfree. unfold Prisma.twitchConfig_findByClientId.
  destruct (find _ _) as [[id row]|] eqn:E; [|done].
  apply List.find_some in E as [Hin%list_elem_of_In%elem_of_map_to_list Hb].
  cbn in Hb. apply andb_true_iff in Hb as [Hu%String.eqb_eq Hc%String.eqb_eq].
  by destruct (Hfree id row).
Qed.

(** X10. A credential set can be read back.  With a working cipher, when
    the requester has no credential set with the submitted client id,
    [createConfig] answers 201 with the submitted secret and adds exactly
    one row under a new id, owned by the requester, whose stored secret
    decrypts to the submitted one; [getConfig] on that id then returns
    the same secret.  Credential sets of other users with the same client
    id do not stand in the way. *)
Theorem createConfig_then_getConfig (w w' : World) (req req' : Request)
    (db : Db) (clientId clientSecret : string) :
  codec_ready w → w_crypto w' = w_crypto w → w_env w' = w_env w →
  errors req = [] →
  body_clientId req = Some clientId →
  body_clientSecret req = Some clientSecret →
  (∀ id row, twitchConfig db !! id = Some row →
     TwitchConfig.userId row = user_userId req →
     TwitchConfig.clientId row ≠ clientId) →
  errors req' = [] → user_userId req' = user_userId req →
  params_id req' = Prisma.new_id (twitchConfig db) →
  ∃ row : TwitchConfig.t,
    let id := Prisma.new_id (twitchConfig db) in
    let db' := {| twitchConfig := <[id := row]> (twitchConfig db);
                  savedToken := savedToken db;
                  webhook := webhook db |} in
    TwitchConfigController.createConfig w req db
    = (json 201
         [("message", JStr "Twitch configuration created successfully");
          ("config", TwitchConfigController.configJson id row clientSecret)],
       db')
    ∧ twitchConfig db !! id = None
    ∧ TwitchConfig.userId row = user_userId req
    ∧ TwitchConfig.clientId row = clientId
    ∧ TwitchConfig.name row = or_null (body_name req)
    ∧ Encryption.decrypt (w_crypto w) (w_env w) (TwitchConfig.clientSecret row)
      = Ok clientSecret
    ∧ TwitchConfigController.getConfig w' req' db'
      = (json 200
           [("config", TwitchConfigController.configJson id row clientSecret)],
         db').
Proof.
  intros Hready Hnc Henv Hvalid Hid Hsecret Hfree%findByClientId_free
    Hvalid' Huser' Hid'.
  destruct (codec_ready_encrypt w (w_rng w) clientSecret Hready)
    as (c & Henc & Hdec).
  eexists. cbv zeta. split; [|split; [apply new_id_fresh|]].
  - unfold TwitchConfigController.createConfig, Prisma.twitchConfig_create.
    rewrite Hvalid, Hid, Hsecret. cbn. rewrite Hfree. cbn.
    rewrite Henc. cbn. rewrite Hdec. reflexivity.
  - repeat (split; [reflexivity|]). split; [exact Hdec|].
    unfold TwitchConfigController.getConfig. rewrite Hvalid', Hid'. cbn.
    rewrite lookup_insert_eq. cbn. rewrite Huser', String.eqb_refl. cbn.
    rewrite Hnc, Henv, Hdec. reflexivity.
Qed.

(** X11. One client id, one credential set per user: when the requester
    already has a credential set with the submitted client id,
    [createConfig] answers 409 and stores nothing, whatever secret and
    name are submitted. *)
Theorem createConfig_conflict (w : World) (req : Request) (db : Db)
    (clientId id : string) (row : TwitchConfig.t) :
  errors req = [] →
  body_clientId req = Some clientId →
  twitchConfig db !! id = Some row →
  TwitchConfig.userId row = user_userId req →
  TwitchConfig.clientId row = clientId →
  TwitchConfigController.createConfig w req db
  = (json 409
       [("error", JStr "Conflict");
        ("message",
         JStr "A configuration with this Client ID already exists")],
     db).
Proof.
  intros Hvalid Hid Hrow Hu Hc.
  unfold TwitchConfigController.createConfig. rewrite Hvalid, Hid. cbn.
  rewrite bool_decide_eq_true_2 by (by eapply findByClientId_some). done.
Qed.

Lemma count_positive (db : Db) (id : string) :
  0 < Prisma.count_savedTokens db id
  ↔ ∃ i token, savedToken db !! i = Some token
               ∧ SavedToken.twitchConfigId token = id.
Proof.
  unfold Prisma.count_savedTokens. split.
  - intros Hpos.
    destruct (filter _ _) as [|[i token] l] eqn:E; [cbn in Hpos; lia|].
    assert (Hin : (i, token) ∈ filter (λ row : string * SavedToken.t,
                                         SavedToken.twitchConfigId row.2 = id)
                                      (map_to_list (savedToken db)))
      by (rewrite E; left).
    apply list_elem_of_filter in Hin as [Hc Hin%elem_of_map_to_list].
    by exists i, token.
  - intros (i & token & Hi & Hc).
    destruct (decide (Prisma.count_savedTokens db id = 0)) as [Hz|];
      [|unfold Prisma.count_savedTokens in *; lia].
    by destruct (count_zero_unreferenced db id i token Hz Hi).
Qed.

(** X12. A credential set in use cannot be deleted.  For a credential
    set of the requester, [deleteConfig] answers 400 with the number of
    tokens issued under it, and changes nothing, exactly when some token
    references it; otherwise it removes the credential set and no token,
    and the id is unknown afterwards. *)
Theorem deleteConfig_refused_while_in_use (w w' : World) (req : Request)
    (db : Db) (cfg : TwitchConfig.t) :
  errors req = [] →
  twitchConfig db !! params_id req = Some cfg →
  TwitchConfig.userId cfg = user_userId req →
  let n := Prisma.count_savedTokens db (params_id req) in
  let db' := {| twitchConfig := delete (params_id req) (twitchConfig db);
                savedToken := savedToken db;
                webhook := webhook db |} in
  ((∃ i token, savedToken db !! i = Some token
               ∧ SavedToken.twitchConfigId token = params_id req) →
   0 < n
   ∧ (TwitchConfigController.deleteConfig w req db).2 = db
   ∧ status (TwitchConfigController.deleteConfig w req db).1 = 400%Z
   ∧ field "tokensCount" (body (TwitchConfigController.deleteConfig w req db).1)
     = Some (JNum (Z.of_nat n)))
  ∧ ((∀ i token, savedToken db !! i = Some token →
        SavedToken.twitchConfigId token ≠ params_id req) →
     TwitchConfigController.deleteConfig w req db
     = (json 200
          [("message", JStr "Twitch configuration deleted successfully")],
        db')
     ∧ TwitchConfigController.getConfig w' req db'
       = (TokenController.not_found "Twitch configuration not found", db')).
Proof.
  intros Hvalid Hcfg Howner. cbv zeta. split.
  - intros Hused%count_positive. split; [done|].
    unfold TwitchConfigController.deleteConfig. rewrite Hvalid, Hcfg. cbn.
    rewrite Howner, String.eqb_refl. cbn.
    rewrite bool_decide_eq_true_2 by done. done.
  - intros Hfree.
    assert (Hz : Prisma.count_savedTokens db (params_id req) = 0).
    { destruct (decide (0 < Prisma.count_savedTokens db (params_id req)))
        as [(i & token & Hi & Hc)%count_positive|]; [|lia].
      by destruct (Hfree i token). }
    split.
    + unfold TwitchConfigController.deleteConfig, Prisma.twitchConfig_delete.
      rewrite Hvalid, Hcfg. cbn. rewrite Howner, String.eqb_refl. cbn.
      rewrite bool_decide_eq_false_2 by lia. cbn.
      by rewrite count_zero_filter.
    + unfold TwitchConfigController.getConfig. rewrite Hvalid. cbn.
      by rewrite lookup_delete_eq.
Qed.

(** ** Listings *)

Lemma newest_first_cons {A} (key : A → Z) (x : A) (l : list A) :
  newest_first key (x :: l)
  ↔ Forall (λ y, (key y ≤ key x)%Z) l ∧ newest_first key l.
Proof.
  split.
  - intros H. split.
    + apply Forall_lookup. intros j y Hy. apply (H 0 (S j)); [lia|done..].
    + intros i j a b Hij Ha Hb. apply (H (S i) (S j)); [lia|done..].
  - intros [Hx Hl] [|i] [|j] a b Hij Ha Hb; try lia; cbn in *.
    + injection Ha as <-. eapply Forall_lookup_1 in Hx; [|exact Hb]. done.
    + apply (Hl i j); [lia|done..].
Qed.

Lemma insert_desc_perm {A} (key : A → Z) (x : A) (l : list A) :
  insert_desc key x l ≡ₚ x :: l.
Proof.
  induction l as [|y l IH]; cbn; [done|].
  destruct (key y <? key x)%Z; [done|]. rewrite IH. apply Permutation_swap.
Qed.

Lemma sort_desc_perm {A} (key : A → Z) (l : list A) : sort_desc key l ≡ₚ l.
Proof.
  unfold sort_desc. induction l as [|x l IH]; cbn; [done|].
  by rewrite insert_desc_perm, IH.
Qed.

Lemma insert_desc_sorted {A} (key : A → Z) (x : A) (l : list A) :
  newest_first key l → newest_first key (insert_desc key x l).
Proof.
  induction l as [|y l IH]; cbn; intros Hl.
  - apply newest_first_cons. split; [constructor|]. by intros i j a b _ [].
  - destruct (key y <? key x)%Z eqn:E.
    + apply Z.ltb_lt in E. apply newest_first_cons. split; [|done].
      apply newest_first_cons in Hl as [Hy _]. constructor; [lia|].
      eapply Forall_impl; [exact Hy|]. cbn. intros; lia.
    + apply Z.ltb_ge in E. apply newest_first_cons in Hl as [Hy Hl].
      apply newest_first_cons. split; [|by apply IH].
      rewrite insert_desc_perm. by constructor.
Qed.

Lemma sort_desc_sorted {A} (key : A → Z) (l : list A) :
  newest_first key (sort_desc key l).
Proof.
  unfold sort_desc. induction l as [|x l IH]; cbn.
  - by intros i j a b _ [].
  - by apply insert_desc_sorted.
Qed.

(** X13. [getAllWebhooks] answers 200 with exactly the webhook rows of
    the requester, each once, in descending order of creation, and leaves
    the store as it is. *)
Theorem getAllWebhooks_own_newest_first (w : World) (req : Request) (db : Db) :
  ∃ rows : list (string * Webhook.t),
    WebhookController.getAllWebhooks w req db
    = (json 200
         [("webhooks",
           JArr ((λ row : string * Webhook.t,
                    WebhookController.webhookJson row.1 row.2) <$> rows))],
       db)
    ∧ NoDup rows.*1
    ∧ (∀ id row, (id, row) ∈ rows
                 ↔ webhook db !! id = Some row
                   ∧ Webhook.userId row = user_userId req)
    ∧ newest_first (λ row : string * Webhook.t, Webhook.createdAt row.2) rows.
Proof.
  eexists. split; [reflexivity|].
  split; [|split; [|apply sort_desc_sorted]].
  - rewrite sort_desc_perm. unfold Prisma.webhook_findMany.
    apply NoDup_fst_filter, NoDup_fst_map_to_list.
  - intros id row. rewrite sort_desc_perm. unfold Prisma.webhook_findMany.
    rewrite list_elem_of_filter, elem_of_map_to_list. cbn. tauto.
Qed.

Lemma mapM_Result_Forall2 {A B} (g : A → Result B) (l : list A) (ys : list B) :
  mapM g l = Ok ys ↔ Forall2 (λ x y, g x = Ok y) l ys.
Proof.
  revert ys. induction l as [|x l IH]; intros ys; cbn.
  - split; [intros [= <-]; constructor|by inversion 1].
  - destruct (g x) as [y|m] eqn:Hg; cbn.
    + destruct (mapM g l) as [k|m]; cbn.
      * split.
        -- intros [= <-]. constructor; [done|]. by apply IH.
        -- inversion 1 as [|? y' ? k' Hy Hk]; subst.
           apply IH in Hk. change (Ok (y :: k) = Ok (y' :: k')). congruence.
      * split; [done|]. inversion 1 as [|? y' ? k' Hy Hk]; subst.
        by apply IH in Hk.
    + split; [done|]. inversion 1; congruence.
Qed.

Lemma mapM_Result_total {A B} (g : A → Result B) (l : list A) :
  (∀ x, x ∈ l → ∃ y, g x = Ok y) → ∃ ys, mapM g l = Ok ys.
Proof.
  induction l as [|x l IH]; intros Hl; cbn; [by eexists|].
  destruct (Hl x) as [y ->]; [by left|]. cbn.
  destruct IH as [ys ->]; [intros; apply Hl; by right|]. by eexists.
Qed.

(** X14. [getAllConfigs] is all or nothing.  When every credential set
    of the requester has a secret that decrypts, the answer is 200 and
    lists each of them once with its secret in clear and the number of
    tokens issued under it; when one of them does not decrypt, the answer
    is 500 and nothing is listed.  The credential sets of other users
    play no part. *)
Theorem getAllConfigs_all_or_nothing (w : World) (req : Request) (db : Db) :
  let own := filter (λ row : string * TwitchConfig.t,
                       TwitchConfig.userId row.2 = user_userId req)
                    (map_to_list (twitchConfig db)) in
  let readable :=
    ∀ id cfg, twitchConfig db !! id = Some cfg →
              TwitchConfig.userId cfg = user_userId req →
              ∃ s, Encryption.decrypt (w_crypto w) (w_env w)
                     (TwitchConfig.clientSecret cfg) = Ok s in
  (readable →
   ∃ items : list Json,
     TwitchConfigController.getAllConfigs w req db
     = (json 200 [("configs", JArr items)], db)
     ∧ length items = length own
     ∧ ∀ id cfg s,
         twitchConfig db !! id = Some cfg →
         TwitchConfig.userId cfg = user_userId req →
         Encryption.decrypt (w_crypto w) (w_env w)
           (TwitchConfig.clientSecret cfg) = Ok s →
         TwitchConfigController.listedConfigJson id cfg s
           (Prisma.count_savedTokens db id) ∈ items)
  ∧ (¬ readable →
     TwitchConfigController.getAllConfigs w req db
     = (TokenController.server_error
          "Failed to retrieve Twitch configurations", db)).
Proof.
  cbv zeta. unfold TwitchConfigController.getAllConfigs.
  set (g := λ config : string * TwitchConfig.t * nat,
              clientSecret ← Encryption.decrypt (w_crypto w) (w_env w)
                               (TwitchConfig.clientSecret config.1.2);
              Ok (TwitchConfigController.listedConfigJson config.1.1
                    config.1.2 clientSecret config.2)).
  assert (Hin : ∀ x, x ∈ Prisma.twitchConfig_findMany db (user_userId req)
                     ↔ twitchConfig db !! x.1.1 = Some x.1.2
                       ∧ TwitchConfig.userId x.1.2 = user_userId req
                       ∧ x.2 = Prisma.count_savedTokens db x.1.1).
  { intros [[id cfg] n]. unfold Prisma.twitchConfig_findMany.
    rewrite list_elem_of_fmap. setoid_rewrite sort_desc_perm.
    setoid_rewrite list_elem_of_filter. cbn. split.
    - intros ([id' cfg'] & [= -> -> ->] & Hu & Hx%elem_of_map_to_list). done.
    - intros (Hx & Hu & ->). exists (id, cfg). split; [done|]. split; [done|].
      by apply elem_of_map_to_list. }
  split.
  - intros Hread.
    destruct (mapM_Result_total g
                (Prisma.twitchConfig_findMany db (user_userId req)))
      as [items Hitems].
    { intros x [Hx [Hu _]]%Hin. destruct (Hread _ _ Hx Hu) as [s Hs].
      unfold g. rewrite Hs. by eexists. }
    exists items. cbn. rewrite Hitems. cbn. split; [done|].
    apply mapM_Result_Forall2 in Hitems. split.
    + rewrite <- (Forall2_length _ _ _ Hitems).
      unfold Prisma.twitchConfig_findMany.
      by rewrite length_fmap, sort_desc_perm.
    + intros id cfg s Hcfg Hu Hs.
      assert (Hx : (id, cfg, Prisma.count_savedTokens db id)
                   ∈ Prisma.twitchConfig_findMany db (user_userId req))
        by (by apply Hin).
      apply list_elem_of_lookup in Hx as [i Hi].
      destruct (Forall2_lookup_l _ _ _ _ _ Hitems Hi) as (y & Hy & Hg).
      unfold g in Hg. cbn in Hg. rewrite Hs in Hg. injection Hg as <-.
      by eapply list_elem_of_lookup_2.
  - intros Hnot. cbn.
    destruct (mapM g _) as [items|m] eqn:Hitems; [|done].
    destruct Hnot. intros id cfg Hcfg Hu.
    apply mapM_Result_Forall2 in Hitems.
    assert (Hx : (id, cfg, Prisma.count_savedTokens db id)
                 ∈ Prisma.twitchConfig_findMany db (user_userId req))
      by (by apply Hin).
    apply list_elem_of_lookup in Hx as [i Hi].
    destruct (Forall2_lookup_l _ _ _ _ _ Hitems Hi) as (y & Hy & Hg).
    unfold g in Hg. cbn in Hg.
    destruct (Encryption.decrypt _ _ _) as [s|]; [by eexists|done].
Qed.

(** X15. [getAllTokens] lists the tokens of the requester, all of them
    and no others, each once, in descending order of creation, each with
    the id, client id and name of its credential set; this for every
    store whose tokens reference existing credential sets. *)
Theorem getAllTokens_own_newest_first (w : World) (req : Request) (db : Db) :
  references_intact db →
  ∃ (rows : list (string * SavedToken.t)) (items : list Json),
    TokenController.getAllTokens w req db
    = (json 200 [("tokens", JArr items)], db)
    ∧ Forall2 (λ row item,
                 ∃ config,
                   Prisma.select_twitchConfig db
                     (SavedToken.twitchConfigId row.2) = Ok config
                   ∧ item = TokenController.sanitized row.1 row.2 config)
              rows items
    ∧ NoDup rows.*1
    ∧ (∀ id row, (id, row) ∈ rows
                 ↔ savedToken db !! id = Some row
                   ∧ SavedToken.userId row = user_userId req)
    ∧ newest_first (λ row : string * SavedToken.t, SavedToken.createdAt row.2)
        rows.
Proof.
  intros Hfk. rewrite getAllTokens_listing. unfold listing.
  set (rows := sort_desc _ (tokens_of db (user_userId req))).
  assert (Hin : ∀ id row, (id, row) ∈ rows
                          ↔ savedToken db !! id = Some row
                            ∧ SavedToken.userId row = user_userId req).
  { intros id row. unfold rows, tokens_of. rewrite sort_desc_perm.
    rewrite list_elem_of_filter, elem_of_map_to_list. cbn. tauto. }
  destruct (mapM_Result_total
              (λ row : string * SavedToken.t,
                 c ← Prisma.select_twitchConfig db
                       (SavedToken.twitchConfigId row.2);
                 Ok (TokenController.sanitized row.1 row.2 c)) rows)
    as [items Hitems].
  { intros [id row] [Hrow _]%Hin. destruct (Hfk id row Hrow) as [cfg Hcfg].
    unfold Prisma.select_twitchConfig. cbn in *. rewrite Hcfg. by eexists. }
  exists rows, items. rewrite Hitems. split; [done|].
  split; [|split; [|split; [exact Hin|apply sort_desc_sorted]]].
  - apply mapM_Result_Forall2 in Hitems.
    eapply Forall2_impl; [exact Hitems|]. intros [id row] item. cbn.
    destruct (Prisma.select_twitchConfig db _) as [c|]; [|done].
    intros [= <-]. by exists c.
  - unfold rows, tokens_of. rewrite sort_desc_perm.
    apply NoDup_fst_filter, NoDup_fst_map_to_list.
Qed.

Lemma getAllTokens_own_newest_first_witness :
  references_intact Fixture.db
  ∧ status (TokenController.getAllTokens Fixture.world
              (Fixture.request "alice" "" "" "") Fixture.db).1 = 200%Z.
Proof.
  split; [exact fixture_references_intact|].
  destruct (getAllTokens_own_newest_first Fixture.world
              (Fixture.request "alice" "" "" "") Fixture.db
              fixture_references_intact)
    as (rows & items & Hrun & _).
  by rewrite Hrun.
Defined.

(** ** Webhooks: the edges of a pass, creation, deletion *)

(** X16. Without an app token there is nothing to synchronize: when the
    requester has no token of type "app" (under the requested credential
    set, if one is named), [syncWebhooks] answers 404 and leaves the
    store as it is, without calling the provider. *)
Theorem syncWebhooks_without_app_token (w : World) (req : Request) (db : Db) :
  (∀ id token, savedToken db !! id = Some token →
     SavedToken.userId token = user_userId req →
     SavedToken.tokenType token = "app" →
     truthy (body_configId req) = true
     ∧ Some (SavedToken.twitchConfigId token) ≠ body_configId req) →
  WebhookController.syncWebhooks w req db
  = (TokenController.not_found
       (if truthy (body_configId req)
        then "No app token found for this configuration."
        else "No app tokens found. Create an app token first to sync subscriptions."),
     db).
Proof.
  intros Hnone. unfold WebhookController.syncWebhooks,
    WebhookController.appTokens.
  rewrite filter_none; [done|].
  intros [id token] Hin%elem_of_map_to_list (Hu & Ht & Hc). cbn in *.
  destruct (Hnone id token Hin Hu Ht) as [Htruthy Hne]. by apply Hne, Hc.
Qed.

Lemma syncToken_fails (w : World) (userId : string)
    (token : SavedToken.t * TwitchConfig.t) (st : Db * WebhookController.Totals) :
  (∀ remote, ¬ fetches w token remote) →
  WebhookController.syncToken w userId token st = st.
Proof.
  intros Hfail. unfold WebhookController.syncToken.
  destruct (Encryption.decrypt _ _ _) as [accessToken|] eqn:Hd; cbn; [|done].
  destruct (WebhookController.fetchRemote _ _ _) as [remote|] eqn:Hf; [|done].
  destruct (Hfail remote). by exists accessToken.
Qed.

(** X17. A pass in which nothing could be fetched still reports
    success: when the requester has app tokens but, for each of them, the
    secret does not decrypt or the provider does not answer the list
    request, [syncWebhooks] answers 200 "synchronized successfully" with
    all counters at zero and no credential set named, and the store is as
    it was. *)
Theorem syncWebhooks_all_fetches_fail (w : World) (req : Request) (db : Db)
    (tokens : list (SavedToken.t * TwitchConfig.t)) :
  WebhookController.appTokens db (user_userId req) (body_configId req)
  = Ok tokens →
  tokens ≠ [] →
  (∀ token remote, token ∈ tokens → ¬ fetches w token remote) →
  WebhookController.syncWebhooks w req db
  = (json 200
       [("message", JStr "Webhooks synchronized successfully");
        ("imported", JNum 0); ("updated", JNum 0); ("removed", JNum 0);
        ("total", JNum 0); ("configsSynced", JStr "")],
     db).
Proof.
  intros Htokens Hne Hfail.
  rewrite (syncWebhooks_pass w (user_userId req) req db tokens) by done.
  assert (Hfold : foldl (λ st token,
                           WebhookController.syncToken w (user_userId req)
                             token st)
                        (db, WebhookController.zero) tokens
                  = (db, WebhookController.zero)).
  { clear Htokens Hne. generalize (db, WebhookController.zero).
    induction tokens as [|token tokens IH]; intros st; [done|]. cbn.
    rewrite syncToken_fails by (intros remote; apply Hfail; by left).
    apply IH. intros t r Ht. apply Hfail. by right. }
  by rewrite Hfold.
Qed.

(** X18. What [createWebhook] makes of the provider's answer, for a token
    of the requester whose secret decrypts.  A subscription granted under
    an id that no local row carries is stored as one new row of the
    requester, with the submitted callback, and answered with 201; the
    secret generated for it is sent to the provider and kept nowhere.  A
    subscription granted under an id already stored is answered with 500
    and not stored.  A rejection with a body is relayed with the provider's
    status and message, and nothing is stored. *)
Theorem createWebhook_outcome (w : World) (req : Request) (db : Db)
    (token : SavedToken.t) (cfg : TwitchConfig.t) (accessToken : string) :
  errors req = [] →
  savedToken db !! body_tokenId req = Some token →
  twitchConfig db !! SavedToken.twitchConfigId token = Some cfg →
  SavedToken.userId token = user_userId req →
  Encryption.decrypt (w_crypto w) (w_env w) (SavedToken.accessToken token)
  = Ok accessToken →
  let answer :=
    post_eventsub (w_twitch w) accessToken (TwitchConfig.clientId cfg)
      (JObj [("type", JStr (body_type req)); ("version", JStr "1");
             ("condition", body_condition req);
             ("transport",
              JObj [("method", JStr "webhook");
                    ("callback", JStr (body_callbackUrl req));
                    ("secret", JStr (WebhookController.generateSecret w))])]) in
  (∀ sub, answer = Responded sub →
     let row := imported_row (w_now w) (user_userId req) sub
                  (body_callbackUrl req) in
     let id := Prisma.new_id (webhook db) in
     (¬ held (webhook db) (sub_id sub) →
      WebhookController.createWebhook w req db
      = (json 201
           [("message", JStr "EventSub subscription created successfully");
            ("webhook", WebhookController.webhookJson id row)],
         {| twitchConfig := twitchConfig db;
            savedToken := savedToken db;
            webhook := <[id := row]> (webhook db) |}))
     ∧ (held (webhook db) (sub_id sub) →
        WebhookController.createWebhook w req db
        = (TokenController.server_error "Failed to create webhook", db)))
  ∧ (∀ status data, answer = Rejected status (Some data) →
       WebhookController.createWebhook w req db
       = (json (if (status =? 0)%Z then 500%Z else status)
            [("error", JStr "Twitch API error");
             ("message",
              JStr (js_or_default (message data)
                      "Failed to create EventSub subscription"));
             ("details", WebhookController.errorJson data)],
          db)).
Proof.
  intros Hvalid Htoken Hcfg Howner Hdec. cbv zeta.
  assert (Hbody : ∀ r,
            post_eventsub (w_twitch w) accessToken (TwitchConfig.clientId cfg)
              (JObj [("type", JStr (body_type req)); ("version", JStr "1");
                     ("condition", body_condition req);
                     ("transport",
                      JObj [("method", JStr "webhook");
                            ("callback", JStr (body_callbackUrl req));
                            ("secret",
                             JStr (WebhookController.generateSecret w))])])
            = r →
            WebhookController.createWebhook w req db
            = try_catch
                (match r with
                 | Responded subscription =>
                     row ← WebhookController.webhook_of (w_now w)
                             (user_userId req) (Some (body_callbackUrl req))
                             subscription;
                     '(id, db') ← Prisma.webhook_create db row;
                     Ok (json 201
                           [("message",
                             JStr "EventSub subscription created successfully");
                            ("webhook", WebhookController.webhookJson id row)],
                         db')
                 | Rejected status (Some data) =>
                     Ok (json (if (status =? 0)%Z then 500%Z else status)
                           [("error", JStr "Twitch API error");
                            ("message",
                             JStr (js_or_default (message data)
                                     "Failed to create EventSub subscription"));
                            ("details", WebhookController.errorJson data)],
                         db)
                 | _ => Throw "Request failed"
                 end)
                (λ _, (TokenController.server_error "Failed to create webhook",
                       db))).
  { intros r Hr. unfold WebhookController.createWebhook.
    rewrite Hvalid, Htoken. cbn -[WebhookController.generateSecret].
    unfold Prisma.include_twitchConfig.
    rewrite Hcfg. cbn -[WebhookController.generateSecret].
    rewrite Howner, String.eqb_refl. cbn -[WebhookController.generateSecret].
    rewrite Hdec. cbn -[WebhookController.generateSecret].
    by rewrite Hr. }
  split.
  - intros sub Hsub. rewrite (Hbody _ Hsub).
    change (WebhookController.webhook_of (w_now w) (user_userId req)
              (Some (body_callbackUrl req)) sub)
      with (Ok (imported_row (w_now w) (user_userId req) sub
                  (body_callbackUrl req))).
    cbn [mbind Result_bind]. split.
    + intros Hfree. by rewrite webhook_create_free.
    + intros Hheld.
      destruct (webhook_create_held db (imported_row (w_now w) (user_userId req)
                                          sub (body_callbackUrl req)) Hheld)
        as [m Hm].
      by rewrite Hm.
  - intros st data Hrej. by rewrite (Hbody _ Hrej).
Qed.

(** X19. [deleteWebhook] removes the local row whatever happens at the
    provider.  For a webhook row of the requester, in a store whose tokens
    reference existing credential sets, the answer is 200 and exactly
    that row is gone, in every world: whether or not the requester has a
    user token, its secret decrypts, or the provider accepts the delete
    request.  The validation result of the request is not consulted.
    Deleting the same id again answers 404. *)
Theorem deleteWebhook_local (w w' : World) (req : Request) (db : Db)
    (row : Webhook.t) :
  references_intact db →
  webhook db !! params_id req = Some row →
  Webhook.userId row = user_userId req →
  let db' := {| twitchConfig := twitchConfig db;
                savedToken := savedToken db;
                webhook := delete (params_id req) (webhook db) |} in
  WebhookController.deleteWebhook w req db
  = (json 200 [("message", JStr "Webhook deleted successfully")], db')
  ∧ WebhookController.deleteWebhook w' req db'
    = (TokenController.not_found "Webhook not found", db').
Proof.
  intros Hfk Hrow Howner. cbv zeta. split.
  - unfold WebhookController.deleteWebhook, Prisma.webhook_delete.
    rewrite Hrow. cbn. rewrite Howner, String.eqb_refl. cbn.
    unfold Prisma.savedToken_findFirst.
    destruct (filter _ _) as [|[i token] rest] eqn:E; cbn; [done|].
    assert (Hin : (i, token) ∈ map_to_list (savedToken db)).
    { eapply (list_elem_of_filter _ _ (i, token)). rewrite E. left. }
    apply elem_of_map_to_list in Hin.
    destruct (Hfk i token Hin) as [cfg Hcfg].
    unfold Prisma.include_twitchConfig. cbn in Hcfg. by rewrite Hcfg.
  - unfold WebhookController.deleteWebhook. cbn. by rewrite lookup_delete_eq.
Qed.

(** ** The secret of a subscription *)

Lemma length_append (s t : string) :
  String.length (s +:+ t) = String.length s + String.length t.
Proof.
  induction s as [|c s IH]; [done|].
  rewrite append_cons. cbn [String.length]. by rewrite IH.
Qed.

Lemma includes_append (c : ascii) (s t : string) :
  includes c (s +:+ t) = includes c s || includes c t.
Proof.
  induction s as [|x s IH]; [done|].
  rewrite append_cons. cbn [includes]. by rewrite IH, orb_assoc.
Qed.

Lemma charAt_in_range (s : string) (i : nat) :
  i < String.length s →
  ∃ c, WebhookController.charAt s i = String c EmptyString
       ∧ includes c s = true.
Proof.
  unfold WebhookController.charAt. revert i.
  induction s as [|x s IH]; intros i; cbn [String.length]; [lia|].
  destruct i as [|i]; cbn [String.get includes].
  - intros _. exists x. by rewrite Ascii.eqb_refl.
  - intros Hi. destruct (IH i) as (c & Hc & Hin); [lia|].
    exists c. by rewrite Hin, orb_true_r.
Qed.

Lemma generateSecret_fold (r : nat → nat) (indices : list nat) (s : string) :
  Forall (λ i, r i < 62) indices →
  let out := foldl (λ secret i,
                      secret +:+ WebhookController.charAt
                                   WebhookController.chars (r i)) s indices in
  String.length out = String.length s + length indices
  ∧ ∀ c, includes c out = true →
         includes c s = true ∨ includes c WebhookController.chars = true.
Proof.
  intros Hall. cbv zeta. revert s.
  induction Hall as [|i indices Hi Hall IH]; intros s; cbn [foldl length].
  - split; [lia|auto].
  - destruct (charAt_in_range WebhookController.chars (r i))
      as (c & Hc & Hin); [exact Hi|].
    destruct (IH (s +:+ WebhookController.charAt WebhookController.chars (r i)))
      as [Hlen Hchars].
    split.
    + rewrite Hlen, length_append, Hc. cbn. lia.
    + intros c' Hc'. destruct (Hchars c' Hc') as [H|H]; [|by right].
      rewrite includes_append, Hc in H. cbn [includes] in H.
      apply orb_true_iff in H as [H|H]; [by left|].
      rewrite orb_false_r in H. apply Ascii.eqb_eq in H as ->. by right.
Qed.

(** X20. The secret generated for a subscription is 32 characters long
    and made of letters and digits only, as long as each of the 32 random
    indices is below 62, the length of the alphabet. *)
Theorem generateSecret_shape (w : World) :
  (∀ i, i < 32 → w_mathRandom w i < 62) →
  String.length (WebhookController.generateSecret w) = 32
  ∧ ∀ c, includes c (WebhookController.generateSecret w) = true →
         includes c WebhookController.chars = true.
Proof.
  intros Hr. unfold WebhookController.generateSecret.
  destruct (generateSecret_fold (w_mathRandom w) (seq 0 32) "") as [Hlen Hc].
  { apply Forall_forall. intros i Hi%elem_of_seq. apply Hr. lia. }
  split; [by rewrite Hlen|].
  intros c H. by destruct (Hc c H).
Qed.

Lemma generateSecret_shape_witness :
  String.length (WebhookController.generateSecret Fixture.world) = 32
  ∧ ∀ c, includes c (WebhookController.generateSecret Fixture.world) = true →
         includes c WebhookController.chars = true.
Proof.
  apply (generateSecret_shape Fixture.world). cbn. intros i Hi. lia.
Defined.

(** ** The authorization-code flow *)

(** X21. The authorization-code flow, on a credential set of the
    requester.  [startAuthorizationFlow] answers with the provider's
    authorization address for the client id, the configured redirect
    address (a fixed local address when none is configured), the scopes
    joined by spaces and the caller's state unchanged.
    [handleAuthorizationCallback] exchanges the code with that same
    redirect address; when the provider grants a token and validates it,
    one "user" row is added whose secrets decrypt to the granted ones,
    with the subject of the validation; its expiry is the instant at which
    the server's wall clock reads [expires_in] seconds more than now, which
    is [expires_in] seconds from now unless the offset of the server's time
    zone changes in between; when that is no instant that a date can hold,
    or when the validation fails, the grant is dropped, nothing is stored
    and the answer is 500.  The callback reads the credential set id, the
    code and the name only: the state is not looked at. *)
Theorem authorization_code_flow (w : World) (req : Request) (db : Db)
    (cfg : TwitchConfig.t) (clientSecret : string) :
  codec_ready w →
  errors req = [] →
  twitchConfig db !! body_twitchConfigId req = Some cfg →
  TwitchConfig.userId cfg = user_userId req →
  Encryption.decrypt (w_crypto w) (w_env w) (TwitchConfig.clientSecret cfg)
  = Ok clientSecret →
  let redirectUri :=
    js_or_default (TWITCH_REDIRECT_URI (w_env w))
      "http://localhost:5173/oauth/callback" in
  let exchange :=
    post_token (w_twitch w)
      (authorization_code (TwitchConfig.clientId cfg) clientSecret
         (body_code req) redirectUri) in
  TokenController.startAuthorizationFlow w req db
  = (json 200
       [("authorizationUrl",
         JStr ("https://id.twitch.tv/oauth2/authorize?"
               +:+ w_urlSearchParams w
                     [("client_id", TwitchConfig.clientId cfg);
                      ("redirect_uri", redirectUri);
                      ("response_type", "code");
                      ("scope", join " " (body_scopes req));
                      ("state", body_state req)]));
        ("redirectUri", JStr redirectUri)],
     db)
  ∧ (∀ d v, exchange = Responded d →
       get_validate (w_twitch w) (access_token d) = Responded v →
       let offset := w_localTZA w (w_now w) true in
       let reading := (w_now w + offset + expires_in d * 1000)%Z in
       let offset' := w_localTZA w reading false in
       let expiry := (reading - offset')%Z in
       (offset' = offset → expiry = (w_now w + expires_in d * 1000)%Z)
       ∧ ((-8640000000000000 ≤ expiry ≤ 8640000000000000)%Z →
          ∃ row body,
            TokenController.handleAuthorizationCallback w req db
            = ({| status := 201; body := body |},
               {| twitchConfig := twitchConfig db;
                  savedToken :=
                    <[Prisma.new_id (savedToken db) := row]> (savedToken db);
                  webhook := webhook db |})
            ∧ SavedToken.userId row = user_userId req
            ∧ SavedToken.twitchConfigId row = body_twitchConfigId req
            ∧ SavedToken.tokenType row = "user"
            ∧ SavedToken.scopes row = TwitchApiService.parse_scope (scope d)
            ∧ SavedToken.channelLogin row = or_null (login v)
            ∧ SavedToken.channelId row = or_null (user_id v)
            ∧ SavedToken.expiresAt row = Some expiry
            ∧ Encryption.decrypt (w_crypto w) (w_env w)
                (SavedToken.accessToken row) = Ok (access_token d)
            ∧ (∃ c, SavedToken.refreshToken row = Some c
                    ∧ Encryption.decrypt (w_crypto w) (w_env w) c
                      = Ok (refresh_token d)))
       ∧ (¬ (-8640000000000000 ≤ expiry ≤ 8640000000000000)%Z →
          ∃ body,
            TokenController.handleAuthorizationCallback w req db
            = ({| status := 500; body := body |}, db)))
  ∧ (∀ d, exchange = Responded d →
       (∀ v, get_validate (w_twitch w) (access_token d) ≠ Responded v) →
       TokenController.handleAuthorizationCallback w req db
       = (TokenController.server_error "Invalid or expired token", db))
  ∧ (∀ req', errors req' = errors req →
       user_userId req' = user_userId req →
       body_twitchConfigId req' = body_twitchConfigId req →
       body_code req' = body_code req →
       body_name req' = body_name req →
       TokenController.handleAuthorizationCallback w req' db
       = TokenController.handleAuthorizationCallback w req db).
Proof.
  intros Hready Hvalid Hcfg Howner Hsecret. cbv zeta.
  split; [|split; [|split]].
  - unfold TokenController.startAuthorizationFlow. rewrite Hvalid, Hcfg. cbn.
    by rewrite Howner, String.eqb_refl.
  - intros d v Hd Hv.
    destruct (codec_ready_encrypt w (w_rng w) (access_token d) Hready)
      as (c1 & He1 & Hd1).
    set (g1 := {| pool := pool (w_rng w);
                  cursor := cursor (w_rng w) + Encryption.SALT_LENGTH
                            + Encryption.IV_LENGTH |}) in *.
    destruct (codec_ready_encrypt w g1 (refresh_token d) Hready)
      as (c2 & He2 & Hd2).
    split; [lia|]. split.
    + intros Hdate. eexists _, _. split.
      * unfold TokenController.handleAuthorizationCallback.
        rewrite Hvalid, Hcfg. cbn. rewrite Howner, String.eqb_refl. cbn.
        rewrite Hsecret. cbn.
        unfold TwitchApiService.exchangeCodeForToken,
          TokenController.redirect_uri_setting. rewrite Hd. cbn.
        unfold TwitchApiService.validateToken. rewrite Hv. cbn.
        rewrite He1. cbn. rewrite He2. cbn.
        rewrite (addSeconds_representable w (expires_in d) Hdate). cbn.
        unfold Prisma.select_twitchConfig. cbn. rewrite Hcfg. reflexivity.
      * cbn. repeat (split; [reflexivity|]). split; [exact Hd1|].
        exists c2. by split.
    + intros Hdate.
      unfold TokenController.handleAuthorizationCallback.
      rewrite Hvalid, Hcfg. cbn. rewrite Howner, String.eqb_refl. cbn.
      rewrite Hsecret. cbn.
      unfold TwitchApiService.exchangeCodeForToken,
        TokenController.redirect_uri_setting. rewrite Hd. cbn.
      unfold TwitchApiService.validateToken. rewrite Hv. cbn.
      rewrite He1. cbn. rewrite He2. cbn.
      rewrite (addSeconds_unrepresentable w (expires_in d) Hdate).
      by eexists.
  - intros d Hd Hv.
    unfold TokenController.handleAuthorizationCallback.
    rewrite Hvalid, Hcfg. cbn. rewrite Howner, String.eqb_refl. cbn.
    rewrite Hsecret. cbn.
    unfold TwitchApiService.exchangeCodeForToken,
      TokenController.redirect_uri_setting. rewrite Hd. cbn.
    unfold TwitchApiService.validateToken.
    destruct (get_validate (w_twitch w) (access_token d)) as [v| |] eqn:E;
      [by destruct (Hv v)|done..].
  - intros req' He Hu Hc Hcode Hname.
    unfold TokenController.handleAuthorizationCallback,
      TokenController.validation_failed.
    by rewrite He, Hu, Hc, Hcode, Hname.
Qed.

(** A callback at the instant 10000 whose grant lasts 3600 seconds: on a
    server in UTC the expiry is 3600 seconds later, and on a server whose
    zone leaves daylight-saving time in between it is 7200 seconds
    later. *)
Lemma authorization_code_flow_witness :
  let outcome := λ w state,
    TokenController.handleAuthorizationCallback w
      (Callback.callbackRequest state) Fixture.db in
  let stored := λ w,
    savedToken (outcome w "state-1").2
      !! Prisma.new_id (savedToken Fixture.db) in
  codec_ready Callback.codeWorld
  ∧ codec_ready (Autumn.autumnWorld Callback.codeTwitch)
  ∧ status (outcome Callback.codeWorld "state-1").1 = 201%Z
  ∧ SavedToken.expiresAt <$> stored Callback.codeWorld = Some (Some 3610000%Z)
  ∧ status (outcome (Autumn.autumnWorld Callback.codeTwitch) "state-1").1
    = 201%Z
  ∧ SavedToken.expiresAt <$> stored (Autumn.autumnWorld Callback.codeTwitch)
    = Some (Some 7210000%Z)
  ∧ outcome Callback.codeWorld "another state"
    = outcome Callback.codeWorld "state-1".
Proof.
  cbv beta zeta.
  split; [exact (fixture_codec_ready _)|].
  split; [exact (autumn_codec_ready _)|].
  pose (v := {| client_id := "client-a"; login := Some "alice_tv";
                validate_scopes := Some ["chat:read"];
                user_id := Some "42"; validate_expires_in := 3600 |}).
  destruct (authorization_code_flow Callback.codeWorld
              (Callback.callbackRequest "state-1")
              Fixture.db Fixture.configA "shh" (fixture_codec_ready _)
              eq_refl eq_refl eq_refl) as (_ & Hgrant & _ & Hstate);
    [by vm_compute|].
  cbv zeta in Hgrant.
  destruct (Hgrant Fixture.granted v eq_refl eq_refl) as (_ & Hok & _).
  destruct Hok as (row & body & Hrun & _ & _ & _ & _ & _ & _ & Hexp & _);
    [by vm_compute|].
  rewrite Hrun. cbn [fst snd status savedToken].
  rewrite lookup_insert_eq. cbn [fmap option_fmap option_map].
  split; [reflexivity|]. split; [rewrite Hexp; by vm_compute|].
  destruct (authorization_code_flow (Autumn.autumnWorld Callback.codeTwitch)
              (Callback.callbackRequest "state-1")
              Fixture.db Fixture.configA "shh" (autumn_codec_ready _)
              eq_refl eq_refl eq_refl) as (_ & Hgrant' & _);
    [by vm_compute|].
  cbv zeta in Hgrant'.
  destruct (Hgrant' Fixture.granted v eq_refl eq_refl) as (_ & Hok' & _).
  destruct Hok' as (row' & body' & Hrun' & _ & _ & _ & _ & _ & _ & Hexp' & _);
    [by vm_compute|].
  rewrite Hrun'. cbn [fst snd status savedToken].
  rewrite lookup_insert_eq. cbn [fmap option_fmap option_map].
  split; [reflexivity|]. split; [rewrite Hexp'; by vm_compute|].
  by rewrite (Hstate (Callback.callbackRequest "another state")).
Defined.

(** ** A pass that cannot store a subscription *)

Lemma importLoop_app (now : Z) (userId : string) (L : gset string)
    (l1 l2 : list Subscription) (db : Db) (t : WebhookController.Totals) :
  WebhookController.importLoop now userId L (l1 ++ l2) db t
  = match WebhookController.importLoop now userId L l1 db t with
    | (db1, t1, true) => WebhookController.importLoop now userId L l2 db1 t1
    | (db1, t1, false) => (db1, t1, false)
    end.
Proof.
  revert db t. induction l1 as [|sub l1 IH]; intros db t; [done|].
  cbn [app WebhookController.importLoop]. case_bool_decide; [|apply IH].
  destruct (_ ≫= _) as [[id db']|]; [apply IH|done].
Qed.

Lemma importLoop_keeps_keys (now : Z) (userId : string) (L : gset string)
    (remote : list Subscription) (db : Db) (t : WebhookController.Totals)
    (id : string) :
  is_Some (webhook db !! id) →
  is_Some (webhook (WebhookController.importLoop now userId L remote db t).1.1
           !! id).
Proof.
  revert db t. induction remote as [|sub rest IH]; intros db t Hid; [done|].
  cbn [WebhookController.importLoop]. case_bool_decide.
  - destruct (WebhookController.webhook_of _ _ _ _) as [row|]; cbn; [|done].
    destruct (Prisma.webhook_create db row) as [[i db']|] eqn:Hc; [|done].
    apply webhook_create_inv in Hc as (_ & _ & ->). apply IH. cbn.
    destruct (decide (id = Prisma.new_id (webhook db))) as [->|Hne].
    + by rewrite lookup_insert_eq.
    + by rewrite lookup_insert_ne.
  - apply IH. cbn. rewrite lookup_fmap. destruct Hid as [row ->]. by eexists.
Qed.

(** X22. One subscription that cannot be stored ends the pass for its
    credential set.  When the list fetched from the provider contains a
    subscription that is not held locally and has no webhook callback (a
    subscription delivered over another transport), reconciliation stops
    at it: what was imported and updated before it stays and is counted,
    the subscriptions after it are not looked at, and no local row is
    removed, so every row present before is still present. *)
Theorem reconcile_stops_at_unstorable (now : Z) (userId name : string)
    (before after : list Subscription) (bad : Subscription) (db : Db)
    (t : WebhookController.Totals) :
  sub_id bad ∉ localIds db userId →
  sub_callback bad = None →
  let remote := before ++ bad :: after in
  let reached :=
    WebhookController.importLoop now userId (localIds db userId) before db
      (WebhookController.fetched (length remote) name t) in
  WebhookController.reconcile now userId name remote db t
  = (reached.1.1, reached.1.2)
  ∧ WebhookController.totalRemoved reached.1.2
    = WebhookController.totalRemoved t
  ∧ ∀ id, is_Some (webhook db !! id) → is_Some (webhook reached.1.1 !! id).
Proof.
  intros Hnew Hcb. cbv zeta. split; [|split].
  - unfold WebhookController.reconcile. fold (localIds db userId).
    rewrite importLoop_app.
    destruct (WebhookController.importLoop now userId (localIds db userId)
                before db _) as [[db1 t1] [|]]; [|done].
    cbn [WebhookController.importLoop].
    rewrite bool_decide_eq_true_2 by done. by rewrite Hcb.
  - assert (Hgen : ∀ l d t0,
              WebhookController.totalRemoved
                (WebhookController.importLoop now userId (localIds db userId)
                   l d t0).1.2
              = WebhookController.totalRemoved t0).
    { induction l as [|sub l IH]; intros d t0; [done|].
      cbn [WebhookController.importLoop]. case_bool_decide.
      - destruct (_ ≫= _) as [[i d']|]; [|done]. by rewrite IH.
      - by rewrite IH. }
    by rewrite Hgen.
  - intros id Hid. by apply importLoop_keeps_keys.
Qed.

(** ** Starting the device flow *)

Lemma message_or_relayed (o : option string) (d fallback : string) :
  d ≠ "" → message_or (js_or_default o d) fallback = js_or_default o d.
Proof.
  intros Hd. unfold message_or, js_or_default.
  destruct o as [s|].
  - destruct (String.eqb s "") eqn:E.
    + apply String.eqb_neq in Hd. by rewrite Hd.
    + by rewrite E.
  - apply String.eqb_neq in Hd. by rewrite Hd.
Qed.

(** X23. What [startUserToken] answers on a credential set of the
    requester.  When the provider opens a device flow, the answer is 200
    with its codes, address and lifetime, and a polling interval of 5
    seconds if the provider gives none or gives 0.  When it does not, the
    answer is 500 with the provider's message if it sent one, and "Failed
    to start device flow" otherwise; the handler's own fallback text is
    never used.  The store is not changed. *)
Theorem startUserToken_outcome (w : World) (req : Request) (db : Db)
    (cfg : TwitchConfig.t) :
  errors req = [] →
  twitchConfig db !! body_twitchConfigId req = Some cfg →
  TwitchConfig.userId cfg = user_userId req →
  TokenController.startUserToken w req db
  = (match post_device (w_twitch w) (TwitchConfig.clientId cfg)
             (join " " (body_scopes req)) with
     | Responded d =>
         json 200
           [("deviceCode", JStr (device_code d));
            ("userCode", JStr (user_code d));
            ("verificationUri", JStr (verification_uri d));
            ("expiresIn", JNum (device_expires_in d));
            ("interval",
             JNum (match interval d with
                   | Some i => if (i =? 0)%Z then 5%Z else i
                   | None => 5%Z
                   end))]
     | Rejected _ (Some data) =>
         TokenController.server_error
           (js_or_default (message data) "Failed to start device flow")
     | _ => TokenController.server_error "Failed to start device flow"
     end, db).
Proof.
  intros Hvalid Hcfg Howner.
  unfold TokenController.startUserToken. rewrite Hvalid, Hcfg. cbn.
  rewrite Howner, String.eqb_refl. cbn.
  unfold TwitchApiService.startDeviceFlow.
  destruct (post_device _ _ _) as [d|st [data|]|reason]; cbn; try done.
  by rewrite message_or_relayed.
Qed.

Lemma startUserToken_outcome_witness :
  TokenController.startUserToken Fixture.world
    (Fixture.request "alice" "" "cfg-a" "") Fixture.db
  = (json 200
       [("deviceCode", JStr "dc1"); ("userCode", JStr "ABCD-1234");
        ("verificationUri", JStr "https://www.twitch.tv/activate");
        ("expiresIn", JNum 1800); ("interval", JNum 5)],
     Fixture.db).
Proof.
  apply (startUserToken_outcome Fixture.world
           (Fixture.request "alice" "" "cfg-a" "") Fixture.db Fixture.configA);
    reflexivity.
Defined.

(** ** Regular expressions: the matcher and what it matches *)

Lemma append_empty_r (s : string) : s +:+ "" = s.
Proof. induction s as [|c s IH]; [done|]. by rewrite append_cons, IH. Qed.

Lemma append_assoc (a b c : string) : (a +:+ b) +:+ c = a +:+ (b +:+ c).
Proof. induction a as [|x a IH]; [done|]. by rewrite !append_cons, IH. Qed.

Lemma append_eq_empty (a b : string) : a +:+ b = "" → a = "" ∧ b = "".
Proof. destruct a; [done|]. by rewrite append_cons. Qed.

Lemma nullable_spec (r : Regex) : nullable r = true ↔ Matches r "".
Proof.
  induction r as [| |p|r IHr s IHs|r IHr s IHs|r IHr]; cbn.
  - split; [done|]. inversion 1.
  - split; [constructor|done].
  - split; [done|]. inversion 1.
  - rewrite andb_true_iff, IHr, IHs. split.
    + intros [Hr Hs]. by apply (MCat r s "" "").
    + inversion 1 as [| |? ? a b Ha Hb| | | |]; subst.
      match goal with
      | E : _ +:+ _ = "" |- _ => apply append_eq_empty in E as [-> ->]
      end. done.
  - rewrite orb_true_iff, IHr, IHs. split.
    + intros [H|H]; [by apply MAltL|by apply MAltR].
    + inversion 1; subst; auto.
  - split; [constructor|done].
Qed.

Lemma star_cons (r : Regex) (c : ascii) (s : string) :
  Matches (Star r) (String c s) →
  ∃ a b, s = a +:+ b ∧ Matches r (String c a) ∧ Matches (Star r) b.
Proof.
  intros H. remember (Star r) as r' eqn:Er. remember (String c s) as s' eqn:Es.
  revert s Es. induction H as [| | | | | |r0 a b Ha _ Hb IH]; intros t Et;
    try discriminate.
  injection Er as ->. destruct a as [|x a].
  - rewrite append_nil in Et. by apply IH.
  - rewrite append_cons in Et. injection Et as -> <-. by exists a, b.
Qed.

Lemma deriv_spec (c : ascii) (r : Regex) (s : string) :
  Matches (deriv c r) s ↔ Matches r (String c s).
Proof.
  revert s. induction r as [| |p|r IHr r' IHr'|r IHr r' IHr'|r IHr];
    intros s; cbn [deriv].
  - split; inversion 1.
  - split; inversion 1.
  - destruct (p c) eqn:E; split.
    + inversion 1. by constructor.
    + inversion 1; subst. constructor.
    + inversion 1.
    + inversion 1; congruence.
  - assert (Hcat : Matches (Cat (deriv c r) r') s
                   → Matches (Cat r r') (String c s)).
    { inversion 1 as [| |? ? a b Ha Hb| | | |]; subst.
      apply IHr in Ha. by apply (MCat r r' (String c a) b). }
    assert (Hinv : Matches (Cat r r') (String c s)
                   → Matches (Cat (deriv c r) r') s
                     ∨ (Matches r "" ∧ Matches r' (String c s))).
    { inversion 1 as [| |? ? a b Ha Hb| | | |]; subst.
      destruct a as [|x a].
      - match goal with
        | E : "" +:+ _ = _ |- _ => rewrite append_nil in E; subst
        end. by right.
      - match goal with
        | E : String _ _ +:+ _ = _ |- _ =>
            rewrite append_cons in E; injection E as -> <-
        end. left. apply MCat; [by apply IHr|done]. }
    destruct (nullable r) eqn:En; split.
    + inversion 1; subst; [by apply Hcat|].
      apply (MCat r r' "" (String c s)); [by apply nullable_spec|by apply IHr'].
    + intros [H|[_ H]]%Hinv; [by apply MAltL|by apply MAltR, IHr'].
    + apply Hcat.
    + intros [H|[H _]]%Hinv; [done|].
      apply nullable_spec in H. congruence.
  - split.
    + inversion 1; subst; [by apply MAltL, IHr|by apply MAltR, IHr'].
    + inversion 1; subst; [by apply MAltL, IHr|by apply MAltR, IHr'].
  - split.
    + inversion 1 as [| |? ? a b Ha Hb| | | |]; subst.
      apply IHr in Ha. by apply (MStarApp r (String c a) b).
    + intros (a & b & -> & Ha & Hb)%star_cons. apply MCat; [by apply IHr|done].
Qed.

Lemma test_spec (r : Regex) (s : string) : test r s = true ↔ Matches r s.
Proof.
  revert r. induction s as [|c s IH]; intros r; cbn [test].
  - apply nullable_spec.
  - by rewrite IH, deriv_spec.
Qed.

Lemma all_in_append (p : ascii → bool) (a b : string) :
  all_in p (a +:+ b) = all_in p a && all_in p b.
Proof.
  induction a as [|x a IH]; [done|]. rewrite append_cons. cbn [all_in].
  by rewrite IH, andb_assoc.
Qed.

Lemma star_class_spec (p : ascii → bool) (s : string) :
  Matches (Star (Class p)) s ↔ all_in p s = true.
Proof.
  split.
  - intros H. remember (Star (Class p)) as r eqn:Er.
    induction H as [| | | | | |r0 a b Ha _ Hb IH]; try discriminate; [done|].
    injection Er as ->. inversion Ha as [|? c Hc| | | | |]; subst.
    rewrite append_cons, append_nil. cbn [all_in]. rewrite Hc. by apply IH.
  - induction s as [|c s IH]; cbn [all_in]; [constructor|].
    intros [Hc Hs]%andb_true_iff.
    apply (MStarApp (Class p) (String c "") s); [by constructor|by apply IH].
Qed.

Lemma plus_class_spec (p : ascii → bool) (s : string) :
  Matches (Plus (Class p)) s ↔ s ≠ "" ∧ all_in p s = true.
Proof.
  unfold Plus. split.
  - inversion 1 as [| |? ? a b Ha Hb| | | |]; subst.
    inversion Ha as [|? c Hc| | | | |]; subst.
    apply star_class_spec in Hb. rewrite append_cons, append_nil.
    cbn [all_in]. by rewrite Hc, Hb.
  - intros [Hne Hs]. destruct s as [|c s]; [done|]. cbn in Hs.
    apply andb_true_iff in Hs as [Hc Hs].
    apply (MCat (Class p) (Star (Class p)) (String c "") s);
      [by constructor|by apply star_class_spec].
Qed.

Lemma cat_class_spec (p : ascii → bool) (r : Regex) (s : string) :
  Matches (Cat (Class p) r) s
  ↔ ∃ c rest, s = String c rest ∧ p c = true ∧ Matches r rest.
Proof.
  split.
  - inversion 1 as [| |? ? a b Ha Hb| | | |]; subst.
    inversion Ha as [|? c Hc| | | | |]; subst.
    by exists c, b.
  - intros (c & rest & -> & Hc & Hr).
    apply (MCat (Class p) r (String c "") rest); [by constructor|done].
Qed.

(** X24. The e-mail addresses that registration accepts are exactly the
    texts made of a local part, an at sign, a domain, a dot and a last
    part, where the three parts are not empty and contain neither white
    space nor an at sign (so the whole contains exactly one at sign). *)
Theorem isValidEmail_shape (email : string) :
  Validators.isValidEmail email = true
  ↔ ∃ loc domain last,
      email = loc +:+ "@" +:+ domain +:+ "." +:+ last
      ∧ loc ≠ "" ∧ domain ≠ "" ∧ last ≠ ""
      ∧ all_in Validators.plain loc = true
      ∧ all_in Validators.plain domain = true
      ∧ all_in Validators.plain last = true.
Proof.
  unfold Validators.isValidEmail, Validators.emailRegex.
  rewrite test_spec. split.
  - inversion 1 as [| |? ? loc rest1 Hloc Hrest1| | | |]; subst.
    apply plus_class_spec in Hloc as [Hl1 Hl2].
    apply cat_class_spec in Hrest1 as (c1 & rest2 & -> & Hc1 & Hrest2).
    apply Ascii.eqb_eq in Hc1 as ->.
    inversion Hrest2 as [| |? ? domain rest3 Hdom Hrest3| | | |]; subst.
    apply plus_class_spec in Hdom as [Hd1 Hd2].
    apply cat_class_spec in Hrest3 as (c2 & last & -> & Hc2 & Hlast).
    apply Ascii.eqb_eq in Hc2 as ->.
    apply plus_class_spec in Hlast as [Hp1 Hp2].
    by exists loc, domain, last.
  - intros (loc & domain & last & -> & Hl & Hd & Hp & Hl' & Hd' & Hp').
    apply MCat; [by apply plus_class_spec|].
    apply cat_class_spec. eexists _, _. split; [reflexivity|].
    split; [reflexivity|].
    apply MCat; [by apply plus_class_spec|].
    apply cat_class_spec. eexists _, _. split; [reflexivity|].
    split; [reflexivity|]. by apply plus_class_spec.
Qed.

(** ** Accounts and sessions *)

Lemma find_unique {A} (P : A → bool) (l : list A) (x : A) :
  x ∈ l → P x = true → (∀ y, y ∈ l → P y = true → y = x) →
  find P l = Some x.
Proof.
  induction l as [|y l IH]; intros Hin Hx Huniq; [by apply elem_of_nil in Hin|].
  cbn. destruct (P y) eqn:Hy.
  - f_equal. apply Huniq; [by left|done].
  - apply IH; [|done|intros z Hz; apply Huniq; by right].
    apply elem_of_cons in Hin as [->|Hin]; [congruence|done].
Qed.

Lemma user_findByEmail_none (users : Users) (email : string) :
  AuthController.user_findByEmail users email = None
  ↔ ∀ id user, users !! id = Some user → User.email user ≠ email.
Proof.
  unfold AuthController.user_findByEmail. split.
  - intros Hnone id user Huser Heq.
    assert (Hin : In (id, user) (map_to_list users))
      by (by apply list_elem_of_In, elem_of_map_to_list).
    pose proof (List.find_none _ _ Hnone (id, user) Hin) as Hf. cbn in Hf.
    by rewrite Heq, String.eqb_refl in Hf.
  - intros Hfree. destruct (find _ _) as [[id user]|] eqn:E; [|done].
    apply List.find_some in E as [Hin%list_elem_of_In%elem_of_map_to_list Hb].
    cbn in Hb. apply String.eqb_eq in Hb. by destruct (Hfree id user).
Qed.

Lemma user_findByEmail_created (users : Users) (id : string) (user : User.t) :
  users !! id = None →
  AuthController.user_findByEmail users (User.email user) = None →
  AuthController.user_findByEmail (<[id := user]> users) (User.email user)
  = Some (id, user).
Proof.
  intros Hfresh Hfree. unfold AuthController.user_findByEmail.
  apply find_unique.
  - apply elem_of_map_to_list. by rewrite lookup_insert_eq.
  - cbn. apply String.eqb_refl.
  - intros [i u] Hin%elem_of_map_to_list Hu. cbn in Hu.
    apply String.eqb_eq in Hu.
    destruct (decide (i = id)) as [->|Hne].
    + rewrite lookup_insert_eq in Hin. by injection Hin as ->.
    + rewrite lookup_insert_ne in Hin by done.
      by destruct (proj1 (user_findByEmail_none users (User.email user))
                     Hfree i u Hin).
Qed.

Lemma truthy_some (o : option string) :
  truthy o = true → ∃ s, o = Some s ∧ s ≠ "".
Proof.
  destruct o as [s|]; [|done]. cbn. intros H. exists s. split; [done|].
  intros ->. done.
Qed.

Lemma validateRegister_spec (email password : option string) :
  Validators.validateRegister email password = None
  ↔ ∃ e p, email = Some e ∧ password = Some p
           ∧ Validators.isValidEmail e = true
           ∧ (6 ≤ String.length p)%nat.
Proof.
  unfold Validators.validateRegister, Validators.isValidPassword, truthy.
  split.
  - destruct email as [e|], password as [p|]; cbn [default from_option id].
    + destruct (String.eqb e ""), (Validators.isValidEmail e) eqn:Hv,
        (String.eqb p ""), (Nat.leb 6 (String.length p)) eqn:Hl; try done.
      intros _. exists e, p. by apply Nat.leb_le in Hl.
    + by destruct (String.eqb e ""), (Validators.isValidEmail e).
    + by destruct (String.eqb p ""), (Nat.leb 6 (String.length p)).
    + done.
  - intros (e & p & -> & -> & Hv & Hl). cbn [default from_option id].
    assert (String.eqb e "" = false) as ->
      by (destruct e; [by vm_compute in Hv|done]).
    assert (String.eqb p "" = false) as ->
      by (destruct p; [cbn in Hl; lia|done]).
    apply Nat.leb_le in Hl. by rewrite Hv, Hl.
Qed.

(** X25. Accounts come into being through [POST /register] only with a
    well-formed e-mail address that no account has yet and a password of
    at least six characters, of which the hash computed by [bcrypt] is
    what is stored: whenever the route changes the table of users, it has
    added exactly one such row under a new id. *)
Theorem postRegister_creates_valid_accounts (w : AuthWorld) (req : AuthRequest)
    (users : Users) :
  (AuthController.postRegister w req users).2 ≠ users →
  ∃ email password,
    auth_email req = Some email ∧ auth_password req = Some password
    ∧ Validators.isValidEmail email = true
    ∧ (6 ≤ String.length password)%nat
    ∧ (∀ id user, users !! id = Some user → User.email user ≠ email)
    ∧ users !! Prisma.new_id users = None
    ∧ (AuthController.postRegister w req users).2
      = <[Prisma.new_id users :=
            {| User.email := email;
               User.password :=
                 bcrypt_hash (a_platform w) password 12
                   (randomBytes 16 (a_rng w)).1;
               User.name := or_null (auth_name req);
               User.createdAt := a_now w;
               User.updatedAt := a_now w |}]> users.
Proof.
  unfold AuthController.postRegister.
  destruct (Validators.validateRegister _ _) as [answer|] eqn:Hpass; [done|].
  apply validateRegister_spec in Hpass as (email & password & He & Hp & Hv & Hl).
  unfold AuthController.register. rewrite He, Hp.
  assert (String.eqb email "" = false) as Hne
    by (destruct email; [by vm_compute in Hv|done]).
  assert (String.eqb password "" = false) as Hnp
    by (destruct password; [cbn in Hl; lia|done]).
  cbn [truthy default negb orb]. rewrite Hne, Hnp. cbn [negb orb].
  case_bool_decide as Hfound; cbn [try_catch]; [done|].
  unfold AuthController.user_create. cbn [User.email].
  rewrite bool_decide_eq_false_2 by done. cbn [mbind Result_bind].
  intros Hchanged. exists email, password.
  split; [done|]. split; [done|]. split; [done|]. split; [done|].
  split.
  { apply user_findByEmail_none. cbn in Hfound.
    destruct (AuthController.user_findByEmail users email);
      [by destruct Hfound|done]. }
  split; [apply new_id_fresh|].
  unfold try_catch. by destruct (Jwt.generateTokens _ _).
Qed.

(** X26. Register, then log in.  When the address is not taken and the
    tokens can be signed, [register] answers 201 and stores the account
    with the hash of the password; the answer shows id, address, name and
    creation date of the account, not the hash.  Afterwards [login] with
    the same address answers 200 for the same account when the password
    submitted matches the stored hash, and answers 401 "Invalid email or
    password" when it does not, which is also, word for word, the answer
    for an address that no account has. *)
Theorem register_then_login (w : AuthWorld) (req : AuthRequest)
    (users : Users) (email password : string) (tokens : string * string) :
  auth_email req = Some email → email ≠ "" →
  auth_password req = Some password → password ≠ "" →
  (∀ id user, users !! id = Some user → User.email user ≠ email) →
  let id := Prisma.new_id users in
  let user :=
    {| User.email := email;
       User.password := bcrypt_hash (a_platform w) password 12
                          (randomBytes 16 (a_rng w)).1;
       User.name := or_null (auth_name req);
       User.createdAt := a_now w;
       User.updatedAt := a_now w |} in
  let payload := {| jwt_userId := id; jwt_email := email |} in
  Jwt.generateTokens w payload = Ok tokens →
  AuthController.register w req users
  = (json 201 (AuthController.sessionJson id user tokens), <[id := user]> users)
  ∧ keys (default JNull
            (field "user" (JObj (AuthController.sessionJson id user tokens))))
    = ["id"; "email"; "name"; "createdAt"]
  ∧ (∀ w' req' p tokens',
       auth_email req' = Some email →
       auth_password req' = Some p → p ≠ "" →
       Jwt.generateTokens w' payload = Ok tokens' →
       AuthController.login w' req' (<[id := user]> users)
       = if bcrypt_compare (a_platform w') p (User.password user)
         then (json 200 (AuthController.sessionJson id user tokens'),
               <[id := user]> users)
         else (AuthMiddleware.unauthorized "Invalid email or password",
               <[id := user]> users))
  ∧ (∀ w' other p,
       auth_email other = Some p → p ≠ "" →
       truthy (auth_password other) = true →
       (∀ i u, (<[id := user]> users) !! i = Some u → User.email u ≠ p) →
       AuthController.login w' other (<[id := user]> users)
       = (AuthMiddleware.unauthorized "Invalid email or password",
          <[id := user]> users)).
Proof.
  intros He Hne Hp Hnp Hfree%user_findByEmail_none. cbv zeta.
  intros Hsign.
  apply String.eqb_neq in Hne, Hnp.
  split; [|split; [done|split]].
  - unfold AuthController.register, AuthController.user_create.
    rewrite He, Hp. cbn [truthy default from_option id negb orb].
    rewrite Hne, Hnp. cbn [negb orb User.email]. rewrite Hfree.
    rewrite bool_decide_eq_false_2 by (by intros [? ?]).
    cbn [mbind Result_bind try_catch]. by rewrite Hsign.
  - intros w' req' p tokens' He' Hp' Hnp' Hsign'.
    apply String.eqb_neq in Hnp'.
    unfold AuthController.login.
    rewrite He', Hp'. cbn [truthy default from_option id negb orb].
    rewrite Hne, Hnp'. cbn [negb orb].
    rewrite (user_findByEmail_created users _
               {| User.email := email |}) by (apply new_id_fresh || done).
    destruct (bcrypt_compare _ _ _); cbn [negb try_catch]; [|done].
    cbn [User.email]. by rewrite Hsign'.
  - intros w' other p Ho Hnp' Hpw Hnone%user_findByEmail_none.
    apply String.eqb_neq in Hnp'.
    unfold AuthController.login. rewrite Ho, Hpw.
    cbn [truthy default from_option id negb orb]. rewrite Hnp'.
    cbn [negb orb]. by rewrite Hnone.
Qed.

Lemma substring_all (s : string) : String.substring 0 (String.length s) s = s.
Proof. induction s as [|c s IH]; [done|]. cbn. by rewrite IH. Qed.

(** X27. A session is checked by signature and lifetime only.  A header
    that is missing, empty or does not start with "Bearer " is answered
    with 401 without the token being verified.  Any text after "Bearer "
    that the library verifies under the configured secret lets the request
    through as the user of its payload, and is also accepted by [refresh]
    in exchange for a new pair of tokens: the handlers make no difference
    between an access token and a refresh token.  With no secret
    configured the fixed text "your-secret-key" is used. *)
Theorem session_checked_by_signature (w : AuthWorld) (users : Users) :
  (∀ header,
     header = None
     ∨ (∃ h, header = Some h ∧ String.prefix "Bearer " h = false) →
     AuthMiddleware.authMiddleware w header
     = inl (AuthMiddleware.unauthorized "No token provided"))
  ∧ (∀ token payload,
       jwt_verify (a_platform w) token (Jwt.JWT_SECRET w) (a_now w)
       = Ok payload →
       AuthMiddleware.authMiddleware w (Some ("Bearer " +:+ token))
       = inr payload
       ∧ (token ≠ "" →
          ∀ req tokens,
            auth_refreshToken req = Some token →
            Jwt.generateTokens w payload = Ok tokens →
            AuthController.refresh w req users
            = (json 200 [("accessToken", JStr tokens.1);
                         ("refreshToken", JStr tokens.2)],
               users)))
  ∧ (∀ token m,
       jwt_verify (a_platform w) token (Jwt.JWT_SECRET w) (a_now w)
       = Throw m →
       AuthMiddleware.authMiddleware w (Some ("Bearer " +:+ token))
       = inl (AuthMiddleware.unauthorized "Invalid or expired token"))
  ∧ (env_JWT_SECRET (a_env w) = None → Jwt.JWT_SECRET w = "your-secret-key").
Proof.
  split; [|split; [|split]].
  - intros header [->|(h & -> & Hh)]; [done|].
    unfold AuthMiddleware.authMiddleware. rewrite Hh.
    by rewrite orb_true_r.
  - intros token payload Hverify.
    assert (Hsub : String.substring 7 (String.length ("Bearer " +:+ token) - 7)
                     ("Bearer " +:+ token) = token)
      by (rewrite !append_cons, append_nil;
          cbn [String.length String.substring Nat.sub]; rewrite Nat.sub_0_r;
          apply substring_all).
    split.
    + unfold AuthMiddleware.authMiddleware.
      change (truthy (Some ("Bearer " +:+ token))) with true.
      change (String.prefix "Bearer " ("Bearer " +:+ token))
        with (String.prefix "" token).
      assert (String.prefix "" token = true) as -> by (by destruct token).
      cbn [negb orb]. rewrite Hsub. unfold Jwt.verifyToken. by rewrite Hverify.
    + intros Hne req tokens Hreq Hsign. apply String.eqb_neq in Hne.
      unfold AuthController.refresh. rewrite Hreq.
      cbn [truthy default from_option id negb]. rewrite Hne. cbn [negb].
      unfold Jwt.verifyToken. rewrite Hverify. cbn [mbind Result_bind].
      destruct payload as [u e]. cbn [jwt_userId jwt_email].
      by rewrite Hsign.
  - intros token m Hverify.
    assert (Hsub : String.substring 7 (String.length ("Bearer " +:+ token) - 7)
                     ("Bearer " +:+ token) = token)
      by (rewrite !append_cons, append_nil;
          cbn [String.length String.substring Nat.sub]; rewrite Nat.sub_0_r;
          apply substring_all).
    unfold AuthMiddleware.authMiddleware.
    change (truthy (Some ("Bearer " +:+ token))) with true.
    change (String.prefix "Bearer " ("Bearer " +:+ token))
      with (String.prefix "" token).
    assert (String.prefix "" token = true) as -> by (by destruct token).
    cbn [negb orb]. rewrite Hsub. unfold Jwt.verifyToken. by rewrite Hverify.
  - intros Hs. unfold Jwt.JWT_SECRET. by rewrite Hs.
Qed.

(** ** The statements on concrete data *)

(** An app token granted at the instant 10000 for 5000 seconds, and one
    granted for a lifetime that leads beyond the last instant of a date. *)
Lemma generateAppToken_then_getToken_witness :
  let id := Prisma.new_id (savedToken Fixture.db) in
  let outcome :=
    TokenController.generateAppToken Scenario.grantingWorld
      (Fixture.request "alice" "" "cfg-a" "") Fixture.db in
  codec_ready Scenario.grantingWorld
  ∧ twitchConfig Fixture.db !! "cfg-a" = Some Fixture.configA
  ∧ status outcome.1 = 201%Z
  ∧ SavedToken.expiresAt <$> savedToken outcome.2 !! id
    = Some (Some 5010000%Z)
  ∧ (∃ body,
       TokenController.getToken Fixture.world
         (Fixture.request "alice" id "" "") outcome.2
       = ({| status := 200; body := body |}, outcome.2)
       ∧ (token ← field "token" body; field "accessToken" token)
         = Some (JStr "tok_app"))
  ∧ ∃ body,
      TokenController.generateAppToken DevicePolls.deviceWorld
        (Fixture.request "alice" "" "cfg-a" "") Fixture.db
      = ({| status := 500; body := body |}, Fixture.db).
Proof.
  cbv beta zeta.
  split; [exact (fixture_codec_ready _)|]. split; [reflexivity|].
  destruct (generateAppToken_then_getToken Scenario.grantingWorld Fixture.world
              (Fixture.request "alice" "" "cfg-a" "")
              (Fixture.request "alice" (Prisma.new_id (savedToken Fixture.db))
                 "" "")
              Fixture.db Fixture.configA "shh" Scenario.appGrant
              (fixture_codec_ready _) eq_refl eq_refl eq_refl eq_refl eq_refl)
    as (Hok & _); [by vm_compute|reflexivity..|].
  destruct Hok
    as (row & config & Hgen & _ & _ & _ & _ & _ & _ & _ & _ & Hexp & Hget);
    [by vm_compute|].
  cbv zeta in Hgen, Hget. rewrite Hgen. cbn [fst snd status json savedToken].
  split; [reflexivity|].
  split; [by rewrite lookup_insert_eq; cbn; rewrite Hexp; vm_compute|].
  split.
  { eexists. split; [exact Hget|]. reflexivity. }
  destruct (generateAppToken_then_getToken DevicePolls.deviceWorld Fixture.world
              (Fixture.request "alice" "" "cfg-a" "")
              (Fixture.request "alice" (Prisma.new_id (savedToken Fixture.db))
                 "" "")
              Fixture.db Fixture.configA "shh" DevicePolls.endless
              (fixture_codec_ready _) eq_refl eq_refl eq_refl eq_refl eq_refl)
    as (_ & Hinvalid); [by vm_compute|reflexivity..|].
  apply Hinvalid. intros [_ H]. vm_compute in H. by apply H.
Defined.

Lemma deleteToken_then_gone_witness :
  savedToken Fixture.db !! "tok-a" = Some (Fixture.appToken "cfg-a" "tok_a" 2000)
  ∧ TokenController.deleteToken Fixture.world
      (Fixture.request "alice" "tok-a" "" "") Fixture.db
    = (json 200 [("message", JStr "Token deleted successfully")],
       {| twitchConfig := twitchConfig Fixture.db;
          savedToken := delete "tok-a" (savedToken Fixture.db);
          webhook := webhook Fixture.db |}).
Proof.
  split; [reflexivity|].
  apply (deleteToken_then_gone Fixture.world Fixture.world
           (Fixture.request "alice" "tok-a" "" "") Fixture.db
           (Fixture.appToken "cfg-a" "tok_a" 2000));
    reflexivity.
Defined.

Lemma validateSavedToken_reports_witness :
  TokenController.validateSavedToken Scenario.grantingWorld
    (Fixture.request "alice" "tok-u" "" "") Fixture.db
  = (json 200 [("valid", JBool false);
               ("message", JStr "Token is invalid or expired")],
     Fixture.db).
Proof.
  apply (validateSavedToken_reports Scenario.grantingWorld
           (Fixture.request "alice" "tok-u" "" "") Fixture.db
           Fixture.userToken "tok_u");
    [reflexivity|reflexivity|reflexivity|by vm_compute].
Defined.

Lemma createConfig_then_getConfig_witness :
  ∃ row,
    TwitchConfigController.createConfig Fixture.world
      (Scenario.submit "alice" "" "client-c" "top-secret") Fixture.db
    = (json 201
         [("message", JStr "Twitch configuration created successfully");
          ("config",
           TwitchConfigController.configJson
             (Prisma.new_id (twitchConfig Fixture.db)) row "top-secret")],
       {| twitchConfig :=
            <[Prisma.new_id (twitchConfig Fixture.db) := row]>
              (twitchConfig Fixture.db);
          savedToken := savedToken Fixture.db;
          webhook := webhook Fixture.db |})
    ∧ Encryption.decrypt ToyCrypto.nc ToyCrypto.env
        (TwitchConfig.clientSecret row) = Ok "top-secret".
Proof.
  destruct (createConfig_then_getConfig Fixture.world Fixture.world
              (Scenario.submit "alice" "" "client-c" "top-secret")
              (Scenario.submit "alice"
                 (Prisma.new_id (twitchConfig Fixture.db)) "" "")
              Fixture.db "client-c" "top-secret"
              (fixture_codec_ready _) eq_refl eq_refl eq_refl eq_refl eq_refl)
    as (row & Hcreate & _ & _ & _ & _ & Hdec & _).
  - intros id row Hrow Hu. rows Hrow; done.
  - reflexivity.
  - reflexivity.
  - reflexivity.
  - exists row. split; [exact Hcreate|exact Hdec].
Defined.

Lemma createConfig_conflict_witness :
  TwitchConfigController.createConfig Fixture.world
    (Scenario.submit "alice" "" "client-a" "top-secret") Fixture.db
  = (json 409
       [("error", JStr "Conflict");
        ("message",
         JStr "A configuration with this Client ID already exists")],
     Fixture.db).
Proof.
  apply (createConfig_conflict Fixture.world
           (Scenario.submit "alice" "" "client-a" "top-secret") Fixture.db
           "client-a" "cfg-a" Fixture.configA); reflexivity.
Defined.

Lemma deleteConfig_refused_while_in_use_witness :
  status (TwitchConfigController.deleteConfig Fixture.world
            (Fixture.request "alice" "cfg-a" "" "") Fixture.db).1 = 400%Z
  ∧ TwitchConfigController.deleteConfig Fixture.world
      (Fixture.request "alice" "cfg-b" "" "") Fixture.db
    = (json 200
         [("message", JStr "Twitch configuration deleted successfully")],
       {| twitchConfig := delete "cfg-b" (twitchConfig Fixture.db);
          savedToken := savedToken Fixture.db;
          webhook := webhook Fixture.db |}).
Proof.
  split.
  - destruct (deleteConfig_refused_while_in_use Fixture.world Fixture.world
                (Fixture.request "alice" "cfg-a" "" "") Fixture.db
                Fixture.configA eq_refl eq_refl eq_refl) as [Hused _].
    destruct Hused as (_ & _ & Hstatus & _); [|exact Hstatus].
    by exists "tok-a", (Fixture.appToken "cfg-a" "tok_a" 2000).
  - destruct (deleteConfig_refused_while_in_use Fixture.world Fixture.world
                (Fixture.request "alice" "cfg-b" "" "") Fixture.db
                Fixture.configB eq_refl eq_refl eq_refl) as [_ Hfree].
    destruct Hfree as [Hdel _]; [|exact Hdel].
    intros i token Htoken. rows Htoken; done.
Defined.

Lemma getAllConfigs_all_or_nothing_witness :
  ∃ items,
    TwitchConfigController.getAllConfigs Fixture.world
      (Fixture.request "alice" "" "" "") Fixture.db
    = (json 200 [("configs", JArr items)], Fixture.db)
    ∧ length items = 2.
Proof.
  destruct (getAllConfigs_all_or_nothing Fixture.world
              (Fixture.request "alice" "" "" "") Fixture.db) as [Hread _].
  destruct Hread as (items & Hrun & Hlen & _).
  - intros id cfg Hcfg Hu. rows Hcfg; try done; eexists; by vm_compute.
  - exists items. split; [exact Hrun|]. rewrite Hlen. by vm_compute.
Defined.

Lemma syncWebhooks_without_app_token_witness :
  WebhookController.syncWebhooks Fixture.world
    (Fixture.request "bob" "" "" "") Fixture.db
  = (TokenController.not_found
       "No app tokens found. Create an app token first to sync subscriptions.",
     Fixture.db).
Proof.
  apply (syncWebhooks_without_app_token Fixture.world
           (Fixture.request "bob" "" "" "") Fixture.db).
  intros id token Htoken Hu. rows Htoken; done.
Defined.

Lemma syncWebhooks_all_fetches_fail_witness :
  WebhookController.appTokens Fixture.db2 "alice" None
  = Ok [(Fixture.appToken "cfg-a" "tok_a" 2000, Fixture.configA);
        (Fixture.appToken "cfg-b" "tok_b" 2100, Fixture.configB)]
  ∧ WebhookController.syncWebhooks Scenario.grantingWorld
      (Fixture.request "alice" "" "" "") Fixture.db2
    = (json 200
         [("message", JStr "Webhooks synchronized successfully");
          ("imported", JNum 0); ("updated", JNum 0); ("removed", JNum 0);
          ("total", JNum 0); ("configsSynced", JStr "")],
       Fixture.db2).
Proof.
  assert (Htokens : WebhookController.appTokens Fixture.db2 "alice" None
                    = Ok [(Fixture.appToken "cfg-a" "tok_a" 2000,
                           Fixture.configA);
                          (Fixture.appToken "cfg-b" "tok_b" 2100,
                           Fixture.configB)])
    by (by vm_compute).
  split; [exact Htokens|].
  apply (syncWebhooks_all_fetches_fail Scenario.grantingWorld
           (Fixture.request "alice" "" "" "") Fixture.db2 _ Htokens);
    [done|].
  intros token remote _ (accessToken & _ & Hfetch). discriminate Hfetch.
Defined.

Lemma createWebhook_outcome_witness :
  WebhookController.createWebhook Scenario.grantingWorld
    (Fixture.request "alice" "tok-a" "" "") Fixture.db
  = (json 201
       [("message", JStr "EventSub subscription created successfully");
        ("webhook",
         WebhookController.webhookJson (Prisma.new_id (webhook Fixture.db))
           (imported_row 10000 "alice" (Fixture.subscription "sub-new")
              "https://example.org/hook"))],
     {| twitchConfig := twitchConfig Fixture.db;
        savedToken := savedToken Fixture.db;
        webhook :=
          <[Prisma.new_id (webhook Fixture.db) :=
              imported_row 10000 "alice" (Fixture.subscription "sub-new")
                "https://example.org/hook"]> (webhook Fixture.db) |}).
Proof.
  destruct (createWebhook_outcome Scenario.grantingWorld
              (Fixture.request "alice" "tok-a" "" "") Fixture.db
              (Fixture.appToken "cfg-a" "tok_a" 2000) Fixture.configA "tok_a"
              eq_refl eq_refl eq_refl eq_refl) as [Hgranted _].
  - by vm_compute.
  - destruct (Hgranted (Fixture.subscription "sub-new") eq_refl) as [Hnew _].
    apply Hnew. intros (id & row & Hrow & _). cbn in Hrow.
    by rewrite lookup_empty in Hrow.
Defined.

Lemma deleteWebhook_local_witness :
  (WebhookController.deleteWebhook Scenario.grantingWorld
     (Fixture.request "alice" "wh-1" "" "") Fixture.db3).2
  = {| twitchConfig := twitchConfig Fixture.db3;
       savedToken := savedToken Fixture.db3;
       webhook := delete "wh-1" (webhook Fixture.db3) |}.
Proof.
  destruct (deleteWebhook_local Scenario.grantingWorld Scenario.grantingWorld
              (Fixture.request "alice" "wh-1" "" "") Fixture.db3
              (default (imported_row 0 "" (Fixture.subscription "") "")
                 (webhook Fixture.db3 !! "wh-1"))) as [Hrun _].
  - apply (bool_decide_unpack _). by vm_compute.
  - reflexivity.
  - reflexivity.
  - by rewrite Hrun.
Defined.

Lemma reconcile_stops_at_unstorable_witness :
  is_Some (webhook
             (WebhookController.reconcile 10000 "alice" "App A"
                [Fixture.subscription "sub-a";
                 {| sub_id := "sub-ws"; sub_type := "channel.follow";
                    sub_condition := JNull; sub_callback := None;
                    sub_status := "enabled"; sub_cost := None |};
                 Fixture.subscription "sub-c"]
                Fixture.db3 WebhookController.zero).1
           !! "wh-1").
Proof.
  destruct (reconcile_stops_at_unstorable 10000 "alice" "App A"
              [Fixture.subscription "sub-a"] [Fixture.subscription "sub-c"]
              {| sub_id := "sub-ws"; sub_type := "channel.follow";
                 sub_condition := JNull; sub_callback := None;
                 sub_status := "enabled"; sub_cost := None |}
              Fixture.db3 WebhookController.zero) as (Hrun & _ & Hkeys).
  - apply (bool_decide_unpack _). by vm_compute.
  - reflexivity.
  - cbn [app] in Hrun. rewrite Hrun. apply Hkeys. by eexists.
Defined.

Lemma postRegister_creates_valid_accounts_witness :
  ∃ email password,
    auth_email (ToyAuth.credentials "alice@example.org" "secret1") = Some email
    ∧ auth_password (ToyAuth.credentials "alice@example.org" "secret1")
      = Some password
    ∧ Validators.isValidEmail email = true
    ∧ (6 ≤ String.length password)%nat.
Proof.
  destruct (postRegister_creates_valid_accounts ToyAuth.authWorld
              (ToyAuth.credentials "alice@example.org" "secret1") ToyAuth.users)
    as (email & password & He & Hp & Hv & Hl & _).
  - intros Heq.
    apply (f_equal (λ m : Users, m !! Prisma.new_id ToyAuth.users)) in Heq.
    by vm_compute in Heq.
  - by exists email, password.
Defined.

Lemma register_then_login_witness :
  status (AuthController.register ToyAuth.authWorld
            (ToyAuth.credentials "alice@example.org" "secret1") ToyAuth.users).1
  = 201%Z
  ∧ status (AuthController.login ToyAuth.authWorld
              (ToyAuth.credentials "alice@example.org" "secret1")
              (AuthController.register ToyAuth.authWorld
                 (ToyAuth.credentials "alice@example.org" "secret1")
                 ToyAuth.users).2).1
    = 200%Z
  ∧ status (AuthController.login ToyAuth.authWorld
              (ToyAuth.credentials "alice@example.org" "secret2")
              (AuthController.register ToyAuth.authWorld
                 (ToyAuth.credentials "alice@example.org" "secret1")
                 ToyAuth.users).2).1
    = 401%Z.
Proof.
  destruct (register_then_login ToyAuth.authWorld
              (ToyAuth.credentials "alice@example.org" "secret1")
              ToyAuth.users "alice@example.org" "secret1"
              (join "|" [Prisma.new_id ToyAuth.users; "alice@example.org";
                         "your-secret-key"; "7d"],
               join "|" [Prisma.new_id ToyAuth.users; "alice@example.org";
                         "your-secret-key"; "30d"])
              eq_refl ltac:(done) eq_refl ltac:(done))
    as (Hreg & _ & Hlogin & _).
  - intros id user Huser. rows Huser. done.
  - reflexivity.
  - rewrite Hreg. split; [reflexivity|]. cbn [snd]. split.
    + by rewrite (Hlogin ToyAuth.authWorld
                    (ToyAuth.credentials "alice@example.org" "secret1") "secret1"
                    _ eq_refl eq_refl ltac:(done) eq_refl).
    + by rewrite (Hlogin ToyAuth.authWorld
                    (ToyAuth.credentials "alice@example.org" "secret2") "secret2"
                    _ eq_refl eq_refl ltac:(done) eq_refl).
Defined.
